(** * Package readers and the RPM writer of rules_pkg: a shallow embedding

    The development follows the Python sources

      - [tools/lib/cpio_writer.py]          (class [CpioWriter]),
      - [contrib/tools/lib/rpm_writer.py]   (classes [RpmHeaderBuilder], [RpmWriter]),
      - [contrib/tools/lib/dmg_reader.py]   ([decompress_udif], [HfsPlusReader], [DmgReader]),
      - [contrib/tools/lib/pkg_reader.py]   ([parse_xar_header], [PkgReader]).

    Conventions of the embedding.

      - A Python [int] is a [Z]; nothing wraps around, and the places where the
        code depends on a width ([struct.pack], the [08X] format) are written out.
      - A Python [str] is held as the sequence of its UTF-8 code units
        ([list ascii]), a [bytes] value as [list byte]; [encode_utf8] is then the
        unit-by-unit copy.  The code never takes the length of a [str] nor slices
        one at a computed index, and every separator it looks for is ASCII, so
        the two views agree on all operations used.
      - An exception is a value of [exn]; code that may raise returns a [result].
      - Library calls the code makes but does not define (MD5, the compressors and
        decompressors, the clock, the XML and cpio readers) are fields of
        environment records and are quantified over.                        *)

From Stdlib Require Import ZArith List Bool Lia Permutation Sorted.
From Stdlib Require Import Ascii.
From Stdlib.Strings Require Import Byte.
From Stdlib Require String.
Import String.StringSyntax Ascii.AsciiSyntax.
Import ListNotations.
Delimit Scope string_scope with string.
Open Scope Z_scope.

(* ====================================================================== *)
(** * Part I.  Definitions                                                 *)
(* ====================================================================== *)

(** ** Python values and the library primitives the sources call *)

Module Py.

Definition str := list ascii.
Definition bytes := list byte.

Definition lit (s : String.string) : str := String.list_ascii_of_string s.
Arguments lit s%_string : simpl never.

(** [s.encode('utf-8')], under the convention above. *)
Definition encode_utf8 (s : str) : bytes := map byte_of_ascii s.

(** The byte with value [z mod 256]. *)
Definition byte_of_Z (z : Z) : byte :=
  byte_of_ascii (ascii_of_N (Z.to_N (z mod 256))).

Definition Z_of_byte (b : byte) : Z := Z.of_N (Byte.to_N b).

Definition NUL : byte := x00.

(** [b'\x00' * n]; a negative count gives the empty bytes object. *)
Definition zeros (n : Z) : bytes := repeat NUL (Z.to_nat n).

Definition len {A} (l : list A) : Z := Z.of_nat (length l).

(** *** Exceptions *)

Inductive exn : Type :=
| ValueError (msg : String.string)
| ImportError (msg : String.string)
| StructError
| CodecError
| OSError
| OverflowError
| MemoryError.
Arguments ValueError msg%_string.
Arguments ImportError msg%_string.

Inductive result (A : Type) : Type :=
| Ok (a : A)
| Raise (e : exn).
Arguments Ok {A} a.
Arguments Raise {A} e.

Definition bind {A B} (r : result A) (k : A -> result B) : result B :=
  match r with
  | Ok a => k a
  | Raise e => Raise e
  end.

Definition is_ok {A} (r : result A) : bool :=
  match r with Ok _ => true | Raise _ => false end.

(** *** Slices *)

(** Clamping of one slice bound, as [slice.indices] does. *)
Definition clamp (n i : Z) : Z :=
  if i <? 0 then Z.max 0 (i + n) else Z.min i n.

(** [l[i:j]]. *)
Definition slice {A} (l : list A) (i j : Z) : list A :=
  let a := clamp (len l) i in
  let b := clamp (len l) j in
  firstn (Z.to_nat (b - a)) (skipn (Z.to_nat a) l).

(** [l[:j]] and [l[i:]]. *)
Definition slice_to {A} (l : list A) (j : Z) : list A := slice l 0 j.
Definition slice_from {A} (l : list A) (i : Z) : list A := slice l i (len l).

(** [l[i:j] = data] on a [bytearray]: the slice is replaced, the array
    grows or shrinks as needed. *)
Definition slice_assign {A} (l : list A) (i j : Z) (data : list A) : list A :=
  let a := clamp (len l) i in
  let b := Z.max a (clamp (len l) j) in
  firstn (Z.to_nat a) l ++ data ++ skipn (Z.to_nat b) l.

(** *** [list.sort(key=...)]: a stable sort *)

Section StableSort.
Context {A K : Type} (key : A -> K) (leb : K -> K -> bool).

Fixpoint insert (x : A) (l : list A) : list A :=
  match l with
  | [] => [x]
  | y :: l' => if leb (key x) (key y) then x :: l else y :: insert x l'
  end.

Definition sort_by (l : list A) : list A := fold_right insert [] l.
End StableSort.

(** *** Comparison of strings, by code unit *)

Fixpoint str_compare (a b : str) : comparison :=
  match a, b with
  | [], [] => Eq
  | [], _ :: _ => Lt
  | _ :: _, [] => Gt
  | x :: a', y :: b' =>
      match Ascii.compare x y with
      | Eq => str_compare a' b'
      | c => c
      end
  end.

Definition str_leb (a b : str) : bool :=
  match str_compare a b with Gt => false | _ => true end.

Definition str_eqb (a b : str) : bool :=
  match str_compare a b with Eq => true | _ => false end.

(** Equality of two [bytes] objects. *)
Fixpoint bytes_eqb (a b : bytes) : bool :=
  match a, b with
  | [], [] => true
  | x :: a', y :: b' => Byte.eqb x y && bytes_eqb a' b'
  | _, _ => false
  end.

(** [s.endswith(suffix)] and [s.startswith(prefix)]. *)
Fixpoint startswith {A} (eqb : A -> A -> bool) (s prefix : list A) : bool :=
  match prefix, s with
  | [], _ => true
  | _ :: _, [] => false
  | p :: prefix', c :: s' => eqb c p && startswith eqb s' prefix'
  end.

Definition endswith (s suffix : str) : bool :=
  startswith Ascii.eqb (rev s) (rev suffix).

(** [sep.join(parts)]. *)
Fixpoint join (sep : str) (parts : list str) : str :=
  match parts with
  | [] => []
  | [p] => p
  | p :: rest => p ++ sep ++ join sep rest
  end.

(** *** [str.lstrip], [str.rstrip], [str.rfind] for a one-character argument *)

Fixpoint lstrip (c : ascii) (s : str) : str :=
  match s with
  | [] => []
  | x :: s' => if Ascii.eqb x c then lstrip c s' else s
  end.

Definition rstrip (c : ascii) (s : str) : str := rev (lstrip c (rev s)).

Fixpoint rfind_from (c : ascii) (s : str) (i last : Z) : Z :=
  match s with
  | [] => last
  | x :: s' => rfind_from c s' (i + 1) (if Ascii.eqb x c then i else last)
  end.

(** Index of the last occurrence of [c], or [-1]. *)
Definition rfind (c : ascii) (s : str) : Z := rfind_from c s 0 (-1).

(** *** [posixpath.dirname] and [posixpath.basename] *)

Definition sep : ascii := "/"%char.

Definition dirname (p : str) : str :=
  let i := rfind sep p + 1 in
  let head := slice_to p i in
  if negb (len head =? 0) && negb (forallb (Ascii.eqb sep) head)
  then rstrip sep head
  else head.

Definition basename (p : str) : str :=
  let i := rfind sep p + 1 in
  slice_from p i.

(** *** The format specification [08X] *)

Definition hex_digit (d : Z) : ascii :=
  nth (Z.to_nat d) (lit "0123456789ABCDEF") "0"%char.

Fixpoint hex_digits (fuel : nat) (n : Z) (acc : str) : str :=
  match fuel with
  | O => acc
  | S fuel' =>
      let acc' := hex_digit (n mod 16) :: acc in
      if n / 16 =? 0 then acc' else hex_digits fuel' (n / 16) acc'
  end.

(** Upper-case hexadecimal digits of [n >= 0], without leading zeros. *)
Definition hex_upper (n : Z) : str :=
  hex_digits (S (Z.to_nat (Z.log2 n))) n [].

Definition zfill (width : nat) (s : str) : str :=
  repeat "0"%char (width - length s) ++ s.

(** [f"{x:08X}"]: at least eight characters, the sign first when [x < 0]. *)
Definition fmt_08X (x : Z) : str :=
  if x <? 0 then "-"%char :: zfill 7 (hex_upper (- x))
  else zfill 8 (hex_upper x).

(** *** [struct.pack] and [struct.unpack_from], big-endian unsigned *)

Definition be_bytes (n : nat) (v : Z) : bytes :=
  map (fun k => byte_of_Z (Z.shiftr v (8 * Z.of_nat k))) (rev (seq 0 n)).

Definition pack_uint (n : nat) (v : Z) : result bytes :=
  if (0 <=? v) && (v <? 2 ^ (8 * Z.of_nat n))
  then Ok (be_bytes n v)
  else Raise StructError.

Definition pack_B := pack_uint 1.
Definition pack_H := pack_uint 2.
Definition pack_I := pack_uint 4.

Definition be_value (l : bytes) : Z :=
  fold_left (fun acc b => acc * 256 + Z_of_byte b) l 0.

Definition unpack_uint (n : nat) (data : bytes) (off : Z) : result Z :=
  if (0 <=? off) && (off + Z.of_nat n <=? len data)
  then Ok (be_value (slice data off (off + Z.of_nat n)))
  else Raise StructError.

Definition unpack_H := unpack_uint 2.
Definition unpack_I := unpack_uint 4.
Definition unpack_Q := unpack_uint 8.

End Py.

Declare Scope py_scope.
Notation "x <- e ;; k" := (Py.bind e (fun x => k))
  (at level 61, e at next level, right associativity) : py_scope.
Notation "' p <- e ;; k" := (Py.bind e (fun p => k))
  (at level 61, p pattern, e at next level, right associativity) : py_scope.
Open Scope py_scope.

(** ** [CpioWriter]  (tools/lib/cpio_writer.py) *)

Module CpioWriter.
Import Py.

(** Constants of the [stat] module. *)
Definition S_IFMT  : Z := 61440.   (* 0o170000 *)
Definition S_IFREG : Z := 32768.   (* 0o100000 *)
Definition S_IFDIR : Z := 16384.   (* 0o040000 *)
Definition S_IFLNK : Z := 40960.   (* 0o120000 *)

(** The writer object: the bytes written to [self.stream] so far, and the
    inode counter [self._inode]. *)
Record t : Type := mk { stream : bytes; _inode : Z }.

Definition MAGIC : str := lit "070701".

(** [CpioWriter(stream)]. *)
Definition __init__ (stream0 : bytes) : t :=
  {| stream := stream0; _inode := 1 |}.

(** [self.stream.write(data)]. *)
Definition write (w : t) (data : bytes) : t :=
  {| stream := stream w ++ data; _inode := _inode w |}.

Definition _pad_to_4 (size : Z) : Z := (4 - (size mod 4)) mod 4.

(** The thirteen formatted fields after the magic, in header order. *)
Definition header_text (inode mode uid gid nlink mtime filesize
                        devmajor devminor rdevmajor rdevminor namesize : Z) : str :=
  lit "070701"
  ++ fmt_08X inode
  ++ fmt_08X mode
  ++ fmt_08X uid
  ++ fmt_08X gid
  ++ fmt_08X nlink
  ++ fmt_08X mtime
  ++ fmt_08X filesize
  ++ fmt_08X devmajor
  ++ fmt_08X devminor
  ++ fmt_08X rdevmajor
  ++ fmt_08X rdevminor
  ++ fmt_08X namesize
  ++ fmt_08X 0.

(** [_write_header]; the returned [filesize] is not used by any caller and
    is left out. *)
Definition _write_header (w : t) (path : str)
    (mode uid gid nlink mtime filesize devmajor devminor rdevmajor rdevminor : Z) : t :=
  let path_bytes := encode_utf8 path ++ [NUL] in
  let namesize := len path_bytes in
  let header := header_text (_inode w) mode uid gid nlink mtime filesize
                            devmajor devminor rdevmajor rdevminor namesize in
  let w := write w (encode_utf8 header) in
  let w := {| stream := stream w; _inode := _inode w + 1 |} in
  let w := write w path_bytes in
  let header_plus_name := 110 + namesize in
  let padding := _pad_to_4 header_plus_name in
  if padding =? 0 then w else write w (zeros padding).

(** The [content] argument of [add_file]: [bytes], or a [str] that is encoded. *)
Inductive content : Type :=
| Bytes (b : bytes)
| Str (s : str).

Definition content_bytes (c : content) : bytes :=
  match c with
  | Bytes b => b
  | Str s => encode_utf8 s
  end.

Definition add_file (w : t) (path : str) (c : content) (mode uid gid mtime : Z) : t :=
  let content := content_bytes c in
  let mode := if Z.land mode 61440 =? 0 then Z.lor mode S_IFREG else mode in
  let filesize := len content in
  let w := _write_header w path mode uid gid 1 mtime filesize 0 0 0 0 in
  let w := write w content in
  let padding := _pad_to_4 filesize in
  if padding =? 0 then w else write w (zeros padding).

Definition add_directory (w : t) (path : str) (mode uid gid mtime : Z) : t :=
  let mode := if Z.land mode 61440 =? 0 then Z.lor mode S_IFDIR else mode in
  _write_header w path mode uid gid 2 mtime 0 0 0 0 0.

Definition add_symlink (w : t) (path target : str) (mode uid gid mtime : Z) : t :=
  let target_bytes := encode_utf8 target in
  let mode := if Z.land mode 61440 =? 0 then Z.lor mode S_IFLNK else mode in
  let w := _write_header w path mode uid gid 1 mtime (len target_bytes) 0 0 0 0 in
  let w := write w target_bytes in
  let padding := _pad_to_4 (len target_bytes) in
  if padding =? 0 then w else write w (zeros padding).

Definition finish (w : t) : t :=
  _write_header w (lit "TRAILER!!!") 0 0 0 1 0 0 0 0 0 0.

(** A call made on the writer, and a sequence of calls run in order. *)
Inductive call : Type :=
| AddFile (path : str) (c : content) (mode uid gid mtime : Z)
| AddDirectory (path : str) (mode uid gid mtime : Z)
| AddSymlink (path target : str) (mode uid gid mtime : Z).

Definition do_call (w : t) (c : call) : t :=
  match c with
  | AddFile p c m u g t => add_file w p c m u g t
  | AddDirectory p m u g t => add_directory w p m u g t
  | AddSymlink p tg m u g t => add_symlink w p tg m u g t
  end.

Definition run (calls : list call) (w : t) : t := fold_left do_call calls w.

(** The bytes of an archive made by [calls] followed by [finish()]. *)
Definition archive (calls : list call) : bytes :=
  stream (finish (run calls (__init__ []))).

End CpioWriter.

(** ** [RpmHeaderBuilder]  (contrib/tools/lib/rpm_writer.py) *)

Module RpmHeaderBuilder.
Import Py.

(** Header tag types. *)
Definition HEADER_NULL : Z := 0.
Definition HEADER_CHAR : Z := 1.
Definition HEADER_INT8 : Z := 2.
Definition HEADER_INT16 : Z := 3.
Definition HEADER_INT32 : Z := 4.
Definition HEADER_INT64 : Z := 5.
Definition HEADER_STRING : Z := 6.
Definition HEADER_BIN : Z := 7.
Definition HEADER_STRING_ARRAY : Z := 8.
Definition HEADER_I18NSTRING : Z := 9.

Definition RPM_HEADER_MAGIC : bytes := [x8e; xad; xe8].
Definition RPM_HEADER_VERSION : Z := 1.

(** The data of an entry [(tag, type, data)], by its type.  The [add_*]
    methods make every kind but [Int64], for which the class has no method;
    an [Int64] entry can only be appended to [entries] directly. *)
Inductive value : Type :=
| Int16 (data : list Z)
| Int32 (data : list Z)
| Int64 (data : list Z)
| String_ (data : str)
| StringArray (data : list str)
| I18NString (data : str)
| Bin (data : bytes).

Definition dtype (v : value) : Z :=
  match v with
  | Int16 _ => HEADER_INT16
  | Int32 _ => HEADER_INT32
  | Int64 _ => HEADER_INT64
  | String_ _ => HEADER_STRING
  | StringArray _ => HEADER_STRING_ARRAY
  | I18NString _ => HEADER_I18NSTRING
  | Bin _ => HEADER_BIN
  end.

(** [self.entries]. *)
Definition entry : Type := Z * value.
Definition t : Type := list entry.

Definition __init__ : t := [].

(** An integer argument: one [int], or a list of them. *)
Inductive ints : Type :=
| One (v : Z)
| Many (vs : list Z).

Definition as_list (values : ints) : list Z :=
  match values with
  | One v => [v]
  | Many vs => vs
  end.

Definition add_int32 (h : t) (tag : Z) (values : ints) : t :=
  h ++ [(tag, Int32 (as_list values))].
Definition add_int16 (h : t) (tag : Z) (values : ints) : t :=
  h ++ [(tag, Int16 (as_list values))].
Definition add_string (h : t) (tag : Z) (value : str) : t :=
  h ++ [(tag, String_ value)].
Definition add_string_array (h : t) (tag : Z) (values : list str) : t :=
  h ++ [(tag, StringArray values)].
Definition add_bin (h : t) (tag : Z) (data : bytes) : t :=
  h ++ [(tag, Bin data)].
Definition add_i18n_string (h : t) (tag : Z) (value : str) : t :=
  h ++ [(tag, I18NString value)].

(** [while data_store.tell() % n: data_store.write(b'\x00')]; the loop
    runs fewer than [n] times, which is the fuel given by [align]. *)
Fixpoint pad_while (fuel : nat) (n : Z) (store : bytes) : bytes :=
  match fuel with
  | O => store
  | S fuel' =>
      if len store mod n =? 0 then store
      else pad_while fuel' n (store ++ [NUL])
  end.

Definition align (n : Z) (store : bytes) : bytes :=
  pad_while (Z.to_nat n) n store.

(** [for v in data: data_store.write(struct.pack(fmt, v))]. *)
Fixpoint write_ints (pack : Z -> result bytes) (data : list Z) (store : bytes)
  : result bytes :=
  match data with
  | [] => Ok store
  | v :: data' => b <- pack v ;; write_ints pack data' (store ++ b)
  end.

(** [for s in data: data_store.write(s.encode('utf-8') + b'\x00')]. *)
Fixpoint write_strings (data : list str) (store : bytes) : bytes :=
  match data with
  | [] => store
  | s :: data' => write_strings data' (store ++ encode_utf8 s ++ [NUL])
  end.

(** An index entry [(tag, dtype, offset, count)]. *)
Definition index_entry : Type := Z * Z * Z * Z.

(** The body of the loop over the entries: alignment, then emission. *)
Definition emit (v : value) (store : bytes) : result (Z * Z * bytes) :=
  let store :=
    match v with
    | Int16 _ => align 2 store
    | Int32 _ | Int64 _ => align 4 store
    | _ => store
    end in
  let offset := len store in
  match v with
  | Int16 data =>
      s <- write_ints pack_H data store ;; Ok (offset, len data, s)
  | Int32 data =>
      s <- write_ints pack_I data store ;; Ok (offset, len data, s)
  | String_ data =>
      Ok (offset, 1, store ++ encode_utf8 data ++ [NUL])
  | StringArray data =>
      Ok (offset, len data, write_strings data store)
  | I18NString data =>
      Ok (offset, 1, store ++ encode_utf8 data ++ [NUL])
  | Bin data =>
      Ok (offset, len data, store ++ data)
  | Int64 _ =>
      Raise (ValueError "Unsupported header type")
  end.

Fixpoint build_store (es : list entry) (store : bytes) (index : list index_entry)
  : result (list index_entry * bytes) :=
  match es with
  | [] => Ok (index, store)
  | (tag, v) :: es' =>
      '(offset, count, store') <- emit v store ;;
      build_store es' store' (index ++ [(tag, dtype v, offset, count)])
  end.

(** The four [struct.pack(">I", ...)] of one index entry. *)
Definition pack_index_entry (e : index_entry) : result bytes :=
  let '(tag, dtype, offset, count) := e in
  a <- pack_I tag ;;
  b <- pack_I dtype ;;
  c <- pack_I offset ;;
  d <- pack_I count ;;
  Ok (a ++ b ++ c ++ d).

Fixpoint pack_index (index : list index_entry) (header : bytes) : result bytes :=
  match index with
  | [] => Ok header
  | e :: index' => b <- pack_index_entry e ;; pack_index index' (header ++ b)
  end.

(** [self.entries.sort(key=lambda x: x[0])]. *)
Definition sorted_entries (h : t) : t := sort_by (@fst Z value) Z.leb h.

(** [build]: the header section, magic and index included. *)
Definition build (h : t) : result bytes :=
  let entries := sorted_entries h in
  '(index_entries, data_store) <- build_store entries [] [] ;;
  let header := RPM_HEADER_MAGIC in
  v <- pack_B RPM_HEADER_VERSION ;;
  let header := header ++ v in
  let header := header ++ zeros 4 in
  n <- pack_I (len index_entries) ;;
  let header := header ++ n in
  d <- pack_I (len data_store) ;;
  let header := header ++ d in
  header <- pack_index index_entries header ;;
  Ok (header ++ data_store).

End RpmHeaderBuilder.

(** ** The emission rules of the header codec, as the specification words them *)

Module HeaderLayout.
Import Py.
Import RpmHeaderBuilder.

(** "Before appending a value, pad the data store: INT16 to 2-byte,
    INT32/INT64 to 4-byte; others unaligned." *)
Definition alignment (v : value) : Z :=
  match v with
  | Int16 _ => 2
  | Int32 _ | Int64 _ => 4
  | _ => 1
  end.

(** The least number of bytes that brings offset [o] to a multiple of [n]. *)
Definition padding (n o : Z) : Z := (n - o mod n) mod n.

(** "count = element count for arrays and INT*; count = 1 for STRING and
    I18NSTRING; count = byte_len for BIN." *)
Definition count_of (v : value) : Z :=
  match v with
  | Int16 data | Int32 data | Int64 data => len data
  | String_ _ | I18NString _ => 1
  | StringArray data => len data
  | Bin data => len data
  end.

(** The bytes of a value: big-endian integers of the width of the type,
    "strings are NUL-terminated UTF-8", binary data as it is. *)
Definition encoded (v : value) : bytes :=
  match v with
  | Int16 data => flat_map (be_bytes 2) data
  | Int32 data => flat_map (be_bytes 4) data
  | Int64 data => flat_map (be_bytes 8) data
  | String_ s | I18NString s => encode_utf8 s ++ [NUL]
  | StringArray data => flat_map (fun s => encode_utf8 s ++ [NUL]) data
  | Bin data => data
  end.

(** The layout of entries from offset [o] on: each index entry has the
    type, the aligned offset and the count of its value, and the store
    holds the padding and then the bytes of each value in turn. *)
Inductive laid_out : list entry -> Z -> list index_entry -> bytes -> Prop :=
| laid_nil (o : Z) : laid_out [] o [] []
| laid_cons (tag : Z) (v : value) (es : list entry) (o : Z)
            (index : list index_entry) (rest : bytes) :
    laid_out es (o + padding (alignment v) o + len (encoded v)) index rest ->
    laid_out ((tag, v) :: es) o
             ((tag, dtype v, o + padding (alignment v) o, count_of v) :: index)
             (zeros (padding (alignment v) o) ++ encoded v ++ rest).

(** The tag of an index entry. *)
Definition tag_of (e : index_entry) : Z := fst (fst (fst e)).

(** The sixteen bytes of an index entry. *)
Definition index_bytes (e : index_entry) : bytes :=
  let '(tag, ty, offset, count) := e in
  be_bytes 4 tag ++ be_bytes 4 ty ++ be_bytes 4 offset ++ be_bytes 4 count.

(** The header section: magic, version, four reserved bytes, the two
    counts, the index, the data store. *)
Definition section (index : list index_entry) (store : bytes) : bytes :=
  RPM_HEADER_MAGIC ++ [x01] ++ zeros 4
  ++ be_bytes 4 (len index) ++ be_bytes 4 (len store)
  ++ flat_map index_bytes index ++ store.

(** The values the builder can emit: integers that fit their width, and
    no INT64, for which [build] has no case. *)
Definition emittable (v : value) : Prop :=
  match v with
  | Int16 data => Forall (fun x => 0 <= x < 2 ^ 16) data
  | Int32 data => Forall (fun x => 0 <= x < 2 ^ 32) data
  | Int64 _ => False
  | _ => True
  end.

(** What stops the emission of a value: an INT64 value has no case in
    [build], which raises [ValueError]; an integer outside the width of its
    type cannot be packed, which raises [struct.error]. *)
Definition in_width (bits x : Z) : bool := (0 <=? x) && (x <? 2 ^ bits).

Definition rejection (v : value) : option exn :=
  match v with
  | Int16 data => if forallb (in_width 16) data then None else Some StructError
  | Int32 data => if forallb (in_width 32) data then None else Some StructError
  | Int64 _ => Some (ValueError "Unsupported header type")
  | _ => None
  end.

(** The rejection of the first entry that has one, the entries being taken
    in order. *)
Fixpoint first_rejection (es : list entry) : option exn :=
  match es with
  | [] => None
  | (_, v) :: es' =>
      match rejection v with
      | Some e => Some e
      | None => first_rejection es'
      end
  end.

End HeaderLayout.

(** ** [RpmWriter]  (contrib/tools/lib/rpm_writer.py) *)

Module RpmWriter.
Import Py.
Import RpmHeaderBuilder.

Definition RPM_MAGIC : bytes := [xed; xab; xee; xdb].
Definition RPM_MAJOR : Z := 3.
Definition RPM_MINOR : Z := 0.
Definition RPM_TYPE_BINARY : Z := 0.

(** Signature tags. *)
Definition SIGTAG_SIZE : Z := 1000.
Definition SIGTAG_MD5 : Z := 1004.
Definition SIGTAG_PAYLOADSIZE : Z := 1007.

(** Header tags. *)
Definition RPMTAG_NAME : Z := 1000.
Definition RPMTAG_VERSION : Z := 1001.
Definition RPMTAG_RELEASE : Z := 1002.
Definition RPMTAG_SUMMARY : Z := 1004.
Definition RPMTAG_DESCRIPTION : Z := 1005.
Definition RPMTAG_BUILDTIME : Z := 1006.
Definition RPMTAG_BUILDHOST : Z := 1007.
Definition RPMTAG_SIZE : Z := 1009.
Definition RPMTAG_LICENSE : Z := 1014.
Definition RPMTAG_GROUP : Z := 1016.
Definition RPMTAG_OS : Z := 1021.
Definition RPMTAG_ARCH : Z := 1022.
Definition RPMTAG_FILESIZES : Z := 1028.
Definition RPMTAG_FILEMODES : Z := 1030.
Definition RPMTAG_FILERDEVS : Z := 1033.
Definition RPMTAG_FILEMTIMES : Z := 1034.
Definition RPMTAG_FILEMD5S : Z := 1035.
Definition RPMTAG_FILELINKTOS : Z := 1036.
Definition RPMTAG_FILEFLAGS : Z := 1037.
Definition RPMTAG_FILEUSERNAME : Z := 1039.
Definition RPMTAG_FILEGROUPNAME : Z := 1040.
Definition RPMTAG_SOURCERPM : Z := 1044.
Definition RPMTAG_FILEVERIFYFLAGS : Z := 1045.
Definition RPMTAG_RPMVERSION : Z := 1064.
Definition RPMTAG_FILEDEVICES : Z := 1095.
Definition RPMTAG_FILEINODES : Z := 1096.
Definition RPMTAG_FILELANGS : Z := 1097.
Definition RPMTAG_DIRINDEXES : Z := 1116.
Definition RPMTAG_BASENAMES : Z := 1117.
Definition RPMTAG_DIRNAMES : Z := 1118.
Definition RPMTAG_PAYLOADFORMAT : Z := 1124.
Definition RPMTAG_PAYLOADCOMPRESSOR : Z := 1125.
Definition RPMTAG_PAYLOADFLAGS : Z := 1126.

(** What the module takes from the Python library: [hashlib.md5(b).digest()],
    the three compressors at level 9, and [int(time.time())], given as the
    value returned at the [k]-th call made while one header is built.
    [gzip.compress] writes the time of its call into the header of its
    output: it is given as a function of that time and of the data, and
    [gzip_mtime] is the time that the call made by [_compress_payload]
    reads. *)
Record Env : Type := {
  md5 : bytes -> bytes;
  gzip_compress : Z -> bytes -> bytes;
  gzip_mtime : Z;
  lzma_compress : bytes -> bytes;
  bz2_compress : bytes -> bytes;
  time : nat -> Z
}.

Definition hex_lower_digit (d : Z) : ascii :=
  nth (Z.to_nat d) (lit "0123456789abcdef") "0"%char.

(** [bytes.hex()]: two lower-case digits for each byte. *)
Definition hex (b : bytes) : str :=
  flat_map (fun x => [hex_lower_digit (Z_of_byte x / 16);
                      hex_lower_digit (Z_of_byte x mod 16)]) b.

(** [hashlib.md5(b).hexdigest()]. *)
Definition md5_hexdigest (env : Env) (b : bytes) : str := hex (md5 env b).

(** One element of [self.files]. *)
Record file : Type := {
  path : str;
  content : bytes;
  mode : Z;
  uid : Z;
  gid : Z;
  user : str;
  f_group : str;
  is_dir : bool;
  is_symlink : bool;
  target : option str
}.

Record t : Type := {
  name : str;
  version : str;
  release : str;
  arch : str;
  os_name : str;
  summary : str;
  description : str;
  license : str;
  group : str;
  compression : str;
  files : list file
}.

(** [x or y] for an optional string: [y] when [x] is [None] or empty. *)
Definition or_else (x : option str) (y : str) : str :=
  match x with
  | Some (c :: r) => c :: r
  | _ => y
  end.

Definition __init__ (name version release arch os_name : str)
    (summary description : option str) (license_text group compression : str) : t :=
  let summary := or_else summary name in
  {| name := name; version := version; release := release; arch := arch;
     os_name := os_name; summary := summary;
     description := or_else description summary;
     license := license_text; group := group; compression := compression;
     files := [] |}.

Definition append_file (w : t) (f : file) : t :=
  {| name := name w; version := version w; release := release w;
     arch := arch w; os_name := os_name w; summary := summary w;
     description := description w; license := license w; group := group w;
     compression := compression w; files := files w ++ [f] |}.

Definition add_file (w : t) (path : str) (c : CpioWriter.content)
    (mode uid gid : Z) (user group : str) : t :=
  let content := CpioWriter.content_bytes c in
  let mode := if Z.land mode 61440 =? 0 then Z.lor mode CpioWriter.S_IFREG else mode in
  append_file w {| path := path; content := content; mode := mode; uid := uid;
                   gid := gid; user := user; f_group := group;
                   is_dir := false; is_symlink := false; target := None |}.

Definition add_directory (w : t) (path : str) (mode uid gid : Z) (user group : str) : t :=
  let mode := if Z.land mode 61440 =? 0 then Z.lor mode CpioWriter.S_IFDIR else mode in
  append_file w {| path := path; content := []; mode := mode; uid := uid;
                   gid := gid; user := user; f_group := group;
                   is_dir := true; is_symlink := false; target := None |}.

Definition add_symlink (w : t) (path target : str) (mode uid gid : Z)
    (user group : str) : t :=
  let mode := if Z.land mode 61440 =? 0 then Z.lor mode CpioWriter.S_IFLNK else mode in
  append_file w {| path := path; content := []; mode := mode; uid := uid;
                   gid := gid; user := user; f_group := group;
                   is_dir := false; is_symlink := true; target := Some target |}.

(** [_build_lead]; the closing [assert lead.tell() == 96] is the theorem
    [lead_length] below. *)
Definition _build_lead (w : t) : result bytes :=
  let lead := RPM_MAGIC in
  a <- pack_B RPM_MAJOR ;;
  b <- pack_B RPM_MINOR ;;
  let lead := lead ++ a ++ b in
  ty <- pack_H RPM_TYPE_BINARY ;;
  let lead := lead ++ ty in
  let arch_num :=
    if str_eqb (arch w) (lit "x86_64") then 1
    else if str_eqb (arch w) (lit "i386") || str_eqb (arch w) (lit "i686") then 1
    else 0 in
  an <- pack_H arch_num ;;
  let lead := lead ++ an in
  let name_bytes :=
    slice_to (encode_utf8 (name w ++ lit "-" ++ version w ++ lit "-" ++ release w)) 65 in
  let lead := lead ++ name_bytes ++ zeros (66 - len name_bytes) in
  os <- pack_H 1 ;;
  let lead := lead ++ os in
  st <- pack_H 5 ;;
  let lead := lead ++ st in
  Ok (lead ++ zeros 16).

Definition _build_signature (env : Env) (header_bytes payload_bytes : bytes)
  : result bytes :=
  let sig := RpmHeaderBuilder.__init__ in
  let combined := header_bytes ++ payload_bytes in
  let sig := add_int32 sig SIGTAG_SIZE (One (len combined)) in
  let md5_hash := md5 env combined in
  let sig := add_bin sig SIGTAG_MD5 md5_hash in
  let sig := add_int32 sig SIGTAG_PAYLOADSIZE (One (len payload_bytes)) in
  sig_bytes <- build sig ;;
  let padding := (8 - (len sig_bytes mod 8)) mod 8 in
  Ok (sig_bytes ++ zeros padding).

(** The lists filled by the loop over [self.files] in [_build_header]. *)
Record arrays : Type := {
  dirs : list (str * Z);
  dir_list : list str;
  basenames : list str;
  dirindexes : list Z;
  sizes : list Z;
  modes : list Z;
  rdevs : list Z;
  mtimes : list Z;
  md5s : list str;
  linktos : list str;
  flags : list Z;
  users : list str;
  groups : list str;
  devices : list Z;
  inodes : list Z;
  langs : list str;
  verifyflags : list Z
}.

Definition no_arrays : arrays :=
  {| dirs := []; dir_list := []; basenames := []; dirindexes := []; sizes := [];
     modes := []; rdevs := []; mtimes := []; md5s := []; linktos := [];
     flags := []; users := []; groups := []; devices := []; inodes := [];
     langs := []; verifyflags := [] |}.

(** [dirs[k]] for a key known to be present, and [k in dirs]. *)
Fixpoint dict_get (dirs : list (str * Z)) (k : str) : option Z :=
  match dirs with
  | [] => None
  | (k', v) :: rest => if str_eqb k' k then Some v else dict_get rest k
  end.

(** The directory entry of a file: ["/" + dirname + "/"], or ["/"]. *)
Definition file_dirname (f : file) : str :=
  let path := lstrip sep (path f) in
  let dirname := dirname path in
  match dirname with
  | [] => lit "/"
  | _ => lit "/" ++ dirname ++ lit "/"
  end.

Definition file_basename (f : file) : str :=
  basename (lstrip sep (path f)).

(** [f['target']] where a string is expected; [add_symlink] is the only
    method that sets [is_symlink], and it stores a string. *)
Definition target_str (f : file) : str :=
  match target f with
  | Some s => s
  | None => []
  end.

(** One iteration of [for i, f in enumerate(self.files)]; the call of
    [time.time()] made by iteration [i] is call number [i + 1], the first
    one being that of [BUILDTIME]. *)
Definition step (env : Env) (a : arrays) (i : nat) (f : file) : arrays :=
  let dirname := file_dirname f in
  let basename := file_basename f in
  (* if dirname not in dirs: dirs[dirname] = len(dir_list); dir_list.append(dirname) *)
  let is_new := match dict_get (dirs a) dirname with Some _ => false | None => true end in
  let dirs' := if is_new then dirs a ++ [(dirname, len (dir_list a))] else dirs a in
  let dir_list' := if is_new then dir_list a ++ [dirname] else dir_list a in
  (* dirs[dirname] *)
  let dirindex := match dict_get dirs' dirname with Some k => k | None => 0 end in
  let md5' :=
    if is_symlink f then []
    else if is_dir f then []
    else md5_hexdigest env (content f) in
  let linkto' :=
    if is_symlink f then target_str f
    else if is_dir f then []
    else [] in
  {| dirs := dirs';
     dir_list := dir_list';
     basenames := basenames a ++ [basename];
     dirindexes := dirindexes a ++ [dirindex];
     sizes := sizes a ++ [len (content f)];
     modes := modes a ++ [mode f];
     rdevs := rdevs a ++ [0];
     mtimes := mtimes a ++ [time env (S i)];
     md5s := md5s a ++ [md5'];
     linktos := linktos a ++ [linkto'];
     flags := flags a ++ [0];
     users := users a ++ [user f];
     groups := groups a ++ [f_group f];
     devices := devices a ++ [1];
     inodes := inodes a ++ [Z.of_nat i + 1];
     langs := langs a ++ [[]];
     verifyflags := verifyflags a ++ [4294967295] |}.

Fixpoint loop (env : Env) (a : arrays) (i : nat) (fs : list file) : arrays :=
  match fs with
  | [] => a
  | f :: fs' => loop env (step env a i f) (S i) fs'
  end.

Definition file_arrays (env : Env) (w : t) : arrays := loop env no_arrays 0 (files w).

Fixpoint sum (l : list Z) : Z :=
  match l with
  | [] => 0
  | x :: l' => x + sum l'
  end.

(** The entries added to [hdr] by [_build_header], in the order added. *)
Definition header_entries (env : Env) (w : t) : RpmHeaderBuilder.t :=
  let hdr := RpmHeaderBuilder.__init__ in
  let hdr := add_string hdr RPMTAG_NAME (name w) in
  let hdr := add_string hdr RPMTAG_VERSION (version w) in
  let hdr := add_string hdr RPMTAG_RELEASE (release w) in
  let hdr := add_i18n_string hdr RPMTAG_SUMMARY (summary w) in
  let hdr := add_i18n_string hdr RPMTAG_DESCRIPTION (description w) in
  let hdr := add_int32 hdr RPMTAG_BUILDTIME (One (time env 0)) in
  let hdr := add_string hdr RPMTAG_BUILDHOST (lit "localhost") in
  let hdr := add_string hdr RPMTAG_LICENSE (license w) in
  let hdr := add_i18n_string hdr RPMTAG_GROUP (group w) in
  let hdr := add_string hdr RPMTAG_OS (os_name w) in
  let hdr := add_string hdr RPMTAG_ARCH (arch w) in
  let hdr := add_string hdr RPMTAG_SOURCERPM
               (name w ++ lit "-" ++ version w ++ lit "-" ++ release w ++ lit ".src.rpm") in
  let hdr := add_string hdr RPMTAG_RPMVERSION (lit "4.0") in
  let hdr := add_string hdr RPMTAG_PAYLOADFORMAT (lit "cpio") in
  let hdr := add_string hdr RPMTAG_PAYLOADCOMPRESSOR
               (if negb (str_eqb (compression w) (lit "none"))
                then compression w else lit "gzip") in
  let hdr := add_string hdr RPMTAG_PAYLOADFLAGS (lit "9") in
  match files w with
  | [] => hdr
  | _ :: _ =>
      let a := file_arrays env w in
      let hdr := add_string_array hdr RPMTAG_DIRNAMES (dir_list a) in
      let hdr := add_string_array hdr RPMTAG_BASENAMES (basenames a) in
      let hdr := add_int32 hdr RPMTAG_DIRINDEXES (Many (dirindexes a)) in
      let hdr := add_int32 hdr RPMTAG_FILESIZES (Many (sizes a)) in
      let hdr := add_int16 hdr RPMTAG_FILEMODES (Many (modes a)) in
      let hdr := add_int16 hdr RPMTAG_FILERDEVS (Many (rdevs a)) in
      let hdr := add_int32 hdr RPMTAG_FILEMTIMES (Many (mtimes a)) in
      let hdr := add_string_array hdr RPMTAG_FILEMD5S (md5s a) in
      let hdr := add_string_array hdr RPMTAG_FILELINKTOS (linktos a) in
      let hdr := add_int32 hdr RPMTAG_FILEFLAGS (Many (flags a)) in
      let hdr := add_string_array hdr RPMTAG_FILEUSERNAME (users a) in
      let hdr := add_string_array hdr RPMTAG_FILEGROUPNAME (groups a) in
      let hdr := add_int32 hdr RPMTAG_FILEDEVICES (Many (devices a)) in
      let hdr := add_int32 hdr RPMTAG_FILEINODES (Many (inodes a)) in
      let hdr := add_string_array hdr RPMTAG_FILELANGS (langs a) in
      let hdr := add_int32 hdr RPMTAG_FILEVERIFYFLAGS (Many (verifyflags a)) in
      let total_size := sum (sizes a) in
      add_int32 hdr RPMTAG_SIZE (One total_size)
  end.

Definition _build_header (env : Env) (w : t) : result bytes :=
  build (header_entries env w).

(** [_build_cpio_payload], on a [CpioWriter] over an empty [BytesIO]; the
    writer's [mtime] keeps its default [0]. *)
Definition cpio_call (f : file) : CpioWriter.call :=
  let path := lstrip sep (path f) in
  if is_symlink f then
    CpioWriter.AddSymlink path (target_str f) (mode f) (uid f) (gid f) 0
  else if is_dir f then
    CpioWriter.AddDirectory path (mode f) (uid f) (gid f) 0
  else
    CpioWriter.AddFile path (CpioWriter.Bytes (content f)) (mode f) (uid f) (gid f) 0.

Definition _build_cpio_payload (w : t) : bytes :=
  CpioWriter.archive (map cpio_call (files w)).

Definition _compress_payload (env : Env) (w : t) (data : bytes) : result bytes :=
  if str_eqb (compression w) (lit "none") then Ok data
  else if str_eqb (compression w) (lit "gzip")
  then Ok (gzip_compress env (gzip_mtime env) data)
  else if str_eqb (compression w) (lit "xz") then Ok (lzma_compress env data)
  else if str_eqb (compression w) (lit "bzip2") then Ok (bz2_compress env data)
  else Raise (ValueError "Unknown compression").

(** The four parts that [write] puts in the file, in that order. *)
Record parts : Type := {
  p_lead : bytes;
  p_signature : bytes;
  p_header : bytes;
  p_payload : bytes
}.

Definition build_parts (env : Env) (w : t) : result parts :=
  let cpio_data := _build_cpio_payload w in
  payload <- _compress_payload env w cpio_data ;;
  header <- _build_header env w ;;
  signature <- _build_signature env header payload ;;
  lead <- _build_lead w ;;
  Ok {| p_lead := lead; p_signature := signature;
        p_header := header; p_payload := payload |}.

(** [write(output_path)]: the bytes of the file written. *)
Definition write (env : Env) (w : t) : result bytes :=
  p <- build_parts env w ;;
  Ok (p_lead p ++ p_signature p ++ p_header p ++ p_payload p).

End RpmWriter.

(** ** [decompress_udif]  (contrib/tools/lib/dmg_reader.py) *)

Module Udif.
Import Py.

Definition SECTOR_SIZE : Z := 512.

(** Compression types in blkx chunk entries. *)
Definition BLOCK_ZERO_FILL : Z := 0.
Definition BLOCK_RAW : Z := 1.
Definition BLOCK_IGNORE : Z := 2.
Definition BLOCK_ZLIB : Z := 2147483653.        (* 0x80000005 *)
Definition BLOCK_BZ2 : Z := 2147483654.         (* 0x80000006 *)
Definition BLOCK_LZFSE : Z := 2147483655.       (* 0x80000007 *)
Definition BLOCK_LZMA : Z := 2147483656.        (* 0x80000008 *)
Definition BLOCK_ADC : Z := 2147483652.         (* 0x80000004 *)
Definition BLOCK_COMMENT : Z := 2147483646.     (* 0x7FFFFFFE *)
Definition BLOCK_TERMINATOR : Z := 4294967295.  (* 0xFFFFFFFF *)

(** A chunk entry as [parse_blkx_chunks] returns it; [compressed_offset]
    already includes the data offset of the mish header. *)
Record chunk : Type := {
  type : Z;
  sector_number : Z;
  sector_count : Z;
  compressed_offset : Z;
  compressed_length : Z
}.

(** The decompressors of the Python library.  Each may raise.  [liblzfse]
    is [None] when [import liblzfse] raises [ImportError]. *)
Record Codecs : Type := {
  zlib_decompress : bytes -> result bytes;
  bz2_decompress : bytes -> result bytes;
  lzma_decompress : bytes -> result bytes;
  liblzfse : option (bytes -> Z -> result bytes)
}.

(** A line printed on [sys.stderr]. *)
Inductive warning : Type :=
| AdcNotSupported (sector : Z)
| UnknownBlockType (entry_type : Z).

(** The image file, open for reading: its bytes, and the exception, if
    any, that [f.seek(offset)] raises and that [f.read(n)] raises at that
    offset -- an offset or a length that does not fit the types of the
    platform ([ValueError], [OverflowError]), a failed system call
    ([OSError]) or a failed allocation ([MemoryError]). *)
Record image_file : Type := {
  file_bytes : bytes;
  seek_error : Z -> option exn;
  read_error : Z -> Z -> option exn
}.

(** [f.seek(offset); f.read(n)]. *)
Definition read_at (file : image_file) (offset n : Z) : result bytes :=
  if offset <? 0 then Raise OSError
  else
    match seek_error file offset with
    | Some e => Raise e
    | None =>
        match read_error file offset n with
        | Some e => Raise e
        | None =>
            if n <? 0 then Ok (slice_from (file_bytes file) offset)
            else Ok (slice (file_bytes file) offset (offset + n))
        end
    end.

(** The partition size in sectors, from the chunk extents. *)
Fixpoint max_sector_from (chunks : list chunk) (max_sector : Z) : Z :=
  match chunks with
  | [] => max_sector
  | c :: rest =>
      let e := sector_number c + sector_count c in
      max_sector_from rest (if e >? max_sector then e else max_sector)
  end.

Definition lzfse_decompress (codecs : Codecs) (compressed : bytes) (expected_size : Z)
  : result bytes :=
  match liblzfse codecs with
  | None => Raise (ImportError "LZFSE compression requires pyliblzfse")
  | Some decompress =>
      match decompress compressed expected_size with
      | Raise (ImportError _) => Raise (ImportError "LZFSE compression requires pyliblzfse")
      | r => r
      end
  end.

(** What one iteration of the loop "Decompress and place blocks" does. *)
Inductive outcome : Type :=
| Skip                         (* [continue], nothing printed *)
| Warn (w : warning)           (* a warning is printed, then [continue] *)
| Place (dest_offset : Z) (data : bytes).

Definition do_chunk (codecs : Codecs) (file : image_file) (c : chunk)
  : result outcome :=
  let entry_type := type c in
  let dest_offset := sector_number c * SECTOR_SIZE in
  let expected_size := sector_count c * SECTOR_SIZE in
  if (entry_type =? BLOCK_TERMINATOR) || (entry_type =? BLOCK_COMMENT)
     || (entry_type =? BLOCK_IGNORE) then Ok Skip
  else if entry_type =? BLOCK_ZERO_FILL then Ok Skip
  else
    compressed <- read_at file (compressed_offset c) (compressed_length c) ;;
    if entry_type =? BLOCK_RAW then Ok (Place dest_offset compressed)
    else if entry_type =? BLOCK_ZLIB then
      data <- zlib_decompress codecs compressed ;; Ok (Place dest_offset data)
    else if entry_type =? BLOCK_BZ2 then
      data <- bz2_decompress codecs compressed ;; Ok (Place dest_offset data)
    else if entry_type =? BLOCK_LZMA then
      data <- lzma_decompress codecs compressed ;; Ok (Place dest_offset data)
    else if entry_type =? BLOCK_LZFSE then
      data <- lzfse_decompress codecs compressed expected_size ;;
      Ok (Place dest_offset data)
    else if entry_type =? BLOCK_ADC then Ok (Warn (AdcNotSupported (sector_number c)))
    else Ok (Warn (UnknownBlockType entry_type)).

(** The loop over [all_chunks]: the image and the warnings printed so far
    are threaded through; an exception ends the loop and the function. *)
Fixpoint place_chunks (codecs : Codecs) (file : image_file) (chunks : list chunk)
    (image : bytes) (stderr : list warning) : result (bytes * list warning) :=
  match chunks with
  | [] => Ok (image, stderr)
  | c :: rest =>
      o <- do_chunk codecs file c ;;
      match o with
      | Skip => place_chunks codecs file rest image stderr
      | Warn w => place_chunks codecs file rest image (stderr ++ [w])
      | Place dest_offset data =>
          place_chunks codecs file rest
            (slice_assign image dest_offset (dest_offset + len data) data) stderr
      end
  end.

(** [decompress_udif] from the point where [all_chunks] is known: the
    zero-filled image is allocated and the chunks are placed. *)
Definition decompress_chunks (codecs : Codecs) (file : image_file)
    (all_chunks : list chunk)
  : result (bytes * list warning) :=
  let max_sector := max_sector_from all_chunks 0 in
  let total_size := max_sector * SECTOR_SIZE in
  let image := zeros total_size in
  place_chunks codecs file all_chunks image [].

End Udif.

(** ** [FileInfo] *)

Module TreeReader.
Import Py.

(** Modelled from the spec: [contrib/tools/lib/tree_reader.py], which
    declares [FileInfo] and [TreeReader], is not among the sources.  The
    fields are those of the table of section 3, under the names the
    constructor calls of [dmg_reader.py] use; [symlink_target] is [None]
    when the call does not give it. *)
Record FileInfo : Type := {
  path : str;
  size : Z;
  mode : Z;
  uid : Z;
  gid : Z;
  is_dir : bool;
  is_symlink : bool;
  symlink_target : option str
}.

(** [entry.path = p]. *)
Definition set_path (e : FileInfo) (p : str) : FileInfo :=
  {| path := p; size := size e; mode := mode e; uid := uid e; gid := gid e;
     is_dir := is_dir e; is_symlink := is_symlink e;
     symlink_target := symlink_target e |}.

End TreeReader.

(** ** [HfsPlusReader]  (contrib/tools/lib/dmg_reader.py) *)

Module HfsPlusReader.
Import Py.
Import TreeReader.

(** Catalog record types kept in [entries]; thread records are not stored. *)
Inductive record_type : Type :=
| FOLDER_RECORD      (* 0x0001 *)
| FILE_RECORD.       (* 0x0002 *)

Definition ROOT_PARENT_CNID : Z := 1.
Definition ROOT_FOLDER_CNID : Z := 2.

Definition S_IFLNK : Z := 40960.   (* 0o120000 *)
Definition S_IFDIR : Z := 16384.   (* 0o040000 *)
Definition S_IFMT : Z := 61440.    (* 0o170000 *)

(** The [info] dictionary of a record: a folder has no ["size"] and no
    ["extents"] key. *)
Record info : Type := {
  i_mode : Z;
  i_uid : Z;
  i_gid : Z;
  i_size : option Z;
  i_extents : option (list (Z * Z))
}.

(** A value of [entries]: [(parent_cnid, name, record_type, info)]. *)
Definition catalog_entry : Type := Z * str * record_type * info.

(** A [dict] keyed by CNID, in insertion order. *)
Definition dict : Type := list (Z * catalog_entry).

Fixpoint dict_get (d : dict) (k : Z) : option catalog_entry :=
  match d with
  | [] => None
  | (k', v) :: rest => if k' =? k then Some v else dict_get rest k
  end.

(** [d[k] = v]: a present key keeps its place, a new one goes last. *)
Fixpoint dict_set (d : dict) (k : Z) (v : catalog_entry) : dict :=
  match d with
  | [] => [(k, v)]
  | (k', v') :: rest =>
      if k' =? k then (k', v) :: rest else (k', v') :: dict_set rest k v
  end.

Record t : Type := {
  image : bytes;
  block_size : Z;
  entries : dict
}.

(** The loop of [build_path].  [seen] is the set of visited CNIDs; the
    result is [parts] when the loop ends, [None] when the fuel does. *)
Fixpoint build_path_loop (fuel : nat) (entries : dict) (current : Z)
    (seen : list Z) (parts : list str) : option (list str) :=
  match fuel with
  | O => None
  | S fuel' =>
      match dict_get entries current with
      | None => Some parts
      | Some (parent_cnid, name, _, _) =>
          if existsb (Z.eqb current) seen then Some parts
          else
            let seen := current :: seen in
            let parts := parts ++ [name] in
            if (parent_cnid =? ROOT_FOLDER_CNID) || (parent_cnid =? ROOT_PARENT_CNID)
            then Some parts
            else build_path_loop fuel' entries parent_cnid seen parts
      end
  end.

(** Every turn of the loop adds a key of [entries] to [seen], so one more
    turn than there are entries is enough (theorem [build_path_terminates]). *)
Definition build_path_parts (h : t) (cnid : Z) : option (list str) :=
  build_path_loop (S (length (entries h))) (entries h) cnid [] [].

Definition build_path (h : t) (cnid : Z) : str :=
  match build_path_parts h cnid with
  | Some parts => join (lit "/") (rev parts)
  | None => []
  end.

(** The walk that [build_path] makes, as a relation: from [current], with
    [seen] visited and [parts] collected, it ends with [seen'] and [parts'].
    It stops at a CNID that is not a key, at one already visited, and after
    a record whose parent is the root folder or the root parent; else it
    goes on from the parent. *)
Inductive walk (entries : dict) : Z -> list Z -> list str -> list Z -> list str -> Prop :=
| walk_absent current seen parts :
    dict_get entries current = None ->
    walk entries current seen parts seen parts
| walk_cycle current seen parts e :
    dict_get entries current = Some e ->
    In current seen ->
    walk entries current seen parts seen parts
| walk_root current seen parts parent_cnid name rt info :
    dict_get entries current = Some (parent_cnid, name, rt, info) ->
    ~ In current seen ->
    parent_cnid = ROOT_FOLDER_CNID \/ parent_cnid = ROOT_PARENT_CNID ->
    walk entries current seen parts (current :: seen) (parts ++ [name])
| walk_up current seen parts parent_cnid name rt info seen' parts' :
    dict_get entries current = Some (parent_cnid, name, rt, info) ->
    ~ In current seen ->
    parent_cnid <> ROOT_FOLDER_CNID ->
    parent_cnid <> ROOT_PARENT_CNID ->
    walk entries parent_cnid (current :: seen) (parts ++ [name]) seen' parts' ->
    walk entries current seen parts seen' parts'.

(** [data.extend(self.image[offset:offset + length])] over the extents. *)
Fixpoint read_extents (h : t) (extents : list (Z * Z)) (data : bytes) : bytes :=
  match extents with
  | [] => data
  | (start_block, block_count) :: rest =>
      let offset := start_block * block_size h in
      let length := block_count * block_size h in
      read_extents h rest (data ++ slice (image h) offset (offset + length))
  end.

Definition read_file (h : t) (cnid : Z) : result bytes :=
  match dict_get (entries h) cnid with
  | None => Raise (ValueError "CNID not found")
  | Some (_, _, rec_type, info) =>
      match rec_type with
      | FOLDER_RECORD => Raise (ValueError "CNID is not a file")
      | FILE_RECORD =>
          let extents := match i_extents info with Some e => e | None => [] end in
          let logical_size := match i_size info with Some n => n | None => 0 end in
          let data := read_extents h extents [] in
          Ok (slice_to data logical_size)
      end
  end.

(** The body of the loop of [get_all_files] for one item of [entries]:
    the [FileInfo] appended to [items], or [None] on [continue]. *)
Definition file_info (h : t) (cnid : Z) (e : catalog_entry) : option FileInfo :=
  let '(parent_cnid, name, rec_type, info) := e in
  if cnid =? ROOT_FOLDER_CNID then None
  else
    let path := build_path h cnid in
    match path with
    | [] => None
    | _ :: _ =>
        let mode_raw := i_mode info in
        let uid := i_uid info in
        let gid := i_gid info in
        let file_type_bits := Z.land mode_raw S_IFMT in
        let is_symlink := file_type_bits =? S_IFLNK in
        let is_dir := match rec_type with FOLDER_RECORD => true | FILE_RECORD => false end in
        let mode_raw :=
          if is_dir && (mode_raw =? 0) then Z.lor S_IFDIR 493
          else if negb is_dir && negb is_symlink && (mode_raw =? 0) then 33188
          else mode_raw in
        match rec_type with
        | FOLDER_RECORD =>
            Some {| path := path;
                    size := 0;
                    mode := if negb (mode_raw =? 0) then mode_raw else Z.lor S_IFDIR 493;
                    uid := uid;
                    gid := gid;
                    is_dir := true;
                    is_symlink := false;
                    symlink_target := None |}
        | FILE_RECORD =>
            let size := match i_size info with Some n => n | None => 0 end in
            let symlink_target : option str := None in
            let size := if is_symlink then 0 else size in
            Some {| path := path;
                    size := if is_symlink then 0 else size;
                    mode := mode_raw;
                    uid := uid;
                    gid := gid;
                    is_dir := false;
                    is_symlink := is_symlink;
                    symlink_target := symlink_target |}
        end
    end.

Fixpoint collect (h : t) (items_of : dict) (items : list FileInfo) : list FileInfo :=
  match items_of with
  | [] => items
  | (cnid, e) :: rest =>
      match file_info h cnid e with
      | Some fi => collect h rest (items ++ [fi])
      | None => collect h rest items
      end
  end.

(** [get_all_files]: the items in dictionary order, then
    [items.sort(key=lambda x: x.path)]. *)
Definition get_all_files (h : t) : list FileInfo :=
  let items := collect h (entries h) [] in
  sort_by path str_leb items.

End HfsPlusReader.

(** ** The cpio reader *)

Module CpioReader.
Import Py.
Import TreeReader.

(** Modelled from the spec: [contrib/tools/lib/cpio.py] ([CpioReader]) is
    not among the sources.  Section 4.6: 110-byte ASCII-hex headers with
    magic [070701], the thirteen fields in fixed order, [namesize] bytes of
    path with the trailing NUL, padding to a 4-byte boundary from the start
    of the entry, [filesize] bytes of content padded likewise, the archive
    ended by the path [TRAILER!!!], the symlink target being the content.
    Entries are yielded in archive order.  A bad magic raises; a stream that
    ends inside an entry ends the enumeration. *)
Definition hex_value (c : byte) : option Z :=
  let n := Z_of_byte c in
  if (48 <=? n) && (n <=? 57) then Some (n - 48)
  else if (65 <=? n) && (n <=? 70) then Some (n - 55)
  else if (97 <=? n) && (n <=? 102) then Some (n - 87)
  else None.

Fixpoint parse_hex (digits : bytes) (acc : Z) : option Z :=
  match digits with
  | [] => Some acc
  | c :: rest =>
      match hex_value c with
      | Some d => parse_hex rest (acc * 16 + d)
      | None => None
      end
  end.

(** The field number [k] (from [0]) of a 110-byte header. *)
Definition field (header : bytes) (k : Z) : option Z :=
  parse_hex (slice header (6 + 8 * k) (14 + 8 * k)) 0.

Definition pad4 (n : Z) : Z := (4 - n mod 4) mod 4.

Definition decode_utf8 (b : bytes) : str := map ascii_of_byte b.

Definition S_IFMT : Z := 61440.
Definition S_IFDIR : Z := 16384.
Definition S_IFLNK : Z := 40960.

Fixpoint read_entries (fuel : nat) (data : bytes) (acc : list FileInfo)
  : result (list FileInfo) :=
  match fuel with
  | O => Ok acc
  | S fuel' =>
      let header := slice data 0 110 in
      if len header <? 110 then Ok acc
      else if negb (bytes_eqb (slice header 0 6) (encode_utf8 (lit "070701")))
      then Raise (ValueError "bad cpio magic")
      else
        match field header 1, field header 2, field header 3,
              field header 6, field header 11 with
        | Some mode, Some uid, Some gid, Some filesize, Some namesize =>
            let name := slice data 110 (110 + namesize - 1) in
            let body := 110 + namesize + pad4 (110 + namesize) in
            let content := slice data body (body + filesize) in
            let next := body + filesize + pad4 filesize in
            let path := decode_utf8 name in
            if str_eqb path (lit "TRAILER!!!") then Ok acc
            else
              let is_dir := Z.land mode S_IFMT =? S_IFDIR in
              let is_symlink := Z.land mode S_IFMT =? S_IFLNK in
              let fi := {| path := path;
                           size := if is_dir || is_symlink then 0 else filesize;
                           mode := mode; uid := uid; gid := gid;
                           is_dir := is_dir; is_symlink := is_symlink;
                           symlink_target :=
                             if is_symlink then Some (decode_utf8 content) else None |} in
              read_entries fuel' (slice_from data next) (acc ++ [fi])
        | _, _, _, _, _ => Raise (ValueError "bad cpio header")
        end
  end.

(** All the entries of an archive, as successive [next()] calls give them. *)
Definition read_all (data : bytes) : result (list FileInfo) :=
  read_entries (length data) data [].

End CpioReader.

(** ** [PkgReader]  (contrib/tools/lib/pkg_reader.py) *)

Module PkgReader.
Import Py.
Import TreeReader.

Definition XAR_MAGIC : bytes := encode_utf8 (lit "xar!").
Definition XAR_HEADER_SIZE : Z := 28.

Record xar_header : Type := {
  header_size : Z;
  version : Z;
  toc_compressed_len : Z;
  toc_uncompressed_len : Z;
  cksum_algo : Z
}.

Definition parse_xar_header (data : bytes) : result xar_header :=
  if len data <? XAR_HEADER_SIZE then Raise (ValueError "Data too small for XAR header")
  else
    let magic := slice data 0 4 in
    if negb (bytes_eqb magic XAR_MAGIC) then Raise (ValueError "Not a XAR file")
    else
      header_size <- unpack_H data 4 ;;
      version <- unpack_H data 6 ;;
      toc_compressed_len <- unpack_Q data 8 ;;
      toc_uncompressed_len <- unpack_Q data 16 ;;
      cksum_algo <- unpack_I data 24 ;;
      Ok {| header_size := header_size; version := version;
            toc_compressed_len := toc_compressed_len;
            toc_uncompressed_len := toc_uncompressed_len;
            cksum_algo := cksum_algo |}.

(** An element of the list made by [find_payloads]. *)
Record payload_info : Type := {
  p_offset : Z;
  p_length : Z;
  p_size : Z;
  p_encoding : str
}.

(** What the module takes from the Python library and from modules that
    are not among the sources: [zlib.decompress]; the reading of the TOC,
    [ET.fromstring] followed by the walk of [find_payloads] over the tree;
    [gzip.decompress] and [bz2.decompress]; and the entries that a
    [CpioReader] over [gzip.GzipFile] of a payload yields until [next()]
    returns [None].  Each may raise. *)
Record Env : Type := {
  zlib_decompress : bytes -> result bytes;
  toc_payloads : bytes -> result (list payload_info);
  gzip_decompress : bytes -> result bytes;
  bz2_decompress : bytes -> result bytes;
  read_cpio : bytes -> result (list FileInfo)
}.

(** [parse_xar_toc] and [find_payloads]. *)
Definition parse_xar_toc (env : Env) (data : bytes) (header : xar_header)
  : result (list payload_info) :=
  let hs := header_size header in
  let toc_start := hs in
  let toc_end := toc_start + toc_compressed_len header in
  if toc_end >? len data
  then Raise (ValueError "XAR data truncated: TOC extends past end of data")
  else
    let compressed_toc := slice data toc_start toc_end in
    toc_xml <- zlib_decompress env compressed_toc ;;
    toc_payloads env toc_xml.

(** [sub in s]. *)
Fixpoint contains (s sub : str) : bool :=
  startswith Ascii.eqb s sub
  || match s with
     | [] => false
     | _ :: s' => contains s' sub
     end.

Definition extract_payload (env : Env) (data : bytes) (header : xar_header)
    (payload_info : payload_info) : result bytes :=
  let heap_start := header_size header + toc_compressed_len header in
  let pay_start := heap_start + p_offset payload_info in
  let pay_end := pay_start + p_length payload_info in
  if pay_end >? len data
  then Raise (ValueError "XAR data truncated: Payload extends past end of data")
  else
    let raw := slice data pay_start pay_end in
    let encoding := p_encoding payload_info in
    if contains encoding (lit "octet-stream") then Ok raw
    else if contains encoding (lit "x-gzip") then gzip_decompress env raw
    else if contains encoding (lit "x-bzip2") then bz2_decompress env raw
    else Ok raw.

(** The reader object: [self.items] and [self.index]. *)
Record t : Type := {
  items : list FileInfo;
  index : Z
}.

(** The loop of [_load] over the payloads; [_read_cpio_from_payload]
    appends the entries of each, in the order read. *)
Fixpoint load_payloads (env : Env) (data : bytes) (header : xar_header)
    (payloads : list payload_info) (items : list FileInfo) : result (list FileInfo) :=
  match payloads with
  | [] => Ok items
  | payload_info :: rest =>
      payload_bytes <- extract_payload env data header payload_info ;;
      entries <- read_cpio env payload_bytes ;;
      load_payloads env data header rest (items ++ entries)
  end.

Definition _load (env : Env) (data : bytes) : result (list FileInfo) :=
  header <- parse_xar_header data ;;
  payloads <- parse_xar_toc env data header ;;
  load_payloads env data header payloads [].

(** [PkgReader(pkg_data=data)]. *)
Definition __init__ (env : Env) (pkg_data : bytes) : result t :=
  items <- _load env pkg_data ;;
  Ok {| items := items; index := 0 |}.

Definition next (r : t) : option FileInfo * t :=
  if index r <? len (items r) then
    (nth_error (items r) (Z.to_nat (index r)),
     {| items := items r; index := index r + 1 |})
  else (None, r).

Definition is_done (r : t) : bool := index r >=? len (items r).

(** [while True: entry = pkg.next(); if entry is None: break; ...]: the
    entries returned before the first [None].  The reader holds
    [len items - index] more entries, which bounds the number of turns. *)
Fixpoint drain (fuel : nat) (r : t) : list FileInfo :=
  match fuel with
  | O => []
  | S fuel' =>
      match next r with
      | (Some entry, r') => entry :: drain fuel' r'
      | (None, _) => []
      end
  end.

Definition all_next (r : t) : list FileInfo := drain (S (length (items r))) r.

End PkgReader.

(** ** [DmgReader]  (contrib/tools/lib/dmg_reader.py) *)

Module DmgReader.
Import Py.
Import TreeReader.

(** A line printed on [sys.stderr]: the pkg that could not be read, and why. *)
Inductive warning : Type :=
| FailedToReadPkg (pkg_path : str) (e : exn).

Definition PKG_PREFIX : str := lit "@PKG@/".

(** The [try] block of step 3 for one [.pkg] file record: [None] on
    [continue], else the entries to append. *)
Definition read_inner_pkg (env : PkgReader.Env) (hfs : HfsPlusReader.t) (cnid : Z)
  : result (option (list FileInfo)) :=
  pkg_bytes <- HfsPlusReader.read_file hfs cnid ;;
  if (len pkg_bytes =? 0) || negb (bytes_eqb (slice pkg_bytes 0 4) PkgReader.XAR_MAGIC)
  then Ok None
  else
    pkg <- PkgReader.__init__ env pkg_bytes ;;
    Ok (Some (map (fun entry => set_path entry (PKG_PREFIX ++ path entry))
                  (PkgReader.all_next pkg))).

(** The loop "Recurse into .pkg files" over [hfs.entries.items()]. *)
Fixpoint recurse (env : PkgReader.Env) (hfs : HfsPlusReader.t)
    (todo : HfsPlusReader.dict) (items : list FileInfo) (stderr : list warning)
  : list FileInfo * list warning :=
  match todo with
  | [] => (items, stderr)
  | (cnid, (parent_cnid, name, rec_type, info)) :: rest =>
      match rec_type with
      | HfsPlusReader.FOLDER_RECORD => recurse env hfs rest items stderr
      | HfsPlusReader.FILE_RECORD =>
          if negb (endswith name (lit ".pkg")) then recurse env hfs rest items stderr
          else
            let pkg_path := HfsPlusReader.build_path hfs cnid in
            match read_inner_pkg env hfs cnid with
            | Ok None => recurse env hfs rest items stderr
            | Ok (Some entries) => recurse env hfs rest (items ++ entries) stderr
            | Raise e =>
                recurse env hfs rest items (stderr ++ [FailedToReadPkg pkg_path e])
            end
      end
  end.

(** Steps 2 and 3 of [_load], for the [HfsPlusReader] built in step 2:
    the items, sorted, and what was printed. *)
Definition _load (env : PkgReader.Env) (hfs : HfsPlusReader.t)
  : list FileInfo * list warning :=
  let items := HfsPlusReader.get_all_files hfs in
  let '(items, stderr) := recurse env hfs (HfsPlusReader.entries hfs) items [] in
  (sort_by path str_leb items, stderr).

(** The reader object. *)
Record t : Type := {
  items : list FileInfo;
  index : Z;
  done : bool
}.

Definition __init__ (env : PkgReader.Env) (hfs : HfsPlusReader.t) : t * list warning :=
  let '(items, stderr) := _load env hfs in
  ({| items := items; index := 0; done := false |}, stderr).

Definition next (r : t) : option FileInfo * t :=
  if index r <? len (items r) then
    (nth_error (items r) (Z.to_nat (index r)),
     {| items := items r; index := index r + 1; done := done r |})
  else (None, {| items := items r; index := index r; done := true |}).

Definition is_done (r : t) : bool := done r.

(** The results of successive [next()] calls up to the first [None]. *)
Fixpoint drain (fuel : nat) (r : t) : list FileInfo :=
  match fuel with
  | O => []
  | S fuel' =>
      match next r with
      | (Some entry, r') => entry :: drain fuel' r'
      | (None, _) => []
      end
  end.

Definition all_next (r : t) : list FileInfo := drain (S (length (items r))) r.

End DmgReader.

(** ** Inputs used to exercise the definitions *)

Module Samples.
Import Py.
Import TreeReader.

Definition info_of (mode : Z) (size : Z) : HfsPlusReader.info :=
  {| HfsPlusReader.i_mode := mode; HfsPlusReader.i_uid := 501;
     HfsPlusReader.i_gid := 20; HfsPlusReader.i_size := Some size;
     HfsPlusReader.i_extents := Some [] |}.

Definition folder_info (mode : Z) : HfsPlusReader.info :=
  {| HfsPlusReader.i_mode := mode; HfsPlusReader.i_uid := 501;
     HfsPlusReader.i_gid := 20; HfsPlusReader.i_size := None;
     HfsPlusReader.i_extents := None |}.

(** A volume with a folder [bin], a file [bin/tool], a symlink [latest],
    and two records whose parents point at each other. *)
Definition volume : HfsPlusReader.t :=
  {| HfsPlusReader.image := [];
     HfsPlusReader.block_size := 512;
     HfsPlusReader.entries :=
       [ (2,  (1,  lit "Disk",   HfsPlusReader.FOLDER_RECORD, folder_info 16877));
         (16, (2,  lit "bin",    HfsPlusReader.FOLDER_RECORD, folder_info 0));
         (17, (16, lit "tool",   HfsPlusReader.FILE_RECORD,   info_of 33261 7));
         (18, (2,  lit "latest", HfsPlusReader.FILE_RECORD,   info_of 41471 9));
         (20, (21, lit "ying",   HfsPlusReader.FOLDER_RECORD, folder_info 0));
         (21, (20, lit "yang",   HfsPlusReader.FOLDER_RECORD, folder_info 0)) ] |}.

(** A toy framing standing for gzip: two marker bytes, then the data. *)
Definition toy_gunzip (b : bytes) : result bytes :=
  match b with
  | x1f :: x8b :: rest => Ok rest
  | _ => Raise CodecError
  end.

(** A cpio archive that lists [b] before [a], framed as above. *)
Definition payload : bytes :=
  x1f :: x8b ::
  CpioWriter.archive
    [ CpioWriter.AddFile (lit "b") (CpioWriter.Bytes [x68; x69]) 420 0 0 0;
      CpioWriter.AddFile (lit "a") (CpioWriter.Bytes []) 420 0 0 0 ].

Definition toc : bytes := encode_utf8 (lit "<xar/>").

(** A XAR file: the 28-byte header, the TOC, and the heap holding [payload]. *)
Definition pkg_data : bytes :=
  encode_utf8 (lit "xar!")
  ++ be_bytes 2 28 ++ be_bytes 2 1
  ++ be_bytes 8 (len toc) ++ be_bytes 8 (len toc) ++ be_bytes 4 0
  ++ toc ++ payload.

(** An environment in which the TOC names that one payload. *)
Definition pkg_env : PkgReader.Env :=
  {| PkgReader.zlib_decompress := fun b => Ok b;
     PkgReader.toc_payloads := fun _ =>
       Ok [ {| PkgReader.p_offset := 0;
               PkgReader.p_length := len payload;
               PkgReader.p_size := len payload;
               PkgReader.p_encoding := lit "application/octet-stream" |} ];
     PkgReader.gzip_decompress := toy_gunzip;
     PkgReader.bz2_decompress := fun _ => Raise CodecError;
     PkgReader.read_cpio := fun p => b <- toy_gunzip p ;; CpioReader.read_all b |}.

Definition file_at (start_block block_count size : Z) : HfsPlusReader.info :=
  {| HfsPlusReader.i_mode := 33188; HfsPlusReader.i_uid := 0;
     HfsPlusReader.i_gid := 0; HfsPlusReader.i_size := Some size;
     HfsPlusReader.i_extents := Some [(start_block, block_count)] |}.

(** A volume holding a good installer in blocks 1 and 2, a file that has
    the XAR magic and nothing else in block 0, a [.pkg] that is no XAR
    file in block 3, and a plain file. *)
Definition dmg_volume : HfsPlusReader.t :=
  {| HfsPlusReader.image :=
       (encode_utf8 (lit "xar!") ++ zeros 508)
       ++ (pkg_data ++ zeros (1024 - len pkg_data))
       ++ encode_utf8 (lit "text");
     HfsPlusReader.block_size := 512;
     HfsPlusReader.entries :=
       [ (16, (2, lit "good.pkg",  HfsPlusReader.FILE_RECORD, file_at 1 2 (len pkg_data)));
         (17, (2, lit "bad.pkg",   HfsPlusReader.FILE_RECORD, file_at 0 1 8));
         (18, (2, lit "notes.pkg", HfsPlusReader.FILE_RECORD, file_at 3 1 4));
         (19, (2, lit "readme",    HfsPlusReader.FILE_RECORD, file_at 3 1 4)) ] |}.

(** Decompressors that accept only data carrying a one-byte mark, and no
    LZFSE module. *)
Definition marked (mark : byte) (b : bytes) : result bytes :=
  match b with
  | m :: rest => if Byte.eqb m mark then Ok rest else Raise CodecError
  | [] => Raise CodecError
  end.

Definition codecs : Udif.Codecs :=
  {| Udif.zlib_decompress := marked x78;
     Udif.bz2_decompress := marked x42;
     Udif.lzma_decompress := marked xfd;
     Udif.liblzfse := None |}.

Definition chunk_of (type sector_number sector_count offset length : Z) : Udif.chunk :=
  {| Udif.type := type; Udif.sector_number := sector_number;
     Udif.sector_count := sector_count; Udif.compressed_offset := offset;
     Udif.compressed_length := length |}.

(** The data fork of an image file: four raw bytes, then four bytes that
    are no zlib stream. *)
Definition dmg_file : Udif.image_file :=
  {| Udif.file_bytes := encode_utf8 (lit "H+..") ++ [x00; x01; x02; x03];
     Udif.seek_error := fun _ => None;
     Udif.read_error := fun _ _ => None |}.

(** The same file on a platform whose offsets are signed 64-bit numbers:
    seeking to [2^63] or beyond raises [ValueError]. *)
Definition dmg_file_64 : Udif.image_file :=
  {| Udif.file_bytes := encode_utf8 (lit "H+..") ++ [x00; x01; x02; x03];
     Udif.seek_error :=
       fun offset =>
         if offset >=? 2 ^ 63
         then Some (ValueError "cannot fit 'int' into an offset-sized integer")
         else None;
     Udif.read_error := fun _ _ => None |}.

Definition raw_chunk : Udif.chunk := chunk_of Udif.BLOCK_RAW 0 1 0 4.
Definition adc_chunk : Udif.chunk := chunk_of Udif.BLOCK_ADC 1 1 4 4.
Definition far_adc_chunk : Udif.chunk := chunk_of Udif.BLOCK_ADC 1 1 (2 ^ 63) 4.
Definition lzfse_chunk : Udif.chunk := chunk_of Udif.BLOCK_LZFSE 1 1 4 4.
Definition bad_zlib_chunk : Udif.chunk := chunk_of Udif.BLOCK_ZLIB 1 1 4 4.

(** Four entries, added out of tag order. *)
Definition header : RpmHeaderBuilder.t :=
  let h := RpmHeaderBuilder.__init__ in
  let h := RpmHeaderBuilder.add_int32 h 1006 (RpmHeaderBuilder.One 258) in
  let h := RpmHeaderBuilder.add_string h 1000 (lit "ab") in
  let h := RpmHeaderBuilder.add_int16 h 1030 (RpmHeaderBuilder.Many [1; 2]) in
  RpmHeaderBuilder.add_bin h 1004 [x01].

(** A clock that starts at [t0] and advances one second at each call, and
    toy compressors that put a marker before the data. *)
Definition rpm_env (t0 : Z) : RpmWriter.Env :=
  {| RpmWriter.md5 := fun b => repeat (byte_of_Z (len b)) 16;
     RpmWriter.gzip_compress := fun mtime b => x1f :: x8b :: be_bytes 4 mtime ++ b;
     RpmWriter.gzip_mtime := t0;
     RpmWriter.lzma_compress := fun b => xfd :: b;
     RpmWriter.bz2_compress := fun b => x42 :: b;
     RpmWriter.time := fun k => t0 + Z.of_nat k |}.

Definition rpm_with (compression : str) : RpmWriter.t :=
  let w := RpmWriter.__init__ (lit "hello") (lit "1.0") (lit "1") (lit "noarch")
             (lit "linux") None None (lit "Unknown") (lit "Unspecified") compression in
  let w := RpmWriter.add_directory w (lit "/usr/bin") 493 0 0 (lit "root") (lit "root") in
  let w := RpmWriter.add_file w (lit "/usr/bin/hello") (CpioWriter.Bytes [x23; x21])
             493 0 0 (lit "root") (lit "root") in
  let w := RpmWriter.add_symlink w (lit "/usr/bin/hi") (lit "hello") 41471 0 0
             (lit "root") (lit "root") in
  RpmWriter.add_file w (lit "/README") (CpioWriter.Str (lit "hi")) 33188 0 0
    (lit "root") (lit "root").

End Samples.

(** ** The SVR4 newc entry *)

Module NewcFormat.
Import Py.

(** A number on exactly [k] upper-case hexadecimal digits. *)
Fixpoint hexn (k : nat) (x : Z) : str :=
  match k with
  | O => []
  | S k' => hexn k' (x / 16) ++ [hex_digit (x mod 16)]
  end.

(** The least number of bytes that brings [n] to a multiple of four. *)
Definition pad4 (n : Z) : Z := (4 - n mod 4) mod 4.

(** The 110 characters of a header: the magic and thirteen fields of
    eight digits, the device numbers and the checksum being zero. *)
Definition newc_header (inode mode uid gid nlink mtime filesize namesize : Z) : str :=
  lit "070701"
  ++ hexn 8 inode ++ hexn 8 mode ++ hexn 8 uid ++ hexn 8 gid
  ++ hexn 8 nlink ++ hexn 8 mtime ++ hexn 8 filesize
  ++ hexn 8 0 ++ hexn 8 0 ++ hexn 8 0 ++ hexn 8 0
  ++ hexn 8 namesize ++ hexn 8 0.

(** An entry: the header, the path and its NUL, NULs up to a multiple of
    four, the content, NULs up to a multiple of four. *)
Definition newc_entry (inode mode uid gid nlink mtime : Z) (path : str)
    (data : bytes) : bytes :=
  let name := encode_utf8 path ++ [NUL] in
  encode_utf8 (newc_header inode mode uid gid nlink mtime (len data) (len name))
  ++ name ++ zeros (pad4 (110 + len name))
  ++ data ++ zeros (pad4 (len data)).

(** "a mode lacking file-type bits gets the S_IF* bits of the add-call kind
    ORed in". *)
Definition typed_mode (kind mode : Z) : Z :=
  if Z.land mode CpioWriter.S_IFMT =? 0 then Z.lor mode kind else mode.

(** The entry of a call that is given the inode [i]. *)
Definition entry_of (i : Z) (c : CpioWriter.call) : bytes :=
  match c with
  | CpioWriter.AddFile p c m u g t =>
      newc_entry i (typed_mode CpioWriter.S_IFREG m) u g 1 t p
        (CpioWriter.content_bytes c)
  | CpioWriter.AddDirectory p m u g t =>
      newc_entry i (typed_mode CpioWriter.S_IFDIR m) u g 2 t p []
  | CpioWriter.AddSymlink p tg m u g t =>
      newc_entry i (typed_mode CpioWriter.S_IFLNK m) u g 1 t p (encode_utf8 tg)
  end.

(** The sentinel entry. *)
Definition trailer (i : Z) : bytes :=
  newc_entry i 0 0 0 1 0 (lit "TRAILER!!!") [].

(** The entries of the calls, inodes counted from [i], and the sentinel. *)
Fixpoint entries_from (i : Z) (calls : list CpioWriter.call) : bytes :=
  match calls with
  | [] => trailer i
  | c :: calls' => entry_of i c ++ entries_from (i + 1) calls'
  end.

(** The numbers of a call fit the eight digits of a field. *)
Definition fits (x : Z) : Prop := 0 <= x < 2 ^ 32.

Definition call_fits (c : CpioWriter.call) : Prop :=
  match c with
  | CpioWriter.AddFile p c m u g t =>
      fits m /\ fits u /\ fits g /\ fits t
      /\ fits (len (encode_utf8 p) + 1) /\ fits (len (CpioWriter.content_bytes c))
  | CpioWriter.AddDirectory p m u g t =>
      fits m /\ fits u /\ fits g /\ fits t /\ fits (len (encode_utf8 p) + 1)
  | CpioWriter.AddSymlink p tg m u g t =>
      fits m /\ fits u /\ fits g /\ fits t
      /\ fits (len (encode_utf8 p) + 1) /\ fits (len (encode_utf8 tg))
  end.

(** An upper-case hexadecimal digit. *)
Definition is_hex (c : ascii) : Prop := In c (lit "0123456789ABCDEF").

End NewcFormat.

(** ** [struct.unpack_from] at a computed offset *)

Module Struct.
Import Py.

(** [struct.unpack_from(fmt, buffer, offset)[0]] for one big-endian
    unsigned field of [n] bytes.  A negative offset counts from the end of
    the buffer; [struct.error] is raised when the offset lies before the
    buffer or fewer than [n] bytes follow it. *)
Definition unpack_from (n : nat) (data : bytes) (off : Z) : result Z :=
  let off' := if off <? 0 then off + len data else off in
  if (off' <? 0) || (len data - off' <? Z.of_nat n) then Raise StructError
  else Ok (be_value (slice data off' (off' + Z.of_nat n))).

(** [_read_u16], [_read_u32], [_read_u64] of [dmg_reader.py]. *)
Definition _read_u16 (data : bytes) (off : Z) : result Z := unpack_from 2 data off.
Definition _read_u32 (data : bytes) (off : Z) : result Z := unpack_from 4 data off.
Definition _read_u64 (data : bytes) (off : Z) : result Z := unpack_from 8 data off.

(** [struct.unpack_from(">b", data, off)[0]]: one signed byte. *)
Definition unpack_b (data : bytes) (off : Z) : result Z :=
  v <- unpack_from 1 data off ;;
  Ok (if v <? 128 then v else v - 256).

End Struct.

(** ** The UDIF container  (contrib/tools/lib/dmg_reader.py) *)

Module UdifParse.
Import Py.
Import Struct.

Definition KOLY_MAGIC : Z := 1802464377.   (* 0x6B6F6C79, 'koly' *)
Definition MISH_MAGIC : Z := 1835627368.   (* 0x6D697368, 'mish' *)

(** The dictionary returned by [parse_koly]. *)
Record koly : Type := {
  xml_offset : Z;
  xml_length : Z
}.

(** [parse_koly(f)] on a file holding [file]: [f.seek(0, 2); f.tell()] is
    its length, and [f.seek(file_size - 512); f.read(512)] its last 512
    bytes. *)
Definition parse_koly (file : bytes) : result koly :=
  let file_size := len file in
  if file_size <? 512 then Raise (ValueError "File too small to be a DMG")
  else
    let trailer := slice file (file_size - 512) file_size in
    magic <- unpack_from 4 trailer 0 ;;
    if negb (magic =? KOLY_MAGIC)
    then Raise (ValueError "Not a DMG file: koly magic not found")
    else
      xml_offset <- unpack_from 8 trailer 216 ;;
      xml_length <- unpack_from 8 trailer 224 ;;
      Ok {| xml_offset := xml_offset; xml_length := xml_length |}.

(** The loop [for _ in range(num_chunks)] of [parse_blkx_chunks]; [todo]
    is the number of turns left. *)
Fixpoint chunk_entries (todo : nat) (blkx_data : bytes) (data_offset offset : Z)
    (chunks : list Udif.chunk) : result (list Udif.chunk) :=
  match todo with
  | O => Ok chunks
  | S todo' =>
      if offset + 40 >? len blkx_data then Ok chunks   (* break *)
      else
        entry_type <- unpack_from 4 blkx_data offset ;;
        sector_number <- unpack_from 8 blkx_data (offset + 8) ;;
        sector_count <- unpack_from 8 blkx_data (offset + 16) ;;
        compressed_offset <- unpack_from 8 blkx_data (offset + 24) ;;
        compressed_length <- unpack_from 8 blkx_data (offset + 32) ;;
        let chunks :=
          chunks ++ [ {| Udif.type := entry_type;
                         Udif.sector_number := sector_number;
                         Udif.sector_count := sector_count;
                         Udif.compressed_offset := data_offset + compressed_offset;
                         Udif.compressed_length := compressed_length |} ] in
        chunk_entries todo' blkx_data data_offset (offset + 40) chunks
  end.

Definition parse_blkx_chunks (blkx_data : bytes) : result (list Udif.chunk) :=
  magic <- unpack_from 4 blkx_data 0 ;;
  if negb (magic =? MISH_MAGIC) then Raise (ValueError "Expected mish magic")
  else
    first_sector <- unpack_from 8 blkx_data 8 ;;
    data_offset <- unpack_from 8 blkx_data 24 ;;
    num_chunks <- unpack_from 4 blkx_data 200 ;;
    chunk_entries (Z.to_nat num_chunks) blkx_data data_offset 204 [].

(** The value under ["Data"] of a blkx entry of the plist: [bytes], or a
    [str] holding base64. *)
Inductive blkx_data : Type :=
| DataBytes (b : bytes)
| DataStr (s : str).

(** An entry of the list [plist["resource-fork"]["blkx"]]: the value under
    ["Name"] when the key is there, and the value under ["Data"]. *)
Record blkx_entry : Type := {
  Name : option str;
  Data : blkx_data
}.

(** What the module takes from the Python library: [base64.b64decode], and
    [plistlib.loads] followed by the two [.get] that give the blkx list
    (an absent key gives the empty list). *)
Record Env : Type := {
  b64decode : str -> result bytes;
  plist_blkx : bytes -> result (list blkx_entry)
}.

(** [if isinstance(blkx_data, str): blkx_data = base64.b64decode(blkx_data)]. *)
Definition data_bytes (env : Env) (d : blkx_data) : result bytes :=
  match d with
  | DataBytes b => Ok b
  | DataStr s => b64decode env s
  end.

(** The first loop of [_find_hfs_blkx]: the first entry whose name holds
    ["Apple_HFS"] or ["Apple_HFSX"]. *)
Fixpoint find_by_name (blkx_list : list blkx_entry) : option blkx_entry :=
  match blkx_list with
  | [] => None
  | entry :: rest =>
      let name := match Name entry with Some s => s | None => [] end in
      if PkgReader.contains name (lit "Apple_HFS")
         || PkgReader.contains name (lit "Apple_HFSX")
      then Some entry
      else find_by_name rest
  end.

(** The second loop: the entry with the most sectors in its mish header. *)
Fixpoint find_largest (env : Env) (blkx_list : list blkx_entry)
    (best : option blkx_entry) (best_sectors : Z) : result (option blkx_entry) :=
  match blkx_list with
  | [] => Ok best
  | entry :: rest =>
      blkx_data <- data_bytes env (Data entry) ;;
      if len blkx_data <? 24 then find_largest env rest best best_sectors
      else
        magic <- unpack_from 4 blkx_data 0 ;;
        if negb (magic =? MISH_MAGIC) then find_largest env rest best best_sectors
        else
          sector_count <- unpack_from 8 blkx_data 16 ;;
          if sector_count >? best_sectors
          then find_largest env rest (Some entry) sector_count
          else find_largest env rest best best_sectors
  end.

Definition _find_hfs_blkx (env : Env) (blkx_list : list blkx_entry)
  : result blkx_entry :=
  match find_by_name blkx_list with
  | Some entry => Ok entry
  | None =>
      best <- find_largest env blkx_list None 0 ;;
      match best with
      | Some entry => Ok entry
      | None => Raise (ValueError "No HFS+ partition found in DMG")
      end
  end.

(** [decompress_udif] on the bytes of the file at [dmg_path]: the image,
    and the warnings printed. *)
Definition decompress_udif (env : Env) (codecs : Udif.Codecs) (file : Udif.image_file)
  : result (bytes * list Udif.warning) :=
  koly <- parse_koly (Udif.file_bytes file) ;;
  xml_data <- Udif.read_at file (xml_offset koly) (xml_length koly) ;;
  blkx_list <- plist_blkx env xml_data ;;
  match blkx_list with
  | [] => Raise (ValueError "No blkx entries found in DMG plist")
  | _ :: _ =>
      hfs_blkx <- _find_hfs_blkx env blkx_list ;;
      blkx_data <- data_bytes env (Data hfs_blkx) ;;
      all_chunks <- parse_blkx_chunks blkx_data ;;
      Udif.decompress_chunks codecs file all_chunks
  end.

End UdifParse.

(** ** The HFS+ volume header and catalog  (contrib/tools/lib/dmg_reader.py) *)

Module HfsParse.
Import Py.
Import Struct.
Import HfsPlusReader.

Definition HFS_PLUS_SIGNATURE : bytes := encode_utf8 (lit "H+").
Definition HFSX_SIGNATURE : bytes := encode_utf8 (lit "HX").

(** Catalog record types, as numbers. *)
Definition FOLDER_RECORD_TYPE : Z := 1.
Definition FILE_RECORD_TYPE : Z := 2.

(** What the module takes from the Python library:
    [bytes.decode("utf-16-be")], [None] standing for [UnicodeDecodeError]. *)
Record Env : Type := {
  decode_utf16be : bytes -> option str
}.

(** What [_parse_volume_header] stores in the reader. *)
Record volume_header : Type := {
  vh_block_size : Z;
  cat_logical_size : Z;
  cat_extents : list (Z * Z)
}.

(** [for _ in range(8)]: the extent descriptors up to the first one with
    no blocks. *)
Fixpoint read_cat_extents (todo : nat) (image : bytes) (ext_off : Z)
    (acc : list (Z * Z)) : result (list (Z * Z)) :=
  match todo with
  | O => Ok acc
  | S todo' =>
      start_block <- _read_u32 image ext_off ;;
      block_count <- _read_u32 image (ext_off + 4) ;;
      if block_count =? 0 then Ok acc   (* break *)
      else read_cat_extents todo' image (ext_off + 8)
             (acc ++ [(start_block, block_count)])
  end.

Definition _parse_volume_header (image : bytes) : result volume_header :=
  let vh_off := 1024 in
  let sig := slice image vh_off (vh_off + 2) in
  if negb (bytes_eqb sig HFS_PLUS_SIGNATURE || bytes_eqb sig HFSX_SIGNATURE)
  then Raise (ValueError "Not an HFS+ volume")
  else
    block_size <- _read_u32 image (vh_off + 40) ;;
    let cat_fork_off := vh_off + 272 in
    cat_logical_size <- _read_u64 image cat_fork_off ;;
    let ext_off := cat_fork_off + 16 in
    cat_extents <- read_cat_extents 8 image ext_off [] ;;
    Ok {| vh_block_size := block_size; cat_logical_size := cat_logical_size;
          cat_extents := cat_extents |}.

(** [_read_catalog_data]: the extents of the catalog file, cut at its
    logical size. *)
Definition _read_catalog_data (image : bytes) (vh : volume_header) : bytes :=
  let h := {| image := image; block_size := vh_block_size vh; entries := [] |} in
  let data := read_extents h (cat_extents vh) [] in
  slice_to data (cat_logical_size vh).

(** The loop [for ei in range(8)] over the extents of a data fork. *)
Fixpoint read_fork_extents (todo : nat) (node : bytes) (eo : Z)
    (extents : list (Z * Z)) : result (list (Z * Z)) :=
  match todo with
  | O => Ok extents
  | S todo' =>
      if eo + 8 >? len node then Ok extents   (* break *)
      else
        sb <- _read_u32 node eo ;;
        bc <- _read_u32 node (eo + 4) ;;
        if bc =? 0 then Ok extents   (* break *)
        else read_fork_extents todo' node (eo + 8) (extents ++ [(sb, bc)])
  end.

(** [_parse_catalog_record]: [self.entries] after the call. *)
Definition _parse_catalog_record (env : Env) (node : bytes) (rec_off rec_len : Z)
    (entries : dict) : result dict :=
  key_length <- _read_u16 node rec_off ;;
  if key_length <? 6 then Ok entries
  else
    parent_cnid <- _read_u32 node (rec_off + 2) ;;
    name_length <- _read_u16 node (rec_off + 6) ;;
    let name_bytes_len := name_length * 2 in
    if rec_off + 8 + name_bytes_len >? len node then Ok entries
    else
      match decode_utf16be env (slice node (rec_off + 8) (rec_off + 8 + name_bytes_len)) with
      | None => Ok entries
      | Some name =>
          let data_off := rec_off + 2 + key_length in
          let data_off := if negb (data_off mod 2 =? 0) then data_off + 1 else data_off in
          if data_off + 2 >? rec_off + rec_len then Ok entries
          else
            record_type <- _read_u16 node data_off ;;
            if record_type =? FOLDER_RECORD_TYPE then
              if data_off + 48 >? len node then Ok entries
              else
                cnid <- _read_u32 node (data_off + 8) ;;
                uid <- _read_u32 node (data_off + 32) ;;
                gid <- _read_u32 node (data_off + 36) ;;
                file_mode <- _read_u16 node (data_off + 42) ;;
                Ok (dict_set entries cnid
                      (parent_cnid, name, FOLDER_RECORD,
                       {| i_mode := file_mode; i_uid := uid; i_gid := gid;
                          i_size := None; i_extents := None |}))
            else if record_type =? FILE_RECORD_TYPE then
              if data_off + 96 >? len node then Ok entries
              else
                cnid <- _read_u32 node (data_off + 8) ;;
                uid <- _read_u32 node (data_off + 32) ;;
                gid <- _read_u32 node (data_off + 36) ;;
                file_mode <- _read_u16 node (data_off + 42) ;;
                data_fork_size <- _read_u64 node (data_off + 88) ;;
                let ext_base := data_off + 88 + 16 in
                extents <- read_fork_extents 8 node ext_base [] ;;
                Ok (dict_set entries cnid
                      (parent_cnid, name, FILE_RECORD,
                       {| i_mode := file_mode; i_uid := uid; i_gid := gid;
                          i_size := Some data_fork_size; i_extents := Some extents |}))
            else Ok entries
      end.

(** [_parse_leaf_node]: the loop [for i in range(num_records)], from
    record [i] on, [todo] records being left. *)
Fixpoint leaf_records (env : Env) (todo : nat) (node : bytes)
    (node_size num_records i : Z) (entries : dict) : result dict :=
  match todo with
  | O => Ok entries
  | S todo' =>
      let rec_off_pos := node_size - 2 * (i + 1) in
      rec_off <- _read_u16 node rec_off_pos ;;
      next_off <-
        (if i + 1 <? num_records
         then _read_u16 node (node_size - 2 * (i + 2))
         else _read_u16 node (node_size - 2 * (num_records + 1))) ;;
      let rec_len := next_off - rec_off in
      if (rec_len <? 6) || (rec_off + rec_len >? node_size)
      then leaf_records env todo' node node_size num_records (i + 1) entries
      else
        entries <- _parse_catalog_record env node rec_off rec_len entries ;;
        leaf_records env todo' node node_size num_records (i + 1) entries
  end.

Definition _parse_leaf_node (env : Env) (node : bytes) (node_size num_records : Z)
    (entries : dict) : result dict :=
  leaf_records env (Z.to_nat num_records) node node_size num_records 0 entries.

(** The loop [while node_idx != 0] of [_read_catalog]; [None] when the
    fuel runs out before the loop ends. *)
Fixpoint leaf_chain (env : Env) (fuel : nat) (cat_data : bytes) (node_size node_idx : Z)
    (entries : dict) : option (result dict) :=
  match fuel with
  | O => None
  | S fuel' =>
      if node_idx =? 0 then Some (Ok entries)
      else
        let node_off := node_idx * node_size in
        if node_off + node_size >? len cat_data then Some (Ok entries)   (* break *)
        else
          let node := slice cat_data node_off (node_off + node_size) in
          match _read_u32 node 0 with
          | Raise e => Some (Raise e)
          | Ok f_link =>
              match unpack_b node 8 with
              | Raise e => Some (Raise e)
              | Ok kind =>
                  match _read_u16 node 10 with
                  | Raise e => Some (Raise e)
                  | Ok num_records =>
                      if negb (kind =? -1)
                      then leaf_chain env fuel' cat_data node_size f_link entries
                      else
                        match _parse_leaf_node env node node_size num_records entries with
                        | Raise e => Some (Raise e)
                        | Ok entries =>
                            leaf_chain env fuel' cat_data node_size f_link entries
                        end
                  end
              end
          end
  end.

(** [_read_catalog], run with [fuel] turns of the loop. *)
Definition _read_catalog (env : Env) (fuel : nat) (image : bytes) (vh : volume_header)
  : option (result dict) :=
  let cat_data := _read_catalog_data image vh in
  match _read_u16 cat_data 32 with
  | Raise e => Some (Raise e)
  | Ok node_size =>
      match _read_u32 cat_data 24 with
      | Raise e => Some (Raise e)
      | Ok first_leaf => leaf_chain env fuel cat_data node_size first_leaf []
      end
  end.

(** [HfsPlusReader(image)], run with [fuel] turns of the catalog loop. *)
Definition __init__ (env : Env) (fuel : nat) (image : bytes) : option (result t) :=
  match _parse_volume_header image with
  | Raise e => Some (Raise e)
  | Ok vh =>
      match _read_catalog env fuel image vh with
      | None => None
      | Some (Raise e) => Some (Raise e)
      | Some (Ok entries) =>
          Some (Ok {| image := image; block_size := vh_block_size vh;
                      entries := entries |})
      end
  end.

End HfsParse.

(** ** A small HFS+ volume *)

Module HfsSamples.
Import Py.

(** A decoder for UTF-16-BE text whose characters are all ASCII. *)
Fixpoint ascii_utf16be (b : bytes) : option str :=
  match b with
  | [] => Some []
  | x00 :: c :: rest => option_map (cons (ascii_of_byte c)) (ascii_utf16be rest)
  | _ => None
  end.

Definition env : HfsParse.Env := {| HfsParse.decode_utf16be := ascii_utf16be |}.

(** ["bin"] and ["tool"] in UTF-16-BE. *)
Definition utf16 (s : str) : bytes := flat_map (fun c => [x00; byte_of_ascii c]) s.

(** The key of a catalog record: key length, parent, name length, name. *)
Definition key (parent : Z) (name : str) : bytes :=
  be_bytes 2 (6 + 2 * len name) ++ be_bytes 4 parent ++ be_bytes 2 (len name)
  ++ utf16 name.

(** A folder record of 88 bytes and a file record of 248 bytes. *)
Definition folder_record (cnid uid gid mode : Z) : bytes :=
  be_bytes 2 1 ++ zeros 6 ++ be_bytes 4 cnid ++ zeros 20
  ++ be_bytes 4 uid ++ be_bytes 4 gid ++ zeros 2 ++ be_bytes 2 mode ++ zeros 4
  ++ zeros 40.

Definition file_record (cnid uid gid mode size start_block block_count : Z) : bytes :=
  be_bytes 2 2 ++ zeros 6 ++ be_bytes 4 cnid ++ zeros 20
  ++ be_bytes 4 uid ++ be_bytes 4 gid ++ zeros 2 ++ be_bytes 2 mode ++ zeros 4
  ++ zeros 40
  ++ be_bytes 8 size ++ zeros 4 ++ be_bytes 4 block_count
  ++ be_bytes 4 start_block ++ be_bytes 4 block_count ++ zeros 56
  ++ zeros 80.

(** The leaf node: the folder [bin] under the root, the file [tool] in it. *)
Definition leaf_node : bytes :=
  let record0 := key 2 (lit "bin") ++ folder_record 16 501 20 16877 in
  let record1 := key 16 (lit "tool") ++ file_record 17 501 20 33261 5 5 1 in
  let records := record0 ++ record1 in
  be_bytes 4 0 ++ be_bytes 4 0 ++ [xff; x01] ++ be_bytes 2 2 ++ zeros 2
  ++ records
  ++ zeros (512 - 14 - len records - 6)
  ++ be_bytes 2 (14 + len records) ++ be_bytes 2 (14 + len record0) ++ be_bytes 2 14.

(** The header node of the catalog B-tree: first leaf 1, node size 512. *)
Definition header_node : bytes :=
  zeros 24 ++ be_bytes 4 1 ++ be_bytes 4 1 ++ be_bytes 2 512 ++ zeros 478.

(** The volume header block: block size 512, a catalog of two blocks
    from block 3 on. *)
Definition volume_header_block : bytes :=
  encode_utf8 (lit "H+") ++ be_bytes 2 4 ++ zeros 36 ++ be_bytes 4 512 ++ zeros 228
  ++ be_bytes 8 1024 ++ zeros 4 ++ be_bytes 4 2
  ++ be_bytes 4 3 ++ be_bytes 4 2 ++ zeros 56
  ++ zeros 160.

(** Six blocks: two reserved, the volume header, the catalog, the file. *)
Definition image : bytes :=
  zeros 1024 ++ volume_header_block ++ header_node ++ leaf_node
  ++ encode_utf8 (lit "hello") ++ zeros 507.

End HfsSamples.

(** ** The specifications of the command line  (contrib/tools/rpm_build.py) *)

Module RpmBuild.
Import Py.

(** [s.split(c)] for a separator of one character. *)
Fixpoint split (c : ascii) (s : str) : list str :=
  match s with
  | [] => [[]]
  | x :: s' =>
      if Ascii.eqb x c then [] :: split c s'
      else
        match split c s' with
        | p :: ps => (x :: p) :: ps
        | [] => [[x]]
        end
  end.

(** [s.split(c, 1)]: cut at the first separator, if there is one. *)
Fixpoint split1 (c : ascii) (s : str) : list str :=
  match s with
  | [] => [[]]
  | x :: s' =>
      if Ascii.eqb x c then [[]; s']
      else
        match split1 c s' with
        | p :: ps => (x :: p) :: ps
        | [] => [[x]]
        end
  end.

(** What is taken from the Python library: [int(s, 8)], which may raise. *)
Record Env : Type := {
  int_base8 : str -> result Z
}.

Definition colon : ascii := ":"%char.

(** [parts[k]] for an index known to be in range. *)
Definition part (parts : list str) (k : nat) : str := nth k parts [].

(** [parse_file_spec]: [(target_path, source_path, mode, user, group)].
    The messages of the errors are given without the specification that
    the source quotes in them. *)
Definition parse_file_spec (env : Env) (spec : str)
  : result (str * str * option Z * str * str) :=
  let parts := split colon spec in
  if len parts <? 2 then Raise (ValueError "Invalid file spec: need target:source")
  else
    let target := part parts 0 in
    let source := part parts 1 in
    mode <-
      (if len parts >=? 3 then
         let mode_str := part parts 2 in
         match mode_str with
         | [] => Ok None
         | _ :: _ => m <- int_base8 env mode_str ;; Ok (Some m)
         end
       else Ok None) ;;
    let user := if len parts >=? 4 then part parts 3 else lit "root" in
    let group := if len parts >=? 5 then part parts 4 else lit "root" in
    Ok (target, source, mode, user, group).

(** [parse_dir_spec]: [(path, mode, user, group)]. *)
Definition parse_dir_spec (env : Env) (spec : str) : result (str * Z * str * str) :=
  let parts := split colon spec in
  let path := part parts 0 in
  mode <-
    (if (len parts >=? 2) && negb (len (part parts 1) =? 0)
     then int_base8 env (part parts 1)
     else Ok 493) ;;
  let user := if len parts >=? 3 then part parts 2 else lit "root" in
  let group := if len parts >=? 4 then part parts 3 else lit "root" in
  Ok (path, mode, user, group).

(** [parse_symlink_spec]: [(link_path, target)]. *)
Definition parse_symlink_spec (spec : str) : result (str * str) :=
  let parts := split1 colon spec in
  if negb (len parts =? 2) then Raise (ValueError "Invalid symlink spec: need link:target")
  else Ok (part parts 0, part parts 1).

End RpmBuild.

(** ** Calls on an [RpmWriter]  (contrib/tools/lib/rpm_writer.py) *)

Module RpmCalls.
Import Py.
Import RpmWriter.

(** A call of [add_file], [add_directory] or [add_symlink], and a sequence
    of calls made in order on a writer. *)
Inductive call : Type :=
| AddFile (path : str) (c : CpioWriter.content) (mode uid gid : Z) (user group : str)
| AddDirectory (path : str) (mode uid gid : Z) (user group : str)
| AddSymlink (path target : str) (mode uid gid : Z) (user group : str).

Definition do_call (w : t) (c : call) : t :=
  match c with
  | AddFile p c m u g us gr => add_file w p c m u g us gr
  | AddDirectory p m u g us gr => add_directory w p m u g us gr
  | AddSymlink p tg m u g us gr => add_symlink w p tg m u g us gr
  end.

Definition run (calls : list call) (w : t) : t := fold_left do_call calls w.

End RpmCalls.

(* ====================================================================== *)
(** * Part II.  Properties                                                 *)
(* ====================================================================== *)

(** ** The stable sort *)

Module SortFacts.
Import Py.

Section Sorting.
Context {A K : Type} (key : A -> K) (leb : K -> K -> bool).

(** The order a sorted list is in: each key is below the next one. *)
Definition key_le (x y : A) : Prop := leb (key x) (key y) = true.

Lemma insert_perm (x : A) (l : list A) :
  Permutation (insert key leb x l) (x :: l).
Proof.
  induction l as [|y l IH]; simpl.
  - apply Permutation_refl.
  - destruct (leb (key x) (key y)).
    + apply Permutation_refl.
    + eapply perm_trans; [apply perm_skip, IH | apply perm_swap].
Qed.

Lemma sort_by_perm (l : list A) : Permutation (sort_by key leb l) l.
Proof.
  induction l as [|x l IH]; simpl.
  - constructor.
  - eapply perm_trans; [apply insert_perm | apply perm_skip, IH].
Qed.

Lemma sort_by_In (l : list A) (x : A) : In x (sort_by key leb l) <-> In x l.
Proof.
  split; apply Permutation_in;
    [apply sort_by_perm | apply Permutation_sym, sort_by_perm].
Qed.

Lemma sort_by_length (l : list A) : length (sort_by key leb l) = length l.
Proof. apply Permutation_length, sort_by_perm. Qed.

Hypothesis leb_total : forall a b, leb a b = true \/ leb b a = true.

Lemma insert_hdrel (x a : A) (l : list A) :
  key_le a x -> HdRel key_le a l -> HdRel key_le a (insert key leb x l).
Proof.
  intros Hax Hal. destruct l as [|y l]; simpl.
  - constructor. exact Hax.
  - destruct (leb (key x) (key y)).
    + constructor. exact Hax.
    + constructor. inversion Hal; assumption.
Qed.

Lemma insert_sorted (x : A) (l : list A) :
  Sorted key_le l -> Sorted key_le (insert key leb x l).
Proof.
  induction 1 as [|y l Hs IH Hhd]; simpl.
  - repeat constructor.
  - destruct (leb (key x) (key y)) eqn:E.
    + constructor; [constructor; assumption | constructor; exact E].
    + constructor; [exact IH |].
      apply insert_hdrel; [| exact Hhd].
      destruct (leb_total (key x) (key y)) as [H|H]; [congruence | exact H].
Qed.

Lemma sort_by_sorted (l : list A) : Sorted key_le (sort_by key leb l).
Proof.
  induction l as [|x l IH]; simpl.
  - constructor.
  - apply insert_sorted, IH.
Qed.
End Sorting.

(** *** The order on strings *)

Lemma ascii_compare_N (a b : ascii) :
  Ascii.compare a b = N.compare (N_of_ascii a) (N_of_ascii b).
Proof. reflexivity. Qed.

Lemma ascii_compare_refl (a : ascii) : Ascii.compare a a = Eq.
Proof. rewrite ascii_compare_N. apply N.compare_refl. Qed.

Lemma str_compare_antisym (a b : str) :
  str_compare a b = CompOpp (str_compare b a).
Proof.
  revert b. induction a as [|x a IH]; intros [|y b]; simpl; try reflexivity.
  rewrite Ascii.compare_antisym.
  destruct (Ascii.compare y x); simpl; auto.
Qed.

Lemma str_leb_total (a b : str) : str_leb a b = true \/ str_leb b a = true.
Proof.
  unfold str_leb. rewrite (str_compare_antisym a b).
  destruct (str_compare b a); simpl; auto.
Qed.

Lemma str_compare_eq (a b : str) : str_compare a b = Eq -> a = b.
Proof.
  revert b. induction a as [|x a IH]; intros [|y b]; simpl; try congruence.
  destruct (Ascii.compare x y) eqn:E; try discriminate.
  intros H. apply Ascii.compare_eq_iff in E. f_equal; auto.
Qed.

Lemma str_compare_refl (a : str) : str_compare a a = Eq.
Proof.
  induction a as [|x a IH]; simpl; [reflexivity |].
  rewrite ascii_compare_refl. exact IH.
Qed.

Lemma str_eqb_eq (a b : str) : str_eqb a b = true <-> a = b.
Proof.
  unfold str_eqb. split.
  - destruct (str_compare a b) eqn:E; try discriminate.
    intros _. apply str_compare_eq, E.
  - intros ->. rewrite str_compare_refl. reflexivity.
Qed.

Lemma str_eqb_refl (a : str) : str_eqb a a = true.
Proof. apply str_eqb_eq. reflexivity. Qed.

Lemma str_eqb_neq (a b : str) : str_eqb a b = false <-> a <> b.
Proof.
  split.
  - intros H E. apply str_eqb_eq in E. congruence.
  - intros H. destruct (str_eqb a b) eqn:E; [| reflexivity].
    apply str_eqb_eq in E. contradiction.
Qed.

(** The paths of a list of entries are in order. *)
Definition sorted_by_path (l : list TreeReader.FileInfo) : Prop :=
  Sorted (key_le TreeReader.path str_leb) l.

Lemma sort_by_path_sorted (l : list TreeReader.FileInfo) :
  sorted_by_path (sort_by TreeReader.path str_leb l).
Proof. apply sort_by_sorted, str_leb_total. Qed.

Lemma sorted_first_two (l : list TreeReader.FileInfo) (a b : str) (rest : list str) :
  sorted_by_path l ->
  map TreeReader.path l = a :: b :: rest ->
  str_leb a b = true.
Proof.
  intros Hs Hp.
  destruct l as [|x [|y l]]; simpl in Hp; try discriminate.
  inversion Hp; subst.
  inversion Hs as [|? ? _ Hhd]; subst.
  inversion Hhd as [|? ? Hle]; subst.
  exact Hle.
Qed.

End SortFacts.

(** ** The HFS+ catalog: paths and enumeration *)

Module HfsFacts.
Import Py.
Import TreeReader.
Import HfsPlusReader.
Import SortFacts.

Definition keys (d : dict) : list Z := map fst d.

Lemma dict_get_key (d : dict) (k : Z) (v : catalog_entry) :
  dict_get d k = Some v -> In k (keys d).
Proof.
  induction d as [|[k' v'] d IH]; simpl; [discriminate |].
  destruct (k' =? k) eqn:E.
  - intros _. left. apply Z.eqb_eq, E.
  - intros H. right. apply IH, H.
Qed.

Lemma seen_spec (current : Z) (seen : list Z) :
  existsb (Z.eqb current) seen = true <-> In current seen.
Proof.
  rewrite existsb_exists. split.
  - intros [x [Hin E]]. apply Z.eqb_eq in E. subst. exact Hin.
  - intros H. exists current. split; [exact H | apply Z.eqb_refl].
Qed.

(** The loop, started in a state where the visited CNIDs are distinct
    keys, ends within the fuel left by the keys not yet visited, and does
    what [walk] says. *)
Lemma build_path_loop_walk (entries : dict) :
  forall (fuel : nat) (current : Z) (seen : list Z) (parts : list str),
    NoDup seen ->
    incl seen (keys entries) ->
    (length (keys entries) - length seen < fuel)%nat ->
    exists seen' parts',
      build_path_loop fuel entries current seen parts = Some parts'
      /\ walk entries current seen parts seen' parts'
      /\ NoDup seen'
      /\ incl seen' (keys entries).
Proof.
  induction fuel as [|fuel IH]; intros current seen parts Hnd Hincl Hfuel.
  - exfalso. apply (Nat.nlt_0_r _ Hfuel).
  - simpl.
    destruct (dict_get entries current) as [[[[parent_cnid name] rt] info]|] eqn:Hget.
    + destruct (existsb (Z.eqb current) seen) eqn:Hseen.
      * exists seen, parts. repeat split; auto.
        eapply walk_cycle; [exact Hget | apply seen_spec, Hseen].
      * assert (Hnotin : ~ In current seen).
        { intros Hin. apply seen_spec in Hin. congruence. }
        assert (Hnd' : NoDup (current :: seen)) by (constructor; assumption).
        assert (Hincl' : incl (current :: seen) (keys entries)).
        { intros x [<-|Hx]; [eapply dict_get_key, Hget | apply Hincl, Hx]. }
        destruct ((parent_cnid =? ROOT_FOLDER_CNID) || (parent_cnid =? ROOT_PARENT_CNID))
          eqn:Hroot.
        -- exists (current :: seen), (parts ++ [name]). repeat split; auto.
           eapply walk_root; [exact Hget | exact Hnotin |].
           apply orb_true_iff in Hroot.
           destruct Hroot as [H|H]; apply Z.eqb_eq in H; auto.
        -- apply orb_false_iff in Hroot. destruct Hroot as [H2 H1].
           apply Z.eqb_neq in H2, H1.
           pose proof (NoDup_incl_length Hnd' Hincl') as Hlen. simpl in Hlen.
           destruct (IH parent_cnid (current :: seen) (parts ++ [name]) Hnd' Hincl')
             as (seen' & parts' & Hrun & Hwalk & Hnd'' & Hincl'').
           { simpl. lia. }
           exists seen', parts'. repeat split; auto.
           eapply walk_up; eauto.
    + exists seen, parts. repeat split; auto. apply walk_absent, Hget.
Qed.

(** The walk is a function of its start. *)
Lemma walk_deterministic (entries : dict) current seen parts s1 p1 s2 p2 :
  walk entries current seen parts s1 p1 ->
  walk entries current seen parts s2 p2 ->
  s1 = s2 /\ p1 = p2.
Proof.
  intros W1. revert s2 p2.
  induction W1 as [c s p Hg | c s p e Hg Hin | c s p pc n rt i Hg Hn Hr
                  | c s p pc n rt i s' p' Hg Hn H2 H1 W IH];
    intros s2 p2 W2; inversion W2; subst;
    repeat match goal with
      | Ha : dict_get ?d ?c = _, Hb : dict_get ?d ?c = _ |- _ =>
          rewrite Ha in Hb; inversion Hb; subst; clear Hb
      end;
    try contradiction; try (intuition congruence); auto.
Qed.

(** The names collected are those of the records visited, in the order of
    the visit. *)
Definition name_of (entries : dict) (cnid : Z) : str :=
  match dict_get entries cnid with
  | Some (_, name, _, _) => name
  | None => []
  end.

Lemma walk_names (entries : dict) current seen parts seen' parts' :
  walk entries current seen parts seen' parts' ->
  parts = map (name_of entries) (rev seen) ->
  parts' = map (name_of entries) (rev seen').
Proof.
  induction 1 as [c s p Hg | c s p e Hg Hin | c s p pc n rt i Hg Hn Hr
                 | c s p pc n rt i s' p' Hg Hn H2 H1 W IH]; intros Hp; auto.
  - simpl. rewrite map_app. simpl. unfold name_of at 2. rewrite Hg. congruence.
  - apply IH. simpl. rewrite map_app. simpl. unfold name_of at 2. rewrite Hg. congruence.
Qed.

(** C9.  [build_path] terminates on every catalog, cyclic or not: the loop
    returns within [len(entries) + 1] turns (and gives the same result with
    any larger bound), it visits each CNID at most once, and the path is the
    names of the records met along the parent chain -- up to a missing
    record, a CNID met before, or a parent equal to [ROOT_FOLDER_CNID = 2]
    or [ROOT_PARENT_CNID = 1] -- reversed and joined with ["/"]. *)
Theorem build_path_terminates (h : t) (cnid : Z) :
  exists (visited : list Z) (parts : list str),
    (forall fuel, (length (entries h) < fuel)%nat ->
       build_path_loop fuel (entries h) cnid [] [] = Some parts)
    /\ walk (entries h) cnid [] [] visited parts
    /\ NoDup visited
    /\ parts = map (name_of (entries h)) (rev visited)
    /\ build_path h cnid = join (lit "/") (rev parts).
Proof.
  assert (Hk : length (keys (entries h)) = length (entries h))
    by apply length_map.
  destruct (build_path_loop_walk (entries h) (S (length (entries h))) cnid [] [])
    as (visited & parts & Hrun & Hwalk & Hnd & _).
  { constructor. } { intros x []. } { simpl. lia. }
  exists visited, parts. repeat split; auto.
  - intros fuel Hfuel.
    destruct (build_path_loop_walk (entries h) fuel cnid [] [])
      as (v' & p' & Hrun' & Hwalk' & _).
    { constructor. } { intros x []. } { simpl. lia. }
    destruct (walk_deterministic _ _ _ _ _ _ _ _ Hwalk Hwalk') as [_ ->].
    exact Hrun'.
  - eapply walk_names; [exact Hwalk | reflexivity].
  - unfold build_path, build_path_parts. rewrite Hrun. reflexivity.
Qed.

(** Two records that name each other as parent: the walk from either one
    stops when it comes back to its start. *)
Example build_path_on_a_cycle :
  build_path Samples.volume 20 = lit "yang/ying"
  /\ build_path Samples.volume 21 = lit "ying/yang"
  /\ build_path Samples.volume 17 = lit "bin/tool".
Proof. repeat split; vm_compute; reflexivity. Qed.

(** *** What [get_all_files] yields *)

Lemma collect_In (h : t) (d : dict) (acc : list FileInfo) (fi : FileInfo) :
  In fi (collect h d acc) <->
  In fi acc \/ exists cnid e, In (cnid, e) d /\ file_info h cnid e = Some fi.
Proof.
  revert acc. induction d as [|[cnid e] d IH]; intros acc; simpl.
  - split; [auto | intros [H | (c & e & [] & _)]; exact H].
  - destruct (file_info h cnid e) as [fi'|] eqn:E; rewrite IH.
    + rewrite in_app_iff. simpl. split.
      * intros [[H | [<- | []]] | (c & e' & Hin & Hfi)].
        -- auto.
        -- right. exists cnid, e. auto.
        -- right. exists c, e'. auto.
      * intros [H | (c & e' & [Heq | Hin] & Hfi)].
        -- auto.
        -- inversion Heq; subst. left. right. left. congruence.
        -- right. exists c, e'. auto.
    + split.
      * intros [H | (c & e' & Hin & Hfi)]; [auto |].
        right. exists c, e'. auto.
      * intros [H | (c & e' & [Heq | Hin] & Hfi)]; [auto | |].
        -- inversion Heq; subst. congruence.
        -- right. exists c, e'. auto.
Qed.

Lemma get_all_files_In (h : t) (fi : FileInfo) :
  In fi (get_all_files h) <->
  exists cnid e, In (cnid, e) (entries h) /\ file_info h cnid e = Some fi.
Proof.
  unfold get_all_files. rewrite sort_by_In, collect_In. simpl.
  split; [intros [[] | H]; exact H | auto].
Qed.

(** The flags, size and target of an entry made by [get_all_files]. *)
Definition entry_invariant (fi : FileInfo) : Prop :=
  (is_dir fi = true -> size fi = 0)
  /\ (is_symlink fi = true -> size fi = 0)
  /\ (is_dir fi && is_symlink fi = false)
  /\ symlink_target fi = None.

Lemma file_info_invariant (h : t) (cnid : Z) (e : catalog_entry) (fi : FileInfo) :
  file_info h cnid e = Some fi -> entry_invariant fi.
Proof.
  destruct e as [[[parent_cnid name] rt] info]. unfold file_info.
  destruct (cnid =? ROOT_FOLDER_CNID); [discriminate |].
  destruct (build_path h cnid) as [|c p]; [discriminate |].
  destruct rt; intros H; inversion H; subst; clear H; unfold entry_invariant; simpl.
  - repeat split; auto; discriminate.
  - destruct (Z.land (i_mode info) S_IFMT =? S_IFLNK); repeat split; auto; discriminate.
Qed.

(** C1, as the code has it.  Every entry of [get_all_files] satisfies:
    [is_dir] implies [size = 0]; [is_symlink] implies [size = 0];
    [is_dir] and [is_symlink] are not both set; and [symlink_target] is
    always [None], for symbolic links too. *)
Theorem get_all_files_invariant (h : t) :
  Forall entry_invariant (get_all_files h).
Proof.
  apply Forall_forall. intros fi Hin.
  apply get_all_files_In in Hin. destruct Hin as (cnid & e & _ & Hfi).
  eapply file_info_invariant, Hfi.
Qed.

(** C1, as stated, fails: the record [latest] of the sample volume has the
    file-type bits of a symbolic link, and its entry has [is_symlink] set
    and no target. *)
Lemma symlink_without_target :
  ~ Forall (fun fi => is_symlink fi = true ->
                      size fi = 0 /\ symlink_target fi <> None)
           (get_all_files Samples.volume).
Proof.
  intros H. rewrite Forall_forall in H.
  assert (Hin : In {| path := lit "latest"; size := 0; mode := 41471; uid := 501;
                      gid := 20; is_dir := false; is_symlink := true;
                      symlink_target := None |}
                   (get_all_files Samples.volume)).
  { vm_compute. right. right. left. reflexivity. }
  destruct (H _ Hin eq_refl) as [_ Hne]. apply Hne. reflexivity.
Qed.

(** The list returned by [get_all_files] is in path order. *)
Lemma get_all_files_sorted (h : t) : sorted_by_path (get_all_files h).
Proof. apply sort_by_path_sorted. Qed.

End HfsFacts.

(** ** The pkg and dmg readers *)

Module ReaderFacts.
Import Py.
Import TreeReader.
Import SortFacts.

(** *** Successive [next()] calls give the items, in their order *)

Lemma pkg_drain (items : list FileInfo) :
  forall (fuel i : nat),
    (i <= length items)%nat ->
    (length items - i < fuel)%nat ->
    PkgReader.drain fuel {| PkgReader.items := items; PkgReader.index := Z.of_nat i |}
    = skipn i items.
Proof.
  induction fuel as [|fuel IH]; intros i Hi Hfuel; [lia |].
  simpl. unfold PkgReader.next, len. simpl.
  destruct (Z.of_nat i <? Z.of_nat (length items)) eqn:E.
  - apply Z.ltb_lt in E. rewrite Nat2Z.id.
    destruct (nth_error items i) as [x|] eqn:Hn.
    + replace (Z.of_nat i + 1) with (Z.of_nat (S i)) by lia.
      rewrite IH by lia.
      clear - Hn. revert i Hn. induction items as [|y items IHl]; intros [|i] Hn;
        simpl in *; try discriminate.
      * congruence.
      * apply IHl, Hn.
    + apply nth_error_None in Hn. lia.
  - apply Z.ltb_ge in E. rewrite skipn_all2 by lia. reflexivity.
Qed.

Lemma pkg_all_next (r : PkgReader.t) :
  PkgReader.index r = 0 -> PkgReader.all_next r = PkgReader.items r.
Proof.
  destruct r as [items index]. simpl. intros ->.
  unfold PkgReader.all_next. simpl.
  apply (pkg_drain items (S (length items)) 0); lia.
Qed.

Lemma dmg_drain (items : list FileInfo) (d : bool) :
  forall (fuel i : nat),
    (i <= length items)%nat ->
    (length items - i < fuel)%nat ->
    DmgReader.drain fuel {| DmgReader.items := items; DmgReader.index := Z.of_nat i;
                            DmgReader.done := d |}
    = skipn i items.
Proof.
  induction fuel as [|fuel IH]; intros i Hi Hfuel; [lia |].
  simpl. unfold DmgReader.next, len. simpl.
  destruct (Z.of_nat i <? Z.of_nat (length items)) eqn:E.
  - apply Z.ltb_lt in E. rewrite Nat2Z.id.
    destruct (nth_error items i) as [x|] eqn:Hn.
    + replace (Z.of_nat i + 1) with (Z.of_nat (S i)) by lia.
      rewrite IH by lia.
      clear - Hn. revert i Hn. induction items as [|y items IHl]; intros [|i] Hn;
        simpl in *; try discriminate.
      * congruence.
      * apply IHl, Hn.
    + apply nth_error_None in Hn. lia.
  - apply Z.ltb_ge in E. rewrite skipn_all2 by lia. reflexivity.
Qed.

Lemma dmg_all_next (env : PkgReader.Env) (hfs : HfsPlusReader.t) :
  DmgReader.all_next (fst (DmgReader.__init__ env hfs))
  = fst (DmgReader._load env hfs).
Proof.
  unfold DmgReader.__init__. destruct (DmgReader._load env hfs) as [items stderr].
  simpl. unfold DmgReader.all_next. simpl.
  apply (dmg_drain items false (S (length items)) 0); lia.
Qed.

Lemma dmg_load_sorted (env : PkgReader.Env) (hfs : HfsPlusReader.t) :
  sorted_by_path (fst (DmgReader._load env hfs)).
Proof.
  unfold DmgReader._load.
  destruct (DmgReader.recurse env hfs (HfsPlusReader.entries hfs)
              (HfsPlusReader.get_all_files hfs) []) as [items stderr].
  simpl. apply sort_by_path_sorted.
Qed.

(** *** [PkgReader] keeps the order of the archive *)

(** The entries read from each payload, payload by payload. *)
Definition payload_entries (env : PkgReader.Env) (data : bytes)
    (header : PkgReader.xar_header) (p : PkgReader.payload_info)
    (entries : list FileInfo) : Prop :=
  exists payload_bytes,
    PkgReader.extract_payload env data header p = Ok payload_bytes
    /\ PkgReader.read_cpio env payload_bytes = Ok entries.

Lemma load_payloads_concat env data header :
  forall payloads acc items,
    PkgReader.load_payloads env data header payloads acc = Ok items ->
    exists chunks,
      Forall2 (payload_entries env data header) payloads chunks
      /\ items = acc ++ concat chunks.
Proof.
  induction payloads as [|p payloads IH]; intros acc items; simpl.
  - intros H. inversion H; subst. exists []. split; [constructor |].
    simpl. rewrite app_nil_r. reflexivity.
  - destruct (PkgReader.extract_payload env data header p) as [b|e] eqn:Hx;
      simpl; [| discriminate].
    destruct (PkgReader.read_cpio env b) as [es|e] eqn:Hr; simpl; [| discriminate].
    intros H. destruct (IH _ _ H) as (chunks & HF & ->).
    exists (es :: chunks). split.
    + constructor; [exists b; auto | exact HF].
    + simpl. rewrite app_assoc. reflexivity.
Qed.

Lemma pkg_init_items env data r :
  PkgReader.__init__ env data = Ok r ->
  PkgReader.index r = 0
  /\ exists header payloads chunks,
       PkgReader.parse_xar_header data = Ok header
       /\ PkgReader.parse_xar_toc env data header = Ok payloads
       /\ Forall2 (payload_entries env data header) payloads chunks
       /\ PkgReader.items r = concat chunks.
Proof.
  unfold PkgReader.__init__, PkgReader._load.
  destruct (PkgReader.parse_xar_header data) as [header|e] eqn:Hh; simpl; [| discriminate].
  destruct (PkgReader.parse_xar_toc env data header) as [payloads|e] eqn:Ht;
    simpl; [| discriminate].
  destruct (PkgReader.load_payloads env data header payloads []) as [items|e] eqn:Hl;
    simpl; [| discriminate].
  intros H. inversion H; subst; clear H. simpl. split; [reflexivity |].
  destruct (load_payloads_concat _ _ _ _ _ _ Hl) as (chunks & HF & ->).
  exists header, payloads, chunks. auto.
Qed.

(** C3, as the code has it.  [HfsPlusReader.get_all_files] returns a list
    sorted by path, and the successive [next()] results of a [DmgReader]
    are its items, sorted by path.  [PkgReader] does not sort: its
    successive [next()] results are the entries of the payloads, payload
    after payload in the order of the TOC, each in the order the cpio
    reader gave them. *)
Theorem snapshot_readers_order :
  (forall h : HfsPlusReader.t, sorted_by_path (HfsPlusReader.get_all_files h))
  /\ (forall (env : PkgReader.Env) (hfs : HfsPlusReader.t),
        DmgReader.all_next (fst (DmgReader.__init__ env hfs))
        = DmgReader.items (fst (DmgReader.__init__ env hfs))
        /\ sorted_by_path (DmgReader.all_next (fst (DmgReader.__init__ env hfs))))
  /\ (forall (env : PkgReader.Env) (data : bytes) (r : PkgReader.t),
        PkgReader.__init__ env data = Ok r ->
        exists header payloads chunks,
          PkgReader.parse_xar_header data = Ok header
          /\ PkgReader.parse_xar_toc env data header = Ok payloads
          /\ Forall2 (payload_entries env data header) payloads chunks
          /\ PkgReader.all_next r = concat chunks).
Proof.
  split; [| split].
  - intros h. apply HfsFacts.get_all_files_sorted.
  - intros env hfs. rewrite dmg_all_next. split.
    + unfold DmgReader.__init__.
      destruct (DmgReader._load env hfs) as [items stderr]. reflexivity.
    + apply dmg_load_sorted.
  - intros env data r Hinit.
    destruct (pkg_init_items env data r Hinit)
      as (Hidx & header & payloads & chunks & Hh & Ht & HF & Hitems).
    exists header, payloads, chunks. repeat split; auto.
    rewrite pkg_all_next by exact Hidx. exact Hitems.
Qed.

(** C3, as stated, fails for [PkgReader]: on the sample installer, whose
    cpio payload lists [b] before [a], the successive [next()] results are
    [b] then [a]. *)
Lemma pkg_reader_keeps_archive_order :
  exists r : PkgReader.t,
    PkgReader.__init__ Samples.pkg_env Samples.pkg_data = Ok r
    /\ map path (PkgReader.all_next r) = [lit "b"; lit "a"]
    /\ ~ sorted_by_path (PkgReader.all_next r).
Proof.
  eexists. split; [vm_compute; reflexivity |].
  split; [vm_compute; reflexivity |].
  intros Hs.
  assert (H : str_leb (lit "b") (lit "a") = true).
  { eapply sorted_first_two; [exact Hs | vm_compute; reflexivity]. }
  vm_compute in H. discriminate.
Qed.

(** *** The recursion of [DmgReader] into inner installers *)

Lemma bytes_eqb_eq (a b : bytes) : bytes_eqb a b = true <-> a = b.
Proof.
  revert b. induction a as [|x a IH]; intros [|y b]; simpl;
    try (split; [discriminate | congruence]); [tauto |].
  rewrite andb_true_iff, IH. split.
  - intros [Hx ->]. f_equal. apply Byte.byte_dec_bl, Hx.
  - intros H. inversion H; subst. split; [apply Byte.byte_dec_lb |]; reflexivity.
Qed.

(** The entry of an inner installer, as it is appended to the items. *)
Definition prefixed (e : FileInfo) : FileInfo :=
  set_path e (DmgReader.PKG_PREFIX ++ path e).

(** What the [try] block does, case by case. *)
Lemma read_inner_pkg_cases (env : PkgReader.Env) (hfs : HfsPlusReader.t) (cnid : Z) :
  match DmgReader.read_inner_pkg env hfs cnid with
  | Ok None =>
      exists pkg_bytes,
        HfsPlusReader.read_file hfs cnid = Ok pkg_bytes
        /\ (pkg_bytes = [] \/ slice pkg_bytes 0 4 <> PkgReader.XAR_MAGIC)
  | Ok (Some entries) =>
      exists pkg_bytes pkg,
        HfsPlusReader.read_file hfs cnid = Ok pkg_bytes
        /\ slice pkg_bytes 0 4 = PkgReader.XAR_MAGIC
        /\ PkgReader.__init__ env pkg_bytes = Ok pkg
        /\ entries = map prefixed (PkgReader.items pkg)
  | Raise e =>
      HfsPlusReader.read_file hfs cnid = Raise e
      \/ exists pkg_bytes,
           HfsPlusReader.read_file hfs cnid = Ok pkg_bytes
           /\ slice pkg_bytes 0 4 = PkgReader.XAR_MAGIC
           /\ PkgReader.__init__ env pkg_bytes = Raise e
  end.
Proof.
  unfold DmgReader.read_inner_pkg.
  destruct (HfsPlusReader.read_file hfs cnid) as [pkg_bytes|e]; simpl; [| auto].
  destruct (len pkg_bytes =? 0) eqn:Hlen; simpl.
  - exists pkg_bytes. split; [reflexivity |]. left.
    apply Z.eqb_eq in Hlen. unfold len in Hlen.
    destruct pkg_bytes; [reflexivity | simpl in Hlen; lia].
  - destruct (bytes_eqb (slice pkg_bytes 0 4) PkgReader.XAR_MAGIC) eqn:Hm; simpl.
    + apply bytes_eqb_eq in Hm.
      destruct (PkgReader.__init__ env pkg_bytes) as [pkg|e] eqn:Hinit; simpl.
      * exists pkg_bytes, pkg. repeat split; auto.
        rewrite (pkg_all_next pkg) by apply (pkg_init_items _ _ _ Hinit).
        reflexivity.
      * right. exists pkg_bytes. auto.
    + exists pkg_bytes. split; [reflexivity |]. right.
      intros H. apply bytes_eqb_eq in H. congruence.
Qed.

(** A [.pkg] file record of the catalog. *)
Definition pkg_record (d : HfsPlusReader.dict) (cnid : Z) : Prop :=
  exists parent_cnid name info,
    In (cnid, (parent_cnid, name, HfsPlusReader.FILE_RECORD, info)) d
    /\ endswith name (lit ".pkg") = true.

(** What one item of [hfs.entries] adds to the items and to [stderr]. *)
Definition inner_of (env : PkgReader.Env) (hfs : HfsPlusReader.t)
    (item : Z * HfsPlusReader.catalog_entry) : list FileInfo * list DmgReader.warning :=
  let '(cnid, (_, name, rt, _)) := item in
  match rt with
  | HfsPlusReader.FOLDER_RECORD => ([], [])
  | HfsPlusReader.FILE_RECORD =>
      if endswith name (lit ".pkg") then
        match DmgReader.read_inner_pkg env hfs cnid with
        | Ok None => ([], [])
        | Ok (Some entries) => (entries, [])
        | Raise e =>
            ([], [DmgReader.FailedToReadPkg (HfsPlusReader.build_path hfs cnid) e])
        end
      else ([], [])
  end.

Lemma recurse_app (env : PkgReader.Env) (hfs : HfsPlusReader.t) :
  forall (todo : HfsPlusReader.dict) items stderr,
    DmgReader.recurse env hfs todo items stderr
    = (items ++ flat_map (fun it => fst (inner_of env hfs it)) todo,
       stderr ++ flat_map (fun it => snd (inner_of env hfs it)) todo).
Proof.
  induction todo as [|[cnid [[[parent_cnid name] rt] info]] todo IH];
    intros items stderr; simpl.
  - rewrite !app_nil_r. reflexivity.
  - destruct rt; simpl; [apply IH |].
    destruct (endswith name (lit ".pkg")); simpl; [| apply IH].
    destruct (DmgReader.read_inner_pkg env hfs cnid) as [[entries|]|e]; simpl;
      rewrite IH, <- ?app_assoc; reflexivity.
Qed.

Lemma inner_items_In env hfs (d : HfsPlusReader.dict) (x : FileInfo) :
  In x (flat_map (fun it => fst (inner_of env hfs it)) d) <->
  exists cnid entries,
    pkg_record d cnid
    /\ DmgReader.read_inner_pkg env hfs cnid = Ok (Some entries)
    /\ In x entries.
Proof.
  rewrite in_flat_map. split.
  - intros ([cnid [[[parent_cnid name] rt] info]] & Hin & Hx). simpl in Hx.
    destruct rt; [destruct Hx |].
    destruct (endswith name (lit ".pkg")) eqn:He; [| destruct Hx].
    destruct (DmgReader.read_inner_pkg env hfs cnid) as [[entries|]|e] eqn:Hr;
      try (destruct Hx; fail).
    exists cnid, entries. repeat split; auto.
    exists parent_cnid, name, info. auto.
  - intros (cnid & entries & (parent_cnid & name & info & Hin & He) & Hr & Hx).
    exists (cnid, (parent_cnid, name, HfsPlusReader.FILE_RECORD, info)).
    split; [exact Hin |]. simpl. rewrite He, Hr. exact Hx.
Qed.

Lemma inner_warnings_In env hfs (d : HfsPlusReader.dict) (w : DmgReader.warning) :
  In w (flat_map (fun it => snd (inner_of env hfs it)) d) <->
  exists cnid e,
    pkg_record d cnid
    /\ DmgReader.read_inner_pkg env hfs cnid = Raise e
    /\ w = DmgReader.FailedToReadPkg (HfsPlusReader.build_path hfs cnid) e.
Proof.
  rewrite in_flat_map. split.
  - intros ([cnid [[[parent_cnid name] rt] info]] & Hin & Hx). simpl in Hx.
    destruct rt; [destruct Hx |].
    destruct (endswith name (lit ".pkg")) eqn:He; [| destruct Hx].
    destruct (DmgReader.read_inner_pkg env hfs cnid) as [[entries|]|e] eqn:Hr;
      try (destruct Hx; fail).
    destruct Hx as [<- | []].
    exists cnid, e. repeat split; auto.
    exists parent_cnid, name, info. auto.
  - intros (cnid & e & (parent_cnid & name & info & Hin & He) & Hr & ->).
    exists (cnid, (parent_cnid, name, HfsPlusReader.FILE_RECORD, info)).
    split; [exact Hin |]. simpl. rewrite He, Hr. left. reflexivity.
Qed.

(** The items and the warnings of [_load], up to the final sort. *)
Lemma dmg_load_spec (env : PkgReader.Env) (hfs : HfsPlusReader.t) :
  exists items stderr,
    DmgReader._load env hfs = (items, stderr)
    /\ Permutation items
         (HfsPlusReader.get_all_files hfs
          ++ flat_map (fun it => fst (inner_of env hfs it)) (HfsPlusReader.entries hfs))
    /\ stderr = flat_map (fun it => snd (inner_of env hfs it)) (HfsPlusReader.entries hfs).
Proof.
  unfold DmgReader._load. rewrite recurse_app. simpl.
  eexists. eexists. split; [reflexivity |]. split; [| reflexivity].
  apply sort_by_perm.
Qed.

(** C8.  [DmgReader._load] returns for every catalog and every behaviour
    of the pkg reader.  Its items hold every entry of the HFS+ enumeration
    and, for each [.pkg] file record whose bytes start with ["xar!"] and
    that [PkgReader] reads, every entry of the inner pkg with ["@PKG@/"]
    put before its path; nothing else.  When reading the file or parsing
    the inner pkg raises, one warning naming the pkg and the exception is
    printed, and the items are otherwise the same. *)
Theorem inner_pkg_recursion (env : PkgReader.Env) (hfs : HfsPlusReader.t) :
  exists items stderr,
    DmgReader._load env hfs = (items, stderr)
    /\ (forall fi, In fi (HfsPlusReader.get_all_files hfs) -> In fi items)
    /\ (forall cnid pkg_bytes pkg,
          pkg_record (HfsPlusReader.entries hfs) cnid ->
          HfsPlusReader.read_file hfs cnid = Ok pkg_bytes ->
          slice pkg_bytes 0 4 = PkgReader.XAR_MAGIC ->
          PkgReader.__init__ env pkg_bytes = Ok pkg ->
          forall e, In e (PkgReader.items pkg) ->
                    In {| path := lit "@PKG@/" ++ path e; size := size e;
                          mode := mode e; uid := uid e; gid := gid e;
                          is_dir := is_dir e; is_symlink := is_symlink e;
                          symlink_target := symlink_target e |} items)
    /\ (forall cnid e,
          pkg_record (HfsPlusReader.entries hfs) cnid ->
          (HfsPlusReader.read_file hfs cnid = Raise e
           \/ exists pkg_bytes,
                HfsPlusReader.read_file hfs cnid = Ok pkg_bytes
                /\ slice pkg_bytes 0 4 = PkgReader.XAR_MAGIC
                /\ PkgReader.__init__ env pkg_bytes = Raise e) ->
          In (DmgReader.FailedToReadPkg (HfsPlusReader.build_path hfs cnid) e) stderr)
    /\ (forall x, In x items ->
          In x (HfsPlusReader.get_all_files hfs)
          \/ exists cnid pkg_bytes pkg e,
               pkg_record (HfsPlusReader.entries hfs) cnid
               /\ HfsPlusReader.read_file hfs cnid = Ok pkg_bytes
               /\ PkgReader.__init__ env pkg_bytes = Ok pkg
               /\ In e (PkgReader.items pkg)
               /\ x = {| path := lit "@PKG@/" ++ path e; size := size e;
                         mode := mode e; uid := uid e; gid := gid e;
                         is_dir := is_dir e; is_symlink := is_symlink e;
                         symlink_target := symlink_target e |})
    /\ (forall w, In w stderr ->
          exists cnid e,
            pkg_record (HfsPlusReader.entries hfs) cnid
            /\ DmgReader.read_inner_pkg env hfs cnid = Raise e
            /\ w = DmgReader.FailedToReadPkg (HfsPlusReader.build_path hfs cnid) e).
Proof.
  destruct (dmg_load_spec env hfs) as (items & stderr & Hload & Hperm & Hwarn).
  exists items, stderr. split; [exact Hload |].
  assert (Hin : forall x, In x items <->
            In x (HfsPlusReader.get_all_files hfs)
            \/ In x (flat_map (fun it => fst (inner_of env hfs it))
                              (HfsPlusReader.entries hfs))).
  { intros x. rewrite <- in_app_iff. split; apply Permutation_in;
      [exact Hperm | apply Permutation_sym, Hperm]. }
  repeat split.
  - intros fi Hfi. apply Hin. left. exact Hfi.
  - intros cnid pkg_bytes pkg Hrec Hread Hmagic Hinit e He.
    apply Hin. right. apply inner_items_In.
    exists cnid, (map prefixed (PkgReader.items pkg)). repeat split; auto.
    + unfold DmgReader.read_inner_pkg. rewrite Hread. simpl.
      assert (Hne : (len pkg_bytes =? 0) = false).
      { apply Z.eqb_neq. intros H0. unfold len in H0.
        destruct pkg_bytes; [vm_compute in Hmagic; discriminate | simpl in H0; lia]. }
      rewrite Hne. simpl.
      apply bytes_eqb_eq in Hmagic. rewrite Hmagic. simpl.
      rewrite Hinit. simpl.
      rewrite (pkg_all_next pkg) by apply (pkg_init_items _ _ _ Hinit).
      reflexivity.
    + apply in_map_iff. exists e. split; [reflexivity | exact He].
  - intros cnid e Hrec Hraise. subst stderr. apply inner_warnings_In.
    exists cnid, e. repeat split; auto.
    unfold DmgReader.read_inner_pkg.
    destruct Hraise as [Hread | (pkg_bytes & Hread & Hmagic & Hinit)].
    + rewrite Hread. reflexivity.
    + rewrite Hread. simpl.
      assert (Hne : (len pkg_bytes =? 0) = false).
      { apply Z.eqb_neq. intros H0. unfold len in H0.
        destruct pkg_bytes; [vm_compute in Hmagic; discriminate | simpl in H0; lia]. }
      rewrite Hne. simpl.
      apply bytes_eqb_eq in Hmagic. rewrite Hmagic. simpl.
      rewrite Hinit. reflexivity.
  - intros x Hx. apply Hin in Hx. destruct Hx as [Hx | Hx]; [left; exact Hx |].
    right. apply inner_items_In in Hx.
    destruct Hx as (cnid & entries & Hrec & Hread & Hx).
    pose proof (read_inner_pkg_cases env hfs cnid) as Hc. rewrite Hread in Hc.
    destruct Hc as (pkg_bytes & pkg & Hfile & _ & Hinit & ->).
    apply in_map_iff in Hx. destruct Hx as (e & <- & He).
    exists cnid, pkg_bytes, pkg, e. repeat split; auto.
  - intros w Hw. subst stderr. apply inner_warnings_In, Hw.
Qed.

(** On the sample volume: the two entries of the good installer are
    there under ["@PKG@/"], the truncated one gives a warning, the file
    that is no XAR archive is passed over, and all four catalog entries
    are kept. *)
Example dmg_sample_load :
  let '(items, stderr) := DmgReader._load Samples.pkg_env Samples.dmg_volume in
  map path items
  = [lit "@PKG@/a"; lit "@PKG@/b"; lit "bad.pkg"; lit "good.pkg";
     lit "notes.pkg"; lit "readme"]
  /\ stderr = [DmgReader.FailedToReadPkg (lit "bad.pkg")
                 (ValueError "Data too small for XAR header")].
Proof. vm_compute. split; reflexivity. Qed.

End ReaderFacts.

(** ** The chunks of a UDIF image *)

Module UdifFacts.
Import Py.
Import Udif.

(** A type that is none of the ten the function knows. *)
Definition unknown_type (ty : Z) : Prop :=
  ~ In ty [BLOCK_ZERO_FILL; BLOCK_RAW; BLOCK_IGNORE; BLOCK_ZLIB; BLOCK_BZ2;
           BLOCK_LZFSE; BLOCK_LZMA; BLOCK_ADC; BLOCK_COMMENT; BLOCK_TERMINATOR].

(** The decompressor run on a chunk of a compressed type. *)
Definition decompressor (codecs : Codecs) (c : chunk) : option (bytes -> result bytes) :=
  if type c =? BLOCK_ZLIB then Some (zlib_decompress codecs)
  else if type c =? BLOCK_BZ2 then Some (bz2_decompress codecs)
  else if type c =? BLOCK_LZMA then Some (lzma_decompress codecs)
  else if type c =? BLOCK_LZFSE then
    Some (fun b => lzfse_decompress codecs b (sector_count c * SECTOR_SIZE))
  else None.

(** The chunk types for which the loop reads the data of the chunk. *)
Lemma do_chunk_adc (codecs : Codecs) (file : image_file) (c : chunk) :
  type c = BLOCK_ADC ->
  do_chunk codecs file c
  = match read_at file (compressed_offset c) (compressed_length c) with
    | Ok _ => Ok (Warn (AdcNotSupported (sector_number c)))
    | Raise e => Raise e
    end.
Proof.
  intros Hty. unfold do_chunk. rewrite Hty.
  destruct (read_at file (compressed_offset c) (compressed_length c)); reflexivity.
Qed.

Lemma do_chunk_unknown (codecs : Codecs) (file : image_file) (c : chunk) :
  unknown_type (type c) ->
  do_chunk codecs file c
  = match read_at file (compressed_offset c) (compressed_length c) with
    | Ok _ => Ok (Warn (UnknownBlockType (type c)))
    | Raise e => Raise e
    end.
Proof.
  intros Hty. unfold do_chunk.
  unfold unknown_type in Hty. simpl in Hty.
  repeat match goal with
    | |- context [?a =? ?b] =>
        destruct (Z.eqb_spec a b) as [E|E]; [exfalso; apply Hty; rewrite E; tauto | clear E]
    end.
  cbn [orb].
  destruct (read_at file (compressed_offset c) (compressed_length c)); reflexivity.
Qed.

Lemma do_chunk_decompress (codecs : Codecs) (file : image_file) (c : chunk)
    (decompress : bytes -> result bytes) :
  decompressor codecs c = Some decompress ->
  do_chunk codecs file c =
  (compressed <- read_at file (compressed_offset c) (compressed_length c) ;;
   data <- decompress compressed ;; Ok (Place (sector_number c * SECTOR_SIZE) data)).
Proof.
  unfold decompressor, do_chunk. intros Hd.
  destruct (Z.eqb_spec (type c) BLOCK_ZLIB) as [E|_];
    [rewrite E; inversion Hd; reflexivity |].
  destruct (Z.eqb_spec (type c) BLOCK_BZ2) as [E|_];
    [rewrite E; inversion Hd; reflexivity |].
  destruct (Z.eqb_spec (type c) BLOCK_LZMA) as [E|_];
    [rewrite E; inversion Hd; reflexivity |].
  destruct (Z.eqb_spec (type c) BLOCK_LZFSE) as [E|_];
    [rewrite E; inversion Hd; reflexivity |].
  discriminate.
Qed.

(** C2, as the code has it.  Terminator, comment, ignore and zero-fill
    chunks are passed over; for every other chunk the data are read, by
    [f.seek] and [f.read], before its type is looked at further, and an
    exception of the read ends [decompress_udif], whatever the type.  When
    the read succeeds, an ADC chunk and a chunk of unknown type each print one
    warning, leave the image as it is, and the loop goes on with the chunks
    that follow.  A chunk whose decompressor raises -- a zlib, bzip2, LZMA
    or LZFSE failure, and LZFSE when the module is missing, which raises
    [ImportError] -- ends [decompress_udif] with that exception, whatever
    follows. *)
Theorem chunk_errors (codecs : Codecs) (file : image_file) (c : chunk)
    (rest : list chunk) (image : bytes) (stderr : list warning) :
  (type c = BLOCK_ADC ->
     place_chunks codecs file (c :: rest) image stderr
     = match read_at file (compressed_offset c) (compressed_length c) with
       | Ok _ =>
           place_chunks codecs file rest image
             (stderr ++ [AdcNotSupported (sector_number c)])
       | Raise e => Raise e
       end)
  /\ (unknown_type (type c) ->
        place_chunks codecs file (c :: rest) image stderr
        = match read_at file (compressed_offset c) (compressed_length c) with
          | Ok _ =>
              place_chunks codecs file rest image
                (stderr ++ [UnknownBlockType (type c)])
          | Raise e => Raise e
          end)
  /\ (forall decompress compressed e,
        decompressor codecs c = Some decompress ->
        read_at file (compressed_offset c) (compressed_length c) = Ok compressed ->
        decompress compressed = Raise e ->
        place_chunks codecs file (c :: rest) image stderr = Raise e)
  /\ (type c = BLOCK_LZFSE ->
        liblzfse codecs = None ->
        place_chunks codecs file (c :: rest) image stderr
        = match read_at file (compressed_offset c) (compressed_length c) with
          | Ok _ => Raise (ImportError "LZFSE compression requires pyliblzfse")
          | Raise e => Raise e
          end)
  /\ (forall e,
        type c = BLOCK_ADC \/ unknown_type (type c)
        \/ decompressor codecs c <> None \/ type c = BLOCK_RAW ->
        read_at file (compressed_offset c) (compressed_length c) = Raise e ->
        place_chunks codecs file (c :: rest) image stderr = Raise e).
Proof.
  split; [| split; [| split; [| split]]].
  - intros Hty. cbn [place_chunks]. rewrite (do_chunk_adc codecs file c Hty).
    destruct (read_at file (compressed_offset c) (compressed_length c)); reflexivity.
  - intros Hty. cbn [place_chunks]. rewrite (do_chunk_unknown codecs file c Hty).
    destruct (read_at file (compressed_offset c) (compressed_length c)); reflexivity.
  - intros decompress compressed e Hd Hread Hraise. cbn [place_chunks].
    rewrite (do_chunk_decompress codecs file c decompress Hd), Hread.
    cbn [bind]. rewrite Hraise. reflexivity.
  - intros Hty Hnone. cbn [place_chunks].
    rewrite (do_chunk_decompress codecs file c
               (fun b => lzfse_decompress codecs b (sector_count c * SECTOR_SIZE)))
      by (unfold decompressor; rewrite Hty; reflexivity).
    destruct (read_at file (compressed_offset c) (compressed_length c));
      [| reflexivity].
    cbn [bind]. unfold lzfse_decompress. rewrite Hnone. reflexivity.
  - intros e Hty Hread. cbn [place_chunks].
    destruct Hty as [Hty | [Hty | [Hty | Hty]]].
    + rewrite (do_chunk_adc codecs file c Hty), Hread. reflexivity.
    + rewrite (do_chunk_unknown codecs file c Hty), Hread. reflexivity.
    + destruct (decompressor codecs c) as [decompress|] eqn:Hd; [| contradiction].
      rewrite (do_chunk_decompress codecs file c decompress Hd), Hread. reflexivity.
    + unfold do_chunk. rewrite Hty, Hread. reflexivity.
Qed.

(** The theorem at the sample ADC chunk, followed by a raw chunk. *)
Lemma chunk_errors_witness :
  place_chunks Samples.codecs Samples.dmg_file
    [Samples.adc_chunk; Samples.raw_chunk] (zeros 1024) []
  = place_chunks Samples.codecs Samples.dmg_file
      [Samples.raw_chunk] (zeros 1024) [AdcNotSupported 1].
Proof.
  exact (proj1 (chunk_errors Samples.codecs Samples.dmg_file Samples.adc_chunk
                  [Samples.raw_chunk] (zeros 1024) []) eq_refl).
Defined.

(** C2, as stated, fails: with no LZFSE module the function raises
    [ImportError] at an LZFSE chunk, and a zlib chunk that does not
    decompress ends it with the error of the codec; in neither case is the
    raw chunk that follows placed. *)
Lemma lzfse_and_codec_errors_raise :
  decompress_chunks Samples.codecs Samples.dmg_file
    [Samples.lzfse_chunk; Samples.raw_chunk]
  = Raise (ImportError "LZFSE compression requires pyliblzfse")
  /\ decompress_chunks Samples.codecs Samples.dmg_file
       [Samples.bad_zlib_chunk; Samples.raw_chunk]
     = Raise CodecError.
Proof. split; vm_compute; reflexivity. Qed.

(** With an ADC chunk in the same place the raw chunk is placed and one
    warning is printed. *)
Example adc_chunk_is_skipped :
  decompress_chunks Samples.codecs Samples.dmg_file
    [Samples.adc_chunk; Samples.raw_chunk]
  = Ok (encode_utf8 (lit "H+..") ++ zeros 1020, [AdcNotSupported 1]).
Proof. vm_compute. reflexivity. Qed.

(** An ADC chunk whose data lie beyond what the platform can seek to is
    not skipped: the exception of [f.seek] ends the function. *)
Example unreadable_adc_chunk_raises :
  decompress_chunks Samples.codecs Samples.dmg_file_64
    [Samples.far_adc_chunk; Samples.raw_chunk]
  = Raise (ValueError "cannot fit 'int' into an offset-sized integer").
Proof. vm_compute. reflexivity. Qed.

End UdifFacts.

(** ** The RPM writer: the per-file arrays of the main header *)

Module RpmFacts.
Import Py.
Import RpmHeaderBuilder.
Import RpmWriter.
Import SortFacts.

(** The value of the first entry with a given tag. *)
Fixpoint find_tag (tag : Z) (h : RpmHeaderBuilder.t) : option value :=
  match h with
  | [] => None
  | (t, v) :: h' => if t =? tag then Some v else find_tag tag h'
  end.

(** A list without its repetitions, each element at its first place. *)
Fixpoint dedup (l : list str) : list str :=
  match l with
  | [] => []
  | x :: l' => x :: filter (fun y => negb (str_eqb y x)) (dedup l')
  end.

(** The same, leaving out what is in [seen]: the shape the loop has. *)
Fixpoint dedup_from (seen : list str) (l : list str) : list str :=
  match l with
  | [] => []
  | x :: l' =>
      if existsb (str_eqb x) seen then dedup_from seen l'
      else x :: dedup_from (seen ++ [x]) l'
  end.

Lemma existsb_str (x : str) (l : list str) :
  existsb (str_eqb x) l = true <-> In x l.
Proof.
  rewrite existsb_exists. split.
  - intros (y & Hy & E). apply str_eqb_eq in E. subst. exact Hy.
  - intros H. exists x. split; [exact H | apply str_eqb_refl].
Qed.

Lemma filter_filter {A} (f g : A -> bool) (l : list A) :
  filter f (filter g l) = filter (fun x => g x && f x) l.
Proof.
  induction l as [|x l IH]; simpl; [reflexivity |].
  destruct (g x); simpl; [destruct (f x) |]; rewrite IH; reflexivity.
Qed.

Lemma dedup_from_filter (l : list str) :
  forall seen,
    dedup_from seen l = filter (fun y => negb (existsb (str_eqb y) seen)) (dedup l).
Proof.
  induction l as [|x l IH]; intros seen; simpl; [reflexivity |].
  destruct (existsb (str_eqb x) seen) eqn:E; simpl.
  - rewrite IH, filter_filter. apply filter_ext. intros y.
    destruct (str_eqb y x) eqn:Eyx; simpl; [| reflexivity].
    apply str_eqb_eq in Eyx. subst. rewrite E. reflexivity.
  - f_equal. rewrite IH, filter_filter. apply filter_ext. intros y.
    rewrite existsb_app. simpl. rewrite orb_false_r, negb_orb, andb_comm.
    reflexivity.
Qed.

Lemma dedup_from_nil (l : list str) : dedup_from [] l = dedup l.
Proof.
  rewrite dedup_from_filter. simpl.
  induction (dedup l) as [|x d IH]; simpl; [reflexivity | f_equal; exact IH].
Qed.

Lemma dedup_In (l : list str) (x : str) : In x (dedup l) <-> In x l.
Proof.
  induction l as [|y l IH]; simpl; [tauto |].
  rewrite filter_In, IH. split.
  - intros [H | [H _]]; auto.
  - intros [H | H]; [auto |].
    destruct (str_eqb x y) eqn:E.
    + apply str_eqb_eq in E. auto.
    + right. split; [exact H | reflexivity].
Qed.

Lemma dedup_NoDup (l : list str) : NoDup (dedup l).
Proof.
  induction l as [|y l IH]; simpl; constructor.
  - rewrite filter_In. intros [_ H]. rewrite str_eqb_refl in H. discriminate.
  - apply NoDup_filter, IH.
Qed.

(** *** The dictionary [dirs] and the list [dir_list] *)

(** The position of [d] in [l], when it is there. *)
Definition at_index (l : list str) (k : Z) (d : str) : Prop :=
  0 <= k /\ nth_error l (Z.to_nat k) = Some d.

Lemma dict_get_app (ds : list (str * Z)) (d d' : str) (k : Z) :
  RpmWriter.dict_get (ds ++ [(d', k)]) d
  = match RpmWriter.dict_get ds d with
    | Some v => Some v
    | None => if str_eqb d' d then Some k else None
    end.
Proof.
  induction ds as [|[k0 v0] ds IH]; simpl; [reflexivity |].
  destruct (str_eqb k0 d); [reflexivity | exact IH].
Qed.

(** The invariant of the loop on the directory fields: the keys of
    [dirs] are the names in [dir_list], each mapped to its place. *)
Record dir_inv (ds : list (str * Z)) (dl : list str) : Prop := {
  inv_nodup : NoDup dl;
  inv_get : forall d k, RpmWriter.dict_get ds d = Some k <-> at_index dl k d
}.

Lemma dir_inv_none (ds : list (str * Z)) (dl : list str) (d : str) :
  dir_inv ds dl -> RpmWriter.dict_get ds d = None -> ~ In d dl.
Proof.
  intros [_ Hget] Hnone Hin.
  apply In_nth_error in Hin. destruct Hin as [n Hn].
  assert (H : at_index dl (Z.of_nat n) d).
  { split; [lia | rewrite Nat2Z.id; exact Hn]. }
  apply Hget in H. congruence.
Qed.

Lemma at_index_app_l (l : list str) (k : Z) (d x : str) :
  at_index l k d -> at_index (l ++ [x]) k d.
Proof.
  intros [Hk Hn]. split; [exact Hk |].
  rewrite nth_error_app1; [exact Hn |].
  apply nth_error_Some. congruence.
Qed.

Lemma at_index_last (l : list str) (x : str) : at_index (l ++ [x]) (len l) x.
Proof.
  unfold at_index, len. split; [lia |].
  rewrite Nat2Z.id, nth_error_app2, Nat.sub_diag by lia. reflexivity.
Qed.

Lemma at_index_unique (l : list str) (k k' : Z) (d : str) :
  NoDup l -> at_index l k d -> at_index l k' d -> k = k'.
Proof.
  intros Hnd [Hk Hn] [Hk' Hn'].
  assert (Z.to_nat k = Z.to_nat k').
  { eapply NoDup_nth_error; [exact Hnd | | congruence].
    apply nth_error_Some. congruence. }
  lia.
Qed.

Lemma step_dir_inv (env : Env) (a : arrays) (i : nat) (f : file) :
  dir_inv (dirs a) (dir_list a) ->
  dir_inv (dirs (step env a i f)) (dir_list (step env a i f))
  /\ dir_list (step env a i f)
     = dir_list a ++ dedup_from (dir_list a) [file_dirname f]
  /\ (exists k, dirindexes (step env a i f) = dirindexes a ++ [k]
                /\ at_index (dir_list (step env a i f)) k (file_dirname f)).
Proof.
  intros Hinv. pose proof Hinv as [Hnd Hget].
  unfold step; simpl.
  destruct (RpmWriter.dict_get (dirs a) (file_dirname f)) as [k|] eqn:E.
  - rewrite E. split; [exact Hinv |]. split.
    + apply Hget in E. destruct E as [_ E]. apply nth_error_In in E.
      apply existsb_str in E. rewrite E, app_nil_r. reflexivity.
    + exists k. split; [reflexivity | apply Hget, E].
  - pose proof (dir_inv_none _ _ _ Hinv E) as Hnotin.
    rewrite dict_get_app, E, str_eqb_refl.
    split; [| split].
    + constructor.
      * apply Permutation_NoDup with (l := file_dirname f :: dir_list a).
        -- apply Permutation_cons_append.
        -- constructor; assumption.
      * intros d k. rewrite dict_get_app. split.
        -- destruct (RpmWriter.dict_get (dirs a) d) as [v|] eqn:Ed.
           ++ intros H. inversion H; subst. apply at_index_app_l, Hget, Ed.
           ++ destruct (str_eqb (file_dirname f) d) eqn:Ef; [| discriminate].
              intros H. inversion H; subst. apply str_eqb_eq in Ef. subst.
              apply at_index_last.
        -- intros [Hk Hn].
           destruct (Nat.lt_ge_cases (Z.to_nat k) (length (dir_list a))) as [Hlt | Hge].
           ++ rewrite nth_error_app1 in Hn by exact Hlt.
              assert (Hat : at_index (dir_list a) k d) by (split; assumption).
              apply Hget in Hat. rewrite Hat. reflexivity.
           ++ rewrite nth_error_app2 in Hn by exact Hge.
              destruct (Z.to_nat k - length (dir_list a))%nat as [|m] eqn:Em;
                simpl in Hn; [| destruct m; discriminate].
              inversion Hn; subst.
              rewrite E, str_eqb_refl. f_equal. unfold len. lia.
    + destruct (existsb (str_eqb (file_dirname f)) (dir_list a)) eqn:Ex;
        [apply existsb_str in Ex; contradiction | reflexivity].
    + exists (len (dir_list a)). split; [reflexivity | apply at_index_last].
Qed.

Lemma at_index_app (l ext : list str) (k : Z) (d : str) :
  at_index l k d -> at_index (l ++ ext) k d.
Proof.
  intros [Hk Hn]. split; [exact Hk |].
  rewrite nth_error_app1; [exact Hn |].
  apply nth_error_Some. congruence.
Qed.

Lemma dedup_from_cons (seen : list str) (d : str) (l : list str) :
  dedup_from seen [d] ++ dedup_from (seen ++ dedup_from seen [d]) l
  = dedup_from seen (d :: l).
Proof.
  simpl. destruct (existsb (str_eqb d) seen); simpl.
  - rewrite app_nil_r. reflexivity.
  - reflexivity.
Qed.

Lemma loop_dirs (env : Env) :
  forall (fs : list file) (a : arrays) (i : nat),
    dir_inv (dirs a) (dir_list a) ->
    dir_inv (dirs (loop env a i fs)) (dir_list (loop env a i fs))
    /\ dir_list (loop env a i fs)
       = dir_list a ++ dedup_from (dir_list a) (map file_dirname fs)
    /\ exists ks,
         dirindexes (loop env a i fs) = dirindexes a ++ ks
         /\ Forall2 (fun f k => at_index (dir_list (loop env a i fs)) k (file_dirname f))
                    fs ks.
Proof.
  induction fs as [|f fs IH]; intros a i Hinv.
  - simpl. split; [exact Hinv |]. split; [rewrite app_nil_r; reflexivity |].
    exists []. split; [rewrite app_nil_r; reflexivity | constructor].
  - destruct (step_dir_inv env a i f Hinv) as (Hinv' & Hdl & k & Hdi & Hk).
    destruct (IH (step env a i f) (S i) Hinv') as (Hinv'' & Hdl' & ks & Hdi' & Hks).
    change (loop env a i (f :: fs)) with (loop env (step env a i f) (S i) fs).
    split; [exact Hinv'' |]. split.
    + rewrite Hdl', Hdl, <- app_assoc. f_equal. apply dedup_from_cons.
    + exists (k :: ks). split.
      * rewrite Hdi', Hdi, <- app_assoc. reflexivity.
      * constructor; [| exact Hks].
        rewrite Hdl'. apply at_index_app, Hk.
Qed.

(** *** The other lists: one element for each file, in order *)

(** The MD5 entry of a file: the hex digest of the content of a regular
    file, the empty string for a directory or a symlink. *)
Definition file_md5 (env : Env) (f : file) : str :=
  if is_symlink f || is_dir f then [] else md5_hexdigest env (content f).

(** The link entry of a file: the target of a symlink, else the empty string. *)
Definition file_linkto (f : file) : str :=
  if is_symlink f then target_str f else [].

Lemma loop_fields (env : Env) :
  forall (fs : list file) (a : arrays) (i : nat),
    basenames (loop env a i fs) = basenames a ++ map file_basename fs
    /\ sizes (loop env a i fs) = sizes a ++ map (fun f => len (content f)) fs
    /\ modes (loop env a i fs) = modes a ++ map mode fs
    /\ rdevs (loop env a i fs) = rdevs a ++ repeat 0 (length fs)
    /\ mtimes (loop env a i fs)
       = mtimes a ++ map (fun k => time env (S k)) (seq i (length fs))
    /\ md5s (loop env a i fs) = md5s a ++ map (file_md5 env) fs
    /\ linktos (loop env a i fs) = linktos a ++ map file_linkto fs
    /\ flags (loop env a i fs) = flags a ++ repeat 0 (length fs)
    /\ users (loop env a i fs) = users a ++ map user fs
    /\ groups (loop env a i fs) = groups a ++ map f_group fs
    /\ devices (loop env a i fs) = devices a ++ repeat 1 (length fs)
    /\ inodes (loop env a i fs)
       = inodes a ++ map (fun k => Z.of_nat k + 1) (seq i (length fs))
    /\ langs (loop env a i fs) = langs a ++ repeat [] (length fs)
    /\ verifyflags (loop env a i fs) = verifyflags a ++ repeat 4294967295 (length fs).
Proof.
  induction fs as [|f fs IH]; intros a i.
  - simpl. rewrite !app_nil_r. repeat split.
  - change (loop env a i (f :: fs)) with (loop env (step env a i f) (S i) fs).
    destruct (IH (step env a i f) (S i))
      as (H1 & H2 & H3 & H4 & H5 & H6 & H7 & H8 & H9 & H10 & H11 & H12 & H13 & H14).
    rewrite H1, H2, H3, H4, H5, H6, H7, H8, H9, H10, H11, H12, H13, H14.
    unfold step; simpl. rewrite <- !app_assoc. simpl.
    unfold file_md5, file_linkto.
    destruct (is_symlink f), (is_dir f); simpl; repeat split.
Qed.

(** *** [posixpath.dirname] and [posixpath.basename] *)

Lemma slice_to_firstn {A} (l : list A) (j : Z) :
  0 <= j <= len l -> slice_to l j = firstn (Z.to_nat j) l.
Proof.
  intros Hj. unfold slice_to, slice, clamp.
  destruct (0 <? 0) eqn:E0; [discriminate |].
  destruct (j <? 0) eqn:Ej; [apply Z.ltb_lt in Ej; lia |].
  rewrite !Z.min_l by lia. simpl. rewrite Z.sub_0_r. reflexivity.
Qed.

Lemma slice_from_skipn {A} (l : list A) (i : Z) :
  0 <= i <= len l -> slice_from l i = skipn (Z.to_nat i) l.
Proof.
  intros Hi. unfold slice_from, slice, clamp.
  destruct (i <? 0) eqn:Ei; [apply Z.ltb_lt in Ei; lia |].
  destruct (len l <? 0) eqn:El; [apply Z.ltb_lt in El; unfold len in El; lia |].
  rewrite !Z.min_l by lia.
  apply firstn_all2. rewrite length_skipn. unfold len. lia.
Qed.

Lemma rfind_from_absent (c : ascii) (s : str) :
  forall i last, ~ In c s -> rfind_from c s i last = last.
Proof.
  induction s as [|x s IH]; intros i last Hn; simpl; [reflexivity |].
  destruct (Ascii.eqb x c) eqn:E.
  - apply Ascii.eqb_eq in E. subst. exfalso. apply Hn. left. reflexivity.
  - apply IH. intros H. apply Hn. right. exact H.
Qed.

Lemma rfind_from_last (c : ascii) (d b : str) :
  forall i last,
    ~ In c b -> rfind_from c (d ++ c :: b) i last = i + len d.
Proof.
  induction d as [|x d IH]; intros i last Hn; simpl.
  - rewrite Ascii.eqb_refl, rfind_from_absent by exact Hn. unfold len. simpl. lia.
  - rewrite IH by exact Hn. unfold len. simpl length. lia.
Qed.

Lemma lstrip_head (c x : ascii) (s : str) :
  x <> c -> lstrip c (x :: s) = x :: s.
Proof.
  intros H. simpl. destruct (Ascii.eqb x c) eqn:E; [| reflexivity].
  apply Ascii.eqb_eq in E. contradiction.
Qed.

(** A path [d/b], where [b] has no separator and [d] is not empty and
    does not end with one, has directory [d] and base name [b]. *)
Lemma dirname_basename_split (d b : str) (x : ascii) (d' : str) :
  d = d' ++ [x] -> x <> sep -> ~ In sep b ->
  dirname (d ++ sep :: b) = d /\ basename (d ++ sep :: b) = b.
Proof.
  intros Hd Hx Hb.
  assert (Hr : rfind sep (d ++ sep :: b) = len d).
  { unfold rfind. rewrite rfind_from_last by exact Hb. lia. }
  assert (Hlen : len (d ++ sep :: b) = len d + 1 + len b).
  { unfold len. rewrite length_app. simpl. lia. }
  assert (Hpos : 0 <= len d /\ 0 <= len b) by (unfold len; lia).
  split.
  - unfold dirname. rewrite Hr, slice_to_firstn by lia.
    replace (Z.to_nat (len d + 1)) with (length d + 1)%nat by (unfold len; lia).
    replace (d ++ sep :: b) with ((d ++ [sep]) ++ b) by (rewrite <- app_assoc; reflexivity).
    rewrite firstn_app, firstn_all2 by (rewrite length_app; simpl; lia).
    replace (length d + 1 - length (d ++ [sep]))%nat with 0%nat
      by (rewrite length_app; simpl; lia).
    simpl firstn. rewrite app_nil_r.
    assert (Hne : (len (d ++ [sep]) =? 0) = false).
    { apply Z.eqb_neq. unfold len. rewrite length_app. simpl. lia. }
    assert (Hall : forallb (Ascii.eqb sep) (d ++ [sep]) = false).
    { subst d. rewrite !forallb_app. cbn [forallb].
      destruct (Ascii.eqb sep x) eqn:E; [apply Ascii.eqb_eq in E; congruence |].
      destruct (forallb (Ascii.eqb sep) d'); reflexivity. }
    rewrite Hne, Hall. simpl.
    unfold rstrip. rewrite rev_app_distr. simpl.
    subst d. rewrite rev_app_distr.
    change (rev [x] ++ rev d') with (x :: rev d').
    rewrite lstrip_head by exact Hx.
    change (x :: rev d') with (rev [x] ++ rev d').
    rewrite <- rev_app_distr. apply rev_involutive.
  - unfold basename. rewrite Hr, slice_from_skipn by lia.
    replace (Z.to_nat (len d + 1)) with (length d + 1)%nat by (unfold len; lia).
    replace (d ++ sep :: b) with ((d ++ [sep]) ++ b) by (rewrite <- app_assoc; reflexivity).
    rewrite skipn_app, skipn_all2 by (rewrite length_app; simpl; lia).
    replace (length d + 1 - length (d ++ [sep]))%nat with 0%nat
      by (rewrite length_app; simpl; lia).
    reflexivity.
Qed.

(** A path without separator has no directory and is its own base name. *)
Lemma dirname_basename_plain (p : str) :
  ~ In sep p -> dirname p = [] /\ basename p = p.
Proof.
  intros Hp.
  assert (Hr : rfind sep p = -1).
  { unfold rfind. apply rfind_from_absent, Hp. }
  assert (Hpos : 0 <= len p) by (unfold len; lia).
  split.
  - unfold dirname. rewrite Hr, slice_to_firstn by lia. reflexivity.
  - unfold basename. rewrite Hr, slice_from_skipn by lia. reflexivity.
Qed.

(** *** The arrays in the header *)

(** The entry found under a tag holds the list that [H] gives for a field
    of the arrays. *)
Ltac field_is H :=
  match goal with
  | |- _ = Some (?C ?X) =>
      match type of H with
      | ?F = _ => change (Some (C F) = Some (C X)); rewrite H; reflexivity
      end
  end.

Lemma file_arrays_dirs (env : Env) (w : t) :
  dir_list (file_arrays env w) = dedup (map file_dirname (files w))
  /\ Forall2 (fun f k => at_index (dir_list (file_arrays env w)) k (file_dirname f))
             (files w) (dirindexes (file_arrays env w)).
Proof.
  unfold file_arrays.
  destruct (loop_dirs env (files w) no_arrays 0) as (_ & Hdl & ks & Hdi & Hks).
  { constructor; simpl.
    - constructor.
    - intros d k. split; [discriminate |].
      intros [_ H]. destruct (Z.to_nat k); discriminate. }
  simpl in Hdl, Hdi. rewrite Hdl, Hdi, dedup_from_nil in *.
  split; [reflexivity | exact Hks].
Qed.

Example rpm_sample_dirs :
  find_tag RPMTAG_DIRNAMES (header_entries (Samples.rpm_env 0) (Samples.rpm_with (lit "gzip")))
  = Some (StringArray [lit "/usr/"; lit "/usr/bin/"; lit "/"])
  /\ find_tag RPMTAG_DIRINDEXES
       (header_entries (Samples.rpm_env 0) (Samples.rpm_with (lit "gzip")))
     = Some (Int32 [0; 1; 1; 2]).
Proof. split; vm_compute; reflexivity. Qed.

End RpmFacts.

(** ** The header builder *)

Module HeaderFacts.
Import Py.
Import RpmHeaderBuilder.
Import HeaderLayout.
Import SortFacts.

(** *** Bytes and big-endian integers *)

Lemma Z_of_byte_of_Z (z : Z) : Z_of_byte (byte_of_Z z) = z mod 256.
Proof.
  unfold Z_of_byte, byte_of_Z.
  assert (Hb : 0 <= z mod 256 < 256) by (apply Z.mod_pos_bound; lia).
  pose proof (byte_of_ascii_via_N (ascii_of_N (Z.to_N (z mod 256)))) as H.
  symmetry in H. apply Byte.to_of_N in H. rewrite H.
  rewrite N_ascii_embedding by lia. lia.
Qed.

Lemma length_be_bytes (n : nat) (v : Z) : length (be_bytes n v) = n.
Proof. unfold be_bytes. rewrite length_map, length_rev, length_seq. reflexivity. Qed.

Lemma len_app {A} (a b : list A) : len (a ++ b) = len a + len b.
Proof. unfold len. rewrite length_app. lia. Qed.

Lemma len_cons {A} (x : A) (a : list A) : len (x :: a) = 1 + len a.
Proof. unfold len. simpl length. lia. Qed.

Lemma len_nonneg {A} (a : list A) : 0 <= len a.
Proof. unfold len. lia. Qed.

Lemma len_zeros (n : Z) : 0 <= n -> len (zeros n) = n.
Proof. intros H. unfold len, zeros. rewrite repeat_length. lia. Qed.

(** A 32-bit value is recovered from its four bytes. *)
Lemma be_value_be_bytes_4 (v : Z) :
  0 <= v < 2 ^ 32 -> be_value (be_bytes 4 v) = v.
Proof.
  intros Hv.
  change (be_bytes 4 v)
    with [byte_of_Z (Z.shiftr v 24); byte_of_Z (Z.shiftr v 16);
          byte_of_Z (Z.shiftr v 8); byte_of_Z (Z.shiftr v 0)].
  unfold be_value. cbn [fold_left].
  rewrite !Z_of_byte_of_Z, !Z.shiftr_div_pow2 by lia.
  change (2 ^ 24) with 16777216. change (2 ^ 16) with 65536.
  change (2 ^ 8) with 256. change (2 ^ 0) with 1. change (2 ^ 32) with 4294967296 in Hv.
  rewrite Z.div_1_r.
  Z.to_euclidean_division_equations. lia.
Qed.

Lemma be_bytes_4_inj (a b : Z) :
  0 <= a < 2 ^ 32 -> 0 <= b < 2 ^ 32 -> be_bytes 4 a = be_bytes 4 b -> a = b.
Proof.
  intros Ha Hb H.
  rewrite <- (be_value_be_bytes_4 a Ha), <- (be_value_be_bytes_4 b Hb), H.
  reflexivity.
Qed.

Lemma pack_uint_ok (n : nat) (v : Z) :
  0 <= v < 2 ^ (8 * Z.of_nat n) -> pack_uint n v = Ok (be_bytes n v).
Proof.
  intros [H0 H1]. unfold pack_uint.
  apply Z.leb_le in H0. apply Z.ltb_lt in H1. rewrite H0, H1. reflexivity.
Qed.

Lemma pack_uint_inv (n : nat) (v : Z) (b : bytes) :
  pack_uint n v = Ok b -> 0 <= v < 2 ^ (8 * Z.of_nat n) /\ b = be_bytes n v.
Proof.
  unfold pack_uint.
  destruct (0 <=? v) eqn:H0; [| discriminate].
  destruct (v <? 2 ^ (8 * Z.of_nat n)) eqn:H1; [| discriminate].
  simpl. intros H. inversion H.
  apply Z.leb_le in H0. apply Z.ltb_lt in H1. auto.
Qed.

Lemma pack_uint_range (n : nat) (v : Z) :
  ~ (0 <= v < 2 ^ (8 * Z.of_nat n)) -> pack_uint n v = Raise StructError.
Proof.
  intros H. unfold pack_uint.
  destruct (0 <=? v) eqn:H0; [| reflexivity].
  destruct (v <? 2 ^ (8 * Z.of_nat n)) eqn:H1; [| reflexivity].
  apply Z.leb_le in H0. apply Z.ltb_lt in H1. exfalso. apply H. lia.
Qed.

(** *** Alignment *)

Lemma padding_range (n o : Z) : 0 < n -> 0 <= padding n o < n.
Proof. intros H. unfold padding. apply Z.mod_pos_bound, H. Qed.

Lemma padding_aligned (n o : Z) : 0 < n -> (o + padding n o) mod n = 0.
Proof.
  intros H. unfold padding.
  rewrite Z.add_mod_idemp_r by lia.
  replace (o + (n - o mod n)) with (n + (o - o mod n)) by lia.
  rewrite (Z.div_mod o n) at 1 by lia.
  replace (n + (n * (o / n) + o mod n - o mod n)) with ((1 + o / n) * n) by lia.
  apply Z.mod_mul. lia.
Qed.

Lemma padding_one (o : Z) : padding 1 o = 0.
Proof. unfold padding. apply Z.mod_1_r. Qed.

Lemma zeros_succ (k : Z) : 0 <= k -> zeros (1 + k) = NUL :: zeros k.
Proof.
  intros H. unfold zeros.
  replace (Z.to_nat (1 + k)) with (S (Z.to_nat k)) by lia. reflexivity.
Qed.

(** The loop [while tell() % n: write(b'\x00')] writes the least padding. *)
Lemma pad_while_spec (n : Z) :
  0 < n ->
  forall (fuel : nat) (store : bytes),
    (len store mod n = 0 \/ n - len store mod n <= Z.of_nat fuel) ->
    pad_while fuel n store = store ++ zeros (padding n (len store)).
Proof.
  intros Hn. induction fuel as [|fuel IH]; intros store Hfuel.
  - pose proof (Z.mod_pos_bound (len store) n Hn) as Hr.
    assert (H0 : len store mod n = 0) by (destruct Hfuel; simpl in *; lia).
    unfold padding. rewrite H0, Z.sub_0_r, Z.mod_same by lia.
    simpl. rewrite app_nil_r. reflexivity.
  - simpl. destruct (len store mod n =? 0) eqn:E.
    + apply Z.eqb_eq in E.
      unfold padding. rewrite E, Z.sub_0_r, Z.mod_same by lia.
      simpl. rewrite app_nil_r. reflexivity.
    + apply Z.eqb_neq in E.
      pose proof (Z.mod_pos_bound (len store) n Hn) as Hr.
      assert (Hnext : len (store ++ [NUL]) = len store + 1)
        by (rewrite len_app; reflexivity).
      assert (Hpad : padding n (len store) = 1 + padding n (len store + 1)).
      { unfold padding.
        rewrite (Z.mod_small (n - len store mod n)) by lia.
        destruct (Z.eq_dec (len store mod n + 1) n) as [Hlast | Hmore].
        - assert (H0 : (len store + 1) mod n = 0).
          { rewrite <- Z.add_mod_idemp_l by lia. rewrite Hlast. apply Z.mod_same. lia. }
          rewrite H0, Z.sub_0_r, Z.mod_same by lia. lia.
        - assert (H1 : (len store + 1) mod n = len store mod n + 1).
          { rewrite <- Z.add_mod_idemp_l by lia. apply Z.mod_small. lia. }
          rewrite H1, (Z.mod_small (n - (len store mod n + 1))) by lia. lia. }
      rewrite IH.
      * rewrite Hnext, Hpad, zeros_succ, <- app_assoc; [reflexivity |].
        apply padding_range, Hn.
      * rewrite Hnext.
        destruct (Z.eq_dec (len store mod n + 1) n) as [Hlast | Hmore].
        -- left. rewrite <- Z.add_mod_idemp_l by lia. rewrite Hlast.
           apply Z.mod_same. lia.
        -- right. rewrite <- Z.add_mod_idemp_l by lia.
           rewrite (Z.mod_small (len store mod n + 1)) by lia.
           destruct Hfuel; lia.
Qed.

Lemma align_spec (n : Z) (store : bytes) :
  0 < n -> align n store = store ++ zeros (padding n (len store)).
Proof.
  intros Hn. unfold align. apply pad_while_spec; [exact Hn |].
  right. pose proof (Z.mod_pos_bound (len store) n Hn). lia.
Qed.

(** *** Emission of one value *)

Lemma write_ints_spec (n : nat) (data : list Z) :
  forall store,
    Forall (fun x => 0 <= x < 2 ^ (8 * Z.of_nat n)) data ->
    write_ints (pack_uint n) data store = Ok (store ++ flat_map (be_bytes n) data).
Proof.
  induction data as [|v data IH]; intros store H; simpl.
  - rewrite app_nil_r. reflexivity.
  - inversion H as [|? ? Hv Hrest]; subst.
    rewrite pack_uint_ok by exact Hv. simpl.
    rewrite IH by exact Hrest. rewrite <- app_assoc. reflexivity.
Qed.

Lemma write_ints_range (n : nat) (data : list Z) :
  forall store,
    ~ Forall (fun x => 0 <= x < 2 ^ (8 * Z.of_nat n)) data ->
    write_ints (pack_uint n) data store = Raise StructError.
Proof.
  induction data as [|v data IH]; intros store H; simpl.
  - exfalso. apply H. constructor.
  - destruct (pack_uint n v) as [b|e] eqn:E; simpl.
    + apply pack_uint_inv in E. destruct E as [Hv _].
      apply IH. intros Hrest. apply H. constructor; assumption.
    + unfold pack_uint in E.
      destruct ((0 <=? v) && (v <? 2 ^ (8 * Z.of_nat n))); [discriminate |].
      congruence.
Qed.

Lemma write_strings_spec (data : list str) :
  forall store,
    write_strings data store
    = store ++ flat_map (fun s => encode_utf8 s ++ [NUL]) data.
Proof.
  induction data as [|s data IH]; intros store; simpl.
  - rewrite app_nil_r. reflexivity.
  - rewrite IH, <- !app_assoc. reflexivity.
Qed.

(** An emittable value is written after the padding of its type, and the
    index entry gets the offset after the padding and the count of the
    value. *)
Lemma emit_spec (v : value) (store : bytes) :
  emittable v ->
  emit v store
  = Ok (len store + padding (alignment v) (len store),
        count_of v,
        store ++ zeros (padding (alignment v) (len store)) ++ encoded v).
Proof.
  intros Hv.
  assert (Hoff : forall n, 0 < n ->
            len (store ++ zeros (padding n (len store)))
            = len store + padding n (len store)).
  { intros n Hn. rewrite len_app, len_zeros; [reflexivity |].
    apply padding_range, Hn. }
  destruct v as [data|data|data|data|data|data|data]; simpl in *.
  - rewrite align_spec, Hoff by lia. unfold pack_H.
    rewrite write_ints_spec by exact Hv. simpl. rewrite <- app_assoc. reflexivity.
  - rewrite align_spec, Hoff by lia. unfold pack_I.
    rewrite write_ints_spec by exact Hv. simpl. rewrite <- app_assoc. reflexivity.
  - contradiction.
  - rewrite padding_one, Z.add_0_r. reflexivity.
  - rewrite padding_one, Z.add_0_r, write_strings_spec. reflexivity.
  - rewrite padding_one, Z.add_0_r. reflexivity.
  - rewrite padding_one, Z.add_0_r. reflexivity.
Qed.

(** An [Int64] value, and an integer that does not fit, make [emit] raise. *)
Lemma emit_raises (v : value) (store : bytes) :
  ~ emittable v -> exists e, emit v store = Raise e.
Proof.
  intros Hv. destruct v as [data|data|data|data|data|data|data]; simpl in *;
    try (exfalso; apply Hv; exact I).
  - unfold pack_H. rewrite write_ints_range by exact Hv. eexists; reflexivity.
  - unfold pack_I. rewrite write_ints_range by exact Hv. eexists; reflexivity.
  - eexists; reflexivity.
Qed.

(** *** The loop over the entries *)

Lemma build_store_spec (es : list entry) :
  forall (store : bytes) (index : list index_entry),
    Forall (fun e => emittable (snd e)) es ->
    exists index' bytes',
      build_store es store index = Ok (index ++ index', store ++ bytes')
      /\ laid_out es (len store) index' bytes'.
Proof.
  induction es as [|[tag v] es IH]; intros store index H; simpl.
  - exists [], []. rewrite !app_nil_r. split; [reflexivity | constructor].
  - inversion H as [|? ? Hv Hrest]; subst. simpl in Hv.
    rewrite emit_spec by exact Hv. simpl.
    destruct (IH (store ++ zeros (padding (alignment v) (len store)) ++ encoded v)
                 (index ++ [(tag, dtype v, len store + padding (alignment v) (len store),
                             count_of v)]) Hrest)
      as (index' & bytes' & Hrun & Hlaid).
    rewrite Hrun.
    eexists. eexists. split.
    + rewrite <- !app_assoc. reflexivity.
    + simpl. constructor.
      rewrite !len_app, len_zeros in Hlaid by (apply padding_range;
        destruct v; simpl; lia).
      rewrite Z.add_assoc in Hlaid. exact Hlaid.
Qed.

Lemma build_store_raises (es : list entry) :
  forall (store : bytes) (index : list index_entry),
    ~ Forall (fun e => emittable (snd e)) es ->
    exists e, build_store es store index = Raise e.
Proof.
  induction es as [|[tag v] es IH]; intros store index H; simpl.
  - exfalso. apply H. constructor.
  - destruct (emit v store) as [[[offset count] store']|e] eqn:E; simpl.
    + apply IH. intros Hrest. apply H. constructor; [| exact Hrest].
      simpl. destruct v as [data|data|data|data|data|data|data]; simpl in *;
        try exact I; try discriminate.
      * unfold pack_H in E.
        destruct (Forall_dec (fun x => 0 <= x < 2 ^ (8 * Z.of_nat 2))
                    (fun x => ltac:(destruct (Z_le_dec 0 x), (Z_lt_dec x (2 ^ (8 * Z.of_nat 2)));
                                    (left; lia) || (right; lia))) data) as [Hok | Hbad];
          [exact Hok |].
        rewrite write_ints_range in E by exact Hbad. discriminate.
      * unfold pack_I in E.
        destruct (Forall_dec (fun x => 0 <= x < 2 ^ (8 * Z.of_nat 4))
                    (fun x => ltac:(destruct (Z_le_dec 0 x), (Z_lt_dec x (2 ^ (8 * Z.of_nat 4)));
                                    (left; lia) || (right; lia))) data) as [Hok | Hbad];
          [exact Hok |].
        rewrite write_ints_range in E by exact Hbad. discriminate.
    + eexists; reflexivity.
Qed.

(** *** What the layout gives for each entry *)

Lemma count_le_encoded (v : value) :
  emittable v -> 0 <= count_of v <= len (encoded v).
Proof.
  assert (Hflat : forall (n : nat) (data : list Z),
             len (flat_map (be_bytes n) data) = Z.of_nat n * len data).
  { intros n data. induction data as [|x data IH]; simpl; [unfold len; simpl; lia |].
    rewrite len_app, IH. unfold len. rewrite length_be_bytes. simpl length. lia. }
  destruct v as [data|data|data|data|data|data|data]; simpl; intros Hv;
    try contradiction.
  - rewrite Hflat. pose proof (len_nonneg data). lia.
  - rewrite Hflat. pose proof (len_nonneg data). lia.
  - rewrite len_app. pose proof (len_nonneg (encode_utf8 data)).
    unfold len at 2. simpl. lia.
  - induction data as [|s data IH]; cbn [flat_map]; [unfold len; simpl; lia |].
    rewrite len_cons, !len_app. change (len [NUL]) with 1.
    pose proof (len_nonneg (encode_utf8 s)). lia.
  - rewrite len_app. pose proof (len_nonneg (encode_utf8 data)).
    unfold len at 2. simpl. lia.
  - pose proof (len_nonneg data). lia.
Qed.

Lemma laid_out_length (es : list entry) (o : Z) (index : list index_entry) (store : bytes) :
  laid_out es o index store -> length index = length es.
Proof. induction 1; simpl; congruence. Qed.

Lemma slice_spec {A} (l : list A) (i j : Z) :
  0 <= i <= j -> j <= len l ->
  slice l i j = firstn (Z.to_nat (j - i)) (skipn (Z.to_nat i) l).
Proof.
  intros Hi Hj. unfold slice, clamp.
  destruct (i <? 0) eqn:E1; [apply Z.ltb_lt in E1; lia |].
  destruct (j <? 0) eqn:E2; [apply Z.ltb_lt in E2; lia |].
  rewrite !Z.min_l by lia. reflexivity.
Qed.

Lemma slice_app_mid {A} (a b c : list A) :
  slice (a ++ b ++ c) (len a) (len a + len b) = b.
Proof.
  pose proof (len_nonneg a). pose proof (len_nonneg b). pose proof (len_nonneg c).
  rewrite slice_spec by (rewrite ?len_app; lia).
  replace (Z.to_nat (len a)) with (length a) by (unfold len; lia).
  replace (Z.to_nat (len a + len b - len a)) with (length b) by (unfold len; lia).
  rewrite skipn_app, skipn_all, Nat.sub_diag. simpl.
  rewrite firstn_app, firstn_all, Nat.sub_diag. simpl. apply app_nil_r.
Qed.

Lemma slice_app_skip {A} (a l : list A) (i j : Z) :
  0 <= i <= j -> j <= len l ->
  slice (a ++ l) (len a + i) (len a + j) = slice l i j.
Proof.
  intros Hi Hj. pose proof (len_nonneg a).
  rewrite !slice_spec by (rewrite ?len_app; lia).
  replace (len a + j - (len a + i)) with (j - i) by lia.
  replace (Z.to_nat (len a + i)) with (Z.to_nat i + length a)%nat by (unfold len; lia).
  rewrite <- skipn_skipn, skipn_app, skipn_all, Nat.sub_diag. reflexivity.
Qed.

(** Each entry has its index entry; the offset is aligned for the type and
    the store holds the bytes of the value there. *)
Lemma laid_out_entry (es : list entry) (o : Z) (index : list index_entry) (store : bytes) :
  laid_out es o index store ->
  0 <= o ->
  forall tag v, In (tag, v) es ->
    exists offset,
      In (tag, dtype v, offset, count_of v) index
      /\ offset mod alignment v = 0
      /\ o <= offset
      /\ offset + len (encoded v) <= o + len store
      /\ slice store (offset - o) (offset - o + len (encoded v)) = encoded v.
Proof.
  induction 1 as [o | tag0 v0 es o index rest Hl IH]; intros Ho tag v Hin.
  - destruct Hin.
  - assert (Hal : 0 < alignment v0) by (destruct v0; simpl; lia).
    pose proof (padding_range (alignment v0) o Hal) as Hp.
    pose proof (len_nonneg (encoded v0)) as He.
    pose proof (len_nonneg rest) as Hr.
    assert (Hz : len (zeros (padding (alignment v0) o)) = padding (alignment v0) o)
      by (apply len_zeros; lia).
    assert (Hlen : len (zeros (padding (alignment v0) o) ++ encoded v0 ++ rest)
                   = padding (alignment v0) o + len (encoded v0) + len rest).
    { rewrite !len_app, Hz. lia. }
    destruct Hin as [Heq | Hin].
    + inversion Heq; subst tag0 v0. exists (o + padding (alignment v) o).
      split; [left; reflexivity |].
      split; [apply padding_aligned, Hal |].
      split; [lia |]. split; [lia |].
      replace (o + padding (alignment v) o - o)
        with (len (zeros (padding (alignment v) o))) by lia.
      apply slice_app_mid.
    + destruct (IH ltac:(lia) tag v Hin) as (offset & Hi & Hm & Hlo & Hhi & Hs).
      pose proof (len_nonneg (encoded v)) as Hev.
      exists offset. split; [right; exact Hi |]. split; [exact Hm |].
      split; [lia |]. split; [rewrite Hlen; lia |].
      set (q := o + padding (alignment v0) o + len (encoded v0)) in *.
      transitivity (slice rest (offset - q) (offset - q + len (encoded v)));
        [| exact Hs].
      rewrite app_assoc.
      assert (Hq : len (zeros (padding (alignment v0) o) ++ encoded v0) = q - o)
        by (rewrite len_app, Hz; subst q; lia).
      replace (offset - o)
        with (len (zeros (padding (alignment v0) o) ++ encoded v0) + (offset - q)) by lia.
      rewrite <- Z.add_assoc.
      apply slice_app_skip; lia.
Qed.

Lemma laid_out_index (es : list entry) (o : Z) (index : list index_entry) (store : bytes) :
  laid_out es o index store ->
  0 <= o ->
  Forall (fun e => emittable (snd e)) es ->
  map tag_of index = map fst es
  /\ Forall (fun e => let '(tag, ty, offset, count) := e in
               0 <= ty < 10
               /\ o <= offset <= o + len store
               /\ 0 <= count <= len store) index.
Proof.
  induction 1 as [o | tag0 v0 es o index rest Hl IH]; intros Ho Hem.
  - split; constructor.
  - inversion Hem as [|? ? Hv Hrest]; subst. simpl in Hv.
    assert (Hal : 0 < alignment v0) by (destruct v0; simpl; lia).
    pose proof (padding_range (alignment v0) o Hal) as Hp.
    pose proof (count_le_encoded v0 Hv) as Hc.
    pose proof (len_nonneg rest) as Hr.
    assert (Hlen : len (zeros (padding (alignment v0) o) ++ encoded v0 ++ rest)
                   = padding (alignment v0) o + len (encoded v0) + len rest).
    { rewrite !len_app, len_zeros by lia. lia. }
    destruct (IH ltac:(lia) Hrest) as [Htags Hall].
    split; [simpl; f_equal; exact Htags |].
    constructor.
    + rewrite Hlen. split; [| lia].
      destruct v0; unfold dtype, HEADER_INT16, HEADER_INT32, HEADER_INT64,
        HEADER_STRING, HEADER_STRING_ARRAY, HEADER_I18NSTRING, HEADER_BIN; lia.
    + eapply Forall_impl; [| exact Hall].
      intros [[[tag ty] offset] count]. rewrite Hlen. lia.
Qed.

Lemma pack_index_spec (index : list index_entry) :
  forall header,
    Forall (fun e => let '(tag, ty, offset, count) := e in
              0 <= tag < 2 ^ 32 /\ 0 <= ty < 2 ^ 32
              /\ 0 <= offset < 2 ^ 32 /\ 0 <= count < 2 ^ 32) index ->
    pack_index index header = Ok (header ++ flat_map index_bytes index).
Proof.
  induction index as [|[[[tag ty] offset] count] index IH]; intros header H; simpl.
  - rewrite app_nil_r. reflexivity.
  - inversion H as [|? ? He Hrest]; subst.
    destruct He as (Ht & Hy & Ho & Hc).
    unfold pack_I. rewrite !pack_uint_ok by assumption. simpl.
    rewrite IH by exact Hrest. rewrite <- !app_assoc. reflexivity.
Qed.

Lemma length_index_bytes (index : list index_entry) :
  length (flat_map index_bytes index) = (16 * length index)%nat.
Proof.
  induction index as [|[[[tag ty] offset] count] index IH]; [reflexivity |].
  change (flat_map index_bytes ((tag, ty, offset, count) :: index))
    with ((be_bytes 4 tag ++ be_bytes 4 ty ++ be_bytes 4 offset ++ be_bytes 4 count)
          ++ flat_map index_bytes index).
  rewrite !length_app, !length_be_bytes, IH. cbn [length]. lia.
Qed.

Lemma sort_by_length_entries (h : RpmHeaderBuilder.t) :
  length (sort_by (@fst Z value) Z.leb h) = length h.
Proof. apply sort_by_length. Qed.

Lemma sorted_tags (h : RpmHeaderBuilder.t) :
  Sorted Z.le (map fst (sorted_entries h)).
Proof.
  unfold sorted_entries.
  assert (Htot : forall a b, Z.leb a b = true \/ Z.leb b a = true).
  { intros a b. destruct (Z.leb_spec a b); [left; reflexivity |].
    right. apply Z.leb_le. lia. }
  pose proof (sort_by_sorted (@fst Z value) Z.leb Htot h) as Hs.
  induction Hs as [|e l Hs IH Hhd]; simpl; constructor; [exact IH |].
  destruct Hhd as [|e' l' Hle]; constructor.
  apply Z.leb_le, Hle.
Qed.

(** The emission of the entries that the builder can emit. *)
Lemma build_emits (h : RpmHeaderBuilder.t) :
  Forall (fun e => 0 <= fst e < 2 ^ 32 /\ emittable (snd e)) h ->
  exists index store,
    build_store (sorted_entries h) [] [] = Ok (index, store)
    /\ Permutation (sorted_entries h) h
    /\ map tag_of index = map fst (sorted_entries h)
    /\ Sorted Z.le (map tag_of index)
    /\ laid_out (sorted_entries h) 0 index store
    /\ (forall tag v,
          In (tag, v) h ->
          exists offset,
            In (tag, dtype v, offset, count_of v) index
            /\ offset mod alignment v = 0
            /\ slice store offset (offset + len (encoded v)) = encoded v)
    /\ (len h < 2 ^ 32 -> len store < 2 ^ 32 -> build h = Ok (section index store)).
Proof.
  intros Hh.
  assert (Hperm : Permutation (sorted_entries h) h) by apply sort_by_perm.
  assert (Hs : Forall (fun e => 0 <= fst e < 2 ^ 32 /\ emittable (snd e)) (sorted_entries h)).
  { eapply Permutation_Forall; [apply Permutation_sym, Hperm | exact Hh]. }
  assert (Hem : Forall (fun e => emittable (snd e)) (sorted_entries h)).
  { eapply Forall_impl; [| exact Hs]. intros e [_ H]. exact H. }
  destruct (build_store_spec (sorted_entries h) [] [] Hem)
    as (index & store & Hrun & Hlaid).
  simpl in Hrun, Hlaid. change (len []) with 0 in Hlaid.
  destruct (laid_out_index _ _ _ _ Hlaid (Z.le_refl 0) Hem) as [Htags Hbounds].
  exists index, store.
  split; [exact Hrun |]. split; [exact Hperm |]. split; [exact Htags |].
  split; [rewrite Htags; apply sorted_tags |]. split; [exact Hlaid |]. split.
  - intros tag v Hin.
    assert (Hin' : In (tag, v) (sorted_entries h)).
    { eapply Permutation_in; [apply Permutation_sym, Hperm | exact Hin]. }
    destruct (laid_out_entry _ _ _ _ Hlaid (Z.le_refl 0) tag v Hin')
      as (offset & Hi & Hm & _ & _ & Hsl).
    exists offset. rewrite Z.sub_0_r in Hsl. auto.
  - intros Hn Hstore. unfold build. rewrite Hrun. cbn [bind].
    assert (Hlen : len index = len h).
    { unfold len. f_equal.
      rewrite (laid_out_length _ _ _ _ Hlaid).
      apply Permutation_length, Hperm. }
    pose proof (len_nonneg h) as Hh0. pose proof (len_nonneg store) as Hs0.
    unfold pack_B, pack_I.
    change (2 ^ 32) with 4294967296 in *.
    rewrite (pack_uint_ok 1 RPM_HEADER_VERSION)
      by (unfold RPM_HEADER_VERSION; change (2 ^ (8 * Z.of_nat 1)) with 256; lia).
    cbn [bind].
    rewrite (pack_uint_ok 4 (len index))
      by (rewrite Hlen; change (2 ^ (8 * Z.of_nat 4)) with 4294967296; lia).
    cbn [bind].
    rewrite (pack_uint_ok 4 (len store))
      by (change (2 ^ (8 * Z.of_nat 4)) with 4294967296; lia).
    cbn [bind].
    rewrite pack_index_spec.
    + cbn [bind]. unfold section. rewrite <- !app_assoc. reflexivity.
    + assert (Htag : Forall (fun t => 0 <= t < 2 ^ 32)
                            (map tag_of index)).
      { rewrite Htags. apply Forall_map.
        eapply Forall_impl; [| exact Hs]. intros e [H _]. exact H. }
      rewrite Forall_map in Htag.
      rewrite Forall_forall in *. intros [[[tag ty] offset] count] Hin.
      specialize (Htag _ Hin). specialize (Hbounds _ Hin).
      unfold tag_of in Htag. simpl in Htag, Hbounds.
      lia.
Qed.

(** *** The entries that stop the emission *)

Lemma in_width_spec (n : nat) (data : list Z) :
  forallb (in_width (8 * Z.of_nat n)) data = true
  <-> Forall (fun x => 0 <= x < 2 ^ (8 * Z.of_nat n)) data.
Proof.
  rewrite forallb_forall, Forall_forall. unfold in_width.
  split; intros H x Hx; specialize (H x Hx).
  - apply andb_prop in H. destruct H as [H0 H1].
    apply Z.leb_le in H0. apply Z.ltb_lt in H1. lia.
  - apply andb_true_intro. split; [apply Z.leb_le | apply Z.ltb_lt]; lia.
Qed.

Lemma rejection_none (v : value) : rejection v = None <-> emittable v.
Proof.
  destruct v as [data|data|data|data|data|data|data]; cbn [rejection emittable];
    try (split; [intros _; exact I | reflexivity]).
  - pose proof (in_width_spec 2 data) as H. change (8 * Z.of_nat 2) with 16 in H.
    destruct (forallb (in_width 16) data).
    + split; [intros _; apply H; reflexivity | reflexivity].
    + split; [discriminate | intros Hd; apply H in Hd; discriminate].
  - pose proof (in_width_spec 4 data) as H. change (8 * Z.of_nat 4) with 32 in H.
    destruct (forallb (in_width 32) data).
    + split; [intros _; apply H; reflexivity | reflexivity].
    + split; [discriminate | intros Hd; apply H in Hd; discriminate].
  - split; [discriminate | contradiction].
Qed.

Lemma emit_rejects (v : value) (store : bytes) (e : exn) :
  rejection v = Some e -> emit v store = Raise e.
Proof.
  intros H.
  assert (Hn : ~ emittable v).
  { intros Hv. apply rejection_none in Hv. congruence. }
  destruct v as [data|data|data|data|data|data|data]; cbn [rejection] in H;
    try discriminate.
  - destruct (forallb (in_width 16) data); [discriminate |]. injection H as <-.
    cbn [emit]. unfold pack_H. rewrite write_ints_range by exact Hn. reflexivity.
  - destruct (forallb (in_width 32) data); [discriminate |]. injection H as <-.
    cbn [emit]. unfold pack_I. rewrite write_ints_range by exact Hn. reflexivity.
  - injection H as <-. reflexivity.
Qed.

Lemma build_store_rejects (es : list entry) (e : exn) :
  forall (store : bytes) (index : list index_entry),
    first_rejection es = Some e -> build_store es store index = Raise e.
Proof.
  induction es as [|[tag v] es IH]; intros store index H; cbn [first_rejection] in H.
  - discriminate.
  - cbn [build_store]. destruct (rejection v) as [e'|] eqn:R.
    + injection H as ->. rewrite (emit_rejects v store e R). reflexivity.
    + apply rejection_none in R. rewrite emit_spec by exact R. cbn [bind].
      apply IH, H.
Qed.

Lemma first_rejection_none (es : list entry) :
  first_rejection es = None <-> Forall (fun e => emittable (snd e)) es.
Proof.
  induction es as [|[tag v] es IH]; cbn [first_rejection].
  - split; [constructor | reflexivity].
  - destruct (rejection v) as [e|] eqn:R.
    + split; [discriminate |]. intros H. inversion H as [|? ? Hv _]; subst.
      apply rejection_none in Hv. cbn [snd] in Hv. congruence.
    + rewrite IH. apply rejection_none in R.
      split; [intros H; constructor; assumption |].
      intros H. inversion H; assumption.
Qed.

(** C5, as the code has it.  For entries of the kinds the builder can
    emit -- Int16, Int32, String, StringArray, I18NString and Bin, with tags
    and INT32 values in [0, 2^32) and INT16 values in [0, 2^16) -- the loop
    of [build] succeeds: the index entries are the entries sorted by tag
    ascending; the data store is padded before each value to 2 bytes for
    INT16, to 4 bytes for INT32, and not at all for the others; the count is
    the number of elements for arrays and integers, [1] for STRING and
    I18NSTRING, the byte length for BIN; strings are written NUL-terminated.
    When the entries and the store stay below [2^32], [build] returns the
    section made of the magic, the counts, the index and the store.
    Otherwise [build] raises at the first entry, in the sorted order, that
    it cannot emit: [ValueError] when that entry is an Int64, [struct.error]
    when it holds an integer outside its width.  Some entry is of that kind
    exactly when the entries are not all emittable. *)
Theorem build_emission (h : RpmHeaderBuilder.t) :
  (Forall (fun e => 0 <= fst e < 2 ^ 32 /\ emittable (snd e)) h ->
   exists index store,
     build_store (sorted_entries h) [] [] = Ok (index, store)
     /\ Permutation (sorted_entries h) h
     /\ map tag_of index = map fst (sorted_entries h)
     /\ Sorted Z.le (map tag_of index)
     /\ laid_out (sorted_entries h) 0 index store
     /\ (forall tag v,
           In (tag, v) h ->
           exists offset,
             In (tag, dtype v, offset, count_of v) index
             /\ offset mod alignment v = 0
             /\ slice store offset (offset + len (encoded v)) = encoded v)
     /\ (len h < 2 ^ 32 -> len store < 2 ^ 32 -> build h = Ok (section index store)))
  /\ (forall e, first_rejection (sorted_entries h) = Some e -> build h = Raise e)
  /\ (first_rejection (sorted_entries h) = None
      <-> Forall (fun e => emittable (snd e)) h).
Proof.
  split; [exact (build_emits h) |]. split.
  - intros e H. unfold build.
    rewrite (build_store_rejects (sorted_entries h) e [] [] H). reflexivity.
  - assert (Hperm : Permutation (sorted_entries h) h) by apply sort_by_perm.
    rewrite first_rejection_none. split; intros H.
    + eapply Permutation_Forall; [exact Hperm | exact H].
    + eapply Permutation_Forall; [apply Permutation_sym, Hperm | exact H].
Qed.

(** The theorem at the four sample entries. *)
Lemma build_emission_witness :
  Forall (fun e => 0 <= fst e < 2 ^ 32 /\ emittable (snd e)) Samples.header
  /\ exists index store,
       build Samples.header = Ok (section index store)
       /\ map tag_of index = [1000; 1004; 1006; 1030].
Proof.
  assert (H : Forall (fun e => 0 <= fst e < 2 ^ 32 /\ emittable (snd e)) Samples.header).
  { repeat constructor; simpl; try (intros E; discriminate E). }
  split; [exact H |].
  destruct (proj1 (build_emission Samples.header) H)
    as (index & store & Hrun & _ & Htags & _ & _ & _ & Hbuild).
  exists index, store. split.
  - apply Hbuild; [reflexivity |].
    vm_compute in Hrun. inversion Hrun; subst. reflexivity.
  - rewrite Htags. vm_compute. reflexivity.
Defined.

(** C5, as stated, fails: an [Int64] entry makes [build] raise
    [ValueError], and so does, with [struct.error], an INT32 value that
    needs more than 32 bits. *)
Lemma build_rejects_int64 :
  build [(1000, Int64 [1])] = Raise (ValueError "Unsupported header type")
  /\ build [(1009, Int32 [4294967296])] = Raise StructError.
Proof. split; vm_compute; reflexivity. Qed.

(** Which of the two exceptions is raised goes by the tag order, not by
    the order in which the entries were added. *)
Example build_first_rejection :
  build [(1, Int32 [4294967296]); (2, Int64 [1])] = Raise StructError
  /\ build [(3, Int64 [1]); (1, Int16 [70000])] = Raise StructError
  /\ build [(3, Int16 [70000]); (1, Int64 [1])]
     = Raise (ValueError "Unsupported header type").
Proof. repeat split; vm_compute; reflexivity. Qed.

Example build_sample_bytes :
  build Samples.header
  = Ok (RPM_HEADER_MAGIC ++ [x01; x00; x00; x00; x00]
        ++ be_bytes 4 4 ++ be_bytes 4 12
        ++ be_bytes 4 1000 ++ be_bytes 4 6 ++ be_bytes 4 0 ++ be_bytes 4 1
        ++ be_bytes 4 1004 ++ be_bytes 4 7 ++ be_bytes 4 3 ++ be_bytes 4 1
        ++ be_bytes 4 1006 ++ be_bytes 4 4 ++ be_bytes 4 4 ++ be_bytes 4 1
        ++ be_bytes 4 1030 ++ be_bytes 4 3 ++ be_bytes 4 8 ++ be_bytes 4 2
        ++ encode_utf8 (lit "ab") ++ [x00; x01; x00; x00; x01; x02; x00; x01; x00; x02]).
Proof. vm_compute. reflexivity. Qed.

(** *** From a built header back to its layout *)

Lemma write_ints_inv (n : nat) (data : list Z) :
  forall store s,
    write_ints (pack_uint n) data store = Ok s ->
    Forall (fun x => 0 <= x < 2 ^ (8 * Z.of_nat n)) data.
Proof.
  induction data as [|v data IH]; intros store s H; simpl in H.
  - constructor.
  - destruct (pack_uint n v) as [b|e] eqn:E; simpl in H; [| discriminate].
    apply pack_uint_inv in E. destruct E as [Hv _].
    constructor; [exact Hv | eapply IH, H].
Qed.

Lemma emit_inv (v : value) (store : bytes) (r : Z * Z * bytes) :
  emit v store = Ok r -> emittable v.
Proof.
  destruct v as [data|data|data|data|data|data|data]; simpl; intros H;
    try exact I; try discriminate.
  - destruct (write_ints pack_H data (align 2 store)) as [s|e] eqn:E; [| discriminate].
    exact (write_ints_inv 2 data _ _ E).
  - destruct (write_ints pack_I data (align 4 store)) as [s|e] eqn:E; [| discriminate].
    exact (write_ints_inv 4 data _ _ E).
Qed.

Lemma build_store_inv (es : list entry) :
  forall store index r,
    build_store es store index = Ok r -> Forall (fun e => emittable (snd e)) es.
Proof.
  induction es as [|[tag v] es IH]; intros store index r H; simpl in H.
  - constructor.
  - destruct (emit v store) as [[[offset count] store']|e] eqn:E; simpl in H;
      [| discriminate].
    constructor; [eapply emit_inv, E | eapply IH, H].
Qed.

Lemma pack_index_inv (index : list index_entry) :
  forall header r,
    pack_index index header = Ok r -> r = header ++ flat_map index_bytes index.
Proof.
  induction index as [|[[[tag ty] offset] count] index IH]; intros header r H;
    simpl in H.
  - inversion H. rewrite app_nil_r. reflexivity.
  - unfold pack_I in H.
    destruct (pack_uint 4 tag) as [a|e] eqn:Ea; simpl in H; [| discriminate].
    destruct (pack_uint 4 ty) as [b|e] eqn:Eb; simpl in H; [| discriminate].
    destruct (pack_uint 4 offset) as [c|e] eqn:Ec; simpl in H; [| discriminate].
    destruct (pack_uint 4 count) as [d|e] eqn:Ed; simpl in H; [| discriminate].
    apply pack_uint_inv in Ea, Eb, Ec, Ed.
    destruct Ea as [_ ->], Eb as [_ ->], Ec as [_ ->], Ed as [_ ->].
    rewrite (IH _ _ H). simpl. rewrite <- !app_assoc. reflexivity.
Qed.

(** A header that [build] returns is the section of an index and a store
    laid out as the emission rules say. *)
Lemma build_inv (h : RpmHeaderBuilder.t) (header : bytes) :
  build h = Ok header ->
  exists index store,
    header = section index store
    /\ laid_out (sorted_entries h) 0 index store
    /\ 0 <= len store < 2 ^ 32.
Proof.
  unfold build. intros H.
  destruct (build_store (sorted_entries h) [] []) as [[index store]|e] eqn:Hrun;
    cbn [bind] in H; [| discriminate].
  pose proof (build_store_inv _ _ _ _ Hrun) as Hem.
  destruct (build_store_spec (sorted_entries h) [] [] Hem)
    as (index' & store' & Hrun' & Hlaid).
  rewrite Hrun in Hrun'. cbn [app] in Hrun'. inversion Hrun'; subst index' store'.
  change (len []) with 0 in Hlaid.
  unfold pack_B, pack_I in H.
  destruct (pack_uint 1 RPM_HEADER_VERSION) as [v|e] eqn:Ev; cbn [bind] in H;
    [| discriminate].
  destruct (pack_uint 4 (len index)) as [n|e] eqn:En; cbn [bind] in H; [| discriminate].
  destruct (pack_uint 4 (len store)) as [d|e] eqn:Ed; cbn [bind] in H; [| discriminate].
  destruct (pack_index index ((((RPM_HEADER_MAGIC ++ v) ++ zeros 4) ++ n) ++ d))
    as [hdr|e] eqn:Ep; cbn [bind] in H; [| discriminate].
  inversion H; subst header.
  apply pack_index_inv in Ep. subst hdr.
  apply pack_uint_inv in Ev, En, Ed.
  destruct Ev as [_ ->], En as [_ ->], Ed as [Hd ->].
  exists index, store. split; [| split; [exact Hlaid | exact Hd]].
  unfold section. rewrite <- !app_assoc. reflexivity.
Qed.

(** Two appended lists are equal part by part when the first parts have
    the same length. *)
Lemma app_same_length {A} (a b c d : list A) :
  length a = length c -> a ++ b = c ++ d -> a = c /\ b = d.
Proof.
  revert c. induction a as [|x a IH]; intros [|y c] Hlen H; simpl in *;
    try discriminate.
  - auto.
  - inversion H; subst. destruct (IH c) as [-> ->]; auto.
Qed.

(** Two sections with as many index entries are equal only if their
    stores are. *)
Lemma section_store_inj (i1 i2 : list index_entry) (s1 s2 : bytes) :
  length i1 = length i2 -> section i1 s1 = section i2 s2 -> s1 = s2.
Proof.
  intros Hlen H. unfold section in H.
  apply app_inv_head in H. apply app_inv_head in H. apply app_inv_head in H.
  apply app_same_length in H; [| rewrite !length_be_bytes; reflexivity].
  destruct H as [_ H].
  apply app_same_length in H; [| rewrite !length_be_bytes; reflexivity].
  destruct H as [_ H].
  apply app_same_length in H; [| rewrite !length_index_bytes, Hlen; reflexivity].
  apply H.
Qed.

End HeaderFacts.

(** ** The RPM writer: the clock and the payload compressor *)

Module WriterFacts.
Import Py.
Import RpmHeaderBuilder.
Import HeaderLayout.
Import RpmWriter.
Import HeaderFacts.
Import RpmFacts.

(** The environment [env] with another clock. *)
Definition with_time (env : Env) (clock : nat -> Z) : Env :=
  {| md5 := md5 env;
     gzip_compress := gzip_compress env;
     gzip_mtime := gzip_mtime env;
     lzma_compress := lzma_compress env;
     bz2_compress := bz2_compress env;
     time := clock |}.

(** The environment of one run: the library of [env], the readings that
    the clock gives while the header is built, and the time that
    [gzip.compress] reads. *)
Definition at_run (env : Env) (clock : nat -> Z) (mtime : Z) : Env :=
  {| md5 := md5 env;
     gzip_compress := gzip_compress env;
     gzip_mtime := mtime;
     lzma_compress := lzma_compress env;
     bz2_compress := bz2_compress env;
     time := clock |}.

(** The header takes the digest and the clock from the environment, and
    nothing else. *)
Lemma loop_env (env1 env2 : Env) :
  md5 env1 = md5 env2 -> time env1 = time env2 ->
  forall (fs : list file) (a : arrays) (i : nat),
    loop env1 a i fs = loop env2 a i fs.
Proof.
  intros Hm Ht. induction fs as [|f fs IH]; intros a i; cbn [loop]; [reflexivity |].
  rewrite IH. f_equal. unfold step, md5_hexdigest. rewrite Hm, Ht. reflexivity.
Qed.

Lemma build_header_env (env1 env2 : Env) (w : t) :
  md5 env1 = md5 env2 -> time env1 = time env2 ->
  _build_header env1 w = _build_header env2 w.
Proof.
  intros Hm Ht. unfold _build_header, header_entries, file_arrays.
  rewrite (loop_env env1 env2 Hm Ht), Ht. reflexivity.
Qed.

(** The entries whose tags are below BUILDTIME, in tag order. *)
Definition before_buildtime (w : t) : list entry :=
  [ (RPMTAG_NAME, String_ (name w));
    (RPMTAG_VERSION, String_ (version w));
    (RPMTAG_RELEASE, String_ (release w));
    (RPMTAG_SUMMARY, I18NString (summary w));
    (RPMTAG_DESCRIPTION, I18NString (description w)) ].

Lemma sorted_header_prefix (env : Env) (w : t) :
  exists tail,
    sorted_entries (header_entries env w)
    = before_buildtime w ++ (RPMTAG_BUILDTIME, Int32 [time env 0]) :: tail.
Proof.
  exists (skipn 6 (sorted_entries (header_entries env w))).
  rewrite <- (firstn_skipn 6 (sorted_entries (header_entries env w))) at 1.
  change (before_buildtime w ++ (RPMTAG_BUILDTIME, Int32 [time env 0])
          :: skipn 6 (sorted_entries (header_entries env w)))
    with ((before_buildtime w ++ [(RPMTAG_BUILDTIME, Int32 [time env 0])])
          ++ skipn 6 (sorted_entries (header_entries env w))).
  f_equal. unfold header_entries.
  remember (file_arrays env w) as A eqn:HA. clear HA.
  destruct (files w); vm_compute; reflexivity.
Qed.

Lemma header_entries_length (env1 env2 : Env) (w : t) :
  length (header_entries env1 w) = length (header_entries env2 w).
Proof. unfold header_entries. destruct (files w); reflexivity. Qed.

(** *** The layout is a function of the entries *)

Lemma laid_out_det (es : list entry) (o : Z) (i1 i2 : list index_entry) (s1 s2 : bytes) :
  laid_out es o i1 s1 -> laid_out es o i2 s2 -> i1 = i2 /\ s1 = s2.
Proof.
  intros H1. revert i2 s2.
  induction H1 as [o | tag v es o index rest Hl IH]; intros i2 s2 H2;
    inversion H2; subst.
  - auto.
  - destruct (IH _ _ H6) as [-> ->]. auto.
Qed.

Lemma laid_out_app (es es' : list entry) :
  forall (o : Z) (index : list index_entry) (store : bytes),
    laid_out (es ++ es') o index store ->
    exists i1 i2 s1 s2,
      index = i1 ++ i2 /\ store = s1 ++ s2
      /\ laid_out es o i1 s1
      /\ laid_out es' (o + len s1) i2 s2.
Proof.
  induction es as [|[tag v] es IH]; intros o index store H; simpl in H.
  - exists [], index, [], store. repeat split.
    + constructor.
    + change (len []) with 0. rewrite Z.add_0_r. exact H.
  - inversion H; subst.
    destruct (IH _ _ _ H6) as (i1 & i2 & s1 & s2 & -> & -> & Ha & Hb).
    eexists. exists i2. eexists. exists s2.
    split; [| split; [| split]].
    + rewrite app_comm_cons. reflexivity.
    + rewrite !app_assoc. reflexivity.
    + rewrite <- app_assoc. constructor. exact Ha.
    + assert (Hal : 0 < alignment v) by (destruct v; simpl; lia).
      rewrite !len_app, len_zeros by (apply padding_range, Hal).
      match goal with
      | |- laid_out _ ?x _ _ =>
          replace x with (o + padding (alignment v) o + len (encoded v) + len s1) by lia
      end.
      exact Hb.
Qed.

(** The header carries the clock reading of BUILDTIME: two headers built
    from the same writer are equal only if the readings are. *)
Lemma header_buildtime_inj (env1 env2 : Env) (w : t) (h : bytes) :
  _build_header env1 w = Ok h ->
  _build_header env2 w = Ok h ->
  time env1 0 = time env2 0.
Proof.
  unfold _build_header. intros H1 H2.
  destruct (build_inv _ _ H1) as (i1 & s1 & E1 & L1 & _).
  destruct (build_inv _ _ H2) as (i2 & s2 & E2 & L2 & _).
  assert (Hlen : length i1 = length i2).
  { rewrite (laid_out_length _ _ _ _ L1), (laid_out_length _ _ _ _ L2).
    unfold sorted_entries. rewrite !sort_by_length_entries.
    apply header_entries_length. }
  assert (Hs : s1 = s2).
  { eapply section_store_inj; [exact Hlen | congruence]. }
  subst s2.
  assert (Hem1 : Forall (fun e => emittable (snd e)) (sorted_entries (header_entries env1 w))).
  { unfold build in H1.
    destruct (build_store (sorted_entries (header_entries env1 w)) [] []) eqn:R;
      [eapply build_store_inv, R | discriminate]. }
  assert (Hem2 : Forall (fun e => emittable (snd e)) (sorted_entries (header_entries env2 w))).
  { unfold build in H2.
    destruct (build_store (sorted_entries (header_entries env2 w)) [] []) eqn:R;
      [eapply build_store_inv, R | discriminate]. }
  destruct (sorted_header_prefix env1 w) as [t1 P1].
  destruct (sorted_header_prefix env2 w) as [t2 P2].
  rewrite P1 in L1, Hem1. rewrite P2 in L2, Hem2.
  apply laid_out_app in L1. destruct L1 as (a1 & b1 & p1 & q1 & _ & Hs1 & La1 & Lb1).
  apply laid_out_app in L2. destruct L2 as (a2 & b2 & p2 & q2 & _ & Hs2 & La2 & Lb2).
  destruct (laid_out_det _ _ _ _ _ _ La1 La2) as [_ <-].
  rewrite Hs1 in Hs2. apply app_inv_head in Hs2. subst q2.
  inversion Lb1; subst. inversion Lb2; subst.
  match goal with
  | H : zeros _ ++ _ = zeros _ ++ _ |- _ => apply app_inv_head in H; rename H into Hq
  end.
  assert (Hbe : be_bytes 4 (time env2 0) = be_bytes 4 (time env1 0)).
  { injection Hq as Q1 Q2 Q3 Q4 _.
    change (be_bytes 4 (time env2 0)) with
      [byte_of_Z (Z.shiftr (time env2 0) 24); byte_of_Z (Z.shiftr (time env2 0) 16);
       byte_of_Z (Z.shiftr (time env2 0) 8); byte_of_Z (Z.shiftr (time env2 0) 0)].
    change (be_bytes 4 (time env1 0)) with
      [byte_of_Z (Z.shiftr (time env1 0) 24); byte_of_Z (Z.shiftr (time env1 0) 16);
       byte_of_Z (Z.shiftr (time env1 0) 8); byte_of_Z (Z.shiftr (time env1 0) 0)].
    rewrite Q1, Q2, Q3, Q4. reflexivity. }
  apply Forall_app in Hem1, Hem2.
  destruct Hem1 as [_ Hem1], Hem2 as [_ Hem2].
  inversion Hem1 as [|? ? Ht1 _]; subst. inversion Hem2 as [|? ? Ht2 _]; subst.
  simpl in Ht1, Ht2.
  inversion Ht1 as [|? ? Hr1 _]; subst. inversion Ht2 as [|? ? Hr2 _]; subst.
  symmetry. apply be_bytes_4_inj; assumption.
Qed.

(** *** The length of the header does not depend on the clock *)

(** Two entries of the same tag whose values take the same room. *)
Definition same_shape (e1 e2 : entry) : Prop :=
  fst e1 = fst e2
  /\ alignment (snd e1) = alignment (snd e2)
  /\ len (encoded (snd e1)) = len (encoded (snd e2)).

Lemma same_shape_refl (e : entry) : same_shape e e.
Proof. repeat split. Qed.

Lemma length_flat_be_bytes (n : nat) (l : list Z) :
  length (flat_map (be_bytes n) l) = (n * length l)%nat.
Proof.
  induction l as [|x l IH]; cbn [flat_map length].
  - lia.
  - rewrite length_app, length_be_bytes, IH. lia.
Qed.

Lemma same_shape_int32 (tag : Z) (l1 l2 : list Z) :
  length l1 = length l2 -> same_shape (tag, Int32 l1) (tag, Int32 l2).
Proof.
  intros H. unfold same_shape. cbn [fst snd alignment encoded].
  repeat split. unfold len. rewrite !length_flat_be_bytes, H. reflexivity.
Qed.

Lemma insert_shape (x y : entry) (l1 l2 : list entry) :
  same_shape x y ->
  Forall2 same_shape l1 l2 ->
  Forall2 same_shape (insert (@fst Z value) Z.leb x l1) (insert (@fst Z value) Z.leb y l2).
Proof.
  intros Hxy H. induction H as [|a b l1 l2 Hab Hl IH]; cbn [insert].
  - constructor; [exact Hxy | constructor].
  - assert (Hk : fst y = fst x) by (symmetry; apply Hxy).
    assert (Hk' : fst b = fst a) by (symmetry; apply Hab).
    rewrite Hk, Hk'.
    destruct (fst x <=? fst a).
    + constructor; [exact Hxy |].
      constructor; [exact Hab | exact Hl].
    + constructor; [exact Hab |].
      apply IH.
Qed.

Lemma sort_shape (l1 l2 : list entry) :
  Forall2 same_shape l1 l2 ->
  Forall2 same_shape (sorted_entries l1) (sorted_entries l2).
Proof.
  unfold sorted_entries, sort_by.
  induction 1 as [|a b l1 l2 Hab Hl IH]; cbn [fold_right].
  - constructor.
  - apply insert_shape; assumption.
Qed.

Lemma laid_out_shape (es1 es2 : list entry) :
  Forall2 same_shape es1 es2 ->
  forall o i1 s1 i2 s2,
    laid_out es1 o i1 s1 -> laid_out es2 o i2 s2 -> len s1 = len s2.
Proof.
  induction 1 as [|[t1 v1] [t2 v2] es1 es2 (_ & Ha & Hn) Hes IH];
    intros o i1 s1 i2 s2 L1 L2; inversion L1; subst; inversion L2; subst.
  - reflexivity.
  - cbn [snd] in Ha, Hn.
    assert (Hal : 0 < alignment v2) by (destruct v2; simpl; lia).
    rewrite !len_app, !len_zeros by (apply padding_range; rewrite ?Ha; exact Hal).
    rewrite Ha, Hn in *.
    match goal with
    | A : laid_out es1 _ _ ?r1, B : laid_out es2 _ _ ?r2 |- _ =>
        rewrite (IH _ _ _ _ _ A B)
    end.
    reflexivity.
Qed.

(** The arrays of the loop, apart from the modification times. *)
Definition same_but_mtimes (a1 a2 : arrays) : Prop :=
  dirs a1 = dirs a2 /\ dir_list a1 = dir_list a2
  /\ basenames a1 = basenames a2 /\ dirindexes a1 = dirindexes a2
  /\ sizes a1 = sizes a2 /\ modes a1 = modes a2 /\ rdevs a1 = rdevs a2
  /\ length (mtimes a1) = length (mtimes a2)
  /\ md5s a1 = md5s a2 /\ linktos a1 = linktos a2 /\ flags a1 = flags a2
  /\ users a1 = users a2 /\ groups a1 = groups a2 /\ devices a1 = devices a2
  /\ inodes a1 = inodes a2 /\ langs a1 = langs a2
  /\ verifyflags a1 = verifyflags a2.

Lemma loop_clock (env : Env) (clock1 clock2 : nat -> Z) (fs : list file) :
  forall (a1 a2 : arrays) (i : nat),
    same_but_mtimes a1 a2 ->
    same_but_mtimes (loop (with_time env clock1) a1 i fs)
                    (loop (with_time env clock2) a2 i fs).
Proof.
  induction fs as [|f fs IH]; intros a1 a2 i H; cbn [loop].
  - exact H.
  - apply IH.
    destruct H as (H1 & H2 & H3 & H4 & H5 & H6 & H7 & H8 & H9 & H10 & H11
                   & H12 & H13 & H14 & H15 & H16 & H17).
    unfold same_but_mtimes, step, md5_hexdigest.
    cbn [dirs dir_list basenames dirindexes sizes modes rdevs mtimes md5s
         linktos flags users groups devices inodes langs verifyflags
         md5 with_time].
    rewrite H1, H2, H3, H4, H5, H6, H7, H9, H10, H11, H12, H13, H14, H15, H16, H17.
    rewrite !length_app, H8.
    repeat split.
Qed.

Lemma header_entries_shape (env : Env) (clock1 clock2 : nat -> Z) (w : t) :
  Forall2 same_shape (header_entries (with_time env clock1) w)
                     (header_entries (with_time env clock2) w).
Proof.
  unfold header_entries.
  assert (H : same_but_mtimes (file_arrays (with_time env clock1) w)
                              (file_arrays (with_time env clock2) w)).
  { unfold file_arrays. apply loop_clock. repeat split. }
  destruct H as (H1 & H2 & H3 & H4 & H5 & H6 & H7 & H8 & H9 & H10 & H11
                 & H12 & H13 & H14 & H15 & H16 & H17).
  rewrite <- H2, <- H3, <- H4, <- H5, <- H6, <- H7, <- H9, <- H10, <- H11,
    <- H12, <- H13, <- H14, <- H15, <- H16, <- H17.
  remember (file_arrays (with_time env clock1) w) as A1 eqn:E1. clear E1.
  remember (mtimes (file_arrays (with_time env clock2) w)) as m2 eqn:E2. clear E2.
  unfold RpmHeaderBuilder.__init__, add_string, add_i18n_string, add_int32,
    add_int16, add_string_array, as_list.
  destruct (files w); cbn [app];
    repeat (apply Forall2_cons;
            [first [apply same_shape_refl
                   | apply same_shape_int32; first [reflexivity | exact H8]] |]);
    apply Forall2_nil.
Qed.

Lemma header_length_clock (env : Env) (clock1 clock2 : nat -> Z) (w : t)
    (h1 h2 : bytes) :
  _build_header (with_time env clock1) w = Ok h1 ->
  _build_header (with_time env clock2) w = Ok h2 ->
  length h1 = length h2.
Proof.
  unfold _build_header. intros B1 B2.
  destruct (build_inv _ _ B1) as (i1 & s1 & -> & L1 & _).
  destruct (build_inv _ _ B2) as (i2 & s2 & -> & L2 & _).
  pose proof (laid_out_shape _ _ (sort_shape _ _ (header_entries_shape env clock1 clock2 w))
                _ _ _ _ _ L1 L2) as Hs.
  assert (Hi : length i1 = length i2).
  { rewrite (laid_out_length _ _ _ _ L1), (laid_out_length _ _ _ _ L2).
    unfold sorted_entries. rewrite !sort_by_length_entries.
    apply header_entries_length. }
  unfold len in Hs. apply Nat2Z.inj in Hs.
  unfold section. rewrite !length_app, !length_be_bytes, !length_index_bytes, Hi, Hs.
  reflexivity.
Qed.

(** *** The signature *)

Lemma laid_out_cons_inv (tag : Z) (v : value) (es : list entry) (o : Z)
    (index : list index_entry) (store : bytes) :
  laid_out ((tag, v) :: es) o index store ->
  exists index' rest,
    index = (tag, dtype v, o + padding (alignment v) o, count_of v) :: index'
    /\ store = zeros (padding (alignment v) o) ++ encoded v ++ rest
    /\ laid_out es (o + padding (alignment v) o + len (encoded v)) index' rest.
Proof. intros H. inversion H; subst. eauto. Qed.

Lemma app_same_length_tail {A} (a b c d : list A) :
  length b = length d -> a ++ b = c ++ d -> a = c /\ b = d.
Proof.
  intros Hlen H. apply app_same_length; [| exact H].
  apply (f_equal (@length A)) in H. rewrite !length_app in H. lia.
Qed.

(** The entries of the signature header, in tag order. *)
Definition signature_entries (size : Z) (digest : bytes) (payload_size : Z)
  : list entry :=
  [ (SIGTAG_SIZE, Int32 [size]); (SIGTAG_MD5, Bin digest);
    (SIGTAG_PAYLOADSIZE, Int32 [payload_size]) ].

Lemma build_signature_inv (env : Env) (header payload sig : bytes) :
  _build_signature env header payload = Ok sig ->
  exists index store,
    sig = section index store
          ++ zeros ((8 - len (section index store) mod 8) mod 8)
    /\ laid_out (signature_entries (len (header ++ payload))
                   (md5 env (header ++ payload)) (len payload))
                0 index store
    /\ 0 <= len store < 2 ^ 32.
Proof.
  unfold _build_signature. intros H.
  destruct (build _) as [sig_bytes|e] eqn:B; cbn [bind] in H; [| discriminate].
  injection H as <-.
  destruct (build_inv _ _ B) as (index & store & -> & L & R).
  exists index, store. split; [reflexivity | split; [exact L | exact R]].
Qed.

Lemma length_section (index : list index_entry) (store : bytes) :
  length (section index store) = (16 + 16 * length index + length store)%nat.
Proof.
  unfold section. rewrite !length_app, !length_be_bytes, !length_index_bytes.
  reflexivity.
Qed.

(** Two signatures that begin two equal byte strings have the same
    length: the size of the store is among the first sixteen bytes. *)
Lemma signatures_same_length (env : Env) (h1 h2 pl1 pl2 s1 s2 x y : bytes) :
  _build_signature env h1 pl1 = Ok s1 ->
  _build_signature env h2 pl2 = Ok s2 ->
  s1 ++ x = s2 ++ y ->
  length s1 = length s2.
Proof.
  intros S1 S2 E.
  destruct (build_signature_inv _ _ _ _ S1) as (i1 & t1 & -> & L1 & R1).
  destruct (build_signature_inv _ _ _ _ S2) as (i2 & t2 & -> & L2 & R2).
  assert (Hi1 : length i1 = 3%nat) by (rewrite (laid_out_length _ _ _ _ L1); reflexivity).
  assert (Hi2 : length i2 = 3%nat) by (rewrite (laid_out_length _ _ _ _ L2); reflexivity).
  assert (Ht : len t1 = len t2).
  { unfold section in E. rewrite <- !app_assoc in E.
    apply app_inv_head in E. apply app_inv_head in E. apply app_inv_head in E.
    apply app_same_length in E; [| rewrite !length_be_bytes; reflexivity].
    destruct E as [_ E].
    apply app_same_length in E; [| rewrite !length_be_bytes; reflexivity].
    destruct E as [E _].
    apply be_bytes_4_inj in E; assumption. }
  assert (Hs : length (section i1 t1) = length (section i2 t2)).
  { rewrite !length_section, Hi1, Hi2. unfold len in Ht. lia. }
  rewrite !length_app. unfold len. rewrite Hs. reflexivity.
Qed.

(** With digests of one length, two signatures are equal only if the
    digests are. *)
Lemma signature_md5_inj (env : Env) (h1 h2 pl1 pl2 sig : bytes) :
  length (md5 env (h1 ++ pl1)) = length (md5 env (h2 ++ pl2)) ->
  _build_signature env h1 pl1 = Ok sig ->
  _build_signature env h2 pl2 = Ok sig ->
  md5 env (h1 ++ pl1) = md5 env (h2 ++ pl2).
Proof.
  intros Hm S1 S2.
  destruct (build_signature_inv _ _ _ _ S1) as (i1 & s1 & E1 & L1 & _).
  destruct (build_signature_inv _ _ _ _ S2) as (i2 & s2 & E2 & L2 & _).
  remember (md5 env (h1 ++ pl1)) as m1 eqn:Em1. clear Em1.
  remember (md5 env (h2 ++ pl2)) as m2 eqn:Em2. clear Em2.
  remember (len (h1 ++ pl1)) as n1 eqn:En1. clear En1.
  remember (len (h2 ++ pl2)) as n2 eqn:En2. clear En2.
  remember (len pl1) as q1 eqn:Eq1. clear Eq1.
  remember (len pl2) as q2 eqn:Eq2. clear Eq2.
  assert (Hshape : Forall2 same_shape
                     (signature_entries n1 m1 q1) (signature_entries n2 m2 q2)).
  { unfold signature_entries.
    apply Forall2_cons; [apply same_shape_int32; reflexivity |].
    apply Forall2_cons.
    { split; [reflexivity |]. split; [reflexivity |].
      cbn [snd encoded]. unfold len. rewrite Hm. reflexivity. }
    apply Forall2_cons; [apply same_shape_int32; reflexivity |].
    apply Forall2_nil. }
  pose proof (laid_out_shape _ _ Hshape _ _ _ _ _ L1 L2) as Hs.
  assert (Hi : length i1 = length i2).
  { rewrite (laid_out_length _ _ _ _ L1), (laid_out_length _ _ _ _ L2). reflexivity. }
  assert (Hsec : length (section i1 s1) = length (section i2 s2)).
  { unfold len in Hs. apply Nat2Z.inj in Hs.
    rewrite !length_section, Hi, Hs. reflexivity. }
  rewrite E1 in E2. apply app_same_length in E2; [| exact Hsec].
  destruct E2 as [E2 _]. apply section_store_inj in E2; [| exact Hi]. subst s2.
  clear Hshape Hs Hsec Hi S1 S2 E1.
  unfold signature_entries in L1, L2.
  destruct (laid_out_cons_inv _ _ _ _ _ _ L1) as (ia & ra & _ & Ea & La).
  destruct (laid_out_cons_inv _ _ _ _ _ _ La) as (ib & rb & _ & Eb & _).
  destruct (laid_out_cons_inv _ _ _ _ _ _ L2) as (ic & rc & _ & Ec & Lc).
  destruct (laid_out_cons_inv _ _ _ _ _ _ Lc) as (id & rd & _ & Ed & _).
  rewrite Ea in Ec. apply app_inv_head in Ec.
  apply app_same_length in Ec;
    [| cbn [encoded flat_map]; rewrite !length_app, !length_be_bytes; reflexivity].
  destruct Ec as [_ Ec].
  rewrite Eb, Ed in Ec. cbn [alignment] in Ec. rewrite !padding_one in Ec.
  change (zeros 0) with (@nil byte) in Ec. cbn [app encoded] in Ec.
  apply app_same_length in Ec; [apply Ec | exact Hm].
Qed.

(** The file written is not a function of the package metadata and
    the file list alone.  BUILDTIME is the first reading of the clock and
    FILEMTIMES holds one later reading for each file.  Take two writes of
    the same writer that succeed, in runs whose first clock readings
    differ.  The leads are the same.  The payloads are the same when the
    compression is not gzip; with gzip each payload is the gzip stream made
    at the time that [gzip.compress] read in its run.  The main headers
    differ, the bytes written differ, and the signatures differ unless the
    two MD5 digests, taken of equal length, collide. *)
Theorem write_depends_on_clock (env : Env) (clock1 clock2 : nat -> Z)
    (mtime1 mtime2 : Z) (w : t) (p1 p2 : parts) :
  clock1 0%nat <> clock2 0%nat ->
  build_parts (at_run env clock1 mtime1) w = Ok p1 ->
  build_parts (at_run env clock2 mtime2) w = Ok p2 ->
  (forall clock mtime,
     find_tag RPMTAG_BUILDTIME (header_entries (at_run env clock mtime) w)
     = Some (Int32 [clock 0%nat]))
  /\ (forall clock mtime,
        files w <> [] ->
        find_tag RPMTAG_FILEMTIMES (header_entries (at_run env clock mtime) w)
        = Some (Int32 (map (fun k => clock (S k)) (seq 0 (length (files w))))))
  /\ p_lead p1 = p_lead p2
  /\ (compression w <> lit "gzip" -> p_payload p1 = p_payload p2)
  /\ (compression w = lit "gzip" ->
      p_payload p1 = gzip_compress env mtime1 (_build_cpio_payload w)
      /\ p_payload p2 = gzip_compress env mtime2 (_build_cpio_payload w))
  /\ p_header p1 <> p_header p2
  /\ (length (md5 env (p_header p1 ++ p_payload p1))
      = length (md5 env (p_header p2 ++ p_payload p2)) ->
      md5 env (p_header p1 ++ p_payload p1) <> md5 env (p_header p2 ++ p_payload p2) ->
      p_signature p1 <> p_signature p2)
  /\ write (at_run env clock1 mtime1) w <> write (at_run env clock2 mtime2) w.
Proof.
  intros Hclock B1 B2.
  assert (Hparts :
    exists pl1 pl2 lead h1 h2 s1 s2,
      _compress_payload (at_run env clock1 mtime1) w (_build_cpio_payload w) = Ok pl1
      /\ _compress_payload (at_run env clock2 mtime2) w (_build_cpio_payload w) = Ok pl2
      /\ _build_header (with_time env clock1) w = Ok h1
      /\ _build_header (with_time env clock2) w = Ok h2
      /\ _build_signature env h1 pl1 = Ok s1
      /\ _build_signature env h2 pl2 = Ok s2
      /\ p1 = {| p_lead := lead; p_signature := s1; p_header := h1; p_payload := pl1 |}
      /\ p2 = {| p_lead := lead; p_signature := s2; p_header := h2; p_payload := pl2 |}).
  { unfold build_parts in B1, B2.
    destruct (_compress_payload (at_run env clock1 mtime1) w (_build_cpio_payload w))
      as [pl1|] eqn:C1; cbn [bind] in B1; [| discriminate].
    destruct (_compress_payload (at_run env clock2 mtime2) w (_build_cpio_payload w))
      as [pl2|] eqn:C2; cbn [bind] in B2; [| discriminate].
    rewrite (build_header_env (at_run env clock1 mtime1) (with_time env clock1) w
               eq_refl eq_refl) in B1.
    rewrite (build_header_env (at_run env clock2 mtime2) (with_time env clock2) w
               eq_refl eq_refl) in B2.
    destruct (_build_header (with_time env clock1) w) as [h1|];
      cbn [bind] in B1; [| discriminate].
    destruct (_build_header (with_time env clock2) w) as [h2|];
      cbn [bind] in B2; [| discriminate].
    change (_build_signature (at_run env clock1 mtime1) h1 pl1)
      with (_build_signature env h1 pl1) in B1.
    change (_build_signature (at_run env clock2 mtime2) h2 pl2)
      with (_build_signature env h2 pl2) in B2.
    destruct (_build_signature env h1 pl1) as [s1|] eqn:S1;
      cbn [bind] in B1; [| discriminate].
    destruct (_build_signature env h2 pl2) as [s2|] eqn:S2;
      cbn [bind] in B2; [| discriminate].
    destruct (_build_lead w) as [lead|]; cbn [bind] in B1, B2; [| discriminate].
    injection B1 as <-. injection B2 as <-.
    exists pl1, pl2, lead, h1, h2, s1, s2. repeat split; assumption. }
  destruct Hparts
    as (pl1 & pl2 & lead & h1 & h2 & s1 & s2 & C1 & C2 & H1 & H2 & S1 & S2 & -> & ->).
  cbn [p_lead p_signature p_header p_payload].
  assert (Hdiff : h1 <> h2).
  { intros ->. apply Hclock.
    exact (header_buildtime_inj (with_time env clock1) (with_time env clock2) w h2 H1 H2). }
  pose proof (header_length_clock env clock1 clock2 w h1 h2 H1 H2) as Hlen.
  split; [| split; [| split; [| split; [| split; [| split; [| split]]]]]].
  - intros clock mtime. unfold header_entries. destruct (files w); reflexivity.
  - intros clock mtime Hne.
    destruct (loop_fields (at_run env clock mtime) (files w) no_arrays 0)
      as (_ & _ & _ & _ & Hm & _).
    fold (file_arrays (at_run env clock mtime) w) in Hm.
    cbn [mtimes no_arrays app] in Hm.
    change (time (at_run env clock mtime)) with clock in Hm.
    rewrite <- Hm. unfold header_entries.
    remember (file_arrays (at_run env clock mtime) w) as A eqn:EA. clear EA Hm.
    destruct (files w); [contradiction | reflexivity].
  - reflexivity.
  - intros Hg. apply SortFacts.str_eqb_neq in Hg.
    unfold _compress_payload in C1, C2. rewrite Hg in C1, C2.
    cbn [lzma_compress bz2_compress at_run] in C1, C2.
    rewrite C1 in C2. injection C2 as ->. reflexivity.
  - intros Hg. unfold _compress_payload in C1, C2. rewrite Hg in C1, C2.
    change (str_eqb (lit "gzip") (lit "none")) with false in C1, C2.
    change (str_eqb (lit "gzip") (lit "gzip")) with true in C1, C2.
    cbn [gzip_compress gzip_mtime at_run] in C1, C2.
    injection C1 as <-. injection C2 as <-. split; reflexivity.
  - exact Hdiff.
  - intros Hm Hne ->. apply Hne.
    exact (signature_md5_inj env h1 h2 pl1 pl2 s2 Hm S1 S2).
  - unfold write. rewrite B1, B2.
    cbn [bind p_lead p_signature p_header p_payload].
    intros E. injection E as E. apply app_inv_head in E.
    pose proof (signatures_same_length env h1 h2 pl1 pl2 s1 s2 _ _ S1 S2 E) as Hs.
    apply app_same_length in E; [| exact Hs].
    destruct E as [_ E].
    apply app_same_length in E; [| exact Hlen].
    destruct E as [E _]. contradiction.
Qed.

Lemma write_depends_on_clock_witness :
  exists p1 p2,
    build_parts (at_run (Samples.rpm_env 0) (fun k => 100 + Z.of_nat k) 99)
                (Samples.rpm_with (lit "gzip")) = Ok p1
    /\ build_parts (at_run (Samples.rpm_env 0) (fun k => 200 + Z.of_nat k) 199)
                   (Samples.rpm_with (lit "gzip")) = Ok p2
    /\ p_lead p1 = p_lead p2
    /\ p_header p1 <> p_header p2.
Proof.
  destruct (build_parts (at_run (Samples.rpm_env 0) (fun k => 100 + Z.of_nat k) 99)
              (Samples.rpm_with (lit "gzip"))) as [p1|e1] eqn:B1;
    [| vm_compute in B1; discriminate B1].
  destruct (build_parts (at_run (Samples.rpm_env 0) (fun k => 200 + Z.of_nat k) 199)
              (Samples.rpm_with (lit "gzip"))) as [p2|e2] eqn:B2;
    [| vm_compute in B2; discriminate B2].
  exists p1, p2. split; [reflexivity |]. split; [reflexivity |].
  assert (Hc : 100 + Z.of_nat 0 <> 200 + Z.of_nat 0) by (simpl; lia).
  destruct (write_depends_on_clock (Samples.rpm_env 0)
              (fun k => 100 + Z.of_nat k) (fun k => 200 + Z.of_nat k) 99 199
              (Samples.rpm_with (lit "gzip")) p1 p2 Hc B1 B2)
    as (_ & _ & Hl & _ & _ & Hh & _).
  split; assumption.
Defined.

(** With gzip the two payloads of the sample package differ, as the two
    times do. *)
Example gzip_payload_varies :
  exists p1 p2,
    build_parts (at_run (Samples.rpm_env 0) (fun k => 100 + Z.of_nat k) 99)
                (Samples.rpm_with (lit "gzip")) = Ok p1
    /\ build_parts (at_run (Samples.rpm_env 0) (fun k => 200 + Z.of_nat k) 199)
                   (Samples.rpm_with (lit "gzip")) = Ok p2
    /\ p_payload p1 <> p_payload p2.
Proof.
  eexists. eexists. split; [vm_compute; reflexivity |].
  split; [vm_compute; reflexivity |].
  vm_compute. discriminate.
Qed.

(** The sample package written at clock readings 100 and 200: the two
    BUILDTIME values are the readings. *)
Example rpm_sample_buildtime :
  find_tag RPMTAG_BUILDTIME
    (header_entries (with_time (Samples.rpm_env 0) (fun k => 100 + Z.of_nat k))
       (Samples.rpm_with (lit "gzip"))) = Some (Int32 [100])
  /\ find_tag RPMTAG_FILEMTIMES
       (header_entries (with_time (Samples.rpm_env 0) (fun k => 100 + Z.of_nat k))
          (Samples.rpm_with (lit "gzip"))) = Some (Int32 [101; 102; 103; 104]).
Proof. split; vm_compute; reflexivity. Qed.

Lemma find_tag_In (tag : Z) (v : value) (h : RpmHeaderBuilder.t) :
  find_tag tag h = Some v -> In (tag, v) h.
Proof.
  induction h as [|[t' v'] h IH]; cbn [find_tag]; [discriminate |].
  destruct (t' =? tag) eqn:E.
  - intros [= ->]. apply Z.eqb_eq in E. subst. left. reflexivity.
  - intros H. right. exact (IH H).
Qed.

(** *** The per-file arrays of the main header *)

Lemma linktos_of_targets (fs : list file) (l : list str) :
  Forall2 (fun f s => if is_symlink f then target f = Some s else s = []) fs l ->
  map file_linkto fs = l.
Proof.
  induction 1 as [|f s fs l Hf _ IH]; cbn [map]; [reflexivity |].
  rewrite IH. f_equal. unfold file_linkto, target_str.
  destruct (is_symlink f); [rewrite Hf; reflexivity | symmetry; exact Hf].
Qed.

(** C6.  For a non-empty file list, the per-file arrays that
    [_build_header] adds to the main header are these.  DIRNAMES is the
    list of the files' directory entries without repetition, in order of
    first use, and DIRINDEXES[i] is the place of file i's entry in it; the
    entry is ["/" + parent + "/"] for a path [parent/leaf] and ["/"] for a
    path without separator, the base name being the leaf.  FILEMD5S[i] is
    the hex MD5 of the content for a regular file and empty for a directory
    or a symlink; FILELINKTOS[i] is the target stored for a symlink and
    empty otherwise; FILEINODES[i] = i + 1; FILEVERIFYFLAGS[i] = 0xFFFFFFFF;
    FILEDEVICES[i] = 1; FILERDEVS[i] = 0; FILELANGS[i] = ""; FILEFLAGS[i] = 0;
    SIZE is the sum of the lengths of the contents.  In the header that
    [_build_header] returns, each of these values has an index entry with
    its tag, its type and its count, at an offset aligned for the type,
    where the data store holds its bytes. *)
Theorem per_file_arrays (env : Env) (w : t) :
  files w <> [] ->
  (exists dl di,
     find_tag RPMTAG_DIRNAMES (header_entries env w) = Some (StringArray dl)
     /\ find_tag RPMTAG_DIRINDEXES (header_entries env w) = Some (Int32 di)
     /\ dl = dedup (map file_dirname (files w))
     /\ NoDup dl
     /\ Forall2 (fun f k => at_index dl k (file_dirname f)) (files w) di)
  /\ (forall f d x b,
        In f (files w) ->
        lstrip sep (path f) = (d ++ [x]) ++ sep :: b -> x <> sep -> ~ In sep b ->
        file_dirname f = lit "/" ++ (d ++ [x]) ++ lit "/" /\ file_basename f = b)
  /\ (forall f,
        In f (files w) ->
        ~ In sep (lstrip sep (path f)) ->
        file_dirname f = lit "/" /\ file_basename f = lstrip sep (path f))
  /\ find_tag RPMTAG_BASENAMES (header_entries env w)
     = Some (StringArray (map file_basename (files w)))
  /\ find_tag RPMTAG_FILEMD5S (header_entries env w)
     = Some (StringArray (map (file_md5 env) (files w)))
  /\ (forall l,
        Forall2 (fun f s => if is_symlink f then target f = Some s else s = [])
                (files w) l ->
        find_tag RPMTAG_FILELINKTOS (header_entries env w) = Some (StringArray l))
  /\ find_tag RPMTAG_FILEINODES (header_entries env w)
     = Some (Int32 (map (fun i => Z.of_nat i + 1) (seq 0 (length (files w)))))
  /\ find_tag RPMTAG_FILEVERIFYFLAGS (header_entries env w)
     = Some (Int32 (repeat 4294967295 (length (files w))))
  /\ find_tag RPMTAG_FILEDEVICES (header_entries env w)
     = Some (Int32 (repeat 1 (length (files w))))
  /\ find_tag RPMTAG_FILERDEVS (header_entries env w)
     = Some (Int16 (repeat 0 (length (files w))))
  /\ find_tag RPMTAG_FILELANGS (header_entries env w)
     = Some (StringArray (repeat [] (length (files w))))
  /\ find_tag RPMTAG_FILEFLAGS (header_entries env w)
     = Some (Int32 (repeat 0 (length (files w))))
  /\ find_tag RPMTAG_SIZE (header_entries env w)
     = Some (Int32 [sum (map (fun f => len (content f)) (files w))])
  /\ (forall header,
        _build_header env w = Ok header ->
        exists index store,
          header = section index store
          /\ forall tag v,
               find_tag tag (header_entries env w) = Some v ->
               exists offset,
                 In (tag, dtype v, offset, count_of v) index
                 /\ offset mod alignment v = 0
                 /\ slice store offset (offset + len (encoded v)) = encoded v).
Proof.
  intros Hne.
  destruct (file_arrays_dirs env w) as [Hdl Hdi].
  destruct (loop_fields env (files w) no_arrays 0)
    as (H1 & H2 & H3 & H4 & H5 & H6 & H7 & H8 & H9 & H10 & H11 & H12 & H13 & H14).
  fold (file_arrays env w) in *. simpl in *.
  assert (Hes : exists f fs, files w = f :: fs).
  { destruct (files w) as [|f fs]; [contradiction | eauto]. }
  destruct Hes as (f0 & fs0 & Hf).
  split; [| split; [| split]].
  - exists (dir_list (file_arrays env w)), (dirindexes (file_arrays env w)).
    split; [unfold header_entries; rewrite Hf; reflexivity |].
    split; [unfold header_entries; rewrite Hf; reflexivity |].
    split; [exact Hdl |].
    split; [rewrite Hdl; apply dedup_NoDup | exact Hdi].
  - intros f d x b _ Hp Hx Hb. unfold file_dirname, file_basename. rewrite Hp.
    destruct (dirname_basename_split (d ++ [x]) b x d eq_refl Hx Hb) as [-> ->].
    split; [| reflexivity].
    destruct (d ++ [x]) eqn:E; [destruct d; discriminate | reflexivity].
  - intros f _ Hp. unfold file_dirname, file_basename.
    destruct (dirname_basename_plain _ Hp) as [-> ->]. split; reflexivity.
  - assert (Hbuilt : forall header,
              _build_header env w = Ok header ->
              exists index store,
                header = section index store
                /\ forall tag v,
                     find_tag tag (header_entries env w) = Some v ->
                     exists offset,
                       In (tag, dtype v, offset, count_of v) index
                       /\ offset mod alignment v = 0
                       /\ slice store offset (offset + len (encoded v)) = encoded v).
    { intros header Hb. unfold _build_header in Hb.
      destruct (build_inv _ _ Hb) as (index & store & -> & L & _).
      exists index, store. split; [reflexivity |].
      intros tag v Hv. apply find_tag_In in Hv.
      assert (Hin : In (tag, v) (sorted_entries (header_entries env w))).
      { unfold sorted_entries. apply SortFacts.sort_by_In. exact Hv. }
      destruct (laid_out_entry _ _ _ _ L (Z.le_refl 0) _ _ Hin)
        as (offset & Hidx & Hal & _ & _ & Hslice).
      exists offset. rewrite Z.sub_0_r in Hslice. auto. }
    assert (Hlink : forall l,
              Forall2 (fun f s => if is_symlink f then target f = Some s else s = [])
                      (files w) l ->
              linktos (file_arrays env w) = l).
    { intros l Hl. rewrite H7. apply linktos_of_targets, Hl. }
    unfold header_entries in Hlink |- *. clear Hdl Hdi Hf H7.
    revert Hbuilt. generalize (_build_header env w). intros built Hbuilt.
    unfold header_entries in Hbuilt.
    remember (file_arrays env w) as A eqn:HA. clear HA.
    revert H1 H2 H3 H4 H5 H6 H8 H9 H10 H11 H12 H13 H14 Hlink Hbuilt.
    destruct (files w) as [|f fs]; [contradiction |].
    intros H1 H2 H3 H4 H5 H6 H8 H9 H10 H11 H12 H13 H14 Hlink Hbuilt.
    split; [field_is H1 |].
    split; [field_is H6 |].
    split.
    { intros l Hl. rewrite <- (Hlink l Hl). reflexivity. }
    split; [field_is H12 |].
    split; [field_is H14 |].
    split; [field_is H11 |].
    split; [field_is H4 |].
    split; [field_is H13 |].
    split; [field_is H8 |].
    split.
    { change (Some (Int32 [sum (sizes A)])
              = Some (Int32 [sum (map (fun f => len (content f)) (f :: fs))])).
      rewrite H2. reflexivity. }
    exact Hbuilt.
Qed.

(** The theorem at the sample package: a directory, a file, a symlink
    and a second file of two bytes each give the size [4]; the link to
    ["hello"] has its target in FILELINKTOS. *)
Lemma per_file_arrays_witness :
  files (Samples.rpm_with (lit "gzip")) <> []
  /\ find_tag RPMTAG_SIZE (header_entries (Samples.rpm_env 0) (Samples.rpm_with (lit "gzip")))
     = Some (Int32 [4])
  /\ find_tag RPMTAG_FILEINODES
       (header_entries (Samples.rpm_env 0) (Samples.rpm_with (lit "gzip")))
     = Some (Int32 [1; 2; 3; 4])
  /\ find_tag RPMTAG_FILELINKTOS
       (header_entries (Samples.rpm_env 0) (Samples.rpm_with (lit "gzip")))
     = Some (StringArray [[]; []; lit "hello"; []])
  /\ exists index store offset,
       _build_header (Samples.rpm_env 0) (Samples.rpm_with (lit "gzip"))
       = Ok (section index store)
       /\ In (RPMTAG_FILELINKTOS, HEADER_STRING_ARRAY, offset, 4) index
       /\ slice store offset (offset + 9)
          = [x00; x00] ++ encode_utf8 (lit "hello") ++ [x00; x00].
Proof.
  assert (H : files (Samples.rpm_with (lit "gzip")) <> [])
    by (intros E; discriminate E).
  split; [exact H |].
  pose proof (per_file_arrays (Samples.rpm_env 0) (Samples.rpm_with (lit "gzip")) H)
    as (_ & _ & _ & _ & _ & Hlink & Hino & _ & _ & _ & _ & _ & Hsize & Hbuilt).
  assert (Hl : find_tag RPMTAG_FILELINKTOS
                 (header_entries (Samples.rpm_env 0) (Samples.rpm_with (lit "gzip")))
               = Some (StringArray [[]; []; lit "hello"; []])).
  { apply Hlink.
    repeat (apply Forall2_cons; [reflexivity |]). apply Forall2_nil. }
  split; [exact Hsize |]. split; [exact Hino |]. split; [exact Hl |].
  destruct (_build_header (Samples.rpm_env 0) (Samples.rpm_with (lit "gzip")))
    as [header|e] eqn:B; [| vm_compute in B; discriminate B].
  destruct (Hbuilt header eq_refl) as (index & store & -> & Hall).
  destruct (Hall _ _ Hl) as (offset & Hidx & _ & Hslice).
  exists index, store, offset. split; [reflexivity |].
  split; [exact Hidx | exact Hslice].
Defined.

(** *** The payload and its compressor tag *)

Lemma find_payloadcompressor (env : Env) (w : t) :
  find_tag RPMTAG_PAYLOADCOMPRESSOR (header_entries env w)
  = Some (String_ (if negb (str_eqb (compression w) (lit "none"))
                   then compression w else lit "gzip")).
Proof. unfold header_entries. destruct (files w); reflexivity. Qed.

Lemma find_payloadformat (env : Env) (w : t) :
  find_tag RPMTAG_PAYLOADFORMAT (header_entries env w) = Some (String_ (lit "cpio")).
Proof. unfold header_entries. destruct (files w); reflexivity. Qed.

(** When the package is built, the main header has one index entry
    of tag 1125 and type STRING whose bytes in the data store are a name
    and its NUL.  For the settings "gzip", "xz" and "bzip2" the name is the
    setting and the payload is the cpio archive compressed by gzip, lzma and
    bz2; for the setting "none" the payload is the cpio archive as it is
    and the name is "gzip".  Tag 1124 is "cpio". *)
Theorem payload_compressor (env : Env) (w : t) (p : parts) :
  build_parts env w = Ok p ->
  find_tag RPMTAG_PAYLOADFORMAT (header_entries env w) = Some (String_ (lit "cpio"))
  /\ exists index store offset name,
       p_header p = section index store
       /\ find_tag RPMTAG_PAYLOADCOMPRESSOR (header_entries env w) = Some (String_ name)
       /\ In (RPMTAG_PAYLOADCOMPRESSOR, HEADER_STRING, offset, 1) index
       /\ slice store offset (offset + (len (encode_utf8 name) + 1))
          = encode_utf8 name ++ [NUL]
       /\ ((compression w = lit "gzip" /\ name = lit "gzip"
            /\ p_payload p
               = gzip_compress env (gzip_mtime env) (_build_cpio_payload w))
           \/ (compression w = lit "xz" /\ name = lit "xz"
               /\ p_payload p = lzma_compress env (_build_cpio_payload w))
           \/ (compression w = lit "bzip2" /\ name = lit "bzip2"
               /\ p_payload p = bz2_compress env (_build_cpio_payload w))
           \/ (compression w = lit "none" /\ name = lit "gzip"
               /\ p_payload p = _build_cpio_payload w)).
Proof.
  intros B. split; [apply find_payloadformat |].
  unfold build_parts in B.
  destruct (_compress_payload env w (_build_cpio_payload w)) as [payload|] eqn:C;
    cbn [bind] in B; [| discriminate].
  destruct (_build_header env w) as [h|] eqn:H; cbn [bind] in B; [| discriminate].
  destruct (_build_signature env h payload) as [s|]; cbn [bind] in B; [| discriminate].
  destruct (_build_lead w) as [lead|]; cbn [bind] in B; [| discriminate].
  injection B as <-. cbn [p_header p_payload].
  destruct (build_inv _ _ H) as (index & store & -> & L & _).
  pose proof (find_payloadcompressor env w) as F.
  remember (if negb (str_eqb (compression w) (lit "none"))
            then compression w else lit "gzip") as name eqn:En.
  assert (Hin : In (RPMTAG_PAYLOADCOMPRESSOR, String_ name)
                   (sorted_entries (header_entries env w))).
  { unfold sorted_entries. apply SortFacts.sort_by_In. apply find_tag_In, F. }
  destruct (laid_out_entry _ _ _ _ L (Z.le_refl 0) _ _ Hin)
    as (offset & Hidx & _ & _ & _ & Hslice).
  exists index, store, offset, name.
  split; [reflexivity |]. split; [exact F |]. split; [exact Hidx |].
  split.
  { rewrite Z.sub_0_r in Hslice. cbn [encoded] in Hslice.
    rewrite len_app in Hslice. exact Hslice. }
  unfold _compress_payload in C.
  destruct (str_eqb (compression w) (lit "none")) eqn:E0.
  { right. right. right. apply SortFacts.str_eqb_eq in E0.
    injection C as <-. auto. }
  cbn [negb] in En.
  destruct (str_eqb (compression w) (lit "gzip")) eqn:E1.
  { left. apply SortFacts.str_eqb_eq in E1. injection C as <-.
    rewrite En. auto. }
  destruct (str_eqb (compression w) (lit "xz")) eqn:E2.
  { right. left. apply SortFacts.str_eqb_eq in E2. injection C as <-.
    rewrite En. auto. }
  destruct (str_eqb (compression w) (lit "bzip2")) eqn:E3.
  { right. right. left. apply SortFacts.str_eqb_eq in E3. injection C as <-.
    rewrite En. auto. }
  discriminate C.
Qed.

Lemma payload_compressor_witness :
  exists p,
    build_parts (Samples.rpm_env 0) (Samples.rpm_with (lit "xz")) = Ok p
    /\ find_tag RPMTAG_PAYLOADFORMAT
         (header_entries (Samples.rpm_env 0) (Samples.rpm_with (lit "xz")))
       = Some (String_ (lit "cpio")).
Proof.
  destruct (build_parts (Samples.rpm_env 0) (Samples.rpm_with (lit "xz")))
    as [p|e] eqn:B; [| vm_compute in B; discriminate B].
  exists p. split; [reflexivity |].
  exact (proj1 (payload_compressor (Samples.rpm_env 0)
                  (Samples.rpm_with (lit "xz")) p B)).
Defined.

(** With the setting "none" the payload is the cpio archive itself, not
    its gzip compression, and tag 1125 says "gzip". *)
Lemma none_is_tagged_gzip :
  compression (Samples.rpm_with (lit "none")) = lit "none"
  /\ find_tag RPMTAG_PAYLOADCOMPRESSOR
       (header_entries (Samples.rpm_env 0) (Samples.rpm_with (lit "none")))
     = Some (String_ (lit "gzip"))
  /\ exists p,
       build_parts (Samples.rpm_env 0) (Samples.rpm_with (lit "none")) = Ok p
       /\ p_payload p = _build_cpio_payload (Samples.rpm_with (lit "none"))
       /\ p_payload p
          <> gzip_compress (Samples.rpm_env 0) 0
               (_build_cpio_payload (Samples.rpm_with (lit "none"))).
Proof.
  split; [reflexivity |]. split; [vm_compute; reflexivity |].
  eexists. split; [vm_compute; reflexivity |].
  split; [vm_compute; reflexivity |].
  vm_compute. discriminate.
Qed.

End WriterFacts.

(** ** The cpio writer *)

Module CpioFacts.
Import Py.
Import CpioWriter.
Import NewcFormat.
Import HeaderFacts.

Lemma hex_digit_zero : hex_digit 0 = "0"%char.
Proof. reflexivity. Qed.

Lemma hexn_zero (k : nat) : hexn k 0 = repeat "0"%char k.
Proof.
  induction k as [|k IH]; cbn [hexn].
  - reflexivity.
  - change (0 / 16) with 0. change (0 mod 16) with 0. rewrite IH, hex_digit_zero.
    symmetry. change ("0"%char :: repeat "0"%char k) with (repeat "0"%char (S k)).
    rewrite <- repeat_cons. reflexivity.
Qed.

Lemma length_hexn (k : nat) : forall x, length (hexn k x) = k.
Proof.
  induction k as [|k IH]; intros x; cbn [hexn].
  - reflexivity.
  - rewrite length_app, IH. simpl. lia.
Qed.

Lemma hex_digit_is_hex (d : Z) : is_hex (hex_digit d).
Proof.
  unfold is_hex, hex_digit.
  destruct (Nat.lt_ge_cases (Z.to_nat d) (length (lit "0123456789ABCDEF"))) as [H | H].
  - apply nth_In, H.
  - rewrite nth_overflow by exact H. left. reflexivity.
Qed.

Lemma hexn_is_hex (k : nat) : forall x, Forall is_hex (hexn k x).
Proof.
  induction k as [|k IH]; intros x; cbn [hexn].
  - constructor.
  - apply Forall_app. split; [apply IH |].
    constructor; [apply hex_digit_is_hex | constructor].
Qed.

(** The loop of [hex_upper], filled with zeros on the left up to [k] digits. *)
Lemma hex_digits_fill (k : nat) :
  forall (fuel : nat) (n : Z) (acc : str),
    (1 <= k)%nat ->
    0 <= n < 16 ^ Z.of_nat k ->
    n < 16 ^ Z.of_nat fuel ->
    (length (hex_digits fuel n acc) <= k + length acc)%nat
    /\ repeat "0"%char (k + length acc - length (hex_digits fuel n acc))
       ++ hex_digits fuel n acc
       = hexn k n ++ acc.
Proof.
  induction k as [|k IH]; intros fuel n acc Hk Hn Hf; [lia |].
  destruct fuel as [|fuel].
  { change (16 ^ Z.of_nat 0) with 1 in Hf.
    assert (n = 0) by lia. subst n. cbn [hex_digits]. rewrite hexn_zero.
    split; [lia |].
    replace (S k + length acc - length acc)%nat with (S k) by lia. reflexivity. }
  cbn [hex_digits hexn].
  assert (Hq : 0 <= n / 16 < 16 ^ Z.of_nat k).
  { rewrite Nat2Z.inj_succ, Z.pow_succ_r in Hn by lia.
    split; [apply Z.div_pos; lia | apply Z.div_lt_upper_bound; lia]. }
  assert (Hqf : n / 16 < 16 ^ Z.of_nat fuel).
  { rewrite Nat2Z.inj_succ, Z.pow_succ_r in Hf by lia.
    apply Z.div_lt_upper_bound; lia. }
  destruct (n / 16 =? 0) eqn:E.
  - apply Z.eqb_eq in E. rewrite E, hexn_zero. cbn [length].
    split; [lia |].
    replace (S k + length acc - S (length acc))%nat with k by lia.
    rewrite <- app_assoc. reflexivity.
  - apply Z.eqb_neq in E.
    assert (Hk' : (1 <= k)%nat).
    { destruct k; [| lia]. change (16 ^ Z.of_nat 0) with 1 in Hq. lia. }
    destruct (IH fuel (n / 16) (hex_digit (n mod 16) :: acc) Hk' Hq Hqf) as [Hl He].
    cbn [length] in Hl, He.
    split; [lia |].
    replace (S k + length acc)%nat with (k + S (length acc))%nat by lia.
    rewrite He, <- app_assoc. reflexivity.
Qed.

Lemma log2_fuel (n : Z) : 0 <= n -> n < 16 ^ Z.of_nat (S (Z.to_nat (Z.log2 n))).
Proof.
  intros Hn.
  rewrite Nat2Z.inj_succ, Z2Nat.id by apply Z.log2_nonneg.
  destruct (Z.eq_dec n 0) as [-> | Hz]; [reflexivity |].
  apply Z.lt_le_trans with (2 ^ Z.succ (Z.log2 n)).
  - apply Z.log2_spec. lia.
  - apply Z.pow_le_mono_l. lia.
Qed.

(** [f"{x:08X}"] of a number that fits: its eight digits. *)
Lemma fmt_08X_fits (x : Z) : fits x -> fmt_08X x = hexn 8 x.
Proof.
  unfold fits. intros Hx. unfold fmt_08X.
  destruct (x <? 0) eqn:E; [apply Z.ltb_lt in E; lia |].
  unfold zfill, hex_upper.
  destruct (hex_digits_fill 8 (S (Z.to_nat (Z.log2 x))) x []) as [_ H].
  - lia.
  - change (16 ^ Z.of_nat 8) with (2 ^ 32). exact Hx.
  - apply log2_fuel. lia.
  - rewrite app_nil_r in H. cbn [length] in H. rewrite Nat.add_0_r in H. exact H.
Qed.

Lemma fits_zero : fits 0.
Proof. unfold fits. change (2 ^ 32) with 4294967296. lia. Qed.

Lemma fits_small (x : Z) : 0 <= x < 65536 -> fits x.
Proof. unfold fits. change (2 ^ 32) with 4294967296. lia. Qed.

Lemma log2_fits (x : Z) : fits x -> Z.log2 x < 32.
Proof.
  unfold fits. intros [H0 H1].
  destruct (Z.eq_dec x 0) as [-> | Hz]; [reflexivity |].
  apply Z.log2_lt_pow2; lia.
Qed.

Lemma lor_fits (a b : Z) : fits a -> fits b -> fits (Z.lor a b).
Proof.
  intros Ha Hb.
  assert (H0 : 0 <= Z.lor a b) by (apply Z.lor_nonneg; unfold fits in *; lia).
  split; [exact H0 |].
  destruct (Z.eq_dec (Z.lor a b) 0) as [-> | Hz]; [reflexivity |].
  apply Z.log2_lt_pow2; [lia |].
  rewrite Z.log2_lor by (unfold fits in *; lia).
  pose proof (log2_fits a Ha). pose proof (log2_fits b Hb). lia.
Qed.

Lemma typed_mode_fits (kind mode : Z) :
  fits kind -> fits mode -> fits (typed_mode kind mode).
Proof.
  intros Hk Hm. unfold typed_mode.
  destruct (Z.land mode S_IFMT =? 0); [apply lor_fits |]; assumption.
Qed.

(** *** The shape of an entry *)

Lemma pad4_range (n : Z) : 0 <= pad4 n < 4.
Proof. unfold pad4. apply Z.mod_pos_bound. lia. Qed.

Lemma pad4_aligned (n : Z) : (n + pad4 n) mod 4 = 0.
Proof.
  unfold pad4.
  pose proof (Z.mod_pos_bound n 4 ltac:(lia)) as Hr.
  pose proof (Z.div_mod n 4 ltac:(lia)) as Hd.
  destruct (Z.eq_dec (n mod 4) 0) as [E | E].
  - rewrite E. change ((4 - 0) mod 4) with 0. rewrite Z.add_0_r. exact E.
  - rewrite (Z.mod_small (4 - n mod 4)) by lia.
    replace (n + (4 - n mod 4)) with ((n / 4 + 1) * 4) by lia.
    apply Z.mod_mul. lia.
Qed.

Lemma length_newc_header (inode mode uid gid nlink mtime filesize namesize : Z) :
  length (newc_header inode mode uid gid nlink mtime filesize namesize) = 110%nat.
Proof.
  unfold newc_header. rewrite !length_app, !length_hexn. reflexivity.
Qed.

Lemma newc_header_magic (inode mode uid gid nlink mtime filesize namesize : Z) :
  firstn 6 (newc_header inode mode uid gid nlink mtime filesize namesize)
  = lit "070701".
Proof. reflexivity. Qed.

Lemma newc_header_is_hex (inode mode uid gid nlink mtime filesize namesize : Z) :
  Forall is_hex (newc_header inode mode uid gid nlink mtime filesize namesize).
Proof.
  unfold newc_header.
  apply Forall_app; split;
    [| repeat (apply Forall_app; split; [apply hexn_is_hex |]); apply hexn_is_hex].
  apply Forall_forall. intros c Hc. unfold is_hex.
  change (lit "070701") with ["0"; "7"; "0"; "7"; "0"; "1"]%char in Hc.
  change (lit "0123456789ABCDEF")
    with ["0"; "1"; "2"; "3"; "4"; "5"; "6"; "7"; "8"; "9";
          "A"; "B"; "C"; "D"; "E"; "F"]%char.
  cbn [In] in Hc.
  repeat (destruct Hc as [<- | Hc];
          [cbn [In]; repeat (first [left; reflexivity | right]) |]).
  destruct Hc.
Qed.

Lemma length_encode_utf8 (s : str) : length (encode_utf8 s) = length s.
Proof. unfold encode_utf8. apply length_map. Qed.

Lemma newc_entry_aligned (inode mode uid gid nlink mtime : Z) (path : str)
    (data : bytes) :
  len (newc_entry inode mode uid gid nlink mtime path data) mod 4 = 0.
Proof.
  unfold newc_entry. cbv zeta.
  remember (encode_utf8 path ++ [NUL]) as name eqn:En. clear En.
  rewrite !len_app, !len_zeros by apply pad4_range.
  unfold len at 1. rewrite length_encode_utf8, length_newc_header.
  change (Z.of_nat 110) with 110.
  set (n := len name).
  replace (110 + (n + (pad4 (110 + n) + (len data + pad4 (len data)))))
    with ((110 + n + pad4 (110 + n)) + (len data + pad4 (len data))) by lia.
  rewrite Z.add_mod, !pad4_aligned by lia. reflexivity.
Qed.

(** *** The methods *)

Lemma write_header_spec (w : t) (path : str) (mode uid gid nlink mtime filesize : Z) :
  fits (_inode w) -> fits mode -> fits uid -> fits gid -> fits nlink ->
  fits mtime -> fits filesize -> fits (len (encode_utf8 path) + 1) ->
  _write_header w path mode uid gid nlink mtime filesize 0 0 0 0
  = {| stream :=
         stream w
         ++ encode_utf8 (newc_header (_inode w) mode uid gid nlink mtime filesize
                           (len (encode_utf8 path ++ [NUL])))
         ++ (encode_utf8 path ++ [NUL])
         ++ zeros (pad4 (110 + len (encode_utf8 path ++ [NUL])));
       _inode := _inode w + 1 |}.
Proof.
  intros Hi Hm Hu Hg Hn Ht Hf Hp.
  assert (Hp' : fits (len (encode_utf8 path ++ [NUL]))).
  { rewrite len_app. exact Hp. }
  unfold _write_header, header_text, write. cbv zeta. cbn [stream _inode].
  rewrite !fmt_08X_fits by (assumption || apply fits_zero).
  fold (newc_header (_inode w) mode uid gid nlink mtime filesize
          (len (encode_utf8 path ++ [NUL]))).
  change _pad_to_4 with pad4.
  destruct (pad4 (110 + len (encode_utf8 path ++ [NUL])) =? 0) eqn:E.
  - apply Z.eqb_eq in E. rewrite E. change (zeros 0) with (@nil byte).
    rewrite app_nil_r, <- !app_assoc. reflexivity.
  - cbn [stream _inode]. rewrite <- !app_assoc. reflexivity.
Qed.

Lemma write_content_spec (w : t) (data : bytes) :
  (if _pad_to_4 (len data) =? 0 then write w data
   else write (write w data) (zeros (_pad_to_4 (len data))))
  = {| stream := stream w ++ data ++ zeros (pad4 (len data));
       _inode := _inode w |}.
Proof.
  change _pad_to_4 with pad4. unfold write.
  destruct (pad4 (len data) =? 0) eqn:E.
  - apply Z.eqb_eq in E. rewrite E. change (zeros 0) with (@nil byte).
    rewrite app_nil_r. reflexivity.
  - cbn [stream _inode]. rewrite <- app_assoc. reflexivity.
Qed.

Lemma fits_kind (kind mode : Z) :
  0 <= kind < 65536 -> fits mode -> fits (typed_mode kind mode).
Proof. intros Hk Hm. apply typed_mode_fits; [apply fits_small, Hk | exact Hm]. Qed.

Lemma newc_entry_empty (inode mode uid gid nlink mtime : Z) (path : str) :
  newc_entry inode mode uid gid nlink mtime path []
  = encode_utf8 (newc_header inode mode uid gid nlink mtime 0
                   (len (encode_utf8 path ++ [NUL])))
    ++ (encode_utf8 path ++ [NUL])
    ++ zeros (pad4 (110 + len (encode_utf8 path ++ [NUL]))).
Proof.
  unfold newc_entry. cbv zeta.
  change (len (@nil byte)) with 0. change (pad4 0) with 0.
  change (zeros 0) with (@nil byte).
  rewrite !app_nil_r. rewrite <- !app_assoc. reflexivity.
Qed.

(** Each call appends its entry and takes the next inode. *)
Lemma do_call_spec (w : t) (c : call) :
  fits (_inode w) -> call_fits c ->
  do_call w c = {| stream := stream w ++ entry_of (_inode w) c;
                   _inode := _inode w + 1 |}.
Proof.
  intros Hi Hc.
  assert (H1 : fits 1) by (apply fits_small; lia).
  assert (H2 : fits 2) by (apply fits_small; lia).
  destruct c as [p c m u g tm | p m u g tm | p tg m u g tm];
    cbn [do_call entry_of call_fits] in *.
  - destruct Hc as (Hm & Hu & Hg & Ht & Hp & Hd).
    assert (Hm' : fits (typed_mode S_IFREG m))
      by (apply fits_kind; [unfold S_IFREG; lia | exact Hm]).
    unfold add_file. cbv zeta.
    change (if Z.land m 61440 =? 0 then Z.lor m S_IFREG else m)
      with (typed_mode S_IFREG m).
    rewrite (write_header_spec w p _ u g 1 tm _ Hi Hm' Hu Hg H1 Ht Hd Hp).
    rewrite write_content_spec. cbn [stream _inode].
    unfold newc_entry. cbv zeta. rewrite <- !app_assoc. reflexivity.
  - destruct Hc as (Hm & Hu & Hg & Ht & Hp).
    assert (Hm' : fits (typed_mode S_IFDIR m))
      by (apply fits_kind; [unfold S_IFDIR; lia | exact Hm]).
    unfold add_directory. cbv zeta.
    change (if Z.land m 61440 =? 0 then Z.lor m S_IFDIR else m)
      with (typed_mode S_IFDIR m).
    rewrite (write_header_spec w p _ u g 2 tm 0 Hi Hm' Hu Hg H2 Ht fits_zero Hp).
    rewrite newc_entry_empty. reflexivity.
  - destruct Hc as (Hm & Hu & Hg & Ht & Hp & Hd).
    assert (Hm' : fits (typed_mode S_IFLNK m))
      by (apply fits_kind; [unfold S_IFLNK; lia | exact Hm]).
    unfold add_symlink. cbv zeta.
    change (if Z.land m 61440 =? 0 then Z.lor m S_IFLNK else m)
      with (typed_mode S_IFLNK m).
    rewrite (write_header_spec w p _ u g 1 tm _ Hi Hm' Hu Hg H1 Ht Hd Hp).
    rewrite write_content_spec. cbn [stream _inode].
    unfold newc_entry. cbv zeta. rewrite <- !app_assoc. reflexivity.
Qed.

Lemma finish_spec (w : t) :
  fits (_inode w) ->
  finish w = {| stream := stream w ++ trailer (_inode w); _inode := _inode w + 1 |}.
Proof.
  intros Hi.
  assert (H1 : fits 1) by (apply fits_small; lia).
  unfold finish, trailer.
  rewrite (write_header_spec w (lit "TRAILER!!!") 0 0 0 1 0 0
             Hi fits_zero fits_zero fits_zero H1 fits_zero fits_zero)
    by (apply fits_small; vm_compute; split; [discriminate | reflexivity]).
  rewrite newc_entry_empty. reflexivity.
Qed.

Lemma run_spec (calls : list call) :
  forall w,
    Forall call_fits calls ->
    0 <= _inode w ->
    _inode w + len calls < 2 ^ 32 ->
    stream (finish (run calls w)) = stream w ++ entries_from (_inode w) calls
    /\ _inode (finish (run calls w)) = _inode w + len calls + 1.
Proof.
  induction calls as [|c calls IH]; intros w Hc H0 Hn.
  - change (len (@nil call)) with 0 in *. unfold run. cbn [fold_left].
    rewrite finish_spec by (split; lia). cbn [stream _inode entries_from].
    split; [reflexivity | lia].
  - inversion Hc as [|? ? Hc1 Hc2]; subst.
    assert (Hl : len (c :: calls) = 1 + len calls).
    { unfold len. cbn [length]. lia. }
    rewrite Hl in Hn. pose proof (Zle_0_nat (length calls)) as Hpos.
    fold (len calls) in Hpos.
    unfold run. cbn [fold_left]. fold (run calls (do_call w c)).
    rewrite do_call_spec by (assumption || (split; lia)).
    destruct (IH {| stream := stream w ++ entry_of (_inode w) c;
                    _inode := _inode w + 1 |} Hc2) as [Hs Hi];
      cbn [_inode stream] in *; try lia.
    rewrite Hs, Hi, Hl. cbn [entries_from]. rewrite <- app_assoc.
    split; [reflexivity | lia].
Qed.

Lemma entry_of_aligned (i : Z) (c : call) : len (entry_of i c) mod 4 = 0.
Proof. destruct c; cbn [entry_of]; apply newc_entry_aligned. Qed.

Lemma entries_from_aligned (calls : list call) :
  forall i, len (entries_from i calls) mod 4 = 0.
Proof.
  induction calls as [|c calls IH]; intros i; cbn [entries_from].
  - exact (newc_entry_aligned i 0 0 0 1 0 (lit "TRAILER!!!") []).
  - rewrite len_app, Z.add_mod by lia.
    rewrite (entry_of_aligned i c), (IH (i + 1)). reflexivity.
Qed.

(** The writer on calls whose numbers fit the eight digits of a field: the
    archive is the entries of the calls in order, numbered from inode 1,
    then the TRAILER!!! entry; every entry has a header of 110 characters
    that begins with 070701 and holds upper-case hexadecimal digits only,
    and ends on a multiple of four bytes. *)
Theorem archive_newc (calls : list call) :
  Forall call_fits calls ->
  len calls + 1 < 2 ^ 32 ->
  archive calls = entries_from 1 calls
  /\ len (archive calls) mod 4 = 0
  /\ (forall i c, len (entry_of i c) mod 4 = 0)
  /\ (forall inode mode uid gid nlink mtime filesize namesize,
        let h := newc_header inode mode uid gid nlink mtime filesize namesize in
        length h = 110%nat /\ firstn 6 h = lit "070701" /\ Forall is_hex h).
Proof.
  intros Hc Hn.
  assert (Ha : archive calls = entries_from 1 calls).
  { unfold archive.
    destruct (run_spec calls (__init__ []) Hc) as [Hs _]; cbn [_inode __init__]; try lia.
    rewrite Hs. reflexivity. }
  split; [exact Ha |].
  split; [rewrite Ha; apply entries_from_aligned |].
  split; [apply entry_of_aligned |].
  intros inode mode uid gid nlink mtime filesize namesize h.
  split; [apply length_newc_header |].
  split; [apply newc_header_magic | apply newc_header_is_hex].
Qed.

Ltac fits_by_computation :=
  repeat match goal with
         | |- _ /\ _ => split
         | |- fits _ => vm_compute; split; [discriminate | reflexivity]
         end.

Lemma archive_newc_witness :
  archive [AddDirectory (lit "usr") 493 0 0 0;
           AddFile (lit "usr/hello") (Bytes [x23; x21]) 420 0 0 0;
           AddSymlink (lit "usr/hi") (lit "hello") 511 0 0 0]
  = entries_from 1
      [AddDirectory (lit "usr") 493 0 0 0;
       AddFile (lit "usr/hello") (Bytes [x23; x21]) 420 0 0 0;
       AddSymlink (lit "usr/hi") (lit "hello") 511 0 0 0].
Proof.
  apply archive_newc.
  - repeat (apply Forall_cons; [cbn [call_fits]; fits_by_computation |]).
    apply Forall_nil.
  - vm_compute. reflexivity.
Defined.

(** The archive of one directory added with permission bits only: its
    mode field is 0o40755 and its link count 2. *)
Example archive_sample_directory :
  firstn 110 (archive [AddDirectory (lit "usr") 493 0 0 0])
  = encode_utf8 (lit "070701" ++ lit "00000001" ++ lit "000041ED"
                 ++ lit "00000000" ++ lit "00000000" ++ lit "00000002"
                 ++ lit "00000000" ++ lit "00000000" ++ lit "00000000"
                 ++ lit "00000000" ++ lit "00000000" ++ lit "00000000"
                 ++ lit "00000004" ++ lit "00000000").
Proof. vm_compute. reflexivity. Qed.

(** A field past eight digits widens the header, and a negative one puts a
    sign in it. *)
Example wide_field_breaks_header :
  fmt_08X 4294967296 = lit "100000000"
  /\ fmt_08X (-1) = lit "-0000001"
  /\ len (archive [AddFile (lit "a") (Bytes []) 33188 0 0 4294967296]) mod 4 = 1.
Proof. repeat split; vm_compute; reflexivity. Qed.

End CpioFacts.

(** ** The lead, the signature and the file arrays of the RPM writer *)

Module RpmWriterFacts.
Import Py.
Import RpmHeaderBuilder.
Import HeaderLayout.
Import RpmWriter.
Import HeaderFacts.
Import RpmFacts.
Import WriterFacts.

Lemma length_slice_to {A} (l : list A) (j : Z) :
  0 <= j -> (length (slice_to l j) <= Z.to_nat j)%nat.
Proof.
  intros Hj. unfold slice_to, slice, clamp.
  destruct (0 <? 0) eqn:E0; [discriminate |].
  destruct (j <? 0) eqn:Ej; [apply Z.ltb_lt in Ej; lia |].
  rewrite length_firstn. pose proof (len_nonneg l). lia.
Qed.

(** The lead is built for every writer and has 96 bytes, the length that
    [_build_lead] asserts; it begins with the magic and the version 3.0,
    and the name field is cut at 65 bytes and ends with a NUL. *)
Theorem lead_length (w : t) :
  exists (arch_num : Z) (name_bytes : bytes),
    _build_lead w
    = Ok (RPM_MAGIC ++ [x03; x00] ++ [x00; x00] ++ be_bytes 2 arch_num
          ++ name_bytes ++ zeros (66 - len name_bytes)
          ++ [x00; x01] ++ [x00; x05] ++ zeros 16)
    /\ name_bytes
       = slice_to (encode_utf8 (name w ++ lit "-" ++ version w ++ lit "-" ++ release w)) 65
    /\ 1 <= 66 - len name_bytes
    /\ (arch_num = 0 \/ arch_num = 1)
    /\ forall lead, _build_lead w = Ok lead -> length lead = 96%nat.
Proof.
  set (nb := slice_to (encode_utf8 (name w ++ lit "-" ++ version w ++ lit "-" ++ release w)) 65).
  assert (Hnb : (length nb <= 65)%nat).
  { unfold nb. apply (length_slice_to _ 65). lia. }
  set (a := if str_eqb (arch w) (lit "x86_64") then 1
            else if str_eqb (arch w) (lit "i386") || str_eqb (arch w) (lit "i686")
                 then 1 else 0).
  assert (Ha : a = 0 \/ a = 1).
  { unfold a. destruct (str_eqb (arch w) (lit "x86_64")); [auto |].
    destruct (str_eqb (arch w) (lit "i386") || str_eqb (arch w) (lit "i686")); auto. }
  assert (Hb : _build_lead w
               = Ok (RPM_MAGIC ++ [x03; x00] ++ [x00; x00] ++ be_bytes 2 a
                     ++ nb ++ zeros (66 - len nb)
                     ++ [x00; x01] ++ [x00; x05] ++ zeros 16)).
  { unfold _build_lead.
    change (pack_B RPM_MAJOR) with (Ok [x03]).
    change (pack_B RPM_MINOR) with (Ok [x00]).
    change (pack_H RPM_TYPE_BINARY) with (Ok [x00; x00]).
    cbn [bind]. fold nb. fold a. clearbody a nb.
    destruct Ha as [-> | ->];
      change (pack_H 0) with (Ok [x00; x00]);
      change (pack_H 1) with (Ok [x00; x01]);
      change (pack_H 5) with (Ok [x00; x05]);
      cbn [bind]; rewrite <- !app_assoc; reflexivity. }
  exists a, nb. split; [exact Hb |]. split; [reflexivity |].
  split; [unfold len; lia |]. split; [exact Ha |].
  intros lead Hl. rewrite Hb in Hl.
  apply (f_equal (fun r => match r with Ok x => length x | Raise _ => 0%nat end)) in Hl.
  cbv beta iota in Hl. rewrite <- Hl.
  rewrite !length_app, length_be_bytes.
  unfold zeros. rewrite !repeat_length. unfold len. cbn [length RPM_MAGIC].
  rewrite Z2Nat.inj_sub, Nat2Z.id by lia.
  change (Z.to_nat 66) with 66%nat. change (Z.to_nat 16) with 16%nat. lia.
Qed.

(** *** The signature section *)

(** [build] on entries that can be emitted, when the counts fit. *)
Lemma build_section (h : RpmHeaderBuilder.t) (index : list index_entry) (store : bytes) :
  Forall (fun e => 0 <= fst e < 2 ^ 32 /\ emittable (snd e)) h ->
  laid_out (sorted_entries h) 0 index store ->
  len h < 2 ^ 32 -> len store < 2 ^ 32 ->
  build h = Ok (section index store).
Proof.
  intros Hh Hlaid Hn Hstore.
  assert (Hperm : Permutation (sorted_entries h) h) by apply SortFacts.sort_by_perm.
  assert (Hs : Forall (fun e => 0 <= fst e < 2 ^ 32 /\ emittable (snd e)) (sorted_entries h)).
  { eapply Permutation_Forall; [apply Permutation_sym, Hperm | exact Hh]. }
  assert (Hem : Forall (fun e => emittable (snd e)) (sorted_entries h)).
  { eapply Forall_impl; [| exact Hs]. intros e [_ H]. exact H. }
  destruct (build_store_spec (sorted_entries h) [] [] Hem)
    as (index' & store' & Hrun & Hlaid').
  cbn [app] in Hrun. change (len []) with 0 in Hlaid'.
  destruct (laid_out_det _ _ _ _ _ _ Hlaid Hlaid') as [<- <-].
  destruct (laid_out_index _ _ _ _ Hlaid (Z.le_refl 0) Hem) as [Htags Hbounds].
  unfold build. rewrite Hrun. cbn [bind].
  assert (Hlen : len index = len h).
  { unfold len. f_equal. rewrite (laid_out_length _ _ _ _ Hlaid).
    apply Permutation_length, Hperm. }
  pose proof (len_nonneg h) as Hh0. pose proof (len_nonneg store) as Hs0.
  unfold pack_B, pack_I.
  change (2 ^ 32) with 4294967296 in *.
  rewrite (pack_uint_ok 1 RPM_HEADER_VERSION)
    by (unfold RPM_HEADER_VERSION; change (2 ^ (8 * Z.of_nat 1)) with 256; lia).
  cbn [bind].
  rewrite (pack_uint_ok 4 (len index))
    by (rewrite Hlen; change (2 ^ (8 * Z.of_nat 4)) with 4294967296; lia).
  cbn [bind].
  rewrite (pack_uint_ok 4 (len store))
    by (change (2 ^ (8 * Z.of_nat 4)) with 4294967296; lia).
  cbn [bind].
  rewrite pack_index_spec.
  - cbn [bind]. unfold section. rewrite <- !app_assoc. reflexivity.
  - assert (Htag : Forall (fun t => 0 <= t < 4294967296) (map tag_of index)).
    { rewrite Htags. apply Forall_map.
      eapply Forall_impl; [| exact Hs]. intros e [H _]. exact H. }
    rewrite Forall_map in Htag.
    rewrite Forall_forall in *. intros [[[tag ty] offset] count] Hin.
    specialize (Htag _ Hin). specialize (Hbounds _ Hin).
    unfold tag_of in Htag. simpl in Htag, Hbounds.
    change (2 ^ 32) with 4294967296. lia.
Qed.

(** With a digest of 16 bytes and less than 4 GiB of header and payload,
    the signature section has 88 bytes and needs no padding: the 16-byte
    intro, three index entries, and a store of 24 bytes that holds the
    size of header and payload, the digest and the size of the payload. *)
Theorem signature_layout (env : Env) (header payload : bytes) :
  length (md5 env (header ++ payload)) = 16%nat ->
  len (header ++ payload) < 2 ^ 32 ->
  _build_signature env header payload
  = Ok (section [ (SIGTAG_SIZE, HEADER_INT32, 0, 1);
                  (SIGTAG_MD5, HEADER_BIN, 4, 16);
                  (SIGTAG_PAYLOADSIZE, HEADER_INT32, 20, 1) ]
          (be_bytes 4 (len (header ++ payload))
           ++ md5 env (header ++ payload)
           ++ be_bytes 4 (len payload)))
  /\ forall sig, _build_signature env header payload = Ok sig -> length sig = 88%nat.
Proof.
  intros Hm Hc.
  set (m := md5 env (header ++ payload)) in *.
  set (L := len (header ++ payload)) in *.
  assert (HL : 0 <= L) by apply len_nonneg.
  assert (HP : 0 <= len payload <= L).
  { unfold L. rewrite len_app. pose proof (len_nonneg header).
    pose proof (len_nonneg payload). lia. }
  set (index := [ (SIGTAG_SIZE, HEADER_INT32, 0, 1); (SIGTAG_MD5, HEADER_BIN, 4, 16);
                  (SIGTAG_PAYLOADSIZE, HEADER_INT32, 20, 1) ]).
  set (store := be_bytes 4 L ++ m ++ be_bytes 4 (len payload)).
  assert (Hlm : len m = 16) by (unfold len; rewrite Hm; reflexivity).
  assert (Hlaid : laid_out (signature_entries L m (len payload)) 0 index store).
  { unfold signature_entries, index, store.
    pose proof (laid_cons SIGTAG_SIZE (Int32 [L]) _ 0 _ _
                  (laid_cons SIGTAG_MD5 (Bin m) _ _ _ _
                     (laid_cons SIGTAG_PAYLOADSIZE (Int32 [len payload]) [] _ _ _
                        (laid_nil _)))) as H.
    cbn [alignment encoded dtype count_of flat_map] in H.
    rewrite !app_nil_r in H.
    change (padding 4 0) with 0 in H. rewrite !padding_one in H.
    change (len [L]) with 1 in H. change (len [len payload]) with 1 in H.
    replace (len (be_bytes 4 L)) with 4 in H
      by (unfold len; rewrite length_be_bytes; reflexivity).
    rewrite Hlm in H.
    change (0 + 0 + 4 + 0) with 4 in H. change (4 + 16) with 20 in H.
    change (padding 4 20) with 0 in H. change (0 + 0) with 0 in H.
    change (20 + 0) with 20 in H.
    change (zeros 0) with (@nil byte) in H. cbn [app] in H.
    exact H. }
  assert (Hb : build (add_int32 (add_bin (add_int32 RpmHeaderBuilder.__init__
                        SIGTAG_SIZE (One L)) SIGTAG_MD5 m)
                        SIGTAG_PAYLOADSIZE (One (len payload)))
               = Ok (section index store)).
  { apply build_section.
    - unfold add_int32, add_bin, RpmHeaderBuilder.__init__, as_list. cbn [app].
      change (2 ^ 32) with 4294967296 in *.
      repeat (apply Forall_cons; [split |]); try apply Forall_nil;
        cbn [fst snd emittable];
        unfold SIGTAG_SIZE, SIGTAG_MD5, SIGTAG_PAYLOADSIZE;
        try lia; try exact I; repeat constructor; lia.
    - exact Hlaid.
    - reflexivity.
    - unfold store. rewrite !len_app, Hlm.
      unfold len. rewrite !length_be_bytes. reflexivity. }
  assert (Hlen : length (section index store) = 88%nat).
  { unfold section, store, index.
    rewrite !length_app, !length_be_bytes, length_index_bytes, Hm. reflexivity. }
  assert (Hsig : _build_signature env header payload = Ok (section index store)).
  { unfold _build_signature. fold L. fold m. rewrite Hb. cbn [bind].
    unfold len at 1. rewrite Hlen. change ((8 - Z.of_nat 88 mod 8) mod 8) with 0.
    change (zeros 0) with (@nil byte). rewrite app_nil_r. reflexivity. }
  split; [exact Hsig |].
  intros sig Hs. rewrite Hsig in Hs.
  apply (f_equal (fun r => match r with Ok x => length x | Raise _ => 0%nat end)) in Hs.
  cbv beta iota in Hs. rewrite <- Hs. exact Hlen.
Qed.

Lemma signature_layout_witness :
  exists sig,
    _build_signature (Samples.rpm_env 0) [x01; x02; x03] [x04; x05] = Ok sig
    /\ length sig = 88%nat.
Proof.
  assert (Hm : length (md5 (Samples.rpm_env 0) ([x01; x02; x03] ++ [x04; x05])) = 16%nat)
    by reflexivity.
  assert (Hc : len ([x01; x02; x03] ++ [x04; x05]) < 2 ^ 32) by reflexivity.
  destruct (signature_layout (Samples.rpm_env 0) [x01; x02; x03] [x04; x05] Hm Hc)
    as [Hs Hl].
  eexists. split; [exact Hs |]. exact (Hl _ Hs).
Defined.

(** *** The per-file arrays of sizes, modes, owners and times *)

(** For a package with files, FILESIZES, FILEMODES, FILEUSERNAME and
    FILEGROUPNAME hold the content length, the mode, the user and the group
    of each file in the order the files were added, and FILEMTIMES holds
    the clock reading taken in each turn of the loop. *)
Theorem per_file_metadata (env : Env) (w : t) :
  files w <> [] ->
  find_tag RPMTAG_FILESIZES (header_entries env w)
  = Some (Int32 (map (fun f => len (content f)) (files w)))
  /\ find_tag RPMTAG_FILEMODES (header_entries env w)
     = Some (Int16 (map mode (files w)))
  /\ find_tag RPMTAG_FILEUSERNAME (header_entries env w)
     = Some (StringArray (map user (files w)))
  /\ find_tag RPMTAG_FILEGROUPNAME (header_entries env w)
     = Some (StringArray (map f_group (files w)))
  /\ find_tag RPMTAG_FILEMTIMES (header_entries env w)
     = Some (Int32 (map (fun k => time env (S k)) (seq 0 (length (files w))))).
Proof.
  intros Hne.
  destruct (loop_fields env (files w) no_arrays 0)
    as (_ & H2 & H3 & _ & H5 & _ & _ & _ & H9 & H10 & _).
  fold (file_arrays env w) in *.
  cbn [sizes modes mtimes users groups no_arrays app] in H2, H3, H5, H9, H10.
  rewrite <- H2, <- H3, <- H5, <- H9, <- H10.
  unfold header_entries.
  remember (file_arrays env w) as A eqn:EA. clear EA H2 H3 H5 H9 H10.
  destruct (files w); [contradiction |].
  repeat split; reflexivity.
Qed.

Lemma per_file_metadata_witness :
  find_tag RPMTAG_FILESIZES
    (header_entries (Samples.rpm_env 0) (Samples.rpm_with (lit "gzip")))
  = Some (Int32 [0; 2; 0; 2])
  /\ find_tag RPMTAG_FILEMODES
       (header_entries (Samples.rpm_env 0) (Samples.rpm_with (lit "gzip")))
     = Some (Int16 [16877; 33261; 41471; 33188]).
Proof.
  assert (H : files (Samples.rpm_with (lit "gzip")) <> [])
    by (intros E; discriminate E).
  destruct (per_file_metadata (Samples.rpm_env 0) (Samples.rpm_with (lit "gzip")) H)
    as (Hs & Hm & _).
  split; [exact Hs | exact Hm].
Defined.

(** *** A mode that does not fit sixteen bits *)

Lemma In_sorted_entries (h : RpmHeaderBuilder.t) (e : entry) :
  In e h -> In e (sorted_entries h).
Proof. intros H. unfold sorted_entries. apply SortFacts.sort_by_In, H. Qed.

(** FILEMODES is an INT16 array: when the mode of some file is outside
    [0, 65536), the header cannot be built, and neither can the package. *)
Theorem wide_mode_raises (env : Env) (w : t) (f : file) :
  In f (files w) ->
  ~ (0 <= mode f < 2 ^ 16) ->
  (exists e, _build_header env w = Raise e)
  /\ (exists e, write env w = Raise e).
Proof.
  intros Hin Hbad.
  assert (Hne : files w <> []) by (intros E; rewrite E in Hin; destruct Hin).
  assert (Hmodes : find_tag RPMTAG_FILEMODES (header_entries env w)
                   = Some (Int16 (map mode (files w)))).
  { destruct (loop_fields env (files w) no_arrays 0) as (_ & _ & H3 & _).
    fold (file_arrays env w) in H3. cbn [modes no_arrays app] in H3.
    rewrite <- H3. unfold header_entries.
    remember (file_arrays env w) as A eqn:EA. clear EA H3.
    destruct (files w); [contradiction | reflexivity]. }
  assert (Hnot : ~ Forall (fun e => emittable (snd e))
                          (sorted_entries (header_entries env w))).
  { intros Hall. rewrite Forall_forall in Hall.
    specialize (Hall _ (In_sorted_entries _ _ (find_tag_In _ _ _ Hmodes))).
    cbn [snd emittable] in Hall. rewrite Forall_forall in Hall.
    apply Hbad. apply (Hall (mode f)). apply in_map, Hin. }
  destruct (build_store_raises _ [] [] Hnot) as [e He].
  assert (Hh : _build_header env w = Raise e).
  { unfold _build_header, build. rewrite He. reflexivity. }
  split; [exists e; exact Hh |].
  unfold write, build_parts. rewrite Hh.
  destruct (_compress_payload env w (_build_cpio_payload w)) as [p | e'];
    cbn [bind]; eauto.
Qed.

Lemma wide_mode_raises_witness :
  exists e,
    _build_header (Samples.rpm_env 0)
      (add_file (Samples.rpm_with (lit "gzip")) (lit "/big") (CpioWriter.Bytes [])
         98724 0 0 (lit "root") (lit "root"))
    = Raise e.
Proof.
  refine (proj1 (wide_mode_raises (Samples.rpm_env 0)
            (add_file (Samples.rpm_with (lit "gzip")) (lit "/big") (CpioWriter.Bytes [])
               98724 0 0 (lit "root") (lit "root"))
            {| path := lit "/big"; content := []; mode := 98724; uid := 0; gid := 0;
               user := lit "root"; f_group := lit "root"; is_dir := false;
               is_symlink := false; target := None |} _ _)).
  - vm_compute. auto 10.
  - vm_compute. intros [_ H]. discriminate H.
Defined.

(** *** The tags of the main header *)

(** The index of the main header has sixteen tags for a package without
    files and thirty-three for one with files, in ascending order and
    without repetition; SIZE (1009) and the file arrays are present only
    when there are files. *)
Theorem header_tags (env : Env) (w : t) :
  map fst (sorted_entries (header_entries env w))
  = match files w with
    | [] => [1000; 1001; 1002; 1004; 1005; 1006; 1007; 1014; 1016; 1021; 1022;
             1044; 1064; 1124; 1125; 1126]
    | _ :: _ => [1000; 1001; 1002; 1004; 1005; 1006; 1007; 1009; 1014; 1016;
                 1021; 1022; 1028; 1030; 1033; 1034; 1035; 1036; 1037; 1039;
                 1040; 1044; 1045; 1064; 1095; 1096; 1097; 1116; 1117; 1118;
                 1124; 1125; 1126]
    end.
Proof.
  unfold header_entries.
  remember (file_arrays env w) as A eqn:EA. clear EA.
  destruct (files w); vm_compute; reflexivity.
Qed.

End RpmWriterFacts.

(** ** The [next]/[is_done] protocol of the two readers *)

Module ProtocolFacts.
Import Py.
Import TreeReader.

(** The reader after [k] calls of [next]. *)
Fixpoint pkg_after (k : nat) (r : PkgReader.t) : PkgReader.t :=
  match k with
  | O => r
  | S k' => snd (PkgReader.next (pkg_after k' r))
  end.

Fixpoint dmg_after (k : nat) (r : DmgReader.t) : DmgReader.t :=
  match k with
  | O => r
  | S k' => snd (DmgReader.next (dmg_after k' r))
  end.

Lemma pkg_after_state (r : PkgReader.t) (k : nat) :
  PkgReader.index r = 0 ->
  PkgReader.items (pkg_after k r) = PkgReader.items r
  /\ PkgReader.index (pkg_after k r) = Z.min (Z.of_nat k) (len (PkgReader.items r)).
Proof.
  intros H0. pose proof (Zle_0_nat (length (PkgReader.items r))) as Hl.
  fold (len (PkgReader.items r)) in Hl.
  induction k as [|k [IHi IHx]].
  - cbn [pkg_after]. split; [reflexivity | rewrite H0; cbn [Z.of_nat]; lia].
  - cbn [pkg_after].
    set (rk := pkg_after k r) in *.
    unfold PkgReader.next. rewrite IHi.
    destruct (PkgReader.index rk <? len (PkgReader.items r)) eqn:E;
      cbn [snd PkgReader.items PkgReader.index].
    + apply Z.ltb_lt in E. split; [reflexivity | lia].
    + apply Z.ltb_ge in E. split; [exact IHi | lia].
Qed.

Lemma dmg_after_state (r : DmgReader.t) (k : nat) :
  DmgReader.index r = 0 -> DmgReader.done r = false ->
  DmgReader.items (dmg_after k r) = DmgReader.items r
  /\ DmgReader.index (dmg_after k r) = Z.min (Z.of_nat k) (len (DmgReader.items r))
  /\ DmgReader.done (dmg_after k r) = (len (DmgReader.items r) <? Z.of_nat k).
Proof.
  intros H0 Hd. pose proof (Zle_0_nat (length (DmgReader.items r))) as Hl.
  fold (len (DmgReader.items r)) in Hl.
  induction k as [|k (IHi & IHx & IHd)].
  - cbn [dmg_after]. split; [reflexivity |].
    split; [rewrite H0; cbn [Z.of_nat]; lia |].
    rewrite Hd. symmetry. apply Z.ltb_ge. cbn [Z.of_nat]. lia.
  - cbn [dmg_after].
    set (rk := dmg_after k r) in *.
    unfold DmgReader.next. rewrite IHi.
    destruct (DmgReader.index rk <? len (DmgReader.items r)) eqn:E;
      cbn [snd DmgReader.items DmgReader.index DmgReader.done].
    + apply Z.ltb_lt in E. split; [reflexivity |]. split; [lia |].
      rewrite IHd. destruct (len (DmgReader.items r) <? Z.of_nat k) eqn:E1;
        [apply Z.ltb_lt in E1; lia |].
      symmetry. apply Z.ltb_ge. lia.
    + apply Z.ltb_ge in E. split; [reflexivity |]. split; [lia |].
      symmetry. apply Z.ltb_lt. lia.
Qed.

Lemma nth_error_at {A} (l : list A) (i : Z) (k : nat) :
  i = Z.min (Z.of_nat k) (len l) ->
  (if i <? len l then nth_error l (Z.to_nat i) else None) = nth_error l k.
Proof.
  intros ->. unfold len.
  destruct (Z.min (Z.of_nat k) (Z.of_nat (length l)) <? Z.of_nat (length l)) eqn:E.
  - apply Z.ltb_lt in E. f_equal. lia.
  - apply Z.ltb_ge in E. symmetry. apply nth_error_None. lia.
Qed.

(** A fresh [PkgReader]: the call number [k] of [next] (from 0) returns
    item [k], and [None] from the end of the items on; [is_done] is true
    as soon as [k] calls have returned all the items, before any call has
    returned [None]. *)
Theorem pkg_protocol (r : PkgReader.t) (k : nat) :
  PkgReader.index r = 0 ->
  fst (PkgReader.next (pkg_after k r)) = nth_error (PkgReader.items r) k
  /\ PkgReader.is_done (pkg_after k r) = (len (PkgReader.items r) <=? Z.of_nat k).
Proof.
  intros H0. destruct (pkg_after_state r k H0) as [Hi Hx].
  split.
  - unfold PkgReader.next. rewrite Hi.
    rewrite <- (nth_error_at (PkgReader.items r) _ k Hx).
    destruct (PkgReader.index (pkg_after k r) <? len (PkgReader.items r)); reflexivity.
  - unfold PkgReader.is_done. rewrite Hi, Hx.
    pose proof (Zle_0_nat (length (PkgReader.items r))) as Hl.
    fold (len (PkgReader.items r)) in Hl.
    destruct (len (PkgReader.items r) <=? Z.of_nat k) eqn:E.
    + apply Z.leb_le in E. apply Z.geb_le. lia.
    + apply Z.leb_gt in E. unfold Z.geb.
      destruct (Z.min (Z.of_nat k) (len (PkgReader.items r))
                ?= len (PkgReader.items r)) eqn:C; try reflexivity.
      * apply Z.compare_eq in C. lia.
      * apply Z.compare_gt_iff in C. lia.
Qed.

(** A fresh [DmgReader]: [next] returns the items in turn and then
    [None]; [is_done] stays false until a call of [next] has returned
    [None], so it is still false when all the items have been returned. *)
Theorem dmg_protocol (r : DmgReader.t) (k : nat) :
  DmgReader.index r = 0 -> DmgReader.done r = false ->
  fst (DmgReader.next (dmg_after k r)) = nth_error (DmgReader.items r) k
  /\ DmgReader.is_done (dmg_after k r) = (len (DmgReader.items r) <? Z.of_nat k).
Proof.
  intros H0 Hd. destruct (dmg_after_state r k H0 Hd) as (Hi & Hx & Hdone).
  split.
  - unfold DmgReader.next. rewrite Hi.
    rewrite <- (nth_error_at (DmgReader.items r) _ k Hx).
    destruct (DmgReader.index (dmg_after k r) <? len (DmgReader.items r)); reflexivity.
  - exact Hdone.
Qed.

(** A reader over one item, after it has been returned. *)
Definition one_item : FileInfo :=
  {| path := lit "a"; size := 0; mode := 33188; uid := 0; gid := 0;
     is_dir := false; is_symlink := false; symlink_target := None |}.

Lemma pkg_protocol_witness :
  fst (PkgReader.next
         (pkg_after 1 {| PkgReader.items := [one_item]; PkgReader.index := 0 |}))
  = None
  /\ PkgReader.is_done
       (pkg_after 1 {| PkgReader.items := [one_item]; PkgReader.index := 0 |})
     = true.
Proof.
  exact (pkg_protocol {| PkgReader.items := [one_item]; PkgReader.index := 0 |} 1
           eq_refl).
Defined.

Lemma dmg_protocol_witness :
  fst (DmgReader.next
         (dmg_after 1 {| DmgReader.items := [one_item]; DmgReader.index := 0;
                         DmgReader.done := false |}))
  = None
  /\ DmgReader.is_done
       (dmg_after 1 {| DmgReader.items := [one_item]; DmgReader.index := 0;
                       DmgReader.done := false |})
     = false.
Proof.
  exact (dmg_protocol {| DmgReader.items := [one_item]; DmgReader.index := 0;
                         DmgReader.done := false |} 1 eq_refl eq_refl).
Defined.

End ProtocolFacts.

(** ** More on the HFS+ walker *)

Module HfsListingFacts.
Import Py.
Import TreeReader.
Import HfsPlusReader.
Import HfsFacts.

Lemma file_info_listing (h : t) (cnid : Z) (e : catalog_entry) (fi : FileInfo) :
  file_info h cnid e = Some fi ->
  cnid <> ROOT_FOLDER_CNID
  /\ path fi = build_path h cnid
  /\ path fi <> []
  /\ mode fi <> 0
  /\ uid fi = i_uid (snd e) /\ gid fi = i_gid (snd e)
  /\ is_dir fi = match snd (fst e) with FOLDER_RECORD => true | FILE_RECORD => false end.
Proof.
  destruct e as [[[parent_cnid name] rt] info]. unfold file_info.
  destruct (cnid =? ROOT_FOLDER_CNID) eqn:Er; [discriminate |].
  apply Z.eqb_neq in Er.
  destruct (build_path h cnid) as [|c p] eqn:Ep; [discriminate |].
  cbv zeta.
  destruct rt; intros H; injection H as <-;
    cbn [path mode uid gid is_dir snd fst].
  - repeat split; try assumption; try discriminate.
    cbn [andb].
    destruct (i_mode info =? 0) eqn:E0.
    + cbn. discriminate.
    + apply Z.eqb_neq in E0. rewrite (proj2 (Z.eqb_neq _ _) E0). cbn [negb]. exact E0.
  - repeat split; try assumption; try discriminate.
    cbn [andb negb].
    destruct (Z.land (i_mode info) S_IFMT =? S_IFLNK) eqn:El; cbn [negb andb].
    + apply Z.eqb_eq in El. intros Hz. rewrite Hz in El. discriminate El.
    + destruct (i_mode info =? 0) eqn:E0; [discriminate |].
      apply Z.eqb_neq in E0. exact E0.
Qed.

(** Every entry listed by [get_all_files] comes from a catalog record
    other than the root folder (CNID 2), carries the path that
    [build_path] gives for that record, which is not empty, the owner of
    the record, and a mode that is not zero: a folder without mode gets
    0o40755 and a file without mode 0o100644. *)
Theorem get_all_files_listing (h : t) (fi : FileInfo) :
  In fi (get_all_files h) ->
  exists cnid parent_cnid name rt info,
    In (cnid, (parent_cnid, name, rt, info)) (entries h)
    /\ cnid <> ROOT_FOLDER_CNID
    /\ path fi = build_path h cnid
    /\ path fi <> []
    /\ mode fi <> 0
    /\ (i_mode info <> 0 -> mode fi = i_mode info)
    /\ (i_mode info = 0 ->
        mode fi = match rt with FOLDER_RECORD => 16877 | FILE_RECORD => 33188 end)
    /\ uid fi = i_uid info /\ gid fi = i_gid info
    /\ is_dir fi = match rt with FOLDER_RECORD => true | FILE_RECORD => false end.
Proof.
  intros Hin. apply get_all_files_In in Hin.
  destruct Hin as (cnid & [[[parent_cnid name] rt] info] & He & Hfi).
  exists cnid, parent_cnid, name, rt, info.
  destruct (file_info_listing _ _ _ _ Hfi) as (H1 & H2 & H3 & H4 & H5 & H6 & H7).
  cbn [fst snd] in *.
  repeat (split; [assumption |]).
  split; [| split; [| repeat split; assumption]].
  - intros Hm. unfold file_info in Hfi.
    destruct (cnid =? ROOT_FOLDER_CNID); [discriminate |].
    destruct (build_path h cnid); [discriminate |]. cbv zeta in Hfi.
    apply Z.eqb_neq in Hm.
    destruct rt; injection Hfi as <-; cbn [mode]; rewrite Hm.
    + cbn [andb]. rewrite Hm. reflexivity.
    + rewrite !andb_false_r. reflexivity.
  - intros Hm. unfold file_info in Hfi.
    destruct (cnid =? ROOT_FOLDER_CNID); [discriminate |].
    destruct (build_path h cnid); [discriminate |]. cbv zeta in Hfi.
    destruct rt; injection Hfi as <-; cbn [mode]; rewrite Hm; reflexivity.
Qed.

Lemma get_all_files_listing_witness :
  exists fi, In fi (get_all_files Samples.volume) /\ mode fi = 16877 /\ path fi = lit "bin".
Proof.
  assert (Hin : In {| path := lit "bin"; size := 0; mode := 16877; uid := 501;
                      gid := 20; is_dir := true; is_symlink := false;
                      symlink_target := None |} (get_all_files Samples.volume)).
  { vm_compute. auto. }
  destruct (get_all_files_listing Samples.volume _ Hin)
    as (cnid & p & n & rt & info & _).
  eexists. split; [exact Hin |]. split; reflexivity.
Defined.

(** *** [read_file] *)

(** The bytes of one extent. *)
Definition extent_bytes (h : t) (e : Z * Z) : bytes :=
  slice (image h) (fst e * block_size h) (fst e * block_size h + snd e * block_size h).

Lemma read_extents_spec (h : t) (extents : list (Z * Z)) :
  forall data, read_extents h extents data = data ++ flat_map (extent_bytes h) extents.
Proof.
  induction extents as [|[s c] extents IH]; intros data; cbn [read_extents flat_map].
  - rewrite app_nil_r. reflexivity.
  - rewrite IH, <- app_assoc. reflexivity.
Qed.

Lemma len_slice_inside {A} (l : list A) (i j : Z) :
  0 <= i <= j -> j <= len l -> len (slice l i j) = j - i.
Proof.
  intros Hi Hj. rewrite HeaderFacts.slice_spec by assumption.
  unfold len in *. rewrite length_firstn, length_skipn. lia.
Qed.

Fixpoint total_blocks (extents : list (Z * Z)) : Z :=
  match extents with
  | [] => 0
  | e :: rest => snd e + total_blocks rest
  end.

Lemma len_extents (h : t) (extents : list (Z * Z)) :
  0 <= block_size h ->
  Forall (fun e => 0 <= fst e /\ 0 <= snd e
                   /\ (fst e + snd e) * block_size h <= len (image h)) extents ->
  len (flat_map (extent_bytes h) extents) = total_blocks extents * block_size h.
Proof.
  intros Hb. induction 1 as [|[s c] extents (Hs & Hc & Hin) _ IH];
    cbn [flat_map total_blocks fst snd] in *.
  - reflexivity.
  - rewrite HeaderFacts.len_app, IH. unfold extent_bytes. cbn [fst snd].
    rewrite len_slice_inside by nia. lia.
Qed.

(** [read_file] of a file record whose extents lie inside the image and
    hold at least the logical size: the result is the bytes of the extents
    in order, cut at the logical size, and has exactly that length. *)
Theorem read_file_length (h : t) (cnid parent_cnid : Z) (name : str) (info : info)
    (size : Z) (extents : list (Z * Z)) :
  dict_get (entries h) cnid = Some (parent_cnid, name, FILE_RECORD, info) ->
  i_size info = Some size ->
  i_extents info = Some extents ->
  0 <= block_size h ->
  Forall (fun e => 0 <= fst e /\ 0 <= snd e
                   /\ (fst e + snd e) * block_size h <= len (image h)) extents ->
  0 <= size <= total_blocks extents * block_size h ->
  exists data,
    read_file h cnid = Ok data
    /\ data = slice_to (flat_map (extent_bytes h) extents) size
    /\ len data = size.
Proof.
  intros Hget Hsize Hext Hb Hin Hs.
  unfold read_file. rewrite Hget, Hsize, Hext.
  rewrite read_extents_spec. cbn [app].
  eexists. split; [reflexivity |]. split; [reflexivity |].
  unfold slice_to. rewrite len_slice_inside; [lia | lia |].
  rewrite len_extents by assumption. lia.
Qed.

Lemma read_file_length_witness :
  exists data,
    read_file Samples.dmg_volume 17 = Ok data /\ len data = 8.
Proof.
  destruct (read_file_length Samples.dmg_volume 17 2 (lit "bad.pkg")
              (Samples.file_at 0 1 8) 8 [(0, 1)]) as (data & Hr & _ & Hl).
  - reflexivity.
  - reflexivity.
  - reflexivity.
  - vm_compute. discriminate.
  - repeat constructor; vm_compute; discriminate.
  - vm_compute. split; discriminate.
  - exists data. split; assumption.
Defined.

(** [read_file] of a CNID that is not in the catalog, or that is a
    folder, raises [ValueError]; of a file record it never raises, whatever
    the extents are. *)
Theorem read_file_errors (h : t) (cnid : Z) :
  match dict_get (entries h) cnid with
  | None => read_file h cnid = Raise (ValueError "CNID not found")
  | Some (_, _, FOLDER_RECORD, _) =>
      read_file h cnid = Raise (ValueError "CNID is not a file")
  | Some (_, _, FILE_RECORD, _) => exists data, read_file h cnid = Ok data
  end.
Proof.
  unfold read_file.
  destruct (dict_get (entries h) cnid) as [[[[p n] rt] i]|]; [| reflexivity].
  destruct rt; [reflexivity | eauto].
Qed.

End HfsListingFacts.

(** ** Big-endian fields *)

Module StructFacts.
Import Py.
Import Struct.
Import HeaderFacts.

Lemma be_bytes_succ (n : nat) (v : Z) :
  be_bytes (S n) v = byte_of_Z (Z.shiftr v (8 * Z.of_nat n)) :: be_bytes n v.
Proof.
  unfold be_bytes. rewrite seq_S, rev_app_distr. reflexivity.
Qed.

Lemma be_value_from (l : bytes) :
  forall acc,
    fold_left (fun acc b => acc * 256 + Z_of_byte b) l acc
    = acc * 256 ^ len l + be_value l.
Proof.
  unfold be_value.
  induction l as [|b l IH]; intros acc; cbn [fold_left].
  - change (len (@nil byte)) with 0. lia.
  - rewrite IH, (IH (0 * 256 + Z_of_byte b)).
    rewrite len_cons, Z.pow_add_r by (try apply len_nonneg; lia). lia.
Qed.

Lemma be_value_cons (b : byte) (l : bytes) :
  be_value (b :: l) = Z_of_byte b * 256 ^ len l + be_value l.
Proof.
  unfold be_value at 1. cbn [fold_left]. rewrite be_value_from. lia.
Qed.

Lemma be_value_mod (n : nat) (v : Z) :
  be_value (be_bytes n v) = v mod 2 ^ (8 * Z.of_nat n).
Proof.
  induction n as [|n IH].
  - change (be_bytes 0 v) with (@nil byte). change (2 ^ (8 * Z.of_nat 0)) with 1.
    rewrite Z.mod_1_r. reflexivity.
  - rewrite be_bytes_succ, be_value_cons, IH, Z_of_byte_of_Z.
    unfold len. rewrite length_be_bytes.
    replace (8 * Z.of_nat (S n)) with (8 * Z.of_nat n + 8) by lia.
    rewrite Z.pow_add_r by lia. change (2 ^ 8) with 256.
    rewrite Z.shiftr_div_pow2 by lia.
    replace (256 ^ Z.of_nat n) with (2 ^ (8 * Z.of_nat n))
      by (rewrite Z.pow_mul_r by lia; reflexivity).
    rewrite (Z.rem_mul_r v (2 ^ (8 * Z.of_nat n)) 256) by lia. lia.
Qed.

(** [struct.unpack] after [struct.pack], for a value that fits. *)
Lemma be_value_be_bytes (n : nat) (v : Z) :
  0 <= v < 2 ^ (8 * Z.of_nat n) -> be_value (be_bytes n v) = v.
Proof. intros H. rewrite be_value_mod. apply Z.mod_small, H. Qed.

Lemma be_value_range (l : bytes) : 0 <= be_value l < 256 ^ len l.
Proof.
  induction l as [|b l IH].
  - change (be_value []) with 0. change (len (@nil byte)) with 0. lia.
  - rewrite be_value_cons, len_cons.
    rewrite Z.pow_add_r by (try apply len_nonneg; lia).
    assert (Hb : 0 <= Z_of_byte b < 256).
    { unfold Z_of_byte. pose proof (Byte.to_N_bounded b). lia. }
    nia.
Qed.

Lemma unpack_from_inside (n : nat) (data : bytes) (off : Z) :
  0 <= off -> off + Z.of_nat n <= len data ->
  unpack_from n data off = Ok (be_value (slice data off (off + Z.of_nat n))).
Proof.
  intros H0 H1. unfold unpack_from.
  destruct (off <? 0) eqn:E; [apply Z.ltb_lt in E; lia |].
  rewrite E. cbn [orb].
  destruct (len data - off <? Z.of_nat n) eqn:E1; [apply Z.ltb_lt in E1; lia |].
  reflexivity.
Qed.

Lemma unpack_from_short (n : nat) (data : bytes) (off : Z) :
  0 <= off -> len data < off + Z.of_nat n ->
  unpack_from n data off = Raise StructError.
Proof.
  intros H0 H1. unfold unpack_from.
  destruct (off <? 0) eqn:E; [apply Z.ltb_lt in E; lia |].
  rewrite E. cbn [orb].
  destruct (len data - off <? Z.of_nat n) eqn:E1; [reflexivity |].
  apply Z.ltb_ge in E1. lia.
Qed.

(** At an offset that is not negative the two readings agree. *)
Lemma unpack_from_uint (n : nat) (data : bytes) (off : Z) :
  0 <= off -> unpack_from n data off = unpack_uint n data off.
Proof.
  intros H0. unfold unpack_uint.
  destruct (off + Z.of_nat n <=? len data) eqn:E.
  - apply Z.leb_le in E. rewrite unpack_from_inside by assumption.
    rewrite (proj2 (Z.leb_le 0 off) H0). reflexivity.
  - apply Z.leb_gt in E. rewrite unpack_from_short by assumption.
    rewrite andb_false_r. reflexivity.
Qed.

Lemma len_be_bytes (n : nat) (v : Z) : len (be_bytes n v) = Z.of_nat n.
Proof. unfold len. rewrite length_be_bytes. reflexivity. Qed.

Lemma slice_app_exact {A} (a b c : list A) (n : Z) :
  n = len b -> slice (a ++ b ++ c) (len a) (len a + n) = b.
Proof. intros ->. apply slice_app_mid. Qed.

(** A packed field is read back at its place. *)
Lemma unpack_from_packed (n : nat) (pre post : bytes) (v : Z) :
  0 <= v < 2 ^ (8 * Z.of_nat n) ->
  unpack_from n (pre ++ be_bytes n v ++ post) (len pre) = Ok v.
Proof.
  intros Hv.
  rewrite unpack_from_inside.
  - rewrite slice_app_exact by (rewrite len_be_bytes; reflexivity).
    rewrite be_value_be_bytes by exact Hv. reflexivity.
  - apply len_nonneg.
  - rewrite !len_app, len_be_bytes.
    pose proof (len_nonneg post). lia.
Qed.

End StructFacts.

(** ** The UDIF container *)

Module UdifParseFacts.
Import Py.
Import Struct.
Import UdifParse.
Import HeaderFacts.
Import StructFacts.

Lemma slice_suffix {A} (a b : list A) :
  slice (a ++ b) (len (a ++ b) - len b) (len (a ++ b)) = b.
Proof.
  rewrite len_app. replace (len a + len b - len b) with (len a) by lia.
  rewrite <- (app_nil_r b) at 1. apply slice_app_mid.
Qed.

(** [parse_koly]: a file of fewer than 512 bytes is refused; otherwise the
    last 512 bytes are the trailer, whose first four bytes must be the
    koly magic, and the two results are the 8-byte fields at offsets 216
    and 224 of the trailer.  No [struct.error] can come out. *)
Theorem parse_koly_cases (file : bytes) :
  (len file < 512 ->
   parse_koly file = Raise (ValueError "File too small to be a DMG"))
  /\ (forall body f1 f2 magic o l,
        file = body ++ be_bytes 4 magic ++ f1 ++ be_bytes 8 o ++ be_bytes 8 l ++ f2 ->
        length f1 = 212%nat -> length f2 = 280%nat ->
        0 <= magic < 2 ^ 32 -> 0 <= o < 2 ^ 64 -> 0 <= l < 2 ^ 64 ->
        parse_koly file
        = if magic =? KOLY_MAGIC
          then Ok {| xml_offset := o; xml_length := l |}
          else Raise (ValueError "Not a DMG file: koly magic not found")).
Proof.
  split.
  - intros H. unfold parse_koly.
    destruct (len file <? 512) eqn:E; [reflexivity | apply Z.ltb_ge in E; lia].
  - intros body f1 f2 magic o l -> H1 H2 Hm Ho Hl.
    set (trailer := be_bytes 4 magic ++ f1 ++ be_bytes 8 o ++ be_bytes 8 l ++ f2).
    assert (Ht : len trailer = 512).
    { unfold trailer, len. rewrite !length_app, !length_be_bytes, H1, H2. reflexivity. }
    unfold parse_koly.
    destruct (len (body ++ trailer) <? 512) eqn:E.
    { apply Z.ltb_lt in E. rewrite len_app in E. pose proof (len_nonneg body). lia. }
    replace (slice (body ++ trailer) (len (body ++ trailer) - 512) (len (body ++ trailer)))
      with trailer by (rewrite <- Ht; symmetry; apply slice_suffix).
    assert (Hmagic : unpack_from 4 trailer 0 = Ok magic).
    { exact (unpack_from_packed 4 [] _ magic Hm). }
    rewrite Hmagic. cbn [bind].
    destruct (magic =? KOLY_MAGIC); cbn [negb]; [| reflexivity].
    assert (Hoff : unpack_from 8 trailer 216 = Ok o).
    { unfold trailer. rewrite (app_assoc (be_bytes 4 magic) f1).
      replace 216 with (len (be_bytes 4 magic ++ f1))
        by (unfold len; rewrite length_app, length_be_bytes, H1; reflexivity).
      apply unpack_from_packed. exact Ho. }
    assert (Hlen : unpack_from 8 trailer 224 = Ok l).
    { unfold trailer.
      rewrite (app_assoc f1), (app_assoc (be_bytes 4 magic)).
      replace 224 with (len (be_bytes 4 magic ++ f1 ++ be_bytes 8 o))
        by (unfold len; rewrite !length_app, !length_be_bytes, H1; reflexivity).
      apply unpack_from_packed. exact Hl. }
    rewrite Hoff, Hlen. reflexivity.
Qed.

(** *** [parse_blkx_chunks] *)

(** The chunk entry at offset [off] of a block descriptor. *)
Definition chunk_at (data : bytes) (data_offset off : Z) : Udif.chunk :=
  {| Udif.type := be_value (slice data off (off + 4));
     Udif.sector_number := be_value (slice data (off + 8) (off + 16));
     Udif.sector_count := be_value (slice data (off + 16) (off + 24));
     Udif.compressed_offset := data_offset + be_value (slice data (off + 24) (off + 32));
     Udif.compressed_length := be_value (slice data (off + 32) (off + 40)) |}.

Lemma chunk_entries_spec (data : bytes) (data_offset : Z) :
  forall (todo : nat) (off : Z) (chunks : list Udif.chunk),
    0 <= off ->
    chunk_entries todo data data_offset off chunks
    = Ok (chunks
          ++ map (fun k => chunk_at data data_offset (off + 40 * Z.of_nat k))
               (seq 0 (Nat.min todo (Z.to_nat ((len data - off) / 40))))).
Proof.
  induction todo as [|todo IH]; intros off chunks H0.
  - cbn [chunk_entries Nat.min seq map]. rewrite app_nil_r. reflexivity.
  - cbn [chunk_entries].
    destruct (off + 40 >? len data) eqn:E.
    + apply Z.gtb_lt in E.
      assert (Hq : (len data - off) / 40 <= 0).
      { apply Z.lt_succ_r. apply Z.div_lt_upper_bound; lia. }
      replace (Z.to_nat ((len data - off) / 40)) with 0%nat by lia.
      rewrite Nat.min_0_r. cbn [seq map]. rewrite app_nil_r. reflexivity.
    + assert (E' : off + 40 <= len data).
      { destruct (Z.gtb_spec (off + 40) (len data)); [discriminate | lia]. }
      rewrite (unpack_from_inside 4 data off) by (cbn; lia).
      rewrite (unpack_from_inside 8 data (off + 8)) by (cbn; lia).
      rewrite (unpack_from_inside 8 data (off + 16)) by (cbn; lia).
      rewrite (unpack_from_inside 8 data (off + 24)) by (cbn; lia).
      rewrite (unpack_from_inside 8 data (off + 32)) by (cbn; lia).
      cbn [bind].
      change (Z.of_nat 4) with 4. change (Z.of_nat 8) with 8.
      replace (off + 8 + 8) with (off + 16) by lia.
      replace (off + 16 + 8) with (off + 24) by lia.
      replace (off + 24 + 8) with (off + 32) by lia.
      replace (off + 32 + 8) with (off + 40) by lia.
      fold (chunk_at data data_offset off).
      rewrite IH by lia.
      assert (Hq : (len data - off) / 40 = (len data - (off + 40)) / 40 + 1).
      { replace (len data - off) with (len data - (off + 40) + 1 * 40) by lia.
        rewrite Z.div_add by lia. reflexivity. }
      assert (Hq0 : 0 <= (len data - (off + 40)) / 40) by (apply Z.div_pos; lia).
      rewrite Hq.
      replace (Z.to_nat ((len data - (off + 40)) / 40 + 1))
        with (S (Z.to_nat ((len data - (off + 40)) / 40))) by lia.
      rewrite <- Nat.succ_min_distr.
      set (m := Nat.min todo (Z.to_nat ((len data - (off + 40)) / 40))).
      rewrite <- app_assoc. f_equal. f_equal.
      change (seq 0 (S m)) with (0%nat :: seq 1 m).
      rewrite <- seq_shift, map_cons, map_map.
      change (Z.of_nat 0) with 0. rewrite Z.mul_0_r, Z.add_0_r.
      cbn [app]. f_equal.
      apply map_ext. intros k. f_equal. lia.
Qed.

(** [parse_blkx_chunks] on a descriptor that holds the whole 204-byte mish
    header: the result has as many chunks as the header announces, or as
    many whole 40-byte entries as follow the header when that is fewer;
    chunk [k] is read at offset [204 + 40 k], and its compressed offset is
    shifted by the data offset of the header. *)
Theorem parse_blkx_chunks_spec (data : bytes) :
  204 <= len data ->
  be_value (slice data 0 4) = MISH_MAGIC ->
  parse_blkx_chunks data
  = Ok (map (fun k => chunk_at data (be_value (slice data 24 32))
                        (204 + 40 * Z.of_nat k))
          (seq 0 (Z.to_nat (Z.min (be_value (slice data 200 204))
                              ((len data - 204) / 40))))).
Proof.
  intros Hlen Hmagic. unfold parse_blkx_chunks.
  rewrite (unpack_from_inside 4 data 0) by (cbn; lia).
  change (0 + Z.of_nat 4) with 4. rewrite Hmagic. cbn [bind].
  rewrite Z.eqb_refl. cbn [negb].
  rewrite (unpack_from_inside 8 data 8) by (cbn; lia).
  rewrite (unpack_from_inside 8 data 24) by (cbn; lia).
  rewrite (unpack_from_inside 4 data 200) by (cbn; lia).
  cbn [bind]. change (24 + Z.of_nat 8) with 32. change (200 + Z.of_nat 4) with 204.
  rewrite chunk_entries_spec by lia. cbn [app].
  f_equal. f_equal. f_equal.
  pose proof (be_value_range (slice data 200 204)) as [Hn _].
  assert (Hq : 0 <= (len data - 204) / 40) by (apply Z.div_pos; lia).
  rewrite Z2Nat.inj_min. reflexivity.
Qed.

(** A descriptor that announces three chunks and holds two entries and a
    half. *)
Definition short_blkx : bytes :=
  be_bytes 4 MISH_MAGIC ++ be_bytes 4 1 ++ be_bytes 8 0 ++ be_bytes 8 2
  ++ be_bytes 8 100 ++ zeros 168 ++ be_bytes 4 3
  ++ (be_bytes 4 1 ++ be_bytes 4 0 ++ be_bytes 8 0 ++ be_bytes 8 1
      ++ be_bytes 8 7 ++ be_bytes 8 512)
  ++ (be_bytes 4 4294967295 ++ be_bytes 4 0 ++ be_bytes 8 1 ++ be_bytes 8 0
      ++ be_bytes 8 0 ++ be_bytes 8 0)
  ++ zeros 20.

Lemma parse_blkx_chunks_spec_witness :
  parse_blkx_chunks short_blkx
  = Ok [ {| Udif.type := 1; Udif.sector_number := 0; Udif.sector_count := 1;
            Udif.compressed_offset := 107; Udif.compressed_length := 512 |};
         {| Udif.type := 4294967295; Udif.sector_number := 1; Udif.sector_count := 0;
            Udif.compressed_offset := 100; Udif.compressed_length := 0 |} ].
Proof.
  rewrite (parse_blkx_chunks_spec short_blkx).
  - vm_compute. reflexivity.
  - vm_compute. discriminate.
  - vm_compute. reflexivity.
Defined.

(** The errors of [parse_blkx_chunks]: fewer than four bytes, or a good
    magic in fewer than 204 bytes, give [struct.error]; four bytes that
    are not the magic give [ValueError]. *)
Theorem parse_blkx_chunks_errors (data : bytes) :
  (len data < 4 -> parse_blkx_chunks data = Raise StructError)
  /\ (4 <= len data -> be_value (slice data 0 4) <> MISH_MAGIC ->
      parse_blkx_chunks data = Raise (ValueError "Expected mish magic"))
  /\ (4 <= len data < 204 -> be_value (slice data 0 4) = MISH_MAGIC ->
      parse_blkx_chunks data = Raise StructError).
Proof.
  unfold parse_blkx_chunks. repeat split.
  - intros H. rewrite unpack_from_short by (cbn; lia). reflexivity.
  - intros H Hm. rewrite (unpack_from_inside 4 data 0) by (cbn; lia).
    change (0 + Z.of_nat 4) with 4. cbn [bind].
    apply Z.eqb_neq in Hm. rewrite Hm. reflexivity.
  - intros H Hm. rewrite (unpack_from_inside 4 data 0) by (cbn; lia).
    change (0 + Z.of_nat 4) with 4. cbn [bind]. rewrite Hm, Z.eqb_refl. cbn [negb].
    destruct (unpack_from 8 data 8) as [a|e] eqn:E8; cbn [bind].
    + destruct (unpack_from 8 data 24) as [b|e] eqn:E24; cbn [bind].
      * rewrite unpack_from_short by (cbn; lia). reflexivity.
      * destruct (Z_lt_le_dec (len data) 32) as [Hs | Hs].
        -- rewrite unpack_from_short in E24 by (cbn; lia). congruence.
        -- rewrite unpack_from_inside in E24 by (cbn; lia). discriminate.
    + destruct (Z_lt_le_dec (len data) 16) as [Hs | Hs].
      * rewrite unpack_from_short in E8 by (cbn; lia). congruence.
      * rewrite unpack_from_inside in E8 by (cbn; lia). discriminate.
Qed.

(** *** [_find_hfs_blkx] *)

Lemma startswith_app {A} (eqb : A -> A -> bool) (p q : list A) :
  forall s, startswith eqb s (p ++ q) = true -> startswith eqb s p = true.
Proof.
  induction p as [|x p IH]; intros s H; [destruct s; reflexivity |].
  destruct s as [|c s]; cbn [startswith app] in *; [discriminate |].
  apply andb_true_iff in H. destruct H as [H1 H2].
  rewrite H1, (IH _ H2). reflexivity.
Qed.

Lemma contains_app (s p q : str) :
  PkgReader.contains s (p ++ q) = true -> PkgReader.contains s p = true.
Proof.
  induction s as [|c s IH]; cbn [PkgReader.contains]; intros H;
    apply orb_true_iff in H; apply orb_true_iff; destruct H as [H | H].
  - left. eapply startswith_app, H.
  - discriminate.
  - left. eapply startswith_app, H.
  - right. apply IH, H.
Qed.

(** The name of an entry, [""] when the key is absent. *)
Definition name_of (entry : blkx_entry) : str :=
  match Name entry with Some s => s | None => [] end.

(** The test on ["Apple_HFSX"] adds nothing to the one on ["Apple_HFS"]. *)
Lemma find_by_name_spec (l : list blkx_entry) :
  find_by_name l
  = find (fun e => PkgReader.contains (name_of e) (lit "Apple_HFS")) l.
Proof.
  induction l as [|e l IH]; cbn [find_by_name find]; [reflexivity |].
  fold (name_of e).
  destruct (PkgReader.contains (name_of e) (lit "Apple_HFS")) eqn:E1; [reflexivity |].
  destruct (PkgReader.contains (name_of e) (lit "Apple_HFSX")) eqn:E2.
  - change (lit "Apple_HFSX") with (lit "Apple_HFS" ++ lit "X") in E2.
    apply contains_app in E2. congruence.
  - exact IH.
Qed.

(** The sector count of a block descriptor that has the mish magic and at
    least 24 bytes. *)
Definition mish_sectors (b : bytes) : option Z :=
  if len b <? 24 then None
  else if be_value (slice b 0 4) =? MISH_MAGIC then Some (be_value (slice b 16 24))
  else None.

Definition sectors (env : Env) (e : blkx_entry) : option Z :=
  match data_bytes env (Data e) with
  | Ok b => mish_sectors b
  | Raise _ => None
  end.

Lemma find_largest_step (env : Env) (e : blkx_entry) (rest : list blkx_entry)
    (best : option blkx_entry) (best_sectors : Z) (b : bytes) :
  data_bytes env (Data e) = Ok b ->
  find_largest env (e :: rest) best best_sectors
  = match mish_sectors b with
    | Some c =>
        if c >? best_sectors then find_largest env rest (Some e) c
        else find_largest env rest best best_sectors
    | None => find_largest env rest best best_sectors
    end.
Proof.
  intros Hb. cbn [find_largest]. rewrite Hb. cbn [bind]. unfold mish_sectors.
  destruct (len b <? 24) eqn:E; [reflexivity |]. apply Z.ltb_ge in E.
  rewrite (unpack_from_inside 4 b 0) by (cbn; lia).
  change (0 + Z.of_nat 4) with 4. cbn [bind].
  destruct (be_value (slice b 0 4) =? MISH_MAGIC); cbn [negb]; [| reflexivity].
  rewrite (unpack_from_inside 8 b 16) by (cbn; lia).
  change (16 + Z.of_nat 8) with 24. reflexivity.
Qed.

Lemma find_largest_spec (env : Env) (l : list blkx_entry) :
  (forall e, In e l -> exists b, data_bytes env (Data e) = Ok b) ->
  forall best best_sectors,
    0 <= best_sectors ->
    exists r,
      find_largest env l best best_sectors = Ok r
      /\ match r with
         | None =>
             best = None
             /\ forall e c, In e l -> sectors env e = Some c -> c <= best_sectors
         | Some e =>
             (Some e = best /\ forall e' c', In e' l -> sectors env e' = Some c' ->
                                             c' <= best_sectors)
             \/ (exists c, In e l /\ sectors env e = Some c /\ best_sectors < c
                           /\ forall e' c', In e' l -> sectors env e' = Some c' -> c' <= c)
         end.
Proof.
  induction l as [|e l IH]; intros Hdec best bs Hbs.
  - exists best. split; [reflexivity |].
    destruct best as [b|].
    + left. split; [reflexivity | intros e' c' []].
    + split; [reflexivity | intros e' c' []].
  - destruct (Hdec e (or_introl eq_refl)) as [b Hb].
    assert (Hdec' : forall e', In e' l -> exists b, data_bytes env (Data e') = Ok b).
    { intros e' H. apply Hdec. right. exact H. }
    assert (Hse : sectors env e = mish_sectors b) by (unfold sectors; rewrite Hb; reflexivity).
    rewrite (find_largest_step env e l best bs b Hb).
    destruct (mish_sectors b) as [c|] eqn:Ec.
    + destruct (c >? bs) eqn:Egt.
      * apply Z.gtb_lt in Egt.
        destruct (IH Hdec' (Some e) c ltac:(lia)) as (r & Hr & Hspec).
        exists r. split; [exact Hr |].
        destruct r as [e1|]; [| destruct Hspec as [Hn _]; discriminate Hn].
        right. destruct Hspec as [[He1 Hmax] | (c1 & Hin & Hs1 & Hlt & Hmax)].
        -- injection He1 as ->. exists c.
           split; [left; reflexivity |]. split; [exact Hse |]. split; [lia |].
           intros e' c' [<- | Hin'] Hs'; [rewrite Hse in Hs'; injection Hs' as <-; lia |].
           eapply Hmax; eassumption.
        -- exists c1. split; [right; exact Hin |]. split; [exact Hs1 |].
           split; [lia |].
           intros e' c' [<- | Hin'] Hs'; [rewrite Hse in Hs'; injection Hs' as <-; lia |].
           eapply Hmax; eassumption.
      * assert (Hle : c <= bs).
        { destruct (Z.gtb_spec c bs); [discriminate | lia]. }
        destruct (IH Hdec' best bs Hbs) as (r & Hr & Hspec).
        exists r. split; [exact Hr |].
        destruct r as [e1|].
        -- destruct Hspec as [[He1 Hmax] | (c1 & Hin & Hs1 & Hlt & Hmax)].
           ++ left. split; [exact He1 |].
              intros e' c' [<- | Hin'] Hs';
                [rewrite Hse in Hs'; injection Hs' as <-; lia |].
              eapply Hmax; eassumption.
           ++ right. exists c1. split; [right; exact Hin |]. split; [exact Hs1 |].
              split; [exact Hlt |].
              intros e' c' [<- | Hin'] Hs';
                [rewrite Hse in Hs'; injection Hs' as <-; lia |].
              eapply Hmax; eassumption.
        -- destruct Hspec as [Hn Hmax]. split; [exact Hn |].
           intros e' c' [<- | Hin'] Hs';
             [rewrite Hse in Hs'; injection Hs' as <-; lia |].
           eapply Hmax; eassumption.
    + destruct (IH Hdec' best bs Hbs) as (r & Hr & Hspec).
      exists r. split; [exact Hr |].
      destruct r as [e1|].
      * destruct Hspec as [[He1 Hmax] | (c1 & Hin & Hs1 & Hlt & Hmax)].
        -- left. split; [exact He1 |].
           intros e' c' [<- | Hin'] Hs'; [rewrite Hse in Hs'; discriminate |].
           eapply Hmax; eassumption.
        -- right. exists c1. split; [right; exact Hin |]. split; [exact Hs1 |].
           split; [exact Hlt |].
           intros e' c' [<- | Hin'] Hs'; [rewrite Hse in Hs'; discriminate |].
           eapply Hmax; eassumption.
      * destruct Hspec as [Hn Hmax]. split; [exact Hn |].
        intros e' c' [<- | Hin'] Hs'; [rewrite Hse in Hs'; discriminate |].
        eapply Hmax; eassumption.
Qed.

(** [_find_hfs_blkx]: the first entry whose name holds ["Apple_HFS"] is
    returned without looking at any data.  When no name matches and every
    [Data] can be decoded, the result is an entry with a mish header of
    the greatest, and positive, sector count; when no entry has a mish
    header with a positive sector count, [ValueError] is raised. *)
Theorem find_hfs_blkx_spec (env : Env) (l : list blkx_entry) :
  (forall e,
     find (fun e => PkgReader.contains (name_of e) (lit "Apple_HFS")) l = Some e ->
     _find_hfs_blkx env l = Ok e)
  /\ (find (fun e => PkgReader.contains (name_of e) (lit "Apple_HFS")) l = None ->
      (forall e, In e l -> exists b, data_bytes env (Data e) = Ok b) ->
      (exists e c,
         _find_hfs_blkx env l = Ok e /\ In e l /\ sectors env e = Some c /\ 0 < c
         /\ forall e' c', In e' l -> sectors env e' = Some c' -> c' <= c)
      \/ (_find_hfs_blkx env l = Raise (ValueError "No HFS+ partition found in DMG")
          /\ forall e' c', In e' l -> sectors env e' = Some c' -> c' <= 0)).
Proof.
  unfold _find_hfs_blkx. rewrite find_by_name_spec. split.
  - intros e ->. reflexivity.
  - intros -> Hdec.
    destruct (find_largest_spec env l Hdec None 0 (Z.le_refl 0)) as (r & Hr & Hspec).
    rewrite Hr. cbn [bind]. destruct r as [e|].
    + left. destruct Hspec as [[He _] | (c & Hin & Hs & Hlt & Hmax)]; [discriminate He |].
      exists e, c. auto.
    + right. destruct Hspec as [_ Hmax]. split; [reflexivity | exact Hmax].
Qed.

End UdifParseFacts.

(** ** The image made by [decompress_udif] *)

Module ImageFacts.
Import Py.
Import Udif.
Import HeaderFacts.

Lemma max_sector_from_ge (chunks : list chunk) :
  forall m,
    m <= max_sector_from chunks m
    /\ forall c, In c chunks -> sector_number c + sector_count c <= max_sector_from chunks m.
Proof.
  induction chunks as [|c chunks IH]; intros m; cbn [max_sector_from].
  - split; [lia | intros c []].
  - set (e := sector_number c + sector_count c).
    destruct (IH (if e >? m then e else m)) as [Hm Hin].
    assert (He : m <= (if e >? m then e else m) /\ e <= (if e >? m then e else m)).
    { destruct (Z.gtb_spec e m); lia. }
    split; [lia |].
    intros c' [<- | H]; [fold e; lia | apply Hin, H].
Qed.

Lemma do_chunk_place (codecs : Codecs) (file : image_file) (c : chunk) (off : Z)
    (data : bytes) :
  do_chunk codecs file c = Ok (Place off data) -> off = sector_number c * SECTOR_SIZE.
Proof.
  unfold do_chunk.
  destruct ((type c =? BLOCK_TERMINATOR) || (type c =? BLOCK_COMMENT)
            || (type c =? BLOCK_IGNORE)); [discriminate |].
  destruct (type c =? BLOCK_ZERO_FILL); [discriminate |].
  destruct (read_at file (compressed_offset c) (compressed_length c)) as [compressed|];
    cbn [bind]; [| discriminate].
  destruct (type c =? BLOCK_RAW); [intros [= <- _]; reflexivity |].
  destruct (type c =? BLOCK_ZLIB).
  { destruct (zlib_decompress codecs compressed); cbn [bind];
      [intros [= <- _]; reflexivity | discriminate]. }
  destruct (type c =? BLOCK_BZ2).
  { destruct (bz2_decompress codecs compressed); cbn [bind];
      [intros [= <- _]; reflexivity | discriminate]. }
  destruct (type c =? BLOCK_LZMA).
  { destruct (lzma_decompress codecs compressed); cbn [bind];
      [intros [= <- _]; reflexivity | discriminate]. }
  destruct (type c =? BLOCK_LZFSE).
  { destruct (lzfse_decompress codecs compressed (sector_count c * SECTOR_SIZE));
      cbn [bind]; [intros [= <- _]; reflexivity | discriminate]. }
  destruct (type c =? BLOCK_ADC); discriminate.
Qed.

(** [image[a:a + len(data)] = data] at an offset inside the image: the
    image keeps its length, or grows to the end of the data. *)
Lemma len_slice_assign (image data : bytes) (a : Z) :
  0 <= a <= len image ->
  len (slice_assign image a (a + len data) data) = Z.max (len image) (a + len data).
Proof.
  intros Ha. pose proof (len_nonneg data) as Hd.
  unfold slice_assign, clamp.
  destruct (a <? 0) eqn:E1; [apply Z.ltb_lt in E1; lia |].
  destruct (a + len data <? 0) eqn:E2; [apply Z.ltb_lt in E2; lia |].
  rewrite !len_app. unfold len. rewrite length_firstn, length_skipn.
  unfold len in *. lia.
Qed.

Lemma place_chunks_length (codecs : Codecs) (file : image_file) (total : Z)
    (chunks : list chunk) :
  Forall (fun c => 0 <= sector_number c /\ 0 <= sector_count c
                   /\ (sector_number c + sector_count c) * SECTOR_SIZE <= total) chunks ->
  forall image stderr image' stderr',
    place_chunks codecs file chunks image stderr = Ok (image', stderr') ->
    total <= len image ->
    total <= len image'
    /\ ((forall c off data, In c chunks -> do_chunk codecs file c = Ok (Place off data) ->
                            len data <= sector_count c * SECTOR_SIZE) ->
        len image' = len image).
Proof.
  induction 1 as [|c chunks (Hs & Hc & He) _ IH];
    intros image stderr image' stderr' Hrun Hlen;
    cbn [place_chunks] in Hrun.
  - injection Hrun as <- _. split; [exact Hlen | reflexivity].
  - destruct (do_chunk codecs file c) as [o|] eqn:Ho; cbn [bind] in Hrun; [| discriminate].
    destruct o as [| w | off data].
    + destruct (IH _ _ _ _ Hrun Hlen) as [H1 H2]. split; [exact H1 |].
      intros Hfit. apply H2. intros c' off data Hin. apply Hfit. right. exact Hin.
    + destruct (IH _ _ _ _ Hrun Hlen) as [H1 H2]. split; [exact H1 |].
      intros Hfit. apply H2. intros c' off data Hin. apply Hfit. right. exact Hin.
    + pose proof (do_chunk_place _ _ _ _ _ Ho) as ->.
      unfold SECTOR_SIZE in *.
      assert (Ha : 0 <= sector_number c * 512 <= len image) by nia.
      pose proof (len_slice_assign image data _ Ha) as Hl.
      destruct (IH _ _ _ _ Hrun) as [H1 H2]; [lia |].
      split; [exact H1 |].
      intros Hfit. rewrite H2.
      * rewrite Hl. specialize (Hfit c _ _ (or_introl eq_refl) Ho). nia.
      * intros c' off data' Hin. apply Hfit. right. exact Hin.
Qed.

(** The image returned by the placing of the chunks is never shorter than
    the partition, [max_sector * 512]; it has exactly that length when the
    data placed for each chunk are no longer than the sectors of the
    chunk.  (Data longer than their chunk overwrite what follows and can
    lengthen the image.) *)
Theorem decompress_chunks_length (codecs : Codecs) (file : image_file)
    (all_chunks : list chunk) (image : bytes) (stderr : list warning) :
  Forall (fun c => 0 <= sector_number c /\ 0 <= sector_count c) all_chunks ->
  decompress_chunks codecs file all_chunks = Ok (image, stderr) ->
  max_sector_from all_chunks 0 * SECTOR_SIZE <= len image
  /\ ((forall c off data,
         In c all_chunks -> do_chunk codecs file c = Ok (Place off data) ->
         len data <= sector_count c * SECTOR_SIZE) ->
      len image = max_sector_from all_chunks 0 * SECTOR_SIZE).
Proof.
  intros Hpos Hrun. unfold decompress_chunks in Hrun.
  destruct (max_sector_from_ge all_chunks 0) as [H0 Hmax].
  set (total := max_sector_from all_chunks 0 * SECTOR_SIZE) in *.
  assert (Hz : len (zeros total) = total).
  { apply len_zeros. unfold total, SECTOR_SIZE. lia. }
  assert (Hall : Forall (fun c => 0 <= sector_number c /\ 0 <= sector_count c
                   /\ (sector_number c + sector_count c) * SECTOR_SIZE <= total) all_chunks).
  { rewrite Forall_forall in *. intros c Hin.
    destruct (Hpos c Hin) as [Hs Hc]. split; [exact Hs |]. split; [exact Hc |].
    specialize (Hmax c Hin). unfold total, SECTOR_SIZE. lia. }
  destruct (place_chunks_length codecs file total all_chunks Hall _ _ _ _ Hrun) as [H1 H2];
    [lia |].
  split; [exact H1 |]. intros Hfit. rewrite (H2 Hfit). exact Hz.
Qed.

Lemma decompress_chunks_length_witness :
  exists image stderr,
    decompress_chunks Samples.codecs Samples.dmg_file
      [Samples.raw_chunk; Samples.adc_chunk] = Ok (image, stderr)
    /\ 1024 <= len image.
Proof.
  destruct (decompress_chunks Samples.codecs Samples.dmg_file
              [Samples.raw_chunk; Samples.adc_chunk]) as [[image stderr]|e] eqn:R;
    [| vm_compute in R; discriminate R].
  exists image, stderr. split; [reflexivity |].
  refine (proj1 (decompress_chunks_length Samples.codecs Samples.dmg_file
                   [Samples.raw_chunk; Samples.adc_chunk] image stderr _ R)).
  repeat constructor; vm_compute; discriminate.
Defined.

End ImageFacts.

(** ** The XAR container  (contrib/tools/lib/pkg_reader.py) *)

Module XarFacts.
Import Py.
Import PkgReader.
Import HeaderFacts.
Import StructFacts.

Lemma bytes_eqb_refl (b : bytes) : bytes_eqb b b = true.
Proof. apply ReaderFacts.bytes_eqb_eq. reflexivity. Qed.

(** A XAR header with its five fields, as 28 bytes. *)
Definition xar_header_bytes (h : xar_header) : bytes :=
  XAR_MAGIC ++ be_bytes 2 (header_size h) ++ be_bytes 2 (version h)
  ++ be_bytes 8 (toc_compressed_len h) ++ be_bytes 8 (toc_uncompressed_len h)
  ++ be_bytes 4 (cksum_algo h).

Definition header_fits (h : xar_header) : Prop :=
  0 <= header_size h < 2 ^ 16 /\ 0 <= version h < 2 ^ 16
  /\ 0 <= toc_compressed_len h < 2 ^ 64 /\ 0 <= toc_uncompressed_len h < 2 ^ 64
  /\ 0 <= cksum_algo h < 2 ^ 32.

Lemma len_xar_header_bytes (h : xar_header) : len (xar_header_bytes h) = 28.
Proof.
  unfold xar_header_bytes. rewrite !len_app, !len_be_bytes. reflexivity.
Qed.

Lemma parse_xar_header_bytes (h : xar_header) (rest : bytes) :
  header_fits h -> parse_xar_header (xar_header_bytes h ++ rest) = Ok h.
Proof.
  intros (H1 & H2 & H3 & H4 & H5).
  unfold parse_xar_header.
  pose proof (len_nonneg rest) as Hr.
  destruct (len (xar_header_bytes h ++ rest) <? XAR_HEADER_SIZE) eqn:E.
  { apply Z.ltb_lt in E. rewrite len_app, len_xar_header_bytes in E.
    unfold XAR_HEADER_SIZE in E. lia. }
  assert (Hm : slice (xar_header_bytes h ++ rest) 0 4 = XAR_MAGIC).
  { unfold xar_header_bytes. rewrite <- !app_assoc.
    exact (slice_app_mid [] XAR_MAGIC _). }
  rewrite Hm, bytes_eqb_refl. cbn [negb].
  unfold unpack_H, unpack_Q, unpack_I.
  rewrite <- !unpack_from_uint by lia.
  unfold xar_header_bytes. rewrite <- !app_assoc.
  rewrite (unpack_from_packed 2 XAR_MAGIC _ (header_size h)) by exact H1.
  cbn [bind].
  rewrite (app_assoc XAR_MAGIC).
  replace 6 with (len (XAR_MAGIC ++ be_bytes 2 (header_size h)))
    by (rewrite len_app, len_be_bytes; reflexivity).
  rewrite (unpack_from_packed 2 _ _ (version h)) by exact H2.
  cbn [bind].
  rewrite (app_assoc (XAR_MAGIC ++ be_bytes 2 (header_size h))).
  replace 8 with (len ((XAR_MAGIC ++ be_bytes 2 (header_size h)) ++ be_bytes 2 (version h)))
    by (rewrite !len_app, !len_be_bytes; reflexivity).
  rewrite (unpack_from_packed 8 _ _ (toc_compressed_len h)) by exact H3.
  cbn [bind].
  rewrite (app_assoc ((XAR_MAGIC ++ be_bytes 2 (header_size h)) ++ be_bytes 2 (version h))).
  replace 16 with (len (((XAR_MAGIC ++ be_bytes 2 (header_size h))
                         ++ be_bytes 2 (version h)) ++ be_bytes 8 (toc_compressed_len h)))
    by (rewrite !len_app, !len_be_bytes; reflexivity).
  rewrite (unpack_from_packed 8 _ _ (toc_uncompressed_len h)) by exact H4.
  cbn [bind].
  rewrite (app_assoc (((XAR_MAGIC ++ be_bytes 2 (header_size h))
                       ++ be_bytes 2 (version h)) ++ be_bytes 8 (toc_compressed_len h))).
  replace 24 with (len ((((XAR_MAGIC ++ be_bytes 2 (header_size h))
                          ++ be_bytes 2 (version h)) ++ be_bytes 8 (toc_compressed_len h))
                        ++ be_bytes 8 (toc_uncompressed_len h)))
    by (rewrite !len_app, !len_be_bytes; reflexivity).
  rewrite (unpack_from_packed 4 _ _ (cksum_algo h)) by exact H5.
  cbn [bind]. destruct h. reflexivity.
Qed.

(** [parse_xar_header]: data of fewer than 28 bytes and data that do not
    begin with ["xar!"] are refused with [ValueError]; otherwise the five
    fields are the big-endian numbers at offsets 4, 6, 8, 16 and 24, so
    that a header written field by field is read back.  No [struct.error]
    can come out. *)
Theorem parse_xar_header_cases (data : bytes) :
  (len data < 28 ->
   parse_xar_header data = Raise (ValueError "Data too small for XAR header"))
  /\ (28 <= len data -> slice data 0 4 <> XAR_MAGIC ->
      parse_xar_header data = Raise (ValueError "Not a XAR file"))
  /\ (forall h rest,
        data = xar_header_bytes h ++ rest -> header_fits h ->
        parse_xar_header data = Ok h)
  /\ (forall e, parse_xar_header data = Raise e -> e <> StructError).
Proof.
  split; [| split; [| split]].
  - intros H. unfold parse_xar_header, XAR_HEADER_SIZE.
    destruct (len data <? 28) eqn:E; [reflexivity | apply Z.ltb_ge in E; lia].
  - intros H Hm. unfold parse_xar_header, XAR_HEADER_SIZE.
    destruct (len data <? 28) eqn:E; [apply Z.ltb_lt in E; lia |].
    destruct (bytes_eqb (slice data 0 4) XAR_MAGIC) eqn:Eb; [| reflexivity].
    apply ReaderFacts.bytes_eqb_eq in Eb. contradiction.
  - intros h rest -> Hf. apply parse_xar_header_bytes, Hf.
  - intros e. unfold parse_xar_header, XAR_HEADER_SIZE.
    destruct (len data <? 28) eqn:E; [intros [= <-]; discriminate |].
    apply Z.ltb_ge in E.
    destruct (bytes_eqb (slice data 0 4) XAR_MAGIC); cbn [negb];
      [| intros [= <-]; discriminate].
    unfold unpack_H, unpack_Q, unpack_I.
    rewrite <- !unpack_from_uint by lia.
    rewrite (unpack_from_inside 2 data 4) by (cbn; lia).
    rewrite (unpack_from_inside 2 data 6) by (cbn; lia).
    rewrite (unpack_from_inside 8 data 8) by (cbn; lia).
    rewrite (unpack_from_inside 8 data 16) by (cbn; lia).
    rewrite (unpack_from_inside 4 data 24) by (cbn; lia).
    cbn [bind]. discriminate.
Qed.

(** *** The TOC and the heap *)

(** A XAR file laid out as header, padding up to [header_size], compressed
    TOC and heap: [parse_xar_toc] decompresses exactly the TOC bytes, and
    [extract_payload] takes [length] bytes at [offset] from the start of
    the heap, returned as they are when the encoding names
    ["octet-stream"] (also when it names a compression besides), passed
    through gzip or bzip2 when it names ["x-gzip"] or ["x-bzip2"], and as
    they are otherwise. *)
Theorem payload_from_heap (env : Env) (h : xar_header) (pad toc heap : bytes)
    (p : payload_info) :
  header_fits h ->
  header_size h = 28 + len pad ->
  toc_compressed_len h = len toc ->
  0 <= p_offset p -> 0 <= p_length p -> p_offset p + p_length p <= len heap ->
  let data := xar_header_bytes h ++ pad ++ toc ++ heap in
  let raw := slice heap (p_offset p) (p_offset p + p_length p) in
  parse_xar_header data = Ok h
  /\ parse_xar_toc env data h
     = (toc_xml <- zlib_decompress env toc ;; toc_payloads env toc_xml)
  /\ len raw = p_length p
  /\ extract_payload env data h p
     = if contains (p_encoding p) (lit "octet-stream") then Ok raw
       else if contains (p_encoding p) (lit "x-gzip") then gzip_decompress env raw
       else if contains (p_encoding p) (lit "x-bzip2") then bz2_decompress env raw
       else Ok raw.
Proof.
  intros Hf Hhs Htoc Ho Hn Hin data raw.
  pose proof (len_nonneg pad) as Hp. pose proof (len_nonneg toc) as Ht.
  pose proof (len_nonneg heap) as Hh.
  assert (Hlen : len data = 28 + len pad + len toc + len heap).
  { unfold data. rewrite !len_app, len_xar_header_bytes. lia. }
  split; [apply parse_xar_header_bytes, Hf |].
  split; [| split].
  - unfold parse_xar_toc. rewrite Hhs, Htoc.
    destruct (28 + len pad + len toc >? len data) eqn:E.
    { apply Z.gtb_lt in E. lia. }
    replace (slice data (28 + len pad) (28 + len pad + len toc)) with toc; [reflexivity |].
    unfold data. rewrite (app_assoc (xar_header_bytes h) pad).
    replace (28 + len pad) with (len (xar_header_bytes h ++ pad))
      by (rewrite len_app, len_xar_header_bytes; reflexivity).
    symmetry. apply slice_app_mid.
  - unfold raw. rewrite HfsListingFacts.len_slice_inside by lia. lia.
  - unfold extract_payload. rewrite Hhs, Htoc.
    destruct (28 + len pad + len toc + p_offset p + p_length p >? len data) eqn:E.
    { apply Z.gtb_lt in E. lia. }
    replace (slice data (28 + len pad + len toc + p_offset p)
               (28 + len pad + len toc + p_offset p + p_length p)) with raw; [reflexivity |].
    unfold data, raw.
    rewrite (app_assoc pad toc), (app_assoc (xar_header_bytes h)).
    replace (28 + len pad + len toc)
      with (len (xar_header_bytes h ++ pad ++ toc))
      by (rewrite !len_app, len_xar_header_bytes; lia).
    symmetry.
    replace (len (xar_header_bytes h ++ pad ++ toc) + p_offset p + p_length p)
      with (len (xar_header_bytes h ++ pad ++ toc) + (p_offset p + p_length p)) by lia.
    apply slice_app_skip; lia.
Qed.

Lemma payload_from_heap_witness :
  extract_payload Samples.pkg_env
    (xar_header_bytes {| header_size := 28; version := 1;
                         toc_compressed_len := len Samples.toc;
                         toc_uncompressed_len := len Samples.toc; cksum_algo := 0 |}
     ++ [] ++ Samples.toc ++ Samples.payload)
    {| header_size := 28; version := 1; toc_compressed_len := len Samples.toc;
       toc_uncompressed_len := len Samples.toc; cksum_algo := 0 |}
    {| p_offset := 2; p_length := 6; p_size := 6;
       p_encoding := lit "application/octet-stream" |}
  = Ok (slice Samples.payload 2 8).
Proof.
  refine (proj2 (proj2 (proj2
    (payload_from_heap Samples.pkg_env
       {| header_size := 28; version := 1; toc_compressed_len := len Samples.toc;
          toc_uncompressed_len := len Samples.toc; cksum_algo := 0 |}
       [] Samples.toc Samples.payload
       {| p_offset := 2; p_length := 6; p_size := 6;
          p_encoding := lit "application/octet-stream" |} _ _ _ _ _ _)))).
  - vm_compute. repeat split; discriminate.
  - reflexivity.
  - reflexivity.
  - vm_compute. discriminate.
  - vm_compute. discriminate.
  - vm_compute. discriminate.
Defined.

End XarFacts.

(** ** The HFS+ volume header and catalog *)

Module HfsParseFacts.
Import Py.
Import Struct.
Import HfsPlusReader.
Import HfsParse.
Import HeaderFacts.
Import StructFacts.

(** The extent descriptor at offset [off]. *)
Definition extent_at (data : bytes) (off : Z) : Z * Z :=
  (be_value (slice data off (off + 4)), be_value (slice data (off + 4) (off + 8))).

(** The descriptors before the first one without blocks. *)
Fixpoint upto_empty (l : list (Z * Z)) : list (Z * Z) :=
  match l with
  | [] => []
  | e :: rest => if snd e =? 0 then [] else e :: upto_empty rest
  end.

Lemma upto_empty_length (l : list (Z * Z)) : (length (upto_empty l) <= length l)%nat.
Proof.
  induction l as [|e l IH]; cbn [upto_empty length]; [lia |].
  destruct (snd e =? 0); cbn [length]; lia.
Qed.

Lemma upto_empty_nonzero (l : list (Z * Z)) : Forall (fun e => snd e <> 0) (upto_empty l).
Proof.
  induction l as [|e l IH]; cbn [upto_empty]; [constructor |].
  destruct (snd e =? 0) eqn:E; constructor; [apply Z.eqb_neq, E | exact IH].
Qed.

Lemma read_u32_inside (data : bytes) (off : Z) :
  0 <= off -> off + 4 <= len data ->
  _read_u32 data off = Ok (be_value (slice data off (off + 4))).
Proof. intros. unfold _read_u32. rewrite unpack_from_inside by (cbn; lia). reflexivity. Qed.

Lemma read_u16_inside (data : bytes) (off : Z) :
  0 <= off -> off + 2 <= len data ->
  _read_u16 data off = Ok (be_value (slice data off (off + 2))).
Proof. intros. unfold _read_u16. rewrite unpack_from_inside by (cbn; lia). reflexivity. Qed.

Lemma read_u64_inside (data : bytes) (off : Z) :
  0 <= off -> off + 8 <= len data ->
  _read_u64 data off = Ok (be_value (slice data off (off + 8))).
Proof. intros. unfold _read_u64. rewrite unpack_from_inside by (cbn; lia). reflexivity. Qed.

Lemma read_cat_extents_spec (image : bytes) :
  forall (todo : nat) (off : Z) (acc : list (Z * Z)),
    0 <= off -> off + 8 * Z.of_nat todo <= len image ->
    read_cat_extents todo image off acc
    = Ok (acc ++ upto_empty (map (fun k => extent_at image (off + 8 * Z.of_nat k))
                               (seq 0 todo))).
Proof.
  induction todo as [|todo IH]; intros off acc H0 H1.
  - cbn [read_cat_extents seq map upto_empty]. rewrite app_nil_r. reflexivity.
  - cbn [read_cat_extents].
    rewrite (read_u32_inside image off) by lia.
    rewrite (read_u32_inside image (off + 4)) by lia.
    cbn [bind].
    change (seq 0 (S todo)) with (0%nat :: seq 1 todo).
    rewrite <- seq_shift, map_cons, map_map.
    change (Z.of_nat 0) with 0. rewrite Z.mul_0_r, Z.add_0_r.
    cbn [upto_empty].
    replace (off + 4 + 4) with (off + 8) by lia.
    fold (extent_at image off).
    change (be_value (slice image (off + 4) (off + 8))) with (snd (extent_at image off)).
    destruct (snd (extent_at image off) =? 0).
    + rewrite app_nil_r. reflexivity.
    + rewrite IH by lia. rewrite <- app_assoc. cbn [app].
      f_equal. f_equal. f_equal. f_equal.
      apply map_ext. intros k. f_equal. lia.
Qed.

(** [_parse_volume_header]: an image whose bytes 1024 and 1025 are neither
    ["H+"] nor ["HX"], and so any image of fewer than 1026 bytes, is refused
    with [ValueError].  On an image that holds the whole catalog fork
    descriptor (1376 bytes) and has the signature, the block size is the
    number at offset 1064, the logical size of the catalog the number at
    1296, and the extents are the descriptors from offset 1312 on, up to
    the first one without blocks and at most eight. *)
Theorem parse_volume_header_cases (image : bytes) :
  (slice image 1024 1026 <> HFS_PLUS_SIGNATURE ->
   slice image 1024 1026 <> HFSX_SIGNATURE ->
   _parse_volume_header image = Raise (ValueError "Not an HFS+ volume"))
  /\ (1376 <= len image ->
      slice image 1024 1026 = HFS_PLUS_SIGNATURE
      \/ slice image 1024 1026 = HFSX_SIGNATURE ->
      exists vh,
        _parse_volume_header image = Ok vh
        /\ vh_block_size vh = be_value (slice image 1064 1068)
        /\ cat_logical_size vh = be_value (slice image 1296 1304)
        /\ cat_extents vh
           = upto_empty (map (fun k => extent_at image (1312 + 8 * Z.of_nat k)) (seq 0 8))
        /\ (length (cat_extents vh) <= 8)%nat
        /\ Forall (fun e => snd e <> 0) (cat_extents vh)).
Proof.
  unfold _parse_volume_header. cbv zeta.
  change (1024 + 2) with 1026. change (1024 + 40) with 1064.
  change (1024 + 272) with 1296. change (1296 + 16) with 1312.
  split.
  - intros H1 H2.
    destruct (bytes_eqb (slice image 1024 1026) HFS_PLUS_SIGNATURE) eqn:E1.
    { apply ReaderFacts.bytes_eqb_eq in E1. contradiction. }
    destruct (bytes_eqb (slice image 1024 1026) HFSX_SIGNATURE) eqn:E2.
    { apply ReaderFacts.bytes_eqb_eq in E2. contradiction. }
    reflexivity.
  - intros Hlen Hsig.
    assert (Hs : bytes_eqb (slice image 1024 1026) HFS_PLUS_SIGNATURE
                 || bytes_eqb (slice image 1024 1026) HFSX_SIGNATURE = true).
    { apply orb_true_iff.
      destruct Hsig as [H | H]; [left | right]; apply ReaderFacts.bytes_eqb_eq, H. }
    rewrite Hs. cbn [negb].
    rewrite (read_u32_inside image 1064) by lia.
    rewrite (read_u64_inside image 1296) by lia.
    cbn [bind].
    rewrite (read_cat_extents_spec image 8 1312 []) by (cbn; lia).
    cbn [bind app].
    eexists. split; [reflexivity |]. cbn [vh_block_size cat_logical_size cat_extents].
    split; [reflexivity |]. split; [reflexivity |]. split; [reflexivity |].
    split; [| apply upto_empty_nonzero].
    etransitivity; [apply upto_empty_length |].
    rewrite length_map, length_seq. lia.
Qed.

(** *** Reads of a catalog record *)

Lemma read_fork_extents_ok (node : bytes) :
  forall (todo : nat) (eo : Z) (acc : list (Z * Z)),
    0 <= eo -> exists extents, read_fork_extents todo node eo acc = Ok extents.
Proof.
  induction todo as [|todo IH]; intros eo acc H0; cbn [read_fork_extents].
  - eauto.
  - destruct (eo + 8 >? len node) eqn:E; [eauto |].
    assert (E' : eo + 8 <= len node).
    { destruct (Z.gtb_spec (eo + 8) (len node)); [discriminate | lia]. }
    rewrite (read_u32_inside node eo) by lia.
    rewrite (read_u32_inside node (eo + 4)) by lia.
    cbn [bind].
    destruct (be_value (slice node (eo + 4) (eo + 4 + 4)) =? 0); [eauto |].
    apply IH. lia.
Qed.

Lemma gtb_false_le (a b : Z) : (a >? b) = false -> a <= b.
Proof. intros H. destruct (Z.gtb_spec a b); [discriminate | lia]. Qed.

Lemma catalog_record_ok (env : Env) (node : bytes) (rec_off rec_len : Z)
    (entries : dict) :
  0 <= rec_off ->
  rec_off + rec_len <= len node ->
  rec_off + 8 <= len node ->
  exists entries',
    _parse_catalog_record env node rec_off rec_len entries = Ok entries'
    /\ (entries' = entries \/ exists cnid e, entries' = dict_set entries cnid e).
Proof.
  intros H0 Hend H8. unfold _parse_catalog_record.
  rewrite (read_u16_inside node rec_off) by lia. cbn [bind].
  set (key_length := be_value (slice node rec_off (rec_off + 2))).
  destruct (key_length <? 6) eqn:Ek; [eauto |]. apply Z.ltb_ge in Ek.
  rewrite (read_u32_inside node (rec_off + 2)) by lia. cbn [bind].
  rewrite (read_u16_inside node (rec_off + 6)) by lia. cbn [bind].
  set (name_length := be_value (slice node (rec_off + 6) (rec_off + 6 + 2))).
  destruct (rec_off + 8 + name_length * 2 >? len node); [eauto |].
  destruct (decode_utf16be env _) as [name|]; [| eauto].
  set (d := if negb ((rec_off + 2 + key_length) mod 2 =? 0)
            then rec_off + 2 + key_length + 1 else rec_off + 2 + key_length).
  assert (Hd : 0 <= d).
  { unfold d. destruct (negb ((rec_off + 2 + key_length) mod 2 =? 0)); lia. }
  destruct (d + 2 >? rec_off + rec_len) eqn:E2; [eauto |].
  apply gtb_false_le in E2.
  rewrite (read_u16_inside node d) by lia. cbn [bind].
  destruct (be_value (slice node d (d + 2)) =? FOLDER_RECORD_TYPE).
  { destruct (d + 48 >? len node) eqn:E3; [eauto |]. apply gtb_false_le in E3.
    rewrite (read_u32_inside node (d + 8)) by lia.
    rewrite (read_u32_inside node (d + 32)) by lia.
    rewrite (read_u32_inside node (d + 36)) by lia.
    rewrite (read_u16_inside node (d + 42)) by lia.
    cbn [bind]. eauto 6. }
  destruct (be_value (slice node d (d + 2)) =? FILE_RECORD_TYPE); [| eauto].
  destruct (d + 96 >? len node) eqn:E3; [eauto |]. apply gtb_false_le in E3.
  rewrite (read_u32_inside node (d + 8)) by lia.
  rewrite (read_u32_inside node (d + 32)) by lia.
  rewrite (read_u32_inside node (d + 36)) by lia.
  rewrite (read_u16_inside node (d + 42)) by lia.
  rewrite (read_u64_inside node (d + 88)) by lia.
  cbn [bind].
  destruct (read_fork_extents_ok node 8 (d + 88 + 16) []) as [extents ->]; [lia |].
  cbn [bind]. eauto 6.
Qed.

(** [_parse_leaf_node] hands over a record when [rec_len >= 6] and the
    record ends inside the node.  [_parse_catalog_record] reads the first
    eight bytes of the key before any test on the name: a record of at
    least eight bytes is parsed without exception, and leaves [entries] as
    they are or sets one CNID; a record of six or seven bytes that ends
    less than eight bytes before the end of the node, with a key length of
    six or more, raises [struct.error]. *)
Theorem catalog_record_bounds (env : Env) (node : bytes) (rec_off rec_len : Z)
    (entries : dict) :
  0 <= rec_off ->
  rec_off + rec_len <= len node ->
  (8 <= rec_len ->
   exists entries',
     _parse_catalog_record env node rec_off rec_len entries = Ok entries'
     /\ (entries' = entries \/ exists cnid e, entries' = dict_set entries cnid e))
  /\ (6 <= rec_len ->
      len node < rec_off + 8 ->
      6 <= be_value (slice node rec_off (rec_off + 2)) ->
      _parse_catalog_record env node rec_off rec_len entries = Raise StructError).
Proof.
  intros H0 Hend. split.
  - intros H8. apply catalog_record_ok; lia.
  - intros H6 Hshort Hkey. unfold _parse_catalog_record.
    rewrite (read_u16_inside node rec_off) by lia. cbn [bind].
    destruct (be_value (slice node rec_off (rec_off + 2)) <? 6) eqn:Ek;
      [apply Z.ltb_lt in Ek; lia |].
    rewrite (read_u32_inside node (rec_off + 2)) by lia. cbn [bind].
    unfold _read_u16. rewrite (unpack_from_short 2 node (rec_off + 6)) by (cbn; lia).
    reflexivity.
Qed.

Lemma catalog_record_bounds_witness :
  _parse_catalog_record {| decode_utf16be := fun _ => None |}
    [x00; x06; x00; x00; x00; x02] 0 6 []
  = Raise StructError.
Proof.
  refine (proj2 (catalog_record_bounds {| decode_utf16be := fun _ => None |}
                   [x00; x06; x00; x00; x00; x02] 0 6 [] _ _) _ _ _).
  - lia.
  - vm_compute. discriminate.
  - lia.
  - vm_compute. reflexivity.
  - vm_compute. discriminate.
Defined.

(** *** A leaf node *)

(** The entry of the offset table for record [i]. *)
Definition table_offset (node : bytes) (node_size i : Z) : Z :=
  be_value (slice node (node_size - 2 * (i + 1)) (node_size - 2 * (i + 1) + 2)).

Lemma leaf_records_ok (env : Env) (node : bytes) (node_size num_records : Z) :
  len node = node_size ->
  2 * (num_records + 1) <= node_size ->
  (forall i, 0 <= i < num_records -> table_offset node node_size (i + 1) <= node_size - 2) ->
  forall (todo : nat) (i : Z) (entries : dict),
    0 <= i -> i + Z.of_nat todo <= num_records ->
    exists entries',
      leaf_records env todo node node_size num_records i entries = Ok entries'.
Proof.
  intros Hl Htable Hrec.
  induction todo as [|todo IH]; intros i entries Hi Hn; cbn [leaf_records]; [eauto |].
  rewrite (read_u16_inside node (node_size - 2 * (i + 1))) by lia.
  cbn [bind]. fold (table_offset node node_size i).
  assert (Hnext : (if i + 1 <? num_records
                   then _read_u16 node (node_size - 2 * (i + 2))
                   else _read_u16 node (node_size - 2 * (num_records + 1)))
                  = Ok (table_offset node node_size (i + 1))).
  { unfold table_offset. replace (2 * (i + 1 + 1)) with (2 * (i + 2)) by lia.
    destruct (i + 1 <? num_records) eqn:E.
    - rewrite read_u16_inside by lia. reflexivity.
    - apply Z.ltb_ge in E. replace (num_records + 1) with (i + 2) by lia.
      rewrite read_u16_inside by lia. reflexivity. }
  rewrite Hnext. cbn [bind].
  set (rec_off := table_offset node node_size i).
  set (next_off := table_offset node node_size (i + 1)).
  destruct ((next_off - rec_off <? 6) || (rec_off + (next_off - rec_off) >? node_size)) eqn:E.
  - apply IH; lia.
  - apply orb_false_iff in E. destruct E as [E1 E2].
    apply Z.ltb_ge in E1. apply gtb_false_le in E2.
    assert (H0 : 0 <= rec_off).
    { unfold rec_off, table_offset. apply be_value_range. }
    assert (Hn2 : next_off <= node_size - 2) by (apply Hrec; lia).
    destruct (catalog_record_ok env node rec_off (next_off - rec_off) entries)
      as (entries' & -> & _); try lia.
    cbn [bind]. apply IH; lia.
Qed.

(** A leaf node whose offset table fits in the node, and none of whose
    records ends in the last two bytes of the node (where the table has
    its first entry), is parsed without exception.  The two ways in which
    the code finds the end of a record, the next table entry and the
    free-space entry, read the same place for the last record. *)
Theorem leaf_node_safe (env : Env) (node : bytes) (node_size num_records : Z)
    (entries : dict) :
  len node = node_size ->
  0 <= num_records ->
  2 * (num_records + 1) <= node_size ->
  (forall i, 0 <= i < num_records -> table_offset node node_size (i + 1) <= node_size - 2) ->
  exists entries', _parse_leaf_node env node node_size num_records entries = Ok entries'.
Proof.
  intros Hl Hn Htable Hrec. unfold _parse_leaf_node.
  apply leaf_records_ok; try assumption; lia.
Qed.

(** *** The chain of leaf nodes *)

Lemma unpack_b_inside (data : bytes) (off : Z) :
  0 <= off -> off + 1 <= len data ->
  unpack_b data off
  = Ok (if be_value (slice data off (off + 1)) <? 128
        then be_value (slice data off (off + 1))
        else be_value (slice data off (off + 1)) - 256).
Proof.
  intros. unfold unpack_b. rewrite unpack_from_inside by (cbn; lia). reflexivity.
Qed.

(** The walk over the leaf chain has no guard against a chain that comes
    back on itself: at a node that is inside the catalog, is not a leaf,
    and whose forward link is its own number, the loop of [_read_catalog]
    never ends, whatever number of turns it is given. *)
Theorem leaf_chain_self_link (env : Env) (cat_data : bytes) (node_size node_idx : Z)
    (entries : dict) :
  0 < node_idx -> 12 <= node_size ->
  node_idx * node_size + node_size <= len cat_data ->
  be_value (slice cat_data (node_idx * node_size) (node_idx * node_size + 4)) = node_idx ->
  be_value (slice cat_data (node_idx * node_size + 8) (node_idx * node_size + 9)) <> 255 ->
  forall fuel, leaf_chain env fuel cat_data node_size node_idx entries = None.
Proof.
  intros Hidx Hsize Hin Hlink Hkind fuel.
  set (node := slice cat_data (node_idx * node_size) (node_idx * node_size + node_size)).
  assert (Hl : len node = node_size).
  { unfold node. rewrite HfsListingFacts.len_slice_inside by nia. lia. }
  assert (Hsub : forall i j, 0 <= i <= j -> j <= node_size ->
                   slice node i j
                   = slice cat_data (node_idx * node_size + i) (node_idx * node_size + j)).
  { intros i j Hi Hj. rewrite (slice_spec node i j) by lia.
    unfold node.
    rewrite (slice_spec cat_data (node_idx * node_size)) by nia.
    rewrite (slice_spec cat_data (node_idx * node_size + i)) by nia.
    rewrite skipn_firstn_comm, firstn_firstn, skipn_skipn.
    f_equal; [lia |]. f_equal. lia. }
  induction fuel as [|fuel IH]; cbn [leaf_chain]; [reflexivity |].
  destruct (node_idx =? 0) eqn:E0; [apply Z.eqb_eq in E0; lia |].
  destruct (node_idx * node_size + node_size >? len cat_data) eqn:E1;
    [apply Z.gtb_lt in E1; lia |].
  fold node.
  rewrite (read_u32_inside node 0) by lia.
  rewrite (unpack_b_inside node 8) by lia.
  rewrite (read_u16_inside node 10) by lia.
  rewrite (Hsub 0 (0 + 4)) by lia. rewrite Z.add_0_r.
  replace (node_idx * node_size + (0 + 4)) with (node_idx * node_size + 4) by lia.
  rewrite Hlink.
  rewrite (Hsub 8 (8 + 1)) by lia.
  replace (node_idx * node_size + (8 + 1)) with (node_idx * node_size + 9) by lia.
  set (b := be_value (slice cat_data (node_idx * node_size + 8) (node_idx * node_size + 9))) in *.
  assert (Hb : 0 <= b < 256).
  { pose proof (be_value_range
                  (slice cat_data (node_idx * node_size + 8) (node_idx * node_size + 9))) as Hr.
    rewrite HfsListingFacts.len_slice_inside in Hr by nia.
    replace (node_idx * node_size + 9 - (node_idx * node_size + 8)) with 1 in Hr by lia.
    exact Hr. }
  assert (Hk : ((if b <? 128 then b else b - 256) =? -1) = false).
  { apply Z.eqb_neq. destruct (b <? 128) eqn:Eb; [apply Z.ltb_lt in Eb; lia | lia]. }
  rewrite Hk. cbn [negb]. exact IH.
Qed.

(** A catalog of two nodes of 16 bytes; node 1 is an index node linked to
    itself. *)
Definition looping_catalog : bytes :=
  zeros 16 ++ be_bytes 4 1 ++ be_bytes 4 0 ++ [x00; x01] ++ be_bytes 2 0 ++ zeros 4.

Lemma leaf_chain_self_link_witness :
  leaf_chain {| decode_utf16be := fun _ => None |} 5 looping_catalog 16 1 [] = None.
Proof.
  refine (leaf_chain_self_link {| decode_utf16be := fun _ => None |}
            looping_catalog 16 1 [] _ _ _ _ _ 5%nat).
  - lia.
  - lia.
  - vm_compute. discriminate.
  - vm_compute. reflexivity.
  - vm_compute. discriminate.
Defined.

(** *** The sample volume *)

Lemma leaf_node_safe_witness :
  exists entries',
    _parse_leaf_node HfsSamples.env HfsSamples.leaf_node 512 2 [] = Ok entries'.
Proof.
  apply leaf_node_safe.
  - vm_compute. reflexivity.
  - lia.
  - lia.
  - intros i Hi.
    assert (Hc : i = 0 \/ i = 1) by lia.
    destruct Hc as [-> | ->]; vm_compute; discriminate.
Defined.

(** The reader built from the sample image, the listing and the content
    of the file. *)
Example sample_volume_entries :
  exists h,
    __init__ HfsSamples.env 3 HfsSamples.image = Some (Ok h)
    /\ block_size h = 512
    /\ entries h
       = [ (16, (2, lit "bin", FOLDER_RECORD,
                 {| i_mode := 16877; i_uid := 501; i_gid := 20;
                    i_size := None; i_extents := None |}));
           (17, (16, lit "tool", FILE_RECORD,
                 {| i_mode := 33261; i_uid := 501; i_gid := 20;
                    i_size := Some 5; i_extents := Some [(5, 1)] |})) ]
    /\ map TreeReader.path (get_all_files h) = [lit "bin"; lit "bin/tool"]
    /\ read_file h 17 = Ok (encode_utf8 (lit "hello")).
Proof.
  eexists. split; [vm_compute; reflexivity |].
  repeat split; vm_compute; reflexivity.
Qed.

(** *** What a parsed catalog holds *)

Lemma unpack_from_range (n : nat) (data : bytes) (off v : Z) :
  unpack_from n data off = Ok v -> 0 <= v < 256 ^ Z.of_nat n.
Proof.
  unfold unpack_from.
  set (off' := if off <? 0 then off + len data else off).
  destruct ((off' <? 0) || (len data - off' <? Z.of_nat n)) eqn:E; [discriminate |].
  apply orb_false_iff in E. destruct E as [E1 E2].
  apply Z.ltb_ge in E1. apply Z.ltb_ge in E2.
  intros [= <-].
  pose proof (be_value_range (slice data off' (off' + Z.of_nat n))) as Hr.
  rewrite HfsListingFacts.len_slice_inside in Hr by lia.
  replace (off' + Z.of_nat n - off') with (Z.of_nat n) in Hr by lia.
  exact Hr.
Qed.

Lemma read_u16_range (data : bytes) (off v : Z) :
  _read_u16 data off = Ok v -> 0 <= v < 65536.
Proof. intros H. exact (unpack_from_range 2 data off v H). Qed.

Lemma read_u32_range (data : bytes) (off v : Z) :
  _read_u32 data off = Ok v -> 0 <= v < 4294967296.
Proof. intros H. exact (unpack_from_range 4 data off v H). Qed.

Lemma read_u64_range (data : bytes) (off v : Z) :
  _read_u64 data off = Ok v -> 0 <= v < 18446744073709551616.
Proof. intros H. exact (unpack_from_range 8 data off v H). Qed.

(** An extent as the parser stores it: two 32-bit numbers, the block count
    not zero. *)
Definition extent_ok (e : Z * Z) : Prop :=
  0 <= fst e < 4294967296 /\ 0 < snd e < 4294967296.

(** An entry of [entries] as the parser makes it: 32-bit identifiers and
    owners, a 16-bit mode; a folder has neither size nor extents, a file
    has a 64-bit size and at most eight extents. *)
Definition entry_ok (kv : Z * catalog_entry) : Prop :=
  let '(cnid, (parent_cnid, name, rt, info)) := kv in
  0 <= cnid < 4294967296 /\ 0 <= parent_cnid < 4294967296
  /\ 0 <= i_mode info < 65536
  /\ 0 <= i_uid info < 4294967296 /\ 0 <= i_gid info < 4294967296
  /\ match rt with
     | FOLDER_RECORD => i_size info = None /\ i_extents info = None
     | FILE_RECORD =>
         exists size extents,
           i_size info = Some size /\ i_extents info = Some extents
           /\ 0 <= size < 18446744073709551616
           /\ (length extents <= 8)%nat /\ Forall extent_ok extents
     end.

Lemma read_fork_extents_shape (node : bytes) :
  forall (todo : nat) (eo : Z) (acc extents : list (Z * Z)),
    read_fork_extents todo node eo acc = Ok extents ->
    Forall extent_ok acc ->
    (length extents <= length acc + todo)%nat /\ Forall extent_ok extents.
Proof.
  induction todo as [|todo IH]; intros eo acc extents H Hacc; cbn [read_fork_extents] in H.
  - injection H as <-. split; [lia | exact Hacc].
  - destruct (eo + 8 >? len node); [injection H as <-; split; [lia | exact Hacc] |].
    destruct (_read_u32 node eo) as [sb|] eqn:Es; cbn [bind] in H; [| discriminate].
    destruct (_read_u32 node (eo + 4)) as [bc|] eqn:Eb; cbn [bind] in H; [| discriminate].
    destruct (bc =? 0) eqn:E0; [injection H as <-; split; [lia | exact Hacc] |].
    apply Z.eqb_neq in E0.
    apply read_u32_range in Es. apply read_u32_range in Eb.
    destruct (IH _ _ _ H) as [Hl Hf].
    + apply Forall_app. split; [exact Hacc |].
      constructor; [| constructor]. unfold extent_ok. cbn [fst snd]. lia.
    + rewrite length_app in Hl. cbn [length] in Hl. split; [lia | exact Hf].
Qed.

Lemma dict_set_ok (d : dict) (k : Z) (v : catalog_entry) :
  Forall entry_ok d -> entry_ok (k, v) -> Forall entry_ok (dict_set d k v).
Proof.
  intros Hd Hv. induction Hd as [|[k' v'] d Hkv Hd IH]; cbn [dict_set].
  - constructor; [exact Hv | constructor].
  - destruct (k' =? k) eqn:E.
    + apply Z.eqb_eq in E. subst k'. constructor; assumption.
    + constructor; assumption.
Qed.

Lemma catalog_record_shape (env : Env) (node : bytes) (rec_off rec_len : Z)
    (entries entries' : dict) :
  _parse_catalog_record env node rec_off rec_len entries = Ok entries' ->
  Forall entry_ok entries -> Forall entry_ok entries'.
Proof.
  unfold _parse_catalog_record. intros H Hok.
  destruct (_read_u16 node rec_off) as [key_length|]; cbn [bind] in H; [| discriminate].
  destruct (key_length <? 6); [injection H as <-; exact Hok |].
  destruct (_read_u32 node (rec_off + 2)) as [parent_cnid|] eqn:Ep;
    cbn [bind] in H; [| discriminate].
  destruct (_read_u16 node (rec_off + 6)) as [name_length|];
    cbn [bind] in H; [| discriminate].
  destruct (rec_off + 8 + name_length * 2 >? len node); [injection H as <-; exact Hok |].
  destruct (decode_utf16be env _) as [name|]; [| injection H as <-; exact Hok].
  cbv zeta in H.
  set (d := if negb ((rec_off + 2 + key_length) mod 2 =? 0)
            then rec_off + 2 + key_length + 1 else rec_off + 2 + key_length) in *.
  destruct (d + 2 >? rec_off + rec_len); [injection H as <-; exact Hok |].
  destruct (_read_u16 node d) as [record_type|]; cbn [bind] in H; [| discriminate].
  apply read_u32_range in Ep.
  destruct (record_type =? FOLDER_RECORD_TYPE).
  { destruct (d + 48 >? len node); [injection H as <-; exact Hok |].
    destruct (_read_u32 node (d + 8)) as [cnid|] eqn:Ec; cbn [bind] in H; [| discriminate].
    destruct (_read_u32 node (d + 32)) as [uid|] eqn:Eu; cbn [bind] in H; [| discriminate].
    destruct (_read_u32 node (d + 36)) as [gid|] eqn:Eg; cbn [bind] in H; [| discriminate].
    destruct (_read_u16 node (d + 42)) as [file_mode|] eqn:Em;
      cbn [bind] in H; [| discriminate].
    injection H as <-.
    apply read_u32_range in Ec, Eu, Eg. apply read_u16_range in Em.
    apply dict_set_ok; [exact Hok |].
    unfold entry_ok. cbn [i_mode i_uid i_gid i_size i_extents]. auto 10. }
  destruct (record_type =? FILE_RECORD_TYPE); [| injection H as <-; exact Hok].
  destruct (d + 96 >? len node); [injection H as <-; exact Hok |].
  destruct (_read_u32 node (d + 8)) as [cnid|] eqn:Ec; cbn [bind] in H; [| discriminate].
  destruct (_read_u32 node (d + 32)) as [uid|] eqn:Eu; cbn [bind] in H; [| discriminate].
  destruct (_read_u32 node (d + 36)) as [gid|] eqn:Eg; cbn [bind] in H; [| discriminate].
  destruct (_read_u16 node (d + 42)) as [file_mode|] eqn:Em;
    cbn [bind] in H; [| discriminate].
  destruct (_read_u64 node (d + 88)) as [size|] eqn:Ez; cbn [bind] in H; [| discriminate].
  destruct (read_fork_extents 8 node (d + 88 + 16) []) as [extents|] eqn:Ex;
    cbn [bind] in H; [| discriminate].
  injection H as <-.
  apply read_u32_range in Ec, Eu, Eg. apply read_u16_range in Em.
  apply read_u64_range in Ez.
  destruct (read_fork_extents_shape _ _ _ _ _ Ex (Forall_nil _)) as [Hl Hf].
  apply dict_set_ok; [exact Hok |].
  unfold entry_ok. cbn [i_mode i_uid i_gid i_size i_extents].
  repeat (split; [lia |]). exists size, extents. auto 10.
Qed.

Lemma leaf_records_shape (env : Env) (node : bytes) (node_size num_records : Z) :
  forall (todo : nat) (i : Z) (entries entries' : dict),
    leaf_records env todo node node_size num_records i entries = Ok entries' ->
    Forall entry_ok entries -> Forall entry_ok entries'.
Proof.
  induction todo as [|todo IH]; intros i entries entries' H Hok; cbn [leaf_records] in H.
  - injection H as <-. exact Hok.
  - destruct (_read_u16 node (node_size - 2 * (i + 1))) as [rec_off|];
      cbn [bind] in H; [| discriminate].
    destruct (if i + 1 <? num_records
              then _read_u16 node (node_size - 2 * (i + 2))
              else _read_u16 node (node_size - 2 * (num_records + 1))) as [next_off|];
      cbn [bind] in H; [| discriminate].
    destruct ((next_off - rec_off <? 6) || (rec_off + (next_off - rec_off) >? node_size)).
    + eapply IH; eassumption.
    + destruct (_parse_catalog_record env node rec_off (next_off - rec_off) entries)
        as [entries1|] eqn:Er; cbn [bind] in H; [| discriminate].
      eapply IH; [exact H |]. eapply catalog_record_shape; eassumption.
Qed.

Lemma leaf_chain_shape (env : Env) (cat_data : bytes) (node_size : Z) :
  forall (fuel : nat) (node_idx : Z) (entries entries' : dict),
    leaf_chain env fuel cat_data node_size node_idx entries = Some (Ok entries') ->
    Forall entry_ok entries -> Forall entry_ok entries'.
Proof.
  induction fuel as [|fuel IH]; intros node_idx entries entries' H Hok;
    cbn [leaf_chain] in H; [discriminate |].
  destruct (node_idx =? 0); [injection H as <-; exact Hok |].
  destruct (node_idx * node_size + node_size >? len cat_data);
    [injection H as <-; exact Hok |].
  set (node := slice cat_data (node_idx * node_size) (node_idx * node_size + node_size)) in *.
  destruct (_read_u32 node 0) as [f_link|]; [| discriminate].
  destruct (unpack_b node 8) as [kind|]; [| discriminate].
  destruct (_read_u16 node 10) as [num_records|]; [| discriminate].
  destruct (negb (kind =? -1)).
  - eapply IH; eassumption.
  - destruct (_parse_leaf_node env node node_size num_records entries)
      as [entries1|] eqn:El; [| discriminate].
    eapply IH; [exact H |]. eapply leaf_records_shape; eassumption.
Qed.

(** Every reader that [HfsPlusReader(image)] returns holds the block size
    of the volume header and a catalog in which each entry has 32-bit
    identifiers and owners and a 16-bit mode; a folder entry has neither
    size nor extents, a file entry has a 64-bit size and at most eight
    extents, each of at least one block. *)
Theorem parsed_catalog_shape (env : Env) (fuel : nat) (image : bytes) (h : t) :
  __init__ env fuel image = Some (Ok h) ->
  HfsPlusReader.image h = image
  /\ 0 <= block_size h < 4294967296
  /\ Forall entry_ok (entries h).
Proof.
  unfold __init__. intros H.
  destruct (_parse_volume_header image) as [vh|] eqn:Ev; [| discriminate].
  destruct (_read_catalog env fuel image vh) as [[es|]|] eqn:Ec; try discriminate.
  injection H as <-. cbn [HfsPlusReader.image block_size entries].
  split; [reflexivity |]. split.
  - unfold _parse_volume_header in Ev. cbv zeta in Ev.
    destruct (negb _); [discriminate |].
    destruct (_read_u32 image (1024 + 40)) as [bs|] eqn:Eb; cbn [bind] in Ev; [| discriminate].
    destruct (_read_u64 image (1024 + 272)); cbn [bind] in Ev; [| discriminate].
    destruct (read_cat_extents 8 image (1024 + 272 + 16) []); cbn [bind] in Ev;
      [| discriminate].
    injection Ev as <-. cbn [vh_block_size]. eapply read_u32_range, Eb.
  - unfold _read_catalog in Ec.
    destruct (_read_u16 (_read_catalog_data image vh) 32) as [node_size|]; [| discriminate].
    destruct (_read_u32 (_read_catalog_data image vh) 24) as [first_leaf|]; [| discriminate].
    eapply leaf_chain_shape; [exact Ec | constructor].
Qed.

Lemma parsed_catalog_shape_witness :
  exists h,
    __init__ HfsSamples.env 3 HfsSamples.image = Some (Ok h)
    /\ Forall entry_ok (entries h).
Proof.
  destruct (__init__ HfsSamples.env 3 HfsSamples.image) as [[h|e]|] eqn:R;
    [| vm_compute in R; discriminate R | vm_compute in R; discriminate R].
  exists h. split; [reflexivity |].
  exact (proj2 (proj2 (parsed_catalog_shape HfsSamples.env 3 HfsSamples.image h R))).
Defined.

End HfsParseFacts.

(** ** The specifications of the command line *)

Module RpmBuildFacts.
Import Py.
Import RpmBuild.

Lemma split_no_sep (c : ascii) (s : str) : ~ In c s -> split c s = [s].
Proof.
  induction s as [|x s IH]; intros H; cbn [split]; [reflexivity |].
  destruct (Ascii.eqb x c) eqn:E.
  - apply Ascii.eqb_eq in E. subst. exfalso. apply H. left. reflexivity.
  - rewrite IH; [reflexivity |]. intros Hin. apply H. right. exact Hin.
Qed.

Lemma split_app (c : ascii) (a b : str) :
  ~ In c a -> split c (a ++ c :: b) = a :: split c b.
Proof.
  induction a as [|x a IH]; intros H; cbn [split app].
  - rewrite Ascii.eqb_refl. reflexivity.
  - destruct (Ascii.eqb x c) eqn:E.
    + apply Ascii.eqb_eq in E. subst. exfalso. apply H. left. reflexivity.
    + rewrite IH; [reflexivity |]. intros Hin. apply H. right. exact Hin.
Qed.

Lemma split1_no_sep (c : ascii) (s : str) : ~ In c s -> split1 c s = [s].
Proof.
  induction s as [|x s IH]; intros H; cbn [split1]; [reflexivity |].
  destruct (Ascii.eqb x c) eqn:E.
  - apply Ascii.eqb_eq in E. subst. exfalso. apply H. left. reflexivity.
  - rewrite IH; [reflexivity |]. intros Hin. apply H. right. exact Hin.
Qed.

Lemma split1_app (c : ascii) (a b : str) :
  ~ In c a -> split1 c (a ++ c :: b) = [a; b].
Proof.
  induction a as [|x a IH]; intros H; cbn [split1 app].
  - rewrite Ascii.eqb_refl. reflexivity.
  - destruct (Ascii.eqb x c) eqn:E.
    + apply Ascii.eqb_eq in E. subst. exfalso. apply H. left. reflexivity.
    + rewrite IH; [reflexivity |]. intros Hin. apply H. right. exact Hin.
Qed.

(** Splitting at the colons undoes joining with colons. *)
Lemma split_join (parts : list str) :
  parts <> [] ->
  Forall (fun p => ~ In colon p) parts ->
  split colon (join [colon] parts) = parts.
Proof.
  intros Hne H. induction H as [|p parts Hp Hparts IH]; [contradiction |].
  destruct parts as [|q parts].
  - cbn [join]. apply split_no_sep, Hp.
  - change (join [colon] (p :: q :: parts)) with (p ++ colon :: join [colon] (q :: parts)).
    rewrite split_app by exact Hp. rewrite IH by discriminate. reflexivity.
Qed.

(** [parse_symlink_spec] cuts at the first colon only: the link path is
    what stands before it and the target all that follows, colons
    included; a specification without colon is refused. *)
Theorem parse_symlink_spec_cases (spec : str) :
  (forall link target,
     spec = link ++ colon :: target -> ~ In colon link ->
     parse_symlink_spec spec = Ok (link, target))
  /\ (~ In colon spec ->
      parse_symlink_spec spec
      = Raise (ValueError "Invalid symlink spec: need link:target")).
Proof.
  split.
  - intros link target -> H. unfold parse_symlink_spec.
    rewrite split1_app by exact H. reflexivity.
  - intros H. unfold parse_symlink_spec. rewrite split1_no_sep by exact H. reflexivity.
Qed.

(** [parse_file_spec] on the fields joined by colons.  One field is
    refused.  The mode is absent when there is no third field or when it
    is empty, else it is the third field read in base 8; user and group
    are ["root"] when there is no fourth and fifth field, and are the
    fields as they are otherwise, empty ones included; fields after the
    fifth are ignored. *)
Theorem parse_file_spec_fields (env : Env) (parts : list str) :
  parts <> [] ->
  Forall (fun p => ~ In colon p) parts ->
  parse_file_spec env (join [colon] parts)
  = match parts with
    | [] | [_] => Raise (ValueError "Invalid file spec: need target:source")
    | target :: source :: rest =>
        mode <- match rest with
                | [] | [] :: _ => Ok None
                | mode_str :: _ => m <- int_base8 env mode_str ;; Ok (Some m)
                end ;;
        Ok (target, source, mode,
            match rest with _ :: user :: _ => user | _ => lit "root" end,
            match rest with _ :: _ :: group :: _ => group | _ => lit "root" end)
    end.
Proof.
  intros Hne H. unfold parse_file_spec. rewrite split_join by assumption.
  destruct parts as [|target [|source rest]]; [contradiction | reflexivity |].
  destruct rest as [|mode_str [|user [|group rest]]].
  - reflexivity.
  - destruct mode_str; reflexivity.
  - destruct mode_str; reflexivity.
  - assert (Hlen : len (target :: source :: mode_str :: user :: group :: rest)
                   = 5 + len rest).
    { unfold len. cbn [length]. lia. }
    cbv zeta. rewrite Hlen. pose proof (Zle_0_nat (length rest)) as Hr.
    fold (len rest) in Hr.
    assert (G2 : (5 + len rest <? 2) = false) by (apply Z.ltb_ge; lia).
    assert (G3 : (5 + len rest >=? 3) = true) by (apply Z.geb_le; lia).
    assert (G4 : (5 + len rest >=? 4) = true) by (apply Z.geb_le; lia).
    assert (G5 : (5 + len rest >=? 5) = true) by (apply Z.geb_le; lia).
    rewrite G2, G3, G4, G5. unfold part. cbn [nth].
    destruct mode_str; reflexivity.
Qed.

Lemma parse_file_spec_fields_witness :
  parse_file_spec {| int_base8 := fun _ => Ok 420 |} (lit "/etc/app.conf:./app.conf:644::")
  = Ok (lit "/etc/app.conf", lit "./app.conf", Some 420, [], []).
Proof.
  refine (parse_file_spec_fields {| int_base8 := fun _ => Ok 420 |}
            [lit "/etc/app.conf"; lit "./app.conf"; lit "644"; []; []] _ _).
  - discriminate.
  - repeat constructor; vm_compute; intuition discriminate.
Defined.

(** [parse_dir_spec] on the fields joined by colons: the mode is 0o755
    when the second field is missing or empty, else that field read in
    base 8; user and group default to ["root"] when their fields are
    missing, and are taken as they are, empty included, otherwise. *)
Theorem parse_dir_spec_fields (env : Env) (parts : list str) :
  parts <> [] ->
  Forall (fun p => ~ In colon p) parts ->
  parse_dir_spec env (join [colon] parts)
  = match parts with
    | [] => Ok ([], 493, lit "root", lit "root")
    | path :: rest =>
        mode <- match rest with
                | [] | [] :: _ => Ok 493
                | mode_str :: _ => int_base8 env mode_str
                end ;;
        Ok (path, mode,
            match rest with _ :: user :: _ => user | _ => lit "root" end,
            match rest with _ :: _ :: group :: _ => group | _ => lit "root" end)
    end.
Proof.
  intros Hne H. unfold parse_dir_spec. rewrite split_join by assumption.
  destruct parts as [|path rest]; [contradiction |].
  destruct rest as [|mode_str [|user [|group rest]]].
  - reflexivity.
  - destruct mode_str; reflexivity.
  - destruct mode_str; reflexivity.
  - assert (Hlen : len (path :: mode_str :: user :: group :: rest) = 4 + len rest).
    { unfold len. cbn [length]. lia. }
    cbv zeta. rewrite Hlen. pose proof (Zle_0_nat (length rest)) as Hr.
    fold (len rest) in Hr.
    assert (G2 : (4 + len rest >=? 2) = true) by (apply Z.geb_le; lia).
    assert (G3 : (4 + len rest >=? 3) = true) by (apply Z.geb_le; lia).
    assert (G4 : (4 + len rest >=? 4) = true) by (apply Z.geb_le; lia).
    rewrite G2, G3, G4. unfold part. cbn [nth].
    destruct mode_str; reflexivity.
Qed.

Lemma parse_dir_spec_fields_witness :
  parse_dir_spec {| int_base8 := fun _ => Ok 448 |} (lit "/var/lib/app")
  = Ok (lit "/var/lib/app", 493, lit "root", lit "root").
Proof.
  refine (parse_dir_spec_fields {| int_base8 := fun _ => Ok 448 |}
            [lit "/var/lib/app"] _ _).
  - discriminate.
  - repeat constructor; vm_compute; intuition discriminate.
Defined.

End RpmBuildFacts.

(** ** The payload beside the header *)

Module PayloadFacts.
Import Py.
Import RpmHeaderBuilder.
Import RpmWriter.
Import RpmFacts.
Import NewcFormat.
Import CpioFacts.
Import RpmCalls.

(** What a call gives, read off its arguments.  The mode that is stored
    has the type bits of the kind of the call when the mode given has
    none. *)
Definition stored_mode (c : RpmCalls.call) : Z :=
  match c with
  | AddFile _ _ m _ _ _ _ => if Z.land m 61440 =? 0 then Z.lor m 32768 else m
  | AddDirectory _ m _ _ _ _ => if Z.land m 61440 =? 0 then Z.lor m 16384 else m
  | AddSymlink _ _ m _ _ _ _ => if Z.land m 61440 =? 0 then Z.lor m 40960 else m
  end.

(** The target of a link, and the empty string for the other calls. *)
Definition link_target (c : RpmCalls.call) : str :=
  match c with
  | AddSymlink _ target _ _ _ _ _ => target
  | _ => []
  end.

(** The data that the payload holds for a call: the content of a file,
    nothing for a directory, the target of a link. *)
Definition payload_data (c : RpmCalls.call) : bytes :=
  match c with
  | AddFile _ (CpioWriter.Bytes b) _ _ _ _ _ => b
  | AddFile _ (CpioWriter.Str s) _ _ _ _ _ => encode_utf8 s
  | AddDirectory _ _ _ _ _ _ => []
  | AddSymlink _ target _ _ _ _ _ => encode_utf8 target
  end.

Definition call_path (c : RpmCalls.call) : str :=
  match c with
  | AddFile p _ _ _ _ _ _ | AddDirectory p _ _ _ _ _ | AddSymlink p _ _ _ _ _ _ => p
  end.

Definition call_uid (c : RpmCalls.call) : Z :=
  match c with
  | AddFile _ _ _ u _ _ _ | AddDirectory _ _ u _ _ _ | AddSymlink _ _ _ u _ _ _ => u
  end.

Definition call_gid (c : RpmCalls.call) : Z :=
  match c with
  | AddFile _ _ _ _ g _ _ | AddDirectory _ _ _ g _ _ | AddSymlink _ _ _ _ g _ _ => g
  end.

(** The newc entry of a call that gets the inode [i]: the stored mode,
    the owner, two links for a directory and one otherwise, the time 0,
    the path without its leading slashes, the data. *)
Definition call_entry (i : Z) (c : RpmCalls.call) : bytes :=
  newc_entry i (stored_mode c) (call_uid c) (call_gid c)
    (match c with AddDirectory _ _ _ _ _ _ => 2 | _ => 1 end) 0
    (lstrip sep (call_path c)) (payload_data c).

(** The entries of the calls in order, inodes counted from [i], then the
    trailer. *)
Fixpoint payload_of (i : Z) (calls : list RpmCalls.call) : bytes :=
  match calls with
  | [] => trailer i
  | c :: calls' => call_entry i c ++ payload_of (i + 1) calls'
  end.

(** The numbers of a call fit the eight digits of a field. *)
Definition rpm_call_fits (c : RpmCalls.call) : Prop :=
  fits (stored_mode c) /\ fits (call_uid c) /\ fits (call_gid c)
  /\ fits (len (encode_utf8 (lstrip sep (call_path c))) + 1)
  /\ fits (len (payload_data c)).

(** The element of [self.files] that a call appends. *)
Definition file_of (c : RpmCalls.call) : file :=
  match c with
  | AddFile p ct m u g us gr =>
      {| path := p; content := CpioWriter.content_bytes ct; mode := stored_mode c;
         uid := u; gid := g; user := us; f_group := gr;
         is_dir := false; is_symlink := false; target := None |}
  | AddDirectory p m u g us gr =>
      {| path := p; content := []; mode := stored_mode c;
         uid := u; gid := g; user := us; f_group := gr;
         is_dir := true; is_symlink := false; target := None |}
  | AddSymlink p tg m u g us gr =>
      {| path := p; content := []; mode := stored_mode c;
         uid := u; gid := g; user := us; f_group := gr;
         is_dir := false; is_symlink := true; target := Some tg |}
  end.

Lemma do_call_files (w : t) (c : RpmCalls.call) :
  files (RpmCalls.do_call w c) = files w ++ [file_of c].
Proof. destruct c; reflexivity. Qed.

Lemma run_files (calls : list RpmCalls.call) :
  forall w, files (RpmCalls.run calls w) = files w ++ map file_of calls.
Proof.
  induction calls as [|c calls IH]; intros w.
  - cbn. rewrite app_nil_r. reflexivity.
  - unfold RpmCalls.run. cbn [fold_left]. fold (RpmCalls.run calls (RpmCalls.do_call w c)).
    rewrite IH, do_call_files, <- app_assoc. reflexivity.
Qed.

Lemma stored_mode_typed (c : RpmCalls.call) : Z.land (stored_mode c) 61440 <> 0.
Proof.
  assert (H : forall kind m, Z.land kind 61440 <> 0 ->
            Z.land (if Z.land m 61440 =? 0 then Z.lor m kind else m) 61440 <> 0).
  { intros kind m Hk. destruct (Z.land m 61440 =? 0) eqn:E.
    - apply Z.eqb_eq in E. rewrite Z.land_lor_distr_l, E, Z.lor_0_l. exact Hk.
    - apply Z.eqb_neq in E. exact E. }
  destruct c; cbn [stored_mode]; apply H; vm_compute; discriminate.
Qed.

Lemma typed_mode_stored (kind : Z) (c : RpmCalls.call) :
  typed_mode kind (stored_mode c) = stored_mode c.
Proof.
  unfold typed_mode. change CpioWriter.S_IFMT with 61440.
  pose proof (stored_mode_typed c) as H.
  destruct (Z.land (stored_mode c) 61440 =? 0) eqn:E; [| reflexivity].
  apply Z.eqb_eq in E. contradiction.
Qed.

Lemma entry_of_call (i : Z) (c : RpmCalls.call) :
  entry_of i (cpio_call (file_of c)) = call_entry i c.
Proof.
  unfold call_entry.
  destruct c as [p ct m u g us gr | p m u g us gr | p tg m u g us gr];
    unfold cpio_call;
    cbn [file_of is_symlink is_dir path mode uid gid content target_str target
         entry_of call_uid call_gid call_path];
    rewrite typed_mode_stored; [destruct ct |..]; reflexivity.
Qed.

Lemma entries_from_calls (calls : list RpmCalls.call) :
  forall i, entries_from i (map cpio_call (map file_of calls)) = payload_of i calls.
Proof.
  induction calls as [|c calls IH]; intros i; cbn [map entries_from payload_of].
  - reflexivity.
  - rewrite entry_of_call, IH. reflexivity.
Qed.

Lemma cpio_call_fits (c : RpmCalls.call) :
  rpm_call_fits c -> NewcFormat.call_fits (cpio_call (file_of c)).
Proof.
  unfold rpm_call_fits. intros (Hm & Hu & Hg & Hp & Hd).
  destruct c as [p ct m u g us gr | p m u g us gr | p tg m u g us gr];
    unfold cpio_call;
    cbn [file_of is_symlink is_dir path mode uid gid content target_str target
         NewcFormat.call_fits CpioWriter.content_bytes call_uid call_gid call_path
         payload_data] in *.
  - destruct ct; exact (conj Hm (conj Hu (conj Hg (conj fits_zero (conj Hp Hd))))).
  - exact (conj Hm (conj Hu (conj Hg (conj fits_zero Hp)))).
  - exact (conj Hm (conj Hu (conj Hg (conj fits_zero (conj Hp Hd))))).
Qed.

Lemma linktos_of_calls (calls : list RpmCalls.call) :
  map file_linkto (map file_of calls) = map link_target calls.
Proof.
  rewrite map_map. apply map_ext. intros c. destruct c; reflexivity.
Qed.

Lemma modes_of_calls (calls : list RpmCalls.call) :
  map mode (map file_of calls) = map stored_mode calls.
Proof.
  rewrite map_map. apply map_ext. intros c. destruct c; reflexivity.
Qed.

(** A new writer filled by calls of [add_file], [add_directory] and
    [add_symlink]: the payload holds the entry of each call, in the order
    of the calls, then the trailer.  The entry of the k-th call has the
    inode number k, which is what FILEINODES holds for it, and the mode
    stored by the call, which is what FILEMODES holds for it: the cpio
    writer adds no type bits of its own.  Its time is 0, whatever
    FILEMTIMES holds.  The data of a link is the target given to
    [add_symlink], which is also what FILELINKTOS holds for it. *)
Theorem payload_agrees_with_header (env : Env) (w0 : t) (calls : list RpmCalls.call) :
  files w0 = [] ->
  calls <> [] ->
  Forall rpm_call_fits calls ->
  len calls + 1 < 2 ^ 32 ->
  _build_cpio_payload (RpmCalls.run calls w0) = payload_of 1 calls
  /\ find_tag RPMTAG_FILEINODES (header_entries env (RpmCalls.run calls w0))
     = Some (Int32 (map (fun k => Z.of_nat k + 1) (seq 0 (length calls))))
  /\ find_tag RPMTAG_FILEMODES (header_entries env (RpmCalls.run calls w0))
     = Some (Int16 (map stored_mode calls))
  /\ find_tag RPMTAG_FILELINKTOS (header_entries env (RpmCalls.run calls w0))
     = Some (StringArray (map link_target calls)).
Proof.
  intros H0 Hne Hfit Hn.
  pose proof (run_files calls w0) as Hf. rewrite H0 in Hf. cbn [app] in Hf.
  remember (RpmCalls.run calls w0) as w eqn:Ew. clear Ew.
  split.
  - unfold _build_cpio_payload, CpioWriter.archive. rewrite Hf.
    destruct (run_spec (map cpio_call (map file_of calls)) (CpioWriter.__init__ []))
      as [Hs _].
    + rewrite !Forall_map. eapply Forall_impl; [| exact Hfit].
      intros c Hc. apply cpio_call_fits, Hc.
    + cbn. lia.
    + cbn [CpioWriter._inode CpioWriter.__init__]. unfold len in *.
      rewrite !length_map. lia.
    + rewrite Hs. cbn [CpioWriter.stream CpioWriter._inode CpioWriter.__init__ app].
      apply entries_from_calls.
  - destruct (loop_fields env (files w) no_arrays 0)
      as (_ & _ & H3 & _ & _ & _ & H7 & _ & _ & _ & _ & H12 & _).
    fold (file_arrays env w) in *. cbn [modes inodes linktos no_arrays app] in H3, H7, H12.
    rewrite Hf, modes_of_calls in H3. rewrite Hf, linktos_of_calls in H7.
    rewrite Hf, !length_map in H12.
    rewrite <- H3, <- H7, <- H12.
    unfold header_entries.
    remember (file_arrays env w) as A eqn:EA. clear EA H3 H7 H12.
    destruct (files w) as [|f fs].
    + destruct calls; [contradiction | discriminate Hf].
    + repeat split; reflexivity.
Qed.

Definition sample_writer : t :=
  RpmWriter.__init__ (lit "hello") (lit "1.0") (lit "1") (lit "noarch")
    (lit "linux") None None (lit "Unknown") (lit "Unspecified") (lit "none").

Definition sample_calls : list RpmCalls.call :=
  [AddDirectory (lit "/usr/bin") 493 0 0 (lit "root") (lit "root");
   AddFile (lit "/usr/bin/hello") (CpioWriter.Bytes [x23; x21]) 493 0 0
     (lit "root") (lit "root");
   AddSymlink (lit "/usr/bin/hi") (lit "hello") 511 0 0 (lit "root") (lit "root")].

Lemma payload_agrees_with_header_witness :
  _build_cpio_payload (RpmCalls.run sample_calls sample_writer)
  = payload_of 1 sample_calls
  /\ find_tag RPMTAG_FILEINODES
       (header_entries (Samples.rpm_env 0) (RpmCalls.run sample_calls sample_writer))
     = Some (Int32 [1; 2; 3])
  /\ find_tag RPMTAG_FILEMODES
       (header_entries (Samples.rpm_env 0) (RpmCalls.run sample_calls sample_writer))
     = Some (Int16 [16877; 33261; 41471])
  /\ find_tag RPMTAG_FILELINKTOS
       (header_entries (Samples.rpm_env 0) (RpmCalls.run sample_calls sample_writer))
     = Some (StringArray [[]; []; lit "hello"]).
Proof.
  refine (payload_agrees_with_header (Samples.rpm_env 0) sample_writer
            sample_calls _ _ _ _).
  - reflexivity.
  - discriminate.
  - repeat (apply Forall_cons || apply Forall_nil);
      unfold rpm_call_fits;
      cbn [stored_mode call_uid call_gid call_path payload_data];
      fits_by_computation.
  - reflexivity.
Defined.

End PayloadFacts.
